(* ===== verification/_CoqProject ===== *)
-Q . S2P
Prelude.v
Model.v
Btree.v
Text.v
Pricing.v
Schema.v
Retry.v
Runtime.v
Encode.v
Store.v
Query.v
QueryFacts.v
Cache.v
Repos.v
Queue.v
UnitOfWork.v
Services.v
ServicesFacts.v
Ports.v
Ranges.v
Plan.v
Pipeline.v
Enrichment.v
SchemaFacts.v
Abi.v
AbiFacts.v
Api.v
GraphqlSchema.v
Client.v
Config.v
ClientFacts.v
Ingest.v
IngestFacts.v
RpcChain.v
Worker.v
System.v
SystemSteps.v
SystemFacts.v
SystemLive.v
PoolLive.v
Reorg.v
Poison.v
SystemCalls.v
SystemLoop.v
Backfill.v
Commands.v
CommandsFacts.v
Deploy.v
DeployCalls.v
Progress.v
UnitTests.v
UnitTestsAbi.v
UnitTestsServices.v
