(* ===== verification/Prelude.v ===== *)
(** * topic0, verified: a model of the EVM event indexer and its correctness

    topic0 follows the logs of configured contracts on several chains and keeps them, decoded, in
    Postgres.  For each chain an ingest loop asks an RPC provider for the logs of a window of confirmed
    blocks, fetches the ranges of the window concurrently and commits each range (raw records, block
    metas, transaction and receipt rows, one item of the work queue) in one transaction, moving the
    chain's cursor over the contiguous prefix of committed ranges.  Decode workers lease items of the
    queue, decode the raw records of their range with the ABI index and write typed rows.  A reorg
    probe compares the stored tip with the chain and rolls back.  The read side turns GraphQL
    arguments into one SQL statement per page, behind a short-lived cache.  A migrator creates the
    typed tables from the ABIs.

    ** How code becomes definitions

    A function of the source is a definition with its name (a method carries the name of its
    repository where two share one, such as [raw_range] and [block_get]).  Rust's [Result] is [result],
    a panic is [Panic] of [outcome].  Code with effects is in the state monad [M] below, whose errors keep
    the state reached.  Unsigned 64-bit arithmetic wraps or saturates as written ([u64_add], [u64_ssub], ...;
    release builds wrap), and the casts between [u64] and Postgres' [bigint] are [as_i64] and [as_u64].
    Strings are byte strings.  The iteration order of a hash container is a parameter, and theorems hold
    for every permutation.  Log lines are left out, and so are metrics outside [Runtime].

    What the environment decides is an input: the fault of each SQL statement and of each COMMIT
    ([Store.Fault]: none, rejected, or done with the reply lost), the order in which concurrent fetches
    complete, cancellation, elapsed time, what a live stream delivers, the provider's answers.  Theorems
    quantify over all of it unless they say otherwise.

    ** Files

    - [Prelude]: results, the monad, machine integers, generic lemmas, the hint database [t0].
    - [Model]: the entities of [crates/shared/src/model], [crates/schema] and the data of the ports.
    - [Btree]: the ordered containers of the standard library.  [Text]: [crates/shared/src/util.rs].
    - [Pricing]: [crates/pricing].  [Retry]: [retry.rs], [limiter.rs], [error.rs] of [crates/source].
    - [Runtime]: the series of the metrics facade, the call guard ([metric.rs]), the counters of [retry.rs] and
      [limiter.rs], [crates/observability] and [shutdown.rs].
    - [Encode], [Store], [Repos], [Queue], [UnitOfWork]: [crates/db].  [Store] holds the tables ([Db]) and the
      meaning of statements and transactions; [Repos] and [Queue] the statement of each repository method;
      [UnitOfWork] the two write transactions.
    - [Services], [ServicesFacts]: [crates/services], over the ports [ChainSource] and [Decoder] and the operations of [crates/db].
    - [Ports]: the persistence ports of [crates/domain] as records of operations, the same services over any
      implementation of them, what a worker needs of a queue as a class, and the wiring with Postgres.
    - [Ranges], [Plan], [Pipeline]: [bins/indexer-cli/src/plan.rs].
    - [Schema], [SchemaFacts]: [crates/abi-schema], [crates/sql-pg], [crates/migrator].
    - [Enrichment], [Client], [ClientFacts]: [enrichment.rs], [client.rs], [batch.rs], [map.rs] of [crates/source].
    - [Abi], [AbiFacts]: [crates/abi] and [crates/source/src/decoder.rs].
    - [Query], [QueryFacts], [Cache]: [crates/db-query].  [Api]: the resolvers of [crates/api/src/graphql];
      [GraphqlSchema]: the types it registers, and [server.rs].
    - [Config]: [crates/config] and [crates/source/src/registry.rs].
    - [Ingest], [IngestFacts]: [tip.rs], [ingest.rs], [supervisor.rs] of [bins/indexer-cli].  The loop is proved
      against the class [SettlingChain], a chain whose last [confirmations] blocks may be replaced at any time;
      [RpcChain] shows that the RPC client over a node of such a chain is an instance.
    - [Worker]: [worker.rs] and the data paths of [commands.rs].
    - [System], [SystemSteps], [SystemFacts], [SystemLive], [PoolLive], [SystemLoop]: what [commands.rs] [run] leaves running.  [System] cuts
      the turn of a worker and the message of a writer at their round trips and interleaves the pieces of
      all chains, workers and the reclaim ticker ([sys_step]); [SystemSteps] shows the pieces to be [run_once]
      and [consume_one]; [SystemLoop] that the supervised ingest loop, polled or streamed, is a run of the system;
      [SystemLive] that one worker catches up from any state of it, and [PoolLive] that a pool of any size does
      under every fair schedule.  [Reorg] adds rollbacks to it, [Poison] records that do not decode, [SystemCalls] the
      decoded calls of transactions.  [Backfill] interleaves the main task of a backfill with its pool.
    - [Commands], [CommandsFacts]: [cli.rs], [main.rs], [wiring.rs], [commands.rs], [crates/config/src/lib.rs],
      [base_schema.rs] and the start of [bins/query]: every command from its arguments to its effect on
      the catalog and the data ([App]).
    - [Deploy], [DeployCalls], [Progress]: the composition: decoders built from a configuration and tables made by a
      migration are what the guarantees of [SystemFacts], [SystemCalls] and [PoolLive] ask for.
    - [UnitTests], [UnitTestsAbi], [UnitTestsServices]: the repository's own tests, replayed on the definitions.

    ** What the theorems show

    - End to end: [SystemFacts.run_decodes_or_queues] and [SystemFacts.run_tables_sound] hold of every reachable
      state of the interleaved system: up to its cursor every record of a chain is stored and decoded or
      queued, and no row is made up.  [Deploy.configured_run_loses_nothing] states this from the
      configuration file on, through [migrate] and [run]; [Deploy.decoded_rows_fit_migrated_tables] that decoded
      rows fit the migrated tables; [DeployCalls.configured_run_loses_no_call] says of the calls of
      transactions what is said of records, and [Backfill.backfill_done_means_decoded] that a backfill which reports completion without
      having been cut short has its range stored and decoded; [Progress.configured_pool_catches_up] that, once storage serves it and
      dead workers' leases have expired, a restarted pool decodes all that is stored up to the cursors,
      under every fair schedule of its round trips.
    - Reorgs: blocks deeper than [confirmations] are settled in [SettlingChain], so the guarantees hold of chains
      with forks up to that depth; [Reorg.reorgs_keep_guarantees] is for deeper forks, found while nothing of the
      orphaned blocks is in work; [Reorg.reorg_races_worker] shows why that is asked for.
    - Errors: [Poison.undecodable_item_stays]: an item with a record that does not decode is never dropped.
    - Commands: [CommandsFacts] shows that [run] starts exactly on a database in sync, that [migrate] makes it
      so, that a dry run prints what would be executed and that the query server serves what was
      migrated; [GraphqlSchema] that the schema it builds is well formed.
    - No gap: [Pipeline.pipeline_cursor_gap_free], [Pipeline.run_pipeline_cursor_safe] and
      [IngestFacts.polled_checkpoint_sound] (over attempts, turns, schedules and faults), and
      [IngestFacts.streamed_checkpoint_sound] for websockets whose stream is in time, say that the cursor
      never passes a block whose records are not stored; [Plan] has the tiling of a window and the prefix
      tracker, [ClientFacts] that a fetched range is complete and that fetching ends.
    - Writes: [UnitOfWork] shows commits and rollbacks to be atomic, idempotent under retry, equal to an
      abstract effect on the tables ([ingested], [rolled_back]), and successful without faults.
    - Work is not lost: [Queue] treats the queue as a state machine over statements (one item in flight
      per chain, lease fencing, an item leaves by an ack of its holder only); [ServicesFacts] that an ack
      follows a decode and that decoding converges under retries, [Ports] the former for every implementation
      of the ports; [Worker] that the queue drains.
    - Reads: [QueryFacts], [Cache] and [Api] show that following pages gives the whole answer once, and that a
      cached answer is a recent one.
    - Types: [AbiFacts] and [SchemaFacts] connect ABI, tables and decoded rows, and show migrations to only
      add, to converge after an interruption and to reach the desired schema; [Config] that a validated
      configuration can be run.
    - Limits found on the way are theorems too: [IngestFacts.ws_tip_skips_unconfirmed_at_subscribe],
      [IngestFacts.rollback_moves_cursor_forward], [QueryFacts.pages_lose_rows_across_chains],
      [Queue.push_during_lease_is_dropped], [Queue.overlapping_pulls_share_a_chain],
      [Worker.backfill_overwrites_cursor], [Backfill.backfill_cut_by_quota_reports_done],
      [Backfill.backfill_discards_other_chains], [Reorg.reorg_races_worker], [Poison.failed_item_blocks_chain], [AbiFacts.abi_index_limits], [SchemaFacts.preflight_and_name_limits],
      [Text.hex_decode_malformed_inputs], [GraphqlSchema.event_column_clashes_with_join].

    ** Fuel and bounds

    Recursion that is not structural has fuel computed from its arguments: the planning loop from the
    blocks of the window, the page-halving loop of [fetch_records] from the width of the range (each halving
    leaves two non-empty parts), chunking from the length of the list; the theorems on these functions
    show that the fuel suffices.  Endless loops (ingest, supervisor, workers, [drain_queue]) run over a finite list
    of inputs, one per turn, so that a statement over all lists is one over every prefix of every run.
    Block heights are assumed below 2^62 where the source adds to them.

    ** Parameters

    Code outside the repository is an argument: the JSON-RPC provider ([Client.Provider]), the ABI library
    (parsing, selectors, decoding), the JSON printer and parser, the eviction of the cache library, the
    reading of files and of TOML with the environment, opening the pool, the endpoints and the listener,
    the metrics exporter.

    ** Not modelled

    The parsing of the command line, of TOML and of GraphQL documents; the rendering of metrics; the token
    buckets of the rate limiter beyond what is asked of them; the newtypes of [crates/shared/src/model/chain.rs],
    which are the numbers and bytes they hold.
    [System] interleaves round trips; [Queue] interleaves statements of the queue; elsewhere a call runs to
    its end before the next one starts.  The guarantees of [SystemFacts] are stated for the records of settled
    blocks; a websocket stream is assumed to be in time, and [IngestFacts] has the run in which one is not. *)
From Stdlib Require Export Ascii.
From stdpp Require Export base gmap strings sorting numbers option list.

#[export] Set Default Goal Selector "!".

(** * Results, panics and the state monad *)

(** [Result<A, E>] of Rust. *)
Inductive result (E A : Type) : Type :=
| Ok (a : A)
| Err (e : E).
Arguments Ok {E A} a.
Arguments Err {E A} e.

(** A call that either returns or panics (slice on a non-boundary, ...). *)
Inductive outcome (A : Type) : Type :=
| Done (a : A)
| Panic.
Arguments Done {A} a.
Arguments Panic {A}.

Declare Scope t0_scope.
Delimit Scope t0_scope with t0.
Open Scope t0_scope.

Definition res_bind {E A B} (m : result E A) (k : A -> result E B) : result E B :=
  match m with Ok a => k a | Err e => Err e end.

Definition res_map_err {E F A} (f : E -> F) (m : result E A) : result F A :=
  match m with Ok a => Ok a | Err e => Err (f e) end.

Definition ok_or {E A} (o : option A) (e : E) : result E A :=
  match o with Some a => Ok a | None => Err e end.

Notation "'let?' x ':=' m 'in' k" := (res_bind m (fun x => k))
  (at level 10, x pattern, m at level 100, k at level 200) : t0_scope.

(** Effectful code: a state is threaded through every call, and an error keeps
    the state reached so far (a failed call may have had effects). *)
Definition M (S E A : Type) : Type := S -> result E A * S.

Definition mret_ {S E A} (a : A) : M S E A := fun s => (Ok a, s).
Definition mfail {S E A} (e : E) : M S E A := fun s => (Err e, s).
Definition mbind_ {S E A B} (m : M S E A) (k : A -> M S E B) : M S E B :=
  fun s => match m s with
           | (Ok a, s') => k a s'
           | (Err e, s') => (Err e, s')
           end.
Definition mlift {S E A} (r : result E A) : M S E A := fun s => (r, s).
Definition mmap_err {S E F A} (f : E -> F) (m : M S E A) : M S F A :=
  fun s => let '(r, s') := m s in (res_map_err f r, s').

Notation "'do' x '<-' m ';' k" := (mbind_ m (fun x => k))
  (at level 10, x pattern, m at level 100, k at level 200) : t0_scope.

(** [for x in l { body }] with an early return on error. *)
Fixpoint mfor {S E A} (l : list A) (body : A -> M S E ()) : M S E () :=
  match l with
  | [] => mret_ ()
  | x :: l => do _ <- body x; mfor l body
  end.

(** Same, with an accumulator ([n += body(x)?]). *)
Fixpoint mfold {S E A B} (body : B -> A -> M S E B) (acc : B) (l : list A) : M S E B :=
  match l with
  | [] => mret_ acc
  | x :: l => do acc' <- body acc x; mfold body acc' l
  end.

(** [iter().map(f).collect::<Result<Vec<_>, _>>()]. *)
Fixpoint res_map {E A B} (f : A -> result E B) (l : list A) : result E (list B) :=
  match l with
  | [] => Ok []
  | x :: l => let? y := f x in let? ys := res_map f l in Ok (y :: ys)
  end.

(** * Machine integers *)

(** An unsigned or signed machine integer is a [Z] together with the operations
    that keep it at its width.  The shipped binaries are built with
    [cargo build --release], where [+], [-] and [*] wrap around. *)
Open Scope Z_scope.

Definition U64 : Z := 2 ^ 64.
Definition U32 : Z := 2 ^ 32.
Definition I63 : Z := 2 ^ 63.

Definition is_u64 (z : Z) : Prop := 0 <= z < U64.
Definition is_u32 (z : Z) : Prop := 0 <= z < U32.
(** A [u64] that survives a round trip through a signed [bigint] column with its
    order preserved. *)
Definition is_i63 (z : Z) : Prop := 0 <= z < I63.

Definition wrap64 (z : Z) : Z := z mod U64.
Definition u64_add (a b : Z) : Z := wrap64 (a + b).
Definition u64_sub (a b : Z) : Z := wrap64 (a - b).
Definition u64_mul (a b : Z) : Z := wrap64 (a * b).
(** [saturating_sub] and [saturating_mul]. *)
Definition u64_ssub (a b : Z) : Z := Z.max 0 (a - b).
Definition u64_smul (a b : Z) : Z := Z.min (U64 - 1) (a * b).

(** [x as i64] on a [u64], and [x as u64] on an [i64]. *)
Definition as_i64 (z : Z) : Z := if z <? I63 then z else z - U64.
Definition as_u64 (z : Z) : Z := z mod U64.

Ltac unfold_int :=
  unfold is_u64, is_u32, is_i63, u64_add, u64_sub, u64_mul, u64_ssub, u64_smul,
    as_i64, as_u64, wrap64, U64, U32, I63 in *.

Lemma wrap64_small z : is_u64 z -> wrap64 z = z.
Proof. intros H. apply Z.mod_small, H. Qed.

Lemma wrap64_is_u64 z : is_u64 (wrap64 z).
Proof. unfold_int. apply Z.mod_pos_bound. lia. Qed.

Lemma u64_add_small a b : 0 <= a -> 0 <= b -> a + b < U64 -> u64_add a b = a + b.
Proof. intros. apply wrap64_small. unfold is_u64. lia. Qed.

Lemma u64_sub_small a b : 0 <= b <= a -> a < U64 -> u64_sub a b = a - b.
Proof. intros. apply wrap64_small. unfold is_u64. lia. Qed.

Lemma u64_mul_small a b : 0 <= a -> 0 <= b -> a * b < U64 -> u64_mul a b = a * b.
Proof. intros. apply wrap64_small. unfold is_u64. nia. Qed.

Lemma as_i64_small z : z < I63 -> as_i64 z = z.
Proof. intros H. unfold as_i64. destruct (Z.ltb_spec z I63); lia. Qed.

(** The two casts are inverse on every [u64]: a bind and a [get] give the value back. *)
Lemma as_u64_as_i64 z : is_u64 z -> as_u64 (as_i64 z) = z.
Proof.
  intros H. unfold_int. destruct (Z.ltb_spec z (2 ^ 63)).
  - apply Z.mod_small. lia.
  - rewrite <- (Z.mod_add _ 1) by lia. rewrite Z.mod_small; lia.
Qed.

Lemma is_i63_u64 z : is_i63 z -> is_u64 z.
Proof. unfold_int. lia. Qed.

Lemma as_u64_small z : is_u64 z -> as_u64 z = z.
Proof. intros H. apply Z.mod_small, H. Qed.

Lemma as_i64_inj a b : is_u64 a -> is_u64 b -> as_i64 a = as_i64 b -> a = b.
Proof.
  intros Ha Hb E. rewrite <- (as_u64_as_i64 a), <- (as_u64_as_i64 b); congruence.
Qed.

Create HintDb t0.
Create Rewrite HintDb t0.
#[export] Hint Resolve wrap64_is_u64 is_i63_u64 : t0.
#[export] Hint Rewrite as_u64_as_i64 using (auto with t0) : t0.

(** * Tactics *)

(** Case on the boolean comparison of [Z] that guards an [if] or a [match]. *)
Ltac zcase :=
  match goal with
  | |- context [Z.leb ?a ?b] => destruct (Z.leb_spec a b)
  | |- context [Z.ltb ?a ?b] => destruct (Z.ltb_spec a b)
  | |- context [Z.eqb ?a ?b] => destruct (Z.eqb_spec a b)
  | H : context [Z.leb ?a ?b] |- _ => destruct (Z.leb_spec a b)
  | H : context [Z.ltb ?a ?b] |- _ => destruct (Z.ltb_spec a b)
  | H : context [Z.eqb ?a ?b] |- _ => destruct (Z.eqb_spec a b)
  end.

(** Case on the discriminee of a [match] of the goal, keeping the equation. *)
Ltac mcase E :=
  match goal with
  | |- context [match ?x with _ => _ end] => destruct x eqn:E
  end.

(** * Running effectful code *)

Lemma mbind_Ok {S E A B} (m : M S E A) (k : A -> M S E B) s b s' :
  mbind_ m k s = (Ok b, s') <-> exists a s1, m s = (Ok a, s1) /\ k a s1 = (Ok b, s').
Proof.
  unfold mbind_. destruct (m s) as [[a|e] s1]; split.
  - intros H. exists a, s1. auto.
  - by intros (? & ? & [= <- <-] & ?).
  - intros [=].
  - by intros (? & ? & [=] & _).
Qed.

Lemma mbind_Err {S E A B} (m : M S E A) (k : A -> M S E B) s e s' :
  mbind_ m k s = (Err e, s') <->
  m s = (Err e, s') \/ exists a s1, m s = (Ok a, s1) /\ k a s1 = (Err e, s').
Proof.
  unfold mbind_. destruct (m s) as [[a|e'] s1]; split.
  - intros H. right. exists a, s1. auto.
  - intros [[=]|(? & ? & [= <- <-] & ?)]; done.
  - intros [= <- <-]. by left.
  - intros [[= <- <-]|(? & ? & [=] & _)]; done.
Qed.

Lemma mmap_err_Ok {S E F A} (f : E -> F) (m : M S E A) s a s' :
  mmap_err f m s = (Ok a, s') <-> m s = (Ok a, s').
Proof. unfold mmap_err. destruct (m s) as [[|] ?]; cbn; split; congruence. Qed.

Lemma mmap_err_Err {S E F A} (f : E -> F) (m : M S E A) s e s' :
  mmap_err f m s = (Err e, s') <-> exists e', e = f e' /\ m s = (Err e', s').
Proof.
  unfold mmap_err. destruct (m s) as [[|e'] ?]; cbn; split.
  - done.
  - by intros (? & _ & [=]).
  - intros [= <- <-]. exists e'. auto.
  - by intros (? & -> & [= <- <-]).
Qed.

Lemma mret_Ok {S E A} (a b : A) (s s' : S) : mret_ (E:=E) a s = (Ok b, s') <-> b = a /\ s' = s.
Proof. unfold mret_. split; [by intros [= <- <-]|by intros [-> ->]]. Qed.

(** A call that never lowers a level of the state, whatever its outcome. *)
Definition grows {S E A} (lvl : S -> Z) (m : M S E A) : Prop := forall s r s', m s = (r, s') -> lvl s <= lvl s'.

Lemma grows_ret {S E A} (lvl : S -> Z) (a : A) : grows lvl (mret_ (E:=E) a).
Proof. intros s r s' [= _ <-]. lia. Qed.

Lemma grows_fail {S E A} (lvl : S -> Z) (e : E) : grows lvl (mfail (A:=A) e).
Proof. intros s r s' [= _ <-]. lia. Qed.

Lemma grows_lift {S E A} (lvl : S -> Z) (x : result E A) : grows lvl (mlift x).
Proof. intros s r s' [= _ <-]. lia. Qed.

Lemma grows_bind {S E A B} (lvl : S -> Z) (m : M S E A) (k : A -> M S E B) :
  grows lvl m -> (forall a, grows lvl (k a)) -> grows lvl (mbind_ m k).
Proof.
  intros Hm Hk s r s'. unfold mbind_. destruct (m s) as [[a|e] s1] eqn:E1; apply Hm in E1.
  - intros H%Hk. lia.
  - by intros [= _ <-].
Qed.

Lemma grows_map_err {S E F A} (lvl : S -> Z) (f : E -> F) (m : M S E A) : grows lvl m -> grows lvl (mmap_err f m).
Proof. intros Hm s r s'. unfold mmap_err. destruct (m s) as [x s1] eqn:E1. intros [= _ <-]. by eapply Hm. Qed.

Lemma grows_mfold {S E A B} (lvl : S -> Z) (body : B -> A -> M S E B) acc l :
  (forall acc x, grows lvl (body acc x)) -> grows lvl (mfold body acc l).
Proof. intros Hb. revert acc. induction l as [|x l IH]; intros acc; [apply grows_ret|]. by apply grows_bind. Qed.

#[export] Hint Resolve grows_ret grows_fail grows_lift grows_bind grows_map_err grows_mfold : t0.

(** Invert a run that returned [Ok]: one equation per bound call. *)
Ltac run_ok :=
  repeat match goal with
  | H : mbind_ _ _ _ = (Ok _, _) |- _ =>
      apply mbind_Ok in H; destruct H as (? & ? & ? & H)
  | H : mmap_err _ _ _ = (Ok _, _) |- _ => apply mmap_err_Ok in H
  | H : mret_ _ _ = (Ok _, _) |- _ => apply mret_Ok in H; destruct H as [? ?]
  | H : mfail _ _ = (Ok _, _) |- _ => discriminate H
  end; subst.

(** What every step of a fold keeps, the whole fold keeps. *)
Lemma mfold_inv {S E A B} (P : S -> Prop) (body : B -> A -> M S E B) l acc s r s' :
  (forall acc x s r s', x ∈ l -> P s -> body acc x s = (r, s') -> P s') ->
  P s -> mfold body acc l s = (r, s') -> P s'.
Proof.
  revert acc s. induction l as [|x l IH]; cbn; intros acc s Hb Hs.
  { by intros [= <- <-]. }
  unfold mbind_. destruct (body acc x s) as [[a|e] s1] eqn:E0.
  - apply IH; [|eapply Hb; [left|done|done]]. intros; eapply Hb; [by right|done|done].
  - intros [= <- <-]. eapply Hb; [left|done|done].
Qed.

(** * Lists *)

Lemma filter_none {A} (P : A -> Prop) {HP : forall x, Decision (P x)} (l : list A) :
  (forall x, x ∈ l -> ~ P x) -> filter P l = [].
Proof.
  induction l as [|x l IH]; [done|]. intros H. rewrite filter_cons, decide_False.
  - apply IH. intros y Hy. apply H. by right.
  - apply H. left.
Qed.

Lemma filter_every {A} (P : A -> Prop) {HP : forall x, Decision (P x)} (l : list A) :
  (forall x, x ∈ l -> P x) -> filter P l = l.
Proof.
  induction l as [|x l IH]; [done|]. intros H. rewrite filter_cons, decide_True.
  - f_equal. apply IH. intros y Hy. apply H. by right.
  - apply H. left.
Qed.

Lemma NoDup_fmap_same {A B} (f : A -> B) (l : list A) a b :
  NoDup (f <$> l) -> a ∈ l -> b ∈ l -> f a = f b -> a = b.
Proof.
  intros Hnd (i & Hi)%list_elem_of_lookup (j & Hj)%list_elem_of_lookup E.
  assert (i = j) as ->; [|congruence].
  eapply NoDup_lookup; [exact Hnd| |]; rewrite list_lookup_fmap; [by rewrite Hi|].
  rewrite Hj. cbn. by rewrite E.
Qed.

(** * Bytes and strings *)

(** [u8] and [Vec<u8>]: an [ascii] is exactly eight bits.  A Rust [String] is its
    UTF-8 bytes, a Rocq [string]. *)
Abbreviation byte := Ascii.ascii.
Abbreviation bytes := (list Ascii.ascii).

Definition byte_val (b : byte) : Z := Z.of_N (N_of_ascii b).
Definition byte_of (z : Z) : byte := ascii_of_N (Z.to_N (z mod 256)).

Lemma byte_val_range b : 0 <= byte_val b < 256.
Proof. unfold byte_val. pose proof (N_ascii_bounded b). lia. Qed.

Lemma byte_of_val b : byte_of (byte_val b) = b.
Proof.
  unfold byte_of. rewrite Z.mod_small by apply byte_val_range.
  unfold byte_val. rewrite N2Z.id. apply ascii_N_embedding.
Qed.

Lemma byte_val_of z : 0 <= z < 256 -> byte_val (byte_of z) = z.
Proof.
  intros H. unfold byte_of, byte_val. rewrite Z.mod_small by lia.
  rewrite N_ascii_embedding by lia. lia.
Qed.

Lemma byte_val_inj a b : byte_val a = byte_val b -> a = b.
Proof. intros E. rewrite <- (byte_of_val a), <- (byte_of_val b). congruence. Qed.

Abbreviation to_list := Stdlib.Strings.String.list_ascii_of_string.
Abbreviation of_list := Stdlib.Strings.String.string_of_list_ascii.

Lemma to_list_app s t : to_list (s +:+ t) = to_list s ++ to_list t.
Proof.
  induction s as [|c s IH]; [done|].
  change (c :: to_list (s +:+ t) = c :: (to_list s ++ to_list t)). by rewrite IH.
Qed.

Lemma of_list_app l k : of_list (l ++ k) = of_list l +:+ of_list k.
Proof.
  induction l as [|c l IH]; [done|].
  change (String c (of_list (l ++ k)) = String c (of_list l +:+ of_list k)).
  by rewrite IH.
Qed.

Lemma length_to_list s : length (to_list s) = String.length s.
Proof. induction s as [|c s IH]; [done|]. cbn. by rewrite IH. Qed.

(** [str::contains]. *)
Fixpoint prefix_of (p s : bytes) : bool :=
  match p, s with
  | [], _ => true
  | a :: p, b :: s => Ascii.eqb a b && prefix_of p s
  | _ :: _, [] => false
  end.

Fixpoint contains_l (s p : bytes) : bool :=
  prefix_of p s || match s with [] => false | _ :: s => contains_l s p end.

Definition contains (s p : string) : bool := contains_l (to_list s) (to_list p).
Definition starts_with (s p : string) : bool := prefix_of (to_list p) (to_list s).

Lemma prefix_of_spec p s : prefix_of p s = true <-> exists t, s = p ++ t.
Proof.
  revert s. induction p as [|a p IH]; intros s; cbn; [by split; eauto|].
  destruct s as [|b s]; cbn; [split; [done|intros [? [=]]]|].
  rewrite andb_true_iff, Ascii.eqb_eq, IH. split.
  - intros [-> [t ->]]. eauto.
  - intros [t [= -> ->]]. eauto.
Qed.

Lemma contains_l_spec s p :
  contains_l s p = true <-> exists a b, s = a ++ p ++ b.
Proof.
  induction s as [|c s IH].
  - cbn. rewrite orb_false_r, prefix_of_spec. split.
    + intros [t E]. by exists [], t.
    + intros (a & b & E). symmetry in E. apply app_eq_nil in E as [-> E]. eauto.
  - cbn [contains_l]. rewrite orb_true_iff, prefix_of_spec, IH. split.
    + intros [[t ->]|(a & b & ->)]; [by exists [], t|by exists (c :: a), b].
    + intros ([|c' a] & b & E); [left; eauto|]. injection E as -> ->. eauto.
Qed.
