(* ===== verification/Model.v ===== *)
(** The shared entities: chain-neutral value objects, errors, work items, query
    specs and plan limits ([crates/shared/src/model], [crates/shared/src/error.rs],
    the schema IR of [crates/schema]) and the port data of [crates/domain]. *)
From S2P Require Import Prelude.

(** [ChainId], [Height], [RecordIndex] and [Epoch] are [u64] newtypes and [Hash] and
    [AddressBytes] are [Vec<u8>] newtypes: a [Z] and a byte list here. *)

Inductive DomainError : Type :=
| ESource (msg : string)
| EStorage (msg : string)
| EDecode (msg : string)
| ESchema (msg : string)
| EConfig (msg : string)
| ENotFound (msg : string)
| EInvalid (msg : string).

(** Markers of the model: a panic ends the chain's task, which its supervisor restarts as it does
    after an error; a loop that does not end in the rounds it is given is shown not to occur. *)
Definition panicked : DomainError := EInvalid "panic".
Definition out_of_fuel : DomainError := EInvalid "out of fuel".

Record BlockMeta := mkBlockMeta {
  bm_chain_id : Z;
  bm_height : Z;
  bm_hash : bytes;
  bm_parent_hash : bytes;
  bm_time : Z
}.

Record TxCalldata := mkTxCalldata {
  tc_chain_id : Z;
  tc_height : Z;
  tc_block_hash : bytes;
  tc_tx_id : bytes;
  tc_to_addr : bytes;
  tc_tx_index : Z;
  tc_input : bytes
}.

Record ChainCaps := mkChainCaps {
  supports_reorg : bool;
  supports_subscribe : bool
}.

Definition ChainCaps_default : ChainCaps := mkChainCaps true false.

Record RawRecord := mkRawRecord {
  rr_chain_id : Z;
  rr_height : Z;
  rr_block_hash : bytes;
  rr_index : Z;
  rr_address : bytes;
  rr_selectors : list bytes;
  rr_data : bytes;
  rr_tx_id : bytes;
  rr_tx_index : Z;
  rr_inner_index : option Z
}.

Record TipLog := mkTipLog { tl_record : RawRecord; tl_removed : bool }.

Record RecordFilter := mkRecordFilter {
  rf_addresses : list bytes;
  rf_selectors : list bytes
}.

Inductive EventValue : Type :=
| VAddress (b : bytes)
| VUint (s : string)
| VInt (s : string)
| VBool (b : bool)
| VBytes (b : bytes)
| VString (s : string)
| VHash (b : bytes)
| VJson (s : string).

Record DecodedEvent := mkDecodedEvent {
  de_table : string;
  de_fields : list (string * EventValue)
}.

Record EventRow := mkEventRow {
  er_chain_id : Z;
  er_height : Z;
  er_block_hash : bytes;
  er_block_time : option Z;
  er_tx_id : bytes;
  er_index : Z;
  er_event : DecodedEvent
}.

Inductive WorkKind : Type := Backfill | Tip | Reorg.

Record WorkItem := mkWorkItem {
  wi_chain_id : Z;
  wi_from : Z;
  wi_to : Z;
  wi_kind : WorkKind;
  wi_epoch : Z
}.

Record Lease := mkLease {
  l_id : Z;
  l_lease_seq : Z;
  l_item : WorkItem
}.

(** * Read-side query spec *)

Inductive SortDir : Type := Asc | Desc.
Inductive FilterOp : Type := OpEq | OpNe | OpGt | OpGte | OpLt | OpLte.

Record Filter := mkFilter { f_column : string; f_op : FilterOp; f_value : string }.
Record Sort := mkSort { s_column : string; s_dir : SortDir }.

Record QuerySpec := mkQuerySpec {
  q_table : string;
  q_filters : list Filter;
  q_sort : list Sort;
  q_first : Z;
  q_after : option string;
  q_include_tx : bool;
  q_include_receipt : bool;
  q_descending : bool
}.

Record Page (T : Type) := mkPage {
  p_items : list T;
  p_end_cursor : option string;
  p_has_next : bool
}.
Arguments mkPage {T}.
Arguments p_items {T}.
Arguments p_end_cursor {T}.
Arguments p_has_next {T}.

(** * Spend *)

Inductive RpcCall : Type :=
| GetLogs (blocks results : Z)
| BlockNumber
| BlockByNumber (count : Z) (full : bool)
| TxByHash (count : Z)
| Receipt (count : Z)
| LogSubscription
| Other.

Record PlanProfile := mkPlanProfile {
  max_rps : Z;
  max_cu_per_sec : option Z;
  max_batch : Z;
  max_getlogs_blocks : Z;
  max_getlogs_results : Z;
  monthly_quota : option Z
}.

Definition PlanProfile_default : PlanProfile :=
  mkPlanProfile 25 None 100 2000 10000 None.

(** * Schema IR ([crates/schema/src/lib.rs]) *)

Inductive ColumnType : Type :=
| CAddress
| CUInt (bits : Z)
| CInt (bits : Z)
| CBool
| CBytes
| CUtf8
| CJson
| CInt64
| CTimestamp.

Record ColumnDef := mkColumnDef {
  c_name : string;
  c_ty : ColumnType;
  c_indexed_hash : bool
}.

Record EventSchema := mkEventSchema {
  es_table : string;
  es_event : string;
  es_topic0 : option string;
  es_columns : list ColumnDef;
  es_indexed_positions : list nat;
  es_pk_columns : list string
}.

Definition event_pk : list string := ["chain_id"; "height"; "idx"].

(** * Port data ([crates/domain/src/ports]) *)

Record AuxData := mkAuxData {
  block_metas : list BlockMeta;
  enrichment : list EventRow
}.

Definition AuxData_default : AuxData := mkAuxData [] [].

Record IngestBatch := mkIngestBatch {
  ib_raw_records : list RawRecord;
  ib_block_metas : list BlockMeta;
  ib_enrichment : list EventRow;
  ib_enqueue : option WorkItem;
  ib_advance_cursor : option (Z * Z * bytes)
}.

(** * Decidable equality *)

#[export] Instance DomainError_eq : EqDecision DomainError.
Proof. solve_decision. Defined.
#[export] Instance BlockMeta_eq : EqDecision BlockMeta.
Proof. solve_decision. Defined.
#[export] Instance RawRecord_eq : EqDecision RawRecord.
Proof. solve_decision. Defined.
#[export] Instance EventValue_eq : EqDecision EventValue.
Proof. solve_decision. Defined.
#[export] Instance DecodedEvent_eq : EqDecision DecodedEvent.
Proof. solve_decision. Defined.
#[export] Instance EventRow_eq : EqDecision EventRow.
Proof. solve_decision. Defined.
#[export] Instance WorkKind_eq : EqDecision WorkKind.
Proof. solve_decision. Defined.
#[export] Instance WorkItem_eq : EqDecision WorkItem.
Proof. solve_decision. Defined.
#[export] Instance FilterOp_eq : EqDecision FilterOp.
Proof. solve_decision. Defined.
#[export] Instance ColumnType_eq : EqDecision ColumnType.
Proof. solve_decision. Defined.
#[export] Instance ColumnDef_eq : EqDecision ColumnDef.
Proof. solve_decision. Defined.

(** Values of a record or of a work item at their machine width, small enough for
    a signed [bigint] column. *)
Definition wf_raw (r : RawRecord) : Prop :=
  is_u64 (rr_chain_id r) /\ is_i63 (rr_height r) /\ is_i63 (rr_index r)
  /\ is_u64 (rr_tx_index r) /\ Forall is_u64 (option_list (rr_inner_index r))
  /\ Forall (fun s => (length s < 256)%nat) (rr_selectors r).

Definition wf_item (i : WorkItem) : Prop :=
  is_u64 (wi_chain_id i) /\ is_i63 (wi_from i) /\ is_i63 (wi_to i) /\ is_u64 (wi_epoch i).
