(* ===== verification/Btree.v ===== *)
(** Ordered containers of the standard library the program uses: the byte-wise order of [str]
    and [Vec<&str>], [BTreeMap<K, Vec<V>>] filled by [entry(k).or_default().push(v)], and
    [BTreeSet] collected from an iterator. *)
From S2P Require Import Prelude.

(** * Orders *)

Class CmpLaws {A} (cmp : A -> A -> comparison) : Prop := {
  cmp_eq : forall a b, cmp a b = Eq <-> a = b;
  cmp_antisym : forall a b, cmp b a = CompOpp (cmp a b);
  cmp_trans : forall a b c, cmp a b = Lt -> cmp b c = Lt -> cmp a c = Lt
}.

Fixpoint lex_cmp {A} (cmp : A -> A -> comparison) (l k : list A) : comparison :=
  match l, k with
  | [], [] => Eq
  | [], _ :: _ => Lt
  | _ :: _, [] => Gt
  | a :: l, b :: k => match cmp a b with Eq => lex_cmp cmp l k | c => c end
  end.

(** [Ord for u8], [Ord for Vec<u8>], [Ord for str] and [Ord for Vec<&str>]. *)
Definition byte_cmp (a b : byte) : comparison := Z.compare (byte_val a) (byte_val b).
Definition bytes_cmp : bytes -> bytes -> comparison := lex_cmp byte_cmp.
Definition str_cmp (a b : string) : comparison := bytes_cmp (to_list a) (to_list b).
Definition strs_cmp : list string -> list string -> comparison := lex_cmp str_cmp.

#[export] Instance Z_cmp_laws : CmpLaws Z.compare.
Proof.
  split.
  - apply Z.compare_eq_iff.
  - intros. apply Z.compare_antisym.
  - intros a b c. rewrite !Z.compare_lt_iff. lia.
Qed.

(** An order pulled back along an injection. *)
Lemma cmp_on_laws {A B} (cmp : B -> B -> comparison) (f : A -> B) :
  CmpLaws cmp -> (forall a b, f a = f b -> a = b) -> CmpLaws (fun a b => cmp (f a) (f b)).
Proof.
  intros Hc Hinj. split.
  - intros a b. rewrite cmp_eq. split; [apply Hinj|by intros ->].
  - intros a b. apply cmp_antisym.
  - intros a b c. apply cmp_trans.
Qed.

#[export] Instance lex_cmp_laws {A} (cmp : A -> A -> comparison) :
  CmpLaws cmp -> CmpLaws (lex_cmp cmp).
Proof.
  intros Hc. split.
  - induction a as [|x a IH]; intros [|y b]; cbn; try done.
    destruct (cmp x y) eqn:E; split; try done.
    + intros H. apply cmp_eq in E as ->. apply IH in H as ->. done.
    + intros [= _ ->]. by apply IH.
    + intros [= -> _]. rewrite (proj2 (cmp_eq y y) eq_refl) in E. done.
    + intros [= -> _]. rewrite (proj2 (cmp_eq y y) eq_refl) in E. done.
  - induction a as [|x a IH]; intros [|y b]; cbn; try done.
    rewrite (cmp_antisym x y). destruct (cmp x y); cbn; auto.
  - induction a as [|x a IH]; intros [|y b] [|z c]; cbn; try done.
    destruct (cmp x y) eqn:E1; [apply cmp_eq in E1 as ->| |done].
    + destruct (cmp y z); eauto; done.
    + destruct (cmp y z) eqn:E2; [apply cmp_eq in E2 as ->; by rewrite E1| |done].
      by rewrite (cmp_trans _ _ _ E1 E2).
Qed.

#[export] Instance byte_cmp_laws : CmpLaws byte_cmp.
Proof. apply (cmp_on_laws Z.compare byte_val _ byte_val_inj). Qed.

#[export] Instance bytes_cmp_laws : CmpLaws bytes_cmp.
Proof. apply _. Qed.

Lemma to_list_inj a b : to_list a = to_list b -> a = b.
Proof.
  intros E. rewrite <- (Stdlib.Strings.String.string_of_list_ascii_of_string a),
    <- (Stdlib.Strings.String.string_of_list_ascii_of_string b). by rewrite E.
Qed.

#[export] Instance str_cmp_laws : CmpLaws str_cmp.
Proof. apply (cmp_on_laws bytes_cmp _ _ to_list_inj). Qed.

#[export] Instance strs_cmp_laws : CmpLaws strs_cmp.
Proof. apply _. Qed.

(** * [BTreeMap<K, Vec<V>>] and [BTreeSet<K>] *)

Fixpoint btree_push {K V} (cmp : K -> K -> comparison) (k : K) (v : V)
    (m : list (K * list V)) : list (K * list V) :=
  match m with
  | [] => [(k, [v])]
  | (k', vs) :: m' =>
      match cmp k k' with
      | Lt => (k, [v]) :: m
      | Eq => (k', vs ++ [v]) :: m'
      | Gt => (k', vs) :: btree_push cmp k v m'
      end
  end.

Definition btree_group {K V} (cmp : K -> K -> comparison) (key : V -> K) (vs : list V) :
    list (K * list V) :=
  fold_left (fun m v => btree_push cmp (key v) v m) vs [].

Fixpoint btree_insert {K} (cmp : K -> K -> comparison) (k : K) (s : list K) : list K :=
  match s with
  | [] => [k]
  | k' :: s' =>
      match cmp k k' with
      | Lt => k :: s
      | Eq => s
      | Gt => k' :: btree_insert cmp k s'
      end
  end.

Definition btree_set {K} (cmp : K -> K -> comparison) (l : list K) : list K :=
  fold_left (fun s k => btree_insert cmp k s) l [].

Section btree.
Context {K V : Type} (cmp : K -> K -> comparison) `{!CmpLaws cmp} `{!EqDecision K}.

Definition above (k : K) (l : list K) : Prop := forall x, x ∈ l -> cmp k x = Lt.

Fixpoint ascending (l : list K) : Prop :=
  match l with [] => True | k :: l => above k l /\ ascending l end.

Lemma cmp_irrefl (k : K) : cmp k k = Eq.
Proof. by apply cmp_eq. Qed.

Lemma above_trans k k' l : cmp k k' = Lt -> above k' l -> above k l.
Proof. intros H Ha x Hx. eapply cmp_trans; eauto. Qed.

Lemma ascending_NoDup l : ascending l -> NoDup l.
Proof.
  induction l as [|k l IH]; [constructor|]. intros [Ha Hl]. constructor; [|auto].
  intros Hin. specialize (Ha _ Hin). by rewrite cmp_irrefl in Ha.
Qed.

Lemma btree_insert_elem k s x : x ∈ btree_insert cmp k s <-> x = k \/ x ∈ s.
Proof.
  induction s as [|y s IH]; cbn; [by rewrite list_elem_of_singleton, elem_of_nil; tauto|].
  destruct (cmp k y) eqn:E; rewrite ?elem_of_cons, ?IH; [|tauto|tauto].
  apply cmp_eq in E as ->. tauto.
Qed.

Lemma btree_insert_ascending k s : ascending s -> ascending (btree_insert cmp k s).
Proof.
  induction s as [|y s IH]; cbn; [by intros _; split; [intros ? ?%not_elem_of_nil|]|].
  intros [Ha Hs]. destruct (cmp k y) eqn:E; cbn; [done| |].
  - split; [|done]. intros x [->|Hx]%elem_of_cons; [done|]. eapply cmp_trans; eauto.
  - split; [|auto]. intros x [->|Hx]%btree_insert_elem; [|auto].
    rewrite (cmp_antisym k y), E. done.
Qed.

Lemma ascending_filter (P : K -> Prop) `{!forall k, Decision (P k)} l : ascending l -> ascending (filter P l).
Proof.
  induction l as [|k l IH]; [done|]. intros [Ha Hl]. rewrite filter_cons. case_decide; [|auto]. split; [|auto].
  intros x [_ Hx]%list_elem_of_filter. auto.
Qed.

(** A [BTreeSet] holds every element once, in ascending order. *)
Lemma btree_set_spec l :
  ascending (btree_set cmp l) /\ (forall x, x ∈ btree_set cmp l <-> x ∈ l).
Proof.
  unfold btree_set.
  assert (forall s, ascending s ->
    ascending (fold_left (fun s k => btree_insert cmp k s) l s)
    /\ forall x, x ∈ fold_left (fun s k => btree_insert cmp k s) l s <-> x ∈ s \/ x ∈ l) as H.
  { induction l as [|k l IH]; intros s Hs; cbn.
    - split; [done|]. intros x. rewrite elem_of_nil. tauto.
    - destruct (IH _ (btree_insert_ascending k s Hs)) as [H1 H2]. split; [done|].
      intros x. rewrite H2, btree_insert_elem, elem_of_cons. tauto. }
  destruct (H [] I) as [H1 H2]. split; [done|]. intros x. rewrite H2, elem_of_nil. tauto.
Qed.

(** The group of a key. *)
Definition group_of (m : list (K * list V)) (k : K) : list V :=
  match list_find (fun kv => kv.1 = k) m with Some (_, (_, vs)) => vs | None => [] end.

Lemma group_of_cons k' vs m k :
  group_of ((k', vs) :: m) k = if decide (k' = k) then vs else group_of m k.
Proof.
  unfold group_of. cbn. destruct (decide (k' = k)); [done|].
  destruct (list_find _ m) as [[? [? ?]]|]; done.
Qed.

Lemma group_of_absent (m : list (K * list V)) k : k ∉ m.*1 -> group_of m k = [].
Proof.
  induction m as [|[k' vs] m IH]; [done|]. rewrite group_of_cons. cbn.
  intros [Hn Hm]%not_elem_of_cons. destruct (decide (k' = k)); [congruence|auto].
Qed.

Lemma btree_push_keys k (v : V) m x : x ∈ (btree_push cmp k v m).*1 <-> x = k \/ x ∈ m.*1.
Proof.
  induction m as [|[k' vs] m IH]; cbn; [by rewrite list_elem_of_singleton, elem_of_nil; tauto|].
  destruct (cmp k k') eqn:E; cbn; rewrite ?elem_of_cons, ?IH; [|tauto|tauto].
  apply cmp_eq in E as ->. tauto.
Qed.

Lemma btree_push_ascending k (v : V) m : ascending m.*1 -> ascending (btree_push cmp k v m).*1.
Proof.
  induction m as [|[k' vs] m IH]; cbn; [by intros _; split; [intros ? ?%not_elem_of_nil|]|].
  intros [Ha Hs]. destruct (cmp k k') eqn:E; cbn; [done| |].
  - split; [|done]. intros x [->|Hx]%elem_of_cons; [done|]. eapply cmp_trans; eauto.
  - split; [|auto]. intros x [->|Hx]%btree_push_keys; [|auto].
    rewrite (cmp_antisym k k'), E. done.
Qed.

Lemma btree_push_group k (v : V) m k0 :
  ascending m.*1 ->
  group_of (btree_push cmp k v m) k0 =
  if decide (k = k0) then group_of m k0 ++ [v] else group_of m k0.
Proof.
  induction m as [|[k' vs] m IH]; cbn [btree_push fmap list_fmap fst]; intros Hs.
  { rewrite group_of_cons. destruct (decide _); done. }
  destruct Hs as [Ha Hs]. destruct (cmp k k') eqn:E; rewrite !group_of_cons.
  - apply cmp_eq in E as ->. destruct (decide (k' = k0)); done.
  - destruct (decide (k = k0)) as [<-|]; [|done].
    destruct (decide (k' = k)) as [->|]; [by rewrite cmp_irrefl in E|].
    rewrite group_of_absent; [done|]. intros Hin. specialize (Ha _ Hin).
    rewrite (cmp_antisym k k'), E in Ha. done.
  - rewrite (IH Hs). destruct (decide (k' = k0)) as [->|], (decide (k = k0)) as [->|]; try done.
    by rewrite cmp_irrefl in E.
Qed.

(** Grouping keeps, per key, the values of that key in their order, and lists keys once in
    ascending order. *)
Lemma btree_group_spec (key : V -> K) (vs : list V) :
  let m := btree_group cmp key vs in
  ascending m.*1
  /\ (forall k, k ∈ m.*1 <-> exists v, v ∈ vs /\ key v = k)
  /\ (forall k, group_of m k = filter (fun v => key v = k) vs).
Proof.
  unfold btree_group.
  assert (forall m, ascending m.*1 ->
    let r := fold_left (fun m v => btree_push cmp (key v) v m) vs m in
    ascending r.*1
    /\ (forall k, k ∈ r.*1 <-> k ∈ m.*1 \/ exists v, v ∈ vs /\ key v = k)
    /\ (forall k, group_of r k = group_of m k ++ filter (fun v => key v = k) vs)) as H.
  { induction vs as [|v vs IH]; intros m Hm; cbn [fold_left].
    - split_and!; [done| |by intros; rewrite app_nil_r]. intros k. split; [auto|].
      intros [?|(? & ?%not_elem_of_nil & _)]; done.
    - destruct (IH _ (btree_push_ascending (key v) v m Hm)) as (H1 & H2 & H3). split_and!.
      + done.
      + intros k. rewrite H2, btree_push_keys. split.
        * intros [[->|?]|(x & ? & <-)]; [right; exists v; split; [left|done]|by left|].
          right. exists x. split; [by right|done].
        * intros [?|(x & [->|?]%elem_of_cons & <-)]; [auto|auto|right; eauto].
      + intros k. rewrite H3, btree_push_group by done. rewrite filter_cons.
        destruct (decide (key v = k)); [by rewrite <- app_assoc|done]. }
  destruct (H [] I) as (H1 & H2 & H3). cbn. split_and!; [done| |done].
  intros k. rewrite H2. cbn. rewrite elem_of_nil. tauto.
Qed.

Lemma btree_push_perm k (v : V) m : concat (btree_push cmp k v m).*2 ≡ₚ v :: concat m.*2.
Proof.
  induction m as [|[k' vs] m IH]; cbn; [done|]. destruct (cmp k k'); cbn; [|done|].
  - rewrite <- app_assoc. cbn. by rewrite <- Permutation_middle.
  - by rewrite IH, <- Permutation_middle.
Qed.

Lemma btree_group_perm (key : V -> K) vs : concat (btree_group cmp key vs).*2 ≡ₚ vs.
Proof.
  unfold btree_group.
  assert (forall m, concat (fold_left (fun m v => btree_push cmp (key v) v m) vs m).*2
    ≡ₚ concat m.*2 ++ vs) as H; [|apply (H [])].
  induction vs as [|v vs IH]; intros m; cbn; [by rewrite app_nil_r|].
  by rewrite IH, btree_push_perm, <- Permutation_middle.
Qed.

Lemma group_of_elem (m : list (K * list V)) k vs : NoDup m.*1 -> (k, vs) ∈ m -> group_of m k = vs.
Proof.
  induction m as [|[k' vs'] m IH]; [by intros _ ?%not_elem_of_nil|]. cbn.
  intros [Hni Hnd]%NoDup_cons [[= <- <-]|Hin]%elem_of_cons; rewrite group_of_cons.
  - by rewrite decide_True.
  - rewrite decide_False; [auto|]. intros ->. apply Hni.
    apply list_elem_of_fmap. by exists (k, vs).
Qed.

End btree.
