(* ===== verification/Text.v ===== *)
(** Text helpers: identifier validation, snake-casing and hex of
    [crates/shared/src/util.rs], and the decimal printing and parsing of integers that
    [format!] and [str::parse] provide. *)
From S2P Require Import Prelude.

(** * ASCII classes of [u8] / [char] *)

Definition is_ascii_lowercase (b : byte) : bool := (97 <=? byte_val b) && (byte_val b <=? 122).
Definition is_ascii_uppercase (b : byte) : bool := (65 <=? byte_val b) && (byte_val b <=? 90).
Definition is_ascii_digit (b : byte) : bool := (48 <=? byte_val b) && (byte_val b <=? 57).
Definition is_ascii_alphanumeric (b : byte) : bool :=
  is_ascii_lowercase b || is_ascii_uppercase b || is_ascii_digit b.
Definition is_ascii (b : byte) : bool := byte_val b <? 128.
Definition to_ascii_lowercase (b : byte) : byte :=
  if is_ascii_uppercase b then byte_of (byte_val b + 32) else b.
Definition str_to_ascii_lowercase (s : string) : string :=
  of_list (to_ascii_lowercase <$> to_list s).

Abbreviation underscore := ("_"%char).
Definition is_us (b : byte) : bool := Ascii.eqb b underscore.

(** * Identifiers *)

Definition RECEIPTS_TABLE : string := "receipts".

Definition table_has_idx (table : string) : bool :=
  negb (String.eqb table RECEIPTS_TABLE).

Definition ident_byte (b : byte) : bool :=
  is_ascii_lowercase b || is_ascii_digit b || is_us b.

Definition is_valid_ident (name : string) : bool :=
  match to_list name with
  | [] => false
  | (b0 :: _) as l =>
      (length l <=? 63)%nat && forallb ident_byte l && negb (is_ascii_digit b0)
  end.

Definition ends_us (l : bytes) : bool :=
  match list.last l with Some b => is_us b | None => false end.

(** [prev_boundary] of the loop: the character before and the one after. *)
Definition prev_boundary (prev : option byte) (next : bytes) : bool :=
  match prev with
  | None => false
  | Some p =>
      is_ascii_lowercase p || is_ascii_digit p
      || (is_ascii_uppercase p
          && match next with n :: _ => is_ascii_lowercase n | [] => false end)
  end.

(** One iteration: the character [c] seen after [prev], with [next] still to come. *)
Definition snake_step (prev : option byte) (c : byte) (next out : bytes) : bytes :=
  if is_ascii_uppercase c then
    (if prev_boundary prev next && negb (ends_us out) then out ++ [underscore] else out)
      ++ [to_ascii_lowercase c]
  else if is_ascii_alphanumeric c then out ++ [c]
  else if negb (ends_us out) then out ++ [underscore]
  else out.

Fixpoint snake_go (prev : option byte) (cs out : bytes) : bytes :=
  match cs with
  | [] => out
  | c :: next => snake_go (Some c) next (snake_step prev c next out)
  end.

Fixpoint trim_start (l : bytes) : bytes :=
  match l with
  | b :: l' => if is_us b then trim_start l' else l
  | [] => []
  end.

(** [trim_matches('_')]. *)
Definition trim_us (l : bytes) : bytes := reverse (trim_start (reverse (trim_start l))).

Definition to_snake_case (name : string) : string :=
  of_list (trim_us (snake_go None (to_list name) [])).

(** * Numbers as text *)

Definition digit_val (radix : Z) (b : byte) : option Z :=
  let v := byte_val b in
  let d :=
    if is_ascii_digit b then Some (v - 48)
    else if is_ascii_lowercase b then Some (v - 87)
    else if is_ascii_uppercase b then Some (v - 55)
    else None in
  match d with
  | Some d => if d <? radix then Some d else None
  | None => None
  end.

Fixpoint digits_val (radix acc : Z) (l : bytes) : option Z :=
  match l with
  | [] => Some acc
  | b :: l =>
      match digit_val radix b with
      | Some d => digits_val radix (acc * radix + d) l
      | None => None
      end
  end.

Definition in_range (lo hi : Z) (o : option Z) : option Z :=
  match o with
  | Some z => if (lo <=? z) && (z <=? hi) then Some z else None
  | None => None
  end.

(** [from_str_radix] and [str::parse] of the integer type [lo..=hi]: an optional sign,
    at least one digit, no overflow; a minus sign only on a signed type. *)
Definition parse_int (radix lo hi : Z) (l : bytes) : option Z :=
  match l with
  | [] => None
  | c :: r =>
      let signed := lo <? 0 in
      if (Ascii.eqb c "+" || Ascii.eqb c "-") && (length r =? 0)%nat then None
      else if Ascii.eqb c "+" then in_range lo hi (digits_val radix 0 r)
      else if Ascii.eqb c "-" && signed then
        in_range lo hi (option_map Z.opp (digits_val radix 0 r))
      else in_range lo hi (digits_val radix 0 l)
  end.

Definition parse_i64 (s : string) : option Z := parse_int 10 (- I63) (I63 - 1) (to_list s).

Definition digit_char (d : Z) : byte := byte_of (if d <? 10 then 48 + d else 87 + d).

Fixpoint dec_digits (fuel : nat) (n : Z) (acc : bytes) : bytes :=
  match fuel with
  | O => acc
  | S f =>
      let acc' := digit_char (n mod 10) :: acc in
      if n / 10 =? 0 then acc' else dec_digits f (n / 10) acc'
  end.

(** [n.to_string()] of an unsigned integer; [log2 n + 1] digits always suffice. *)
Definition show_u (n : Z) : bytes := dec_digits (S (Z.to_nat (Z.log2 n))) n [].

Definition show_i (z : Z) : bytes := if z <? 0 then "-"%char :: show_u (- z) else show_u z.

Definition show (z : Z) : string := of_list (show_i z).

(** * Hex *)

Definition hex_encode (bs : bytes) : string :=
  of_list (flat_map (fun b => [digit_char (byte_val b / 16); digit_char (byte_val b mod 16)]) bs).

Definition strip_prefix (p s : bytes) : option bytes :=
  if prefix_of p s then Some (drop (length p) s) else None.

(** A slice index is a character boundary when the byte there, if any, does not continue
    a UTF-8 sequence. *)
Definition boundary (rest : bytes) : bool :=
  match rest with
  | [] => true
  | b :: _ => negb ((128 <=? byte_val b) && (byte_val b <? 192))
  end.

(** The [map(..).collect::<Option<Vec<u8>>>()] over [(0..len).step_by(2)]: the slice
    [&s[i..i + 2]] panics off a boundary, the first bad digit pair ends with [None]. *)
Fixpoint hex_pairs (l : bytes) : outcome (option bytes) :=
  match l with
  | a :: b :: rest =>
      if boundary l && boundary rest then
        match parse_int 16 0 255 [a; b] with
        | None => Done None
        | Some v =>
            match hex_pairs rest with
            | Done (Some bs) => Done (Some (byte_of v :: bs))
            | r => r
            end
        end
      else Panic
  | _ => Done (Some [])
  end.

Definition hex_decode (s : string) : outcome (option bytes) :=
  let l := to_list s in
  let l := match strip_prefix ["0"%char; "x"%char] l with Some r => r | None => l end in
  if Nat.even (length l) then hex_pairs l else Done None.

(** [str::split_once]. *)
Fixpoint split_once (c : byte) (l : bytes) : option (bytes * bytes) :=
  match l with
  | [] => None
  | b :: l => if Ascii.eqb b c then Some ([], l) else (fun ab => (b :: ab.1, ab.2)) <$> split_once c l
  end.

(** * Lemmas *)

Lemma digit_char_val d : 0 <= d < 16 -> byte_val (digit_char d) = if d <? 10 then 48 + d else 87 + d.
Proof. intros H. unfold digit_char. apply byte_val_of. zcase; lia. Qed.

Lemma digit_val_char radix d : 0 <= d < radix -> radix <= 16 -> digit_val radix (digit_char d) = Some d.
Proof.
  intros H Hr. unfold digit_val, is_ascii_digit, is_ascii_lowercase, is_ascii_uppercase.
  rewrite digit_char_val by lia.
  repeat (zcase; cbn [andb]; try lia); f_equal; lia.
Qed.

Lemma digit_char_not_sign d :
  0 <= d < 16 -> Ascii.eqb (digit_char d) "+" = false /\ Ascii.eqb (digit_char d) "-" = false.
Proof.
  intros H. pose proof (digit_char_val d H) as E.
  split; apply Ascii.eqb_neq; intros C; rewrite C in E; revert E; vm_compute (byte_val _);
    zcase; lia.
Qed.

Lemma digits_val_dec fuel n acc :
  (0 < fuel)%nat -> 0 <= n < 10 ^ Z.of_nat fuel ->
  digits_val 10 0 (dec_digits fuel n acc) = digits_val 10 n acc.
Proof.
  revert n acc. induction fuel as [|fuel IH]; intros n acc Hf Hn; [lia|].
  cbn [dec_digits]. pose proof (Z.mod_pos_bound n 10 ltac:(lia)).
  assert (n = 10 * (n / 10) + n mod 10) as E by (apply Z.div_mod; lia).
  destruct (Z.eqb_spec (n / 10) 0) as [E0|E0].
  - cbn [digits_val]. rewrite digit_val_char by lia. f_equal. lia.
  - assert (0 < n / 10) by (assert (0 <= n / 10) by (apply Z.div_pos; lia); lia).
    rewrite IH.
    + cbn [digits_val]. rewrite digit_val_char by lia. f_equal. lia.
    + destruct fuel; [|lia]. change (10 ^ Z.of_nat 1) with 10 in Hn.
      rewrite Z.div_small in H0; lia.
    + rewrite Nat2Z.inj_succ, Z.pow_succ_r in Hn by lia.
      split; [lia|]. apply Z.div_lt_upper_bound; lia.
Qed.

Lemma show_u_fuel n : 0 <= n -> n < 10 ^ Z.of_nat (S (Z.to_nat (Z.log2 n))).
Proof.
  intros H. destruct (Z.eq_dec n 0) as [->|]; [by vm_compute|].
  pose proof (Z.log2_spec n ltac:(lia)) as [_ Hl]. pose proof (Z.log2_nonneg n).
  rewrite Nat2Z.inj_succ, Z2Nat.id by lia.
  eapply Z.lt_le_trans; [exact Hl|]. apply Z.pow_le_mono_l. lia.
Qed.

Lemma digits_val_show n : 0 <= n -> digits_val 10 0 (show_u n) = Some n.
Proof. intros H. unfold show_u. rewrite digits_val_dec; [done|lia|auto using show_u_fuel]. Qed.

Lemma dec_digits_acc fuel n acc :
  exists ds, dec_digits fuel n acc = ds ++ acc
    /\ Forall (fun b => exists d, 0 <= d < 10 /\ b = digit_char d) ds
    /\ ((0 < fuel)%nat -> ds <> []).
Proof.
  revert n acc. induction fuel as [|f IH]; intros n acc; cbn [dec_digits].
  { exists []. split_and!; [done|constructor|lia]. }
  pose proof (Z.mod_pos_bound n 10 ltac:(lia)).
  destruct (n / 10 =? 0).
  - exists [digit_char (n mod 10)]. split_and!; [done|by repeat constructor; eauto|done].
  - destruct (IH (n / 10) (digit_char (n mod 10) :: acc)) as (ds & -> & Hd & _).
    exists (ds ++ [digit_char (n mod 10)]). split_and!.
    + by rewrite <- app_assoc.
    + apply Forall_app. split; [done|]. by repeat constructor; eauto.
    + intros _ C. by apply app_eq_nil in C as [_ ?].
Qed.

Lemma show_u_head n : exists d r, 0 <= d < 10 /\ show_u n = digit_char d :: r.
Proof.
  unfold show_u. destruct (dec_digits_acc (S (Z.to_nat (Z.log2 n))) n []) as (ds & -> & Hd & Hn).
  destruct ds as [|b ds]; [by destruct Hn; [lia|]|].
  apply Forall_cons_1 in Hd as [(d & ? & ->) _]. by exists d, (ds ++ []).
Qed.

Lemma in_range_ok lo hi z : lo <= z <= hi -> in_range lo hi (Some z) = Some z.
Proof. intros H. cbn. by repeat (zcase; try lia). Qed.

(** An integer printed by [to_string] is read back by [parse]. *)
Lemma parse_int_show lo hi z :
  lo <= z <= hi -> (z < 0 -> lo < 0) -> parse_int 10 lo hi (show_i z) = Some z.
Proof.
  intros H Hs. unfold show_i. destruct (Z.ltb_spec z 0) as [Hz|Hz].
  - cbn [parse_int]. destruct (show_u_head (- z)) as (d & r & _ & E). rewrite E. cbn [length].
    cbn [Ascii.eqb andb orb Bool.eqb Nat.eqb].
    destruct (Z.ltb_spec lo 0); [|lia]. rewrite <- E, digits_val_show by lia. cbn [option_map].
    rewrite Z.opp_involutive. by apply in_range_ok.
  - destruct (show_u_head z) as (d & r & Hd & E). rewrite E. cbn [parse_int].
    destruct (digit_char_not_sign d ltac:(lia)) as [-> ->]. cbn [orb andb].
    rewrite <- E, digits_val_show by lia. by apply in_range_ok.
Qed.

Lemma to_list_of_list l : to_list (of_list l) = l.
Proof. apply Stdlib.Strings.String.list_ascii_of_string_of_list_ascii. Qed.

Lemma of_list_to_list s : of_list (to_list s) = s.
Proof. apply Stdlib.Strings.String.string_of_list_ascii_of_string. Qed.
#[export] Hint Rewrite to_list_of_list of_list_to_list to_list_app : t0.

(** ** Hex *)

Lemma hex_pair_parse b :
  parse_int 16 0 255 [digit_char (byte_val b / 16); digit_char (byte_val b mod 16)]
  = Some (byte_val b).
Proof.
  pose proof (byte_val_range b) as Hb.
  assert (0 <= byte_val b / 16 < 16) by (split; [apply Z.div_pos|apply Z.div_lt_upper_bound]; lia).
  pose proof (Z.mod_pos_bound (byte_val b) 16 ltac:(lia)).
  cbn [parse_int]. destruct (digit_char_not_sign (byte_val b / 16) ltac:(lia)) as [-> ->].
  cbn [orb andb digits_val]. rewrite !digit_val_char by lia.
  rewrite (in_range_ok 0 255); f_equal; pose proof (Z.div_mod (byte_val b) 16); lia.
Qed.

Lemma boundary_ascii l : Forall (fun b => is_ascii b = true) l -> boundary l = true.
Proof.
  intros [|b l' Hb _]; [done|]. cbn. unfold is_ascii in Hb.
  repeat (zcase; cbn; try lia); done.
Qed.

Lemma digit_char_ascii d : 0 <= d < 16 -> is_ascii (digit_char d) = true.
Proof. intros H. unfold is_ascii. rewrite digit_char_val by done. repeat (zcase; try lia). Qed.

Lemma hex_encode_ascii bs : Forall (fun b => is_ascii b = true) (to_list (hex_encode bs)).
Proof.
  unfold hex_encode. rewrite to_list_of_list. induction bs as [|b bs IH]; [constructor|].
  pose proof (byte_val_range b). pose proof (Z.mod_pos_bound (byte_val b) 16 ltac:(lia)).
  cbn. repeat constructor; [| |exact IH]; apply digit_char_ascii; [|lia].
  split; [apply Z.div_pos|apply Z.div_lt_upper_bound]; lia.
Qed.

Lemma hex_encode_cons b bs :
  to_list (hex_encode (b :: bs))
  = digit_char (byte_val b / 16) :: digit_char (byte_val b mod 16) :: to_list (hex_encode bs).
Proof. unfold hex_encode. by rewrite !to_list_of_list. Qed.

Lemma hex_pairs_encode bs : hex_pairs (to_list (hex_encode bs)) = Done (Some bs).
Proof.
  induction bs as [|b bs IH]; [done|]. pose proof (hex_encode_ascii (b :: bs)) as Ha.
  rewrite hex_encode_cons in *. cbn [hex_pairs]. rewrite boundary_ascii by done.
  rewrite boundary_ascii by (by do 2 apply Forall_inv_tail in Ha).
  cbn [andb]. by rewrite hex_pair_parse, IH, byte_of_val.
Qed.

Lemma hex_encode_even bs : Nat.even (length (to_list (hex_encode bs))) = true.
Proof. induction bs as [|b bs IH]; [done|]. rewrite hex_encode_cons. exact IH. Qed.

Lemma hex_encode_no_prefix bs :
  strip_prefix ["0"%char; "x"%char] (to_list (hex_encode bs)) = None.
Proof.
  destruct bs as [|b bs]; [done|]. rewrite hex_encode_cons. unfold strip_prefix. cbn [prefix_of].
  assert (Ascii.eqb "x" (digit_char (byte_val b mod 16)) = false) as ->;
    [|by rewrite andb_false_r].
  apply Ascii.eqb_neq. intros C.
  pose proof (digit_char_val (byte_val b mod 16) (Z.mod_pos_bound _ 16 ltac:(lia))) as E.
  rewrite <- C in E. change (byte_val "x") with 120 in E.
  pose proof (Z.mod_pos_bound (byte_val b) 16). zcase; lia.
Qed.

(** Hex text round-trips: decoding what [hex_encode] wrote gives the bytes back, with or
    without the [0x] prefix that [Hash::hex] and the JSON projection put in front. *)
Theorem hex_roundtrip (bs : bytes) :
  hex_decode (hex_encode bs) = Done (Some bs)
  /\ hex_decode ("0x" +:+ hex_encode bs) = Done (Some bs).
Proof.
  unfold hex_decode. split.
  - by rewrite hex_encode_no_prefix, hex_encode_even, hex_pairs_encode.
  - rewrite to_list_app.
    change (strip_prefix _ _) with (Some (to_list (hex_encode bs))). cbv iota.
    by rewrite hex_encode_even, hex_pairs_encode.
Qed.

Lemma hex_pairs_ascii l : Forall (fun b => is_ascii b = true) l -> hex_pairs l <> Panic.
Proof.
  revert l. fix IH 1. intros [|a [|b l]] H; [done|done|].
  cbn [hex_pairs]. rewrite boundary_ascii by done.
  do 2 apply Forall_inv_tail in H. rewrite boundary_ascii by done.
  cbn [andb]. destruct (parse_int 16 0 255 [a; b]); [|done].
  specialize (IH l H). by destruct (hex_pairs l) as [[]|].
Qed.

Lemma strip_prefix_Forall {P : byte -> Prop} p l :
  Forall P l -> Forall P (match strip_prefix p l with Some r => r | None => l end).
Proof. intros H. unfold strip_prefix. destruct (prefix_of p l); [by apply Forall_drop|done]. Qed.

(** On ASCII text [hex_decode] always returns (some bytes or [None]): the slice it takes
    never falls inside a character. *)
Theorem hex_decode_ascii_total (s : string) :
  Forall (fun b => is_ascii b = true) (to_list s) -> hex_decode s <> Panic.
Proof.
  intros H. unfold hex_decode. destruct (Nat.even _); [|done].
  by apply hex_pairs_ascii, strip_prefix_Forall.
Qed.

Lemma hex_decode_ascii_total_witness : hex_decode "0xzz" <> Panic.
Proof. apply hex_decode_ascii_total. by repeat constructor. Defined.

(** Two inputs on which [hex_decode] departs from its comment ("[None] if malformed"): a
    string with a multi-byte character across an even offset panics, and a pair with a plus
    sign is accepted as a byte. *)
Theorem hex_decode_malformed_inputs :
  hex_decode (of_list (byte_of <$> [97; 195; 169; 98])) = Panic
  /\ hex_decode "0x+f" = Done (Some [byte_of 15]).
Proof. split; vm_compute; reflexivity. Qed.

(** ** Snake case *)

Definition no_dus (l : bytes) : Prop := forall a b, l <> a ++ underscore :: underscore :: b.

Definition snake_shape (l : bytes) : Prop :=
  Forall (fun b => ident_byte b = true) l /\ no_dus l
  /\ (forall b, head l = Some b -> is_us b = false)
  /\ (forall b, list.last l = Some b -> is_us b = false).

Lemma is_us_true b : is_us b = true <-> b = underscore.
Proof. apply Ascii.eqb_eq. Qed.

Lemma ends_us_snoc l b : ends_us (l ++ [b]) = is_us b.
Proof. unfold ends_us. by rewrite list.last_snoc. Qed.

Lemma ends_us_inv l : ends_us l = true -> exists l', l = l' ++ [underscore].
Proof.
  unfold ends_us. destruct (list.last l) as [b|] eqn:E; [|done].
  apply list.last_Some in E as [l' ->]. rewrite is_us_true. intros ->. eauto.
Qed.

Lemma no_dus_snoc l b : no_dus l -> (is_us b = true -> ends_us l = false) -> no_dus (l ++ [b]).
Proof.
  intros Hl Hb x y E. destruct y as [|c y _] using rev_ind.
  - change (x ++ [underscore; underscore]) with (x ++ ([underscore] ++ [underscore])) in E.
    rewrite app_assoc in E. apply app_inj_tail in E as [-> ->].
    rewrite ends_us_snoc in Hb. specialize (Hb eq_refl). done.
  - rewrite 2 app_comm_cons, app_assoc in E. apply app_inj_tail in E as [-> _]. by eapply Hl.
Qed.

Lemma no_dus_infix a l b : no_dus (a ++ l ++ b) -> no_dus l.
Proof.
  intros H x y ->. apply (H (a ++ x) (y ++ b)). rewrite <- !app_assoc. done.
Qed.

Lemma to_lower_ident c : is_ascii_uppercase c = true -> ident_byte (to_ascii_lowercase c) = true /\ is_us (to_ascii_lowercase c) = false.
Proof. destruct c as [[] [] [] [] [] [] [] []]; vm_compute; auto. Qed.

Lemma alnum_ident c :
  is_ascii_alphanumeric c = true -> is_ascii_uppercase c = false ->
  ident_byte c = true /\ is_us c = false.
Proof. destruct c as [[] [] [] [] [] [] [] []]; vm_compute; auto. Qed.

Lemma snake_step_inv prev c next out :
  Forall (fun b => ident_byte b = true) out -> no_dus out ->
  Forall (fun b => ident_byte b = true) (snake_step prev c next out)
  /\ no_dus (snake_step prev c next out).
Proof.
  intros Hf Hd. unfold snake_step.
  destruct (is_ascii_uppercase c) eqn:Hu; [|destruct (is_ascii_alphanumeric c) eqn:Ha].
  - destruct (to_lower_ident c Hu) as [Hi Hn].
    assert (forall o, Forall (fun b => ident_byte b = true) o -> no_dus o ->
      Forall (fun b => ident_byte b = true) (o ++ [to_ascii_lowercase c])
      /\ no_dus (o ++ [to_ascii_lowercase c])) as Hpush.
    { intros o Ho Hdo. split; [by apply Forall_app_2, Forall_singleton|].
      apply no_dus_snoc; [done|congruence]. }
    destruct (prev_boundary prev next && negb (ends_us out)) eqn:E; [|by apply Hpush].
    apply andb_prop in E as [_ E%negb_true_iff]. apply Hpush.
    + by apply Forall_app_2, Forall_singleton.
    + by apply no_dus_snoc.
  - destruct (alnum_ident c Ha Hu) as [Hi Hn].
    split; [by apply Forall_app_2, Forall_singleton|].
    apply no_dus_snoc; [done|congruence].
  - destruct (ends_us out) eqn:E; [done|]. cbn [negb].
    split; [by apply Forall_app_2, Forall_singleton|by apply no_dus_snoc].
Qed.

Lemma snake_go_inv prev cs out :
  Forall (fun b => ident_byte b = true) out -> no_dus out ->
  Forall (fun b => ident_byte b = true) (snake_go prev cs out) /\ no_dus (snake_go prev cs out).
Proof.
  revert prev out. induction cs as [|c cs IH]; intros prev out Hf Hd; [done|].
  cbn. apply IH; by apply snake_step_inv.
Qed.

Lemma trim_start_spec l :
  exists a, l = a ++ trim_start l /\ (forall b, head (trim_start l) = Some b -> is_us b = false).
Proof.
  induction l as [|c l (a & E & H)]; cbn; [by exists []|].
  destruct (is_us c) eqn:Ec.
  - exists (c :: a). cbn. by rewrite <- E.
  - exists []. split; [done|]. intros b [= <-]. done.
Qed.

Lemma trim_us_infix l :
  exists a b, l = a ++ trim_us l ++ b
    /\ (forall c, head (trim_us l) = Some c -> is_us c = false)
    /\ (forall c, list.last (trim_us l) = Some c -> is_us c = false).
Proof.
  unfold trim_us. destruct (trim_start_spec l) as (a & E & Ha).
  set (m := trim_start l) in *. destruct (trim_start_spec (reverse m)) as (b & Eb & Hb).
  set (k := trim_start (reverse m)) in *.
  assert (m = reverse k ++ reverse b) as Em.
  { rewrite <- (reverse_involutive m), Eb. apply reverse_app. }
  exists a, (reverse b). split_and!.
  - by rewrite <- Em.
  - intros c Hc. apply Ha. rewrite Em. destruct (reverse k); [done|]. exact Hc.
  - intros c Hc. apply Hb. destruct k as [|x k']; [done|].
    rewrite reverse_cons, list.last_snoc in Hc. exact Hc.
Qed.

Lemma snake_case_shape s : snake_shape (to_list (to_snake_case s)).
Proof.
  unfold to_snake_case. rewrite to_list_of_list.
  destruct (snake_go_inv None (to_list s) []) as [Hf Hd]; [done|by intros [] ?|].
  destruct (trim_us_infix (snake_go None (to_list s) [])) as (a & b & E & Hh & Hl).
  rewrite E in Hf, Hd. split_and!; [|by eapply no_dus_infix|done|done].
  apply Forall_app in Hf as [_ Hf]. by apply Forall_app in Hf as [Hf _].
Qed.

Lemma ident_step prev c next out :
  ident_byte c = true -> no_dus (out ++ [c]) -> snake_step prev c next out = out ++ [c].
Proof.
  intros Hc Hd. unfold snake_step.
  destruct (is_ascii_uppercase c) eqn:Hu.
  { exfalso. revert Hc Hu. clear. by destruct c as [[] [] [] [] [] [] [] []]. }
  destruct (is_ascii_alphanumeric c) eqn:Ha; [done|].
  assert (c = underscore) as ->.
  { revert Hc Ha. clear. by destruct c as [[] [] [] [] [] [] [] []]. }
  destruct (ends_us out) eqn:E; [|done].
  apply ends_us_inv in E as [l' ->]. exfalso. apply (Hd l' []). by rewrite <- app_assoc.
Qed.

Lemma snake_go_ident prev cs out :
  Forall (fun b => ident_byte b = true) cs -> no_dus (out ++ cs) -> snake_go prev cs out = out ++ cs.
Proof.
  revert prev out. induction cs as [|c cs IH]; intros prev out Hf Hd; cbn.
  { by rewrite app_nil_r. }
  apply Forall_cons_1 in Hf as [Hc Hf]. rewrite ident_step, IH; rewrite <- ?app_assoc; try done.
  apply (no_dus_infix [] _ cs). cbn. by rewrite <- app_assoc.
Qed.

Lemma trim_start_id l : (forall b, head l = Some b -> is_us b = false) -> trim_start l = l.
Proof. destruct l as [|c l]; [done|]. intros H. cbn. by rewrite (H c eq_refl). Qed.

Lemma trim_us_id l :
  (forall b, head l = Some b -> is_us b = false) ->
  (forall b, list.last l = Some b -> is_us b = false) -> trim_us l = l.
Proof.
  intros Hh Hl. unfold trim_us. rewrite (trim_start_id l) by done.
  rewrite trim_start_id; [apply reverse_involutive|].
  intros b Hb. apply Hl. rewrite <- (reverse_involutive l).
  destruct (reverse l) as [|x k]; [done|]. rewrite reverse_cons, list.last_snoc. exact Hb.
Qed.

(** A snake-cased name is a fixed point: normalising a column name twice changes nothing. *)
Theorem to_snake_case_idempotent (s : string) :
  to_snake_case (to_snake_case s) = to_snake_case s.
Proof.
  destruct (snake_case_shape s) as (Hf & Hd & Hh & Hl).
  unfold to_snake_case at 1. rewrite snake_go_ident by done. cbn [app].
  rewrite trim_us_id by done. apply of_list_to_list.
Qed.

(** A snake-cased ABI name is a safe SQL identifier exactly when it is non-empty, at most 63
    bytes and does not start with a digit: every other rule of [is_valid_ident] holds by
    construction. *)
Theorem snake_case_valid_ident (s : string) :
  is_valid_ident (to_snake_case s) = true <->
  exists b0 r, to_list (to_snake_case s) = b0 :: r
    /\ (length (b0 :: r) <= 63)%nat /\ is_ascii_digit b0 = false.
Proof.
  destruct (snake_case_shape s) as (Hf & _ & _ & _). unfold is_valid_ident.
  destruct (to_list (to_snake_case s)) as [|b0 r] eqn:E.
  { split; [done|]. by intros (? & ? & [=] & _). }
  cbv zeta. assert (forallb ident_byte (b0 :: r) = true) as ->.
  { apply forallb_forall. by apply List.Forall_forall. }
  rewrite andb_true_r, andb_true_iff, Nat.leb_le, negb_true_iff. split.
  - intros [? ?]. by exists b0, r.
  - by intros (? & ? & [= <- <-] & ? & ?).
Qed.

Example snake_case_examples :
  to_snake_case <$> ["actionTreeRoot"; "actionID"; "URLValue"; "already_snake"; "amount0"; "__"]
  = ["action_tree_root"; "action_id"; "url_value"; "already_snake"; "amount0"; ""].
Proof. vm_compute. reflexivity. Qed.
