(* ===== verification/Pricing.v ===== *)
(** Cost models and the spend ledger ([crates/pricing]), against the [CostModel] port of
    [crates/domain/src/ports/cost_model.rs]. *)
From S2P Require Import Prelude Model.

(** [dyn CostModel]: the three methods of the trait. *)
Record CostModel := mkCostModel {
  cost : RpcCall -> Z * Z;
  rate : Z * Z;
  cm_name : string
}.

(** What a cost model promises the ledger: a call's money is its units at the published
    rate, rounded down, and every figure fits a [u64]. *)
Class CostModelLaws (m : CostModel) : Prop := {
  cm_den_pos : 0 < snd (rate m) < U64;
  cm_num_nonneg : 0 <= fst (rate m) < U64;
  cm_units_nonneg : forall c, is_u64 (fst (cost m c));
  cm_money : forall c,
    fst (cost m c) * fst (rate m) < U64 ->
    snd (cost m c) = fst (cost m c) * fst (rate m) / snd (rate m)
}.

(** * Providers *)

Definition CU_GET_LOGS : Z := 75.
Definition CU_BLOCK_NUMBER : Z := 10.
Definition CU_BLOCK_BY_NUMBER : Z := 16.
Definition CU_TX_BY_HASH : Z := 15.
Definition CU_RECEIPT : Z := 15.
Definition CU_SUBSCRIBE : Z := 10.
Definition MICRO_USD_PER_CU_NUM : Z := 12.
Definition MICRO_USD_PER_CU_DEN : Z := 10.

Definition alchemy_units (c : RpcCall) : Z :=
  match c with
  | GetLogs _ _ => CU_GET_LOGS
  | BlockNumber => CU_BLOCK_NUMBER
  | BlockByNumber count _ => u64_mul CU_BLOCK_BY_NUMBER (Z.max count 1)
  | TxByHash count => u64_mul CU_TX_BY_HASH (Z.max count 1)
  | Receipt count => u64_mul CU_RECEIPT (Z.max count 1)
  | LogSubscription => CU_SUBSCRIBE
  | Other => 0
  end.

Definition AlchemyCost : CostModel := {|
  cost c := let u := alchemy_units c in
            (u, u64_mul u MICRO_USD_PER_CU_NUM / MICRO_USD_PER_CU_DEN);
  rate := (MICRO_USD_PER_CU_NUM, MICRO_USD_PER_CU_DEN);
  cm_name := "alchemy"
|}.

Definition CR_STD : Z := 20.
Definition MICRO_USD_PER_CR_NUM : Z := 6.
Definition MICRO_USD_PER_CR_DEN : Z := 10.

Definition quicknode_units (c : RpcCall) : Z :=
  match c with
  | GetLogs _ _ => CR_STD
  | BlockNumber => CR_STD
  | BlockByNumber count _ => u64_mul CR_STD (Z.max count 1)
  | TxByHash count => u64_mul CR_STD (Z.max count 1)
  | Receipt count => u64_mul CR_STD (Z.max count 1)
  | LogSubscription => CR_STD
  | Other => 0
  end.

Definition QuickNodeCost : CostModel := {|
  cost c := let u := quicknode_units c in
            (u, u64_mul u MICRO_USD_PER_CR_NUM / MICRO_USD_PER_CR_DEN);
  rate := (MICRO_USD_PER_CR_NUM, MICRO_USD_PER_CR_DEN);
  cm_name := "quicknode"
|}.

Definition FreeNodeCost (kind : string) : CostModel := {|
  cost _ := (0, 0);
  rate := (0, 1);
  cm_name := kind +:+ ":free"
|}.

(** [pricing::for_kind]. *)
Definition for_kind (kind : string) : option CostModel :=
  if String.eqb kind "alchemy" then Some AlchemyCost
  else if String.eqb kind "quicknode" then Some QuickNodeCost
  else if String.eqb kind "free_node" || String.eqb kind "generic_rpc"
  then Some (FreeNodeCost kind)
  else None.

(** * The ledger *)

Record SpendLedger := mkSpendLedger {
  sl_units : Z;
  sl_micro_usd : Z;
  sl_monthly_quota : option Z;
  sl_rate : Z * Z
}.

Definition ledger_new (quota : option Z) (r : Z * Z) : SpendLedger := mkSpendLedger 0 0 quota r.

(** The two atomics of the ledger are bumped by two independent [fetch_add]s. *)
Inductive LedgerOp : Type := AddUnits (u : Z) | AddMoney (m : Z).

Definition ledger_op (l : SpendLedger) (o : LedgerOp) : SpendLedger :=
  match o with
  | AddUnits u => mkSpendLedger (u64_add (sl_units l) u) (sl_micro_usd l) (sl_monthly_quota l) (sl_rate l)
  | AddMoney m => mkSpendLedger (sl_units l) (u64_add (sl_micro_usd l) m) (sl_monthly_quota l) (sl_rate l)
  end.

Definition record_ops (units money : Z) : list LedgerOp := [AddUnits units; AddMoney money].

Definition record (l : SpendLedger) (units money : Z) : SpendLedger :=
  fold_left ledger_op (record_ops units money) l.

Definition billable_micro_usd (l : SpendLedger) : Z :=
  let units := sl_units l in
  let free := default 0 (sl_monthly_quota l) in
  let '(num, den) := sl_rate l in
  u64_mul (u64_ssub units free) num / Z.max den 1.

Definition remaining_quota (l : SpendLedger) : option Z :=
  (fun q => u64_ssub q (sl_units l)) <$> sl_monthly_quota l.

Definition quota_exhausted (l : SpendLedger) : bool :=
  match remaining_quota l with Some r => r =? 0 | None => false end.

(** [RpcLogSource::meter]: the cost of one real sub-call goes into the ledger. *)
Definition meter (m : CostModel) (l : SpendLedger) (c : RpcCall) : SpendLedger :=
  let '(units, money) := cost m c in record l units money.

(** [RpcLogSource::cu_for]: the units as a [u32], saturated. *)
Definition cu_for (m : CostModel) (c : RpcCall) : Z :=
  let u := fst (cost m c) in if u <? U32 then u else U32 - 1.

(** * The laws hold for every provider *)

Lemma u64_mul_is_u64 a b : is_u64 (u64_mul a b).
Proof. apply wrap64_is_u64. Qed.
#[export] Hint Resolve u64_mul_is_u64 : t0.

Lemma u64_mul_money u n d :
  is_u64 u -> 0 <= n -> u * n < U64 -> u64_mul u n / d = u * n / d.
Proof. intros [? ?] ? ?. by rewrite u64_mul_small. Qed.

#[export] Instance AlchemyCost_laws : CostModelLaws AlchemyCost.
Proof.
  assert (forall c, is_u64 (alchemy_units c)) as Hu.
  { intros []; cbn; auto with t0; unfold_int; vm_compute; split; congruence. }
  split; [by vm_compute|vm_compute; split; congruence|apply Hu|].
  intros c Hc. cbn in *. apply u64_mul_money; [apply Hu|by vm_compute|done].
Qed.

#[export] Instance QuickNodeCost_laws : CostModelLaws QuickNodeCost.
Proof.
  assert (forall c, is_u64 (quicknode_units c)) as Hu.
  { intros []; cbn; auto with t0; unfold_int; vm_compute; split; congruence. }
  split; [by vm_compute|vm_compute; split; congruence|apply Hu|].
  intros c Hc. cbn in *. apply u64_mul_money; [apply Hu|by vm_compute|done].
Qed.

#[export] Instance FreeNodeCost_laws kind : CostModelLaws (FreeNodeCost kind).
Proof. split; intros; by vm_compute; split_and?. Qed.

(** * Ledger theorems *)

Lemma for_kind_laws kind m : for_kind kind = Some m -> CostModelLaws m.
Proof.
  unfold for_kind. repeat destruct (String.eqb _ _); cbn; intros [= <-]; exact _.
Qed.

Lemma u64_add_wrap a b : u64_add (wrap64 a) b = wrap64 (a + b).
Proof. unfold_int. apply Zplus_mod_idemp_l. Qed.

Definition op_units (o : LedgerOp) : Z := match o with AddUnits u => u | AddMoney _ => 0 end.
Definition op_money (o : LedgerOp) : Z := match o with AddUnits _ => 0 | AddMoney m => m end.
Definition sumZ {A} (f : A -> Z) (l : list A) : Z := foldr (fun x s => f x + s) 0 l.

Lemma sumZ_app {A} (f : A -> Z) l k : sumZ f (l ++ k) = sumZ f l + sumZ f k.
Proof. unfold sumZ. induction l as [|x l IH]; cbn; lia. Qed.

Lemma sumZ_perm {A} (f : A -> Z) l k : l ≡ₚ k -> sumZ f l = sumZ f k.
Proof. unfold sumZ. induction 1; cbn; lia. Qed.

Lemma sumZ_nonneg {A} (f : A -> Z) l : (forall x, 0 <= f x) -> 0 <= sumZ f l.
Proof. intros H. unfold sumZ. induction l as [|x l IH]; cbn; [lia|]. specialize (H x). lia. Qed.

(** The ledger after any sequence of atomic bumps holds the two sums, modulo 2^64. *)
Lemma ledger_ops_sums ops l u m :
  sl_units l = wrap64 u -> sl_micro_usd l = wrap64 m ->
  fold_left ledger_op ops l
  = mkSpendLedger (wrap64 (u + sumZ op_units ops)) (wrap64 (m + sumZ op_money ops))
      (sl_monthly_quota l) (sl_rate l).
Proof.
  revert l u m. induction ops as [|o ops IH]; intros l u m Hu Hm; cbn [fold_left sumZ foldr].
  { rewrite !Z.add_0_r, <- Hu, <- Hm. by destruct l. }
  destruct o as [x|x]; cbn [ledger_op op_units op_money].
  - rewrite (IH _ (u + x) m); cbn; [|by rewrite Hu, u64_add_wrap|done].
    unfold sumZ; f_equal; f_equal; lia.
  - rewrite (IH _ u (m + x)); cbn; [|done|by rewrite Hm, u64_add_wrap].
    unfold sumZ; f_equal; f_equal; lia.
Qed.

(** Concurrent sub-calls bump the ledger's two atomics in an arbitrary interleaving, and every
    interleaving of the same bumps leaves the same ledger: concurrency changes the order of
    spending, not the amount. *)
Theorem ledger_interleaving (l : SpendLedger) (ops1 ops2 : list LedgerOp) :
  is_u64 (sl_units l) -> is_u64 (sl_micro_usd l) -> ops1 ≡ₚ ops2 ->
  fold_left ledger_op ops1 l = fold_left ledger_op ops2 l.
Proof.
  intros Hu Hm P.
  rewrite !(ledger_ops_sums _ l (sl_units l) (sl_micro_usd l)) by (by rewrite wrap64_small).
  by rewrite (sumZ_perm op_units _ _ P), (sumZ_perm op_money _ _ P).
Qed.

Lemma ledger_interleaving_witness :
  fold_left ledger_op [AddUnits 40; AddMoney 48; AddUnits 16; AddMoney 19] (ledger_new None (12, 10))
  = fold_left ledger_op [AddUnits 16; AddUnits 40; AddMoney 48; AddMoney 19] (ledger_new None (12, 10)).
Proof.
  apply ledger_interleaving; [by vm_compute|by vm_compute|].
  apply (Permutation_trans (l' := [AddUnits 40; AddUnits 16; AddMoney 48; AddMoney 19])).
  - apply perm_skip, perm_swap.
  - apply perm_swap.
Defined.

(** A whole run metered through one cost model. *)
Definition meter_all (m : CostModel) (l : SpendLedger) (cs : list RpcCall) : SpendLedger :=
  fold_left (meter m) cs l.

Lemma meter_all_sums m cs l :
  CostModelLaws m -> is_u64 (sl_units l) -> is_u64 (sl_micro_usd l) ->
  meter_all m l cs
  = mkSpendLedger (wrap64 (sl_units l + sumZ (fun c => fst (cost m c)) cs))
      (wrap64 (sl_micro_usd l + sumZ (fun c => snd (cost m c)) cs)) (sl_monthly_quota l) (sl_rate l).
Proof.
  intros Hm Hu Hd.
  assert (forall l, meter_all m l cs = fold_left ledger_op (flat_map (fun c => record_ops (fst (cost m c)) (snd (cost m c))) cs) l) as ->.
  { clear. unfold meter_all. induction cs as [|c cs IH]; intros l; [done|].
    cbn [fold_left flat_map]. rewrite IH, fold_left_app. unfold meter. by destruct (cost m c). }
  rewrite (ledger_ops_sums _ l (sl_units l) (sl_micro_usd l)) by (by rewrite wrap64_small).
  unfold sumZ. f_equal; f_equal; f_equal; (induction cs as [|c cs IH]; [done|]; cbn in *; lia).
Qed.

(** The billable figure is the free-tier contract: nothing is billed until the units pass the
    quota, the quota guard trips exactly when they reach it, and past it exactly the overage is
    billed at the provider's rate. *)
Theorem billable_quota_spec (l : SpendLedger) (q num den : Z) :
  sl_monthly_quota l = Some q -> sl_rate l = (num, den) ->
  is_u64 (sl_units l) -> is_u64 q -> 0 <= num -> 0 < den -> sl_units l * num < U64 ->
  (sl_units l <= q -> billable_micro_usd l = 0)
  /\ (q <= sl_units l -> billable_micro_usd l = (sl_units l - q) * num / den)
  /\ (quota_exhausted l = true <-> q <= sl_units l).
Proof.
  intros Hq Hr Hu Hqu Hn Hd Ho. unfold billable_micro_usd, quota_exhausted, remaining_quota.
  rewrite Hq, Hr. cbn. rewrite (Z.max_l den 1) by lia. unfold is_u64 in *. split_and!.
  - intros. unfold u64_ssub. rewrite Z.max_l by lia. done.
  - intros. unfold u64_ssub. rewrite Z.max_r by lia. rewrite u64_mul_small; [done|lia|lia|nia].
  - unfold u64_ssub. rewrite Z.eqb_eq. lia.
Qed.

Lemma billable_quota_spec_witness :
  let l := mkSpendLedger 150 180 (Some 100) (12, 10) in
  billable_micro_usd l = 60 /\ quota_exhausted l = true.
Proof.
  destruct (billable_quota_spec (mkSpendLedger 150 180 (Some 100) (12, 10)) 100 12 10)
    as (_ & H & _ & H'); [done|done|by vm_compute|by vm_compute|lia|lia|by vm_compute|].
  cbn -[billable_micro_usd quota_exhausted] in *. split; [apply H; lia|apply H'; lia].
Defined.

Lemma div_sum_bounds {A} (f : A -> Z) (n d : Z) (l : list A) :
  0 < d ->
  sumZ (fun x => f x * n / d) l <= sumZ f l * n / d
  /\ (l <> [] -> sumZ f l * n / d < sumZ (fun x => f x * n / d) l + Z.of_nat (length l)).
Proof.
  intros Hd.
  assert (d * sumZ (fun x => f x * n / d) l <= sumZ f l * n
    /\ sumZ f l * n <= d * sumZ (fun x => f x * n / d) l + Z.of_nat (length l) * (d - 1)) as [H1 H2].
  { induction l as [|x l IH]; cbn [sumZ foldr length]; [cbn; lia|].
    pose proof (Z.div_mod (f x * n) d ltac:(lia)). pose proof (Z.mod_pos_bound (f x * n) d Hd).
    unfold sumZ in *. nia. }
  split.
  - apply Z.div_le_lower_bound; lia.
  - intros Hl. destruct l as [|x l]; [done|]. apply Z.div_lt_upper_bound; [lia|].
    cbn [length] in *. nia.
Qed.

(** For every provider, a run's marginal figure ([spent_micro_usd], summed call by call) and
    the bill with no free quota ([billable_micro_usd], computed once from the units) agree up to
    rounding: the sum never exceeds the bill and lags it by less than one micro-USD per call. *)
Theorem marginal_cost_brackets_bill (kind : string) (m : CostModel) (cs : list RpcCall) :
  for_kind kind = Some m -> cs <> [] ->
  sumZ (fun c => fst (cost m c)) cs * fst (rate m) < U64 ->
  sumZ (fun c => fst (cost m c)) cs < U64 ->
  let l := meter_all m (ledger_new None (rate m)) cs in
  sl_micro_usd l <= billable_micro_usd l < sl_micro_usd l + Z.of_nat (length cs).
Proof.
  intros Hk%for_kind_laws Hcs Ho Hou. set (n := fst (rate m)) in *. set (d := snd (rate m)).
  pose proof cm_den_pos as Hd. pose proof cm_num_nonneg as Hn. fold n d in Hd, Hn.
  assert (forall c, 0 <= fst (cost m c)) as Hpos by (intros c; apply cm_units_nonneg).
  set (us := sumZ (fun c => fst (cost m c)) cs) in *.
  assert (0 <= us) as Hus by (by apply sumZ_nonneg).
  assert (sumZ (fun c => snd (cost m c)) cs = sumZ (fun c => fst (cost m c) * n / d) cs) as Hsum.
  { assert (forall c, c ∈ cs -> fst (cost m c) <= us) as Hle.
    { subst us. clear -Hpos. induction cs as [|x cs IH]; [by intros ? ?%not_elem_of_nil|].
      intros c [->|H]%elem_of_cons; cbn.
      - pose proof (sumZ_nonneg (fun c => fst (cost m c)) cs Hpos). unfold sumZ in *. lia.
      - specialize (IH c H). specialize (Hpos x). unfold sumZ in *. lia. }
    revert Hle. generalize us, Ho. clear -Hk Hn. intros us Ho Hle.
    induction cs as [|x cs IH]; [done|]. cbn. unfold sumZ in IH. rewrite IH.
    - f_equal. apply cm_money. specialize (Hle x ltac:(left)). subst n. nia.
    - intros c Hc. apply Hle. by right. }
  rewrite meter_all_sums by (try done; by vm_compute).
  cbn [sl_units sl_micro_usd sl_monthly_quota sl_rate ledger_new].
  unfold billable_micro_usd. cbn [sl_units sl_monthly_quota sl_rate default from_option].
  destruct (div_sum_bounds (fun c => fst (cost m c)) n d cs ltac:(lia)) as [H1 H2].
  specialize (H2 Hcs). fold us in H1, H2. rewrite Hsum.
  assert (us * n / d <= us * n) by (apply Z.div_le_upper_bound; nia).
  assert (0 <= sumZ (fun c => fst (cost m c) * n / d) cs) as Hs0.
  { apply sumZ_nonneg. intros c. apply Z.div_pos; [|lia]. specialize (Hpos c). nia. }
  destruct (rate m) as [n' d'] eqn:Er. subst n d. cbn [fst snd] in *.
  rewrite !Z.add_0_l, !wrap64_small by (unfold is_u64; lia).
  fold us. replace (u64_ssub us 0) with us by (unfold u64_ssub; lia).
  rewrite u64_mul_small, Z.max_l by lia. lia.
Qed.

Lemma marginal_cost_brackets_bill_witness :
  let cs := [GetLogs 2000 0; BlockByNumber 3 true; Receipt 3] in
  let l := meter_all AlchemyCost (ledger_new None (rate AlchemyCost)) cs in
  sl_micro_usd l <= billable_micro_usd l < sl_micro_usd l + Z.of_nat (length cs).
Proof.
  intros cs.
  exact (marginal_cost_brackets_bill "alchemy" AlchemyCost cs eq_refl
           ltac:(discriminate) ltac:(reflexivity) ltac:(reflexivity)).
Defined.
