(* ===== verification/Schema.v ===== *)
(** From ABI to tables: the schema IR builder ([crates/abi-schema]), the Postgres type mapping
    ([crates/sql-pg]), the DDL ([crates/migrator/src/ddl.rs]) and the migrator.  A DDL statement is
    kept with its meaning on the catalog; [render] gives the text the code sends. *)
From S2P Require Import Prelude Model Text.

(** The double quote and the line break in texts. *)
Definition dq : string := String (ascii_of_N 34) EmptyString.
Definition nl : string := String (ascii_of_N 10) EmptyString.

(** [join]. *)
Fixpoint join (sep : string) (l : list string) : string :=
  match l with
  | [] => EmptyString
  | [x] => x
  | x :: l => x +:+ sep +:+ join sep l
  end.

(** * Logical types to Postgres ([sql-pg]) *)

Definition pg_type (t : ColumnType) : string :=
  match t with
  | CAddress | CBytes => "bytea"
  | CUInt _ | CInt _ => "numeric(78,0)"
  | CBool => "boolean"
  | CUtf8 => "text"
  | CJson => "jsonb"
  | CInt64 => "bigint"
  | CTimestamp => "timestamptz"
  end.

Definition cast_suffix (t : ColumnType) : string :=
  match t with
  | CUInt _ | CInt _ => "::numeric"
  | CTimestamp => "::timestamptz"
  | CJson => "::jsonb"
  | _ => EmptyString
  end.

Definition json_projection (alias name : string) (t : ColumnType) : string :=
  match t with
  | CAddress | CBytes => "'0x' || encode(" +:+ alias +:+ "." +:+ dq +:+ name +:+ dq +:+ ", 'hex')"
  | CUInt _ | CInt _ => alias +:+ "." +:+ dq +:+ name +:+ dq +:+ "::text"
  | _ => alias +:+ "." +:+ dq +:+ name +:+ dq
  end.

(** * ABI to schema ([abi-schema]) *)

(** A parameter of an event or function; [ep_indexed] is false for functions. *)
Record Param := mkParam { ep_name : string; ep_ty : string; ep_indexed : bool }.

(** [alloy_json_abi::Event] and [Function], as far as the code reads them. *)
Record AbiEvent := mkAbiEvent { ae_name : string; ae_inputs : list Param }.
Record AbiFunction := mkAbiFunction { af_name : string; af_inputs : list Param }.

Definition ends_with (c : byte) (s : string) : bool :=
  match list.last (to_list s) with Some b => Ascii.eqb b c | None => false end.

Definition parse_bits (ty prefix : string) : Z :=
  match strip_prefix (to_list prefix) (to_list ty) with
  | Some n => default 256 (parse_int 10 0 65535 n)
  | None => 256
  end.

Definition col_name (i : nat) (raw : string) : string :=
  if String.eqb raw EmptyString then "arg" +:+ show (Z.of_nat i) else to_snake_case raw.

Definition column_type_for (ty : string) : ColumnType :=
  if ends_with "]" ty || starts_with ty "(" || String.eqb ty "tuple" then CJson
  else if String.eqb ty "address" then CAddress
  else if String.eqb ty "bool" then CBool
  else if String.eqb ty "string" then CUtf8
  else if String.eqb ty "bytes" then CBytes
  else if starts_with ty "bytes" then CBytes
  else if starts_with ty "uint" then CUInt (parse_bits ty "uint")
  else if starts_with ty "int" then CInt (parse_bits ty "int")
  else CBytes.

(** [matches!(ty, "string" | "bytes") || ty.ends_with(']')]. *)
Definition is_dynamic (ty : string) : bool :=
  String.eqb ty "string" || String.eqb ty "bytes" || ends_with "]" ty.

Definition event_column (i : nat) (p : Param) : ColumnDef :=
  let indexed_hash := ep_indexed p && is_dynamic (ep_ty p) in
  let name := col_name i (ep_name p) in
  if indexed_hash then mkColumnDef (name +:+ "_hash") CBytes true
  else mkColumnDef name (column_type_for (ep_ty p)) false.

(** [{:#x}] of a selector. *)
Definition schema_for (event : AbiEvent) (selector : bytes) (table : string) : EventSchema :=
  mkEventSchema table (ae_name event) (Some ("0x" +:+ hex_encode selector))
    (imap event_column (ae_inputs event))
    (omap (fun ip : nat * Param => if ep_indexed ip.2 then Some ip.1 else None) (imap pair (ae_inputs event)))
    event_pk.

Definition schema_for_function (func : AbiFunction) (table : string) : EventSchema :=
  mkEventSchema table (af_name func) None
    (imap (fun i p => mkColumnDef (col_name i (ep_name p)) (column_type_for (ep_ty p)) false) (af_inputs func))
    [] ["chain_id"; "tx_id"].

(** * DDL ([ddl.rs]) *)

Inductive Ddl : Type :=
| CreateTable (table : string) (has_idx : bool) (cols : list (string * string)) (pk : list string)
| AddColumn (table col ty : string)
| CreateIndex (table : string) (col : option string)  (* [None]: the join key *)
| ReceiptsFk.

Definition pk (schema : EventSchema) : list string :=
  match es_pk_columns schema with [] => event_pk | l => l end.

Definition meta_ddl : list (string * string) :=
  [("chain_id", "bigint"); ("height", "bigint"); ("block_hash", "bytea"); ("block_time", "timestamptz");
   ("tx_id", "bytea")].

(** The columns of a created table. *)
Definition all_cols (has_idx : bool) (cols : list (string * string)) : list (string * string) :=
  meta_ddl ++ (if has_idx then [("idx", "bigint")] else []) ++ cols.

Definition typed_cols (schema : EventSchema) : list (string * string) :=
  (fun c => (c_name c, pg_type (c_ty c))) <$> es_columns schema.

Definition create_table (schema : EventSchema) : Ddl :=
  CreateTable (es_table schema) (table_has_idx (es_table schema)) (typed_cols schema) (pk schema).

Definition foreign_keys (schema : EventSchema) : list Ddl :=
  if String.eqb (es_table schema) RECEIPTS_TABLE then [ReceiptsFk] else [].

Definition create_indexes (schema : EventSchema) : list Ddl :=
  let t := es_table schema in
  (if bool_decide (pk schema !! O = Some "chain_id") && bool_decide (pk schema !! 1%nat = Some "tx_id")
   then [] else [CreateIndex t None])
  ++ omap (fun pos => (fun c => CreateIndex t (Some (c_name c))) <$> es_columns schema !! pos)
       (es_indexed_positions schema).

Definition index_name (table : string) (col : option string) : string :=
  table +:+ "_" +:+ default "tx" col.

(** The columns an index needs. *)
Definition index_cols (col : option string) : list string :=
  match col with None => ["chain_id"; "tx_id"] | Some c => ["chain_id"; c; "height"; "idx"] end.

Definition add_columns (schema : EventSchema) : list Ddl :=
  (fun c => AddColumn (es_table schema) (c_name c) (pg_type (c_ty c))) <$> es_columns schema.

Definition table_statements (schema : EventSchema) : list Ddl :=
  [create_table schema] ++ add_columns schema ++ create_indexes schema ++ foreign_keys schema.

(** ** Text *)

Definition quoted (s : string) : string := dq +:+ s +:+ dq.

Definition render_typed (cols : list (string * string)) : string :=
  foldr (fun ct acc => "," +:+ nl +:+ "  " +:+ quoted ct.1 +:+ " " +:+ ct.2 +:+ acc) EmptyString cols.

Definition render (d : Ddl) : string :=
  match d with
  | CreateTable table has_idx cols pk =>
      "CREATE TABLE IF NOT EXISTS " +:+ table +:+ " (" +:+ nl
      +:+ "  chain_id   bigint NOT NULL," +:+ nl
      +:+ "  height     bigint NOT NULL," +:+ nl
      +:+ "  block_hash bytea  NOT NULL," +:+ nl
      +:+ "  block_time timestamptz," +:+ nl
      +:+ "  tx_id      bytea  NOT NULL"
      +:+ (if has_idx then "," +:+ nl +:+ "  idx        bigint NOT NULL" else EmptyString)
      +:+ render_typed cols +:+ "," +:+ nl
      +:+ "  PRIMARY KEY (" +:+ join ", " (quoted <$> pk) +:+ ")" +:+ nl +:+ ")"
  | AddColumn table col ty =>
      "ALTER TABLE " +:+ table +:+ " ADD COLUMN IF NOT EXISTS " +:+ quoted col +:+ " " +:+ ty
  | CreateIndex table col =>
      "CREATE INDEX IF NOT EXISTS " +:+ index_name table col +:+ " ON " +:+ table
      +:+ match col with
          | None => " (chain_id, tx_id)"
          | Some c => " (chain_id, " +:+ quoted c +:+ ", height) INCLUDE (idx)"
          end
  | ReceiptsFk =>
      "DO $$ BEGIN IF NOT EXISTS (SELECT 1 FROM pg_constraint WHERE conname = 'receipts_tx_fk') THEN "
      +:+ "ALTER TABLE receipts ADD CONSTRAINT receipts_tx_fk "
      +:+ "FOREIGN KEY (chain_id, tx_id) REFERENCES transactions (chain_id, tx_id) "
      +:+ "ON DELETE CASCADE; END IF; END $$;"
  end.

(** ** Names *)

(** What Postgres does not take as the unquoted name of a table or an index: the reserved words, and those
    reserved for functions and types. *)
Definition RESERVED : list string :=
  ["all"; "analyse"; "analyze"; "and"; "any"; "array"; "as"; "asc"; "asymmetric"; "both"; "case"; "cast"; "check";
   "collate"; "column"; "constraint"; "create"; "current_catalog"; "current_date"; "current_role"; "current_time";
   "current_timestamp"; "current_user"; "default"; "deferrable"; "desc"; "distinct"; "do"; "else"; "end"; "except";
   "false"; "fetch"; "for"; "foreign"; "from"; "grant"; "group"; "having"; "in"; "initially"; "intersect"; "into";
   "lateral"; "leading"; "limit"; "localtime"; "localtimestamp"; "not"; "null"; "offset"; "on"; "only"; "or"; "order";
   "placing"; "primary"; "references"; "returning"; "select"; "session_user"; "some"; "symmetric"; "system_user";
   "table"; "then"; "to"; "trailing"; "true"; "union"; "unique"; "user"; "using"; "variadic"; "when"; "where";
   "window"; "with";
   "authorization"; "binary"; "collation"; "concurrently"; "cross"; "current_schema"; "freeze"; "full"; "ilike";
   "inner"; "is"; "isnull"; "join"; "left"; "like"; "natural"; "notnull"; "outer"; "overlaps"; "right"; "similar";
   "tablesample"; "verbose"].

(** Names every table has already. *)
Definition SYSTEM_COLUMNS : list string := ["tableoid"; "xmin"; "cmin"; "xmax"; "cmax"; "ctid"].

(** Identifiers are cut to 63 bytes. *)
Definition pg_cut (l : bytes) : string := of_list (take 63 l).

Definition ident_start (b : byte) : bool := is_ascii_lowercase b || is_ascii_uppercase b || is_us b.
Definition ident_rest (b : byte) : bool := ident_start b || is_ascii_digit b || Ascii.eqb b "$".

Definition plain_ident (l : bytes) : bool :=
  match l with b :: l => ident_start b && forallb ident_rest l | [] => false end.

(** An unquoted name: a plain identifier that is not reserved, folded to lower case.  Another text is a
    syntax error; a name with a schema or with other letters than those of ASCII is not modelled and taken
    as one too. *)
Definition pg_ident (s : string) : option string :=
  let l := str_to_ascii_lowercase s in
  if plain_ident (to_list s) && negb (bool_decide (l ∈ RESERVED)) then Some (pg_cut (to_list l)) else None.

(** A quoted name, kept as it is; it has no quote and is not empty. *)
Definition pg_quoted (s : string) : option string :=
  if String.eqb s EmptyString || contains s dq then None else Some (pg_cut (to_list s)).

Definition quoted_cols (cols : list (string * string)) : option (list (string * string)) :=
  mapM (fun ct => (fun n => (n, ct.2)) <$> pg_quoted ct.1) cols.

(** The columns of an index, with the quoted one as Postgres reads it. *)
Definition index_reads (col : option string) : option (list string) :=
  match col with None => Some (index_cols None) | Some c => (fun n => index_cols (Some n)) <$> pg_quoted c end.

(** ** Meaning *)

Record TableDef := mkTableDef { td_cols : list (string * string); td_pk : list string }.

(** Tables, indexes and sequences are relations and share one name space. *)
Record Catalog := mkCatalog {
  ct_tables : gmap string TableDef;
  ct_indexes : gset string;  (* the relations that are not tables *)
  ct_fk : bool  (* the constraint receipts_tx_fk *)
}.

Definition relations (c : Catalog) : gset string := dom (ct_tables c) ∪ ct_indexes c.

(** The name Postgres chooses for a relation that comes with a table: the key's index [t_pkey], or the first of
    [t_pkey1], [t_pkey2], ... that is free, the table's part cut to fit. *)
Definition candidate (t label : string) (i : Z) : string :=
  let label := label +:+ (if i =? 0 then EmptyString else show i) in
  of_list (take (63 - String.length label) (to_list t)) +:+ label.

Definition free_name (taken : gset string) (t label : string) : string :=
  default (candidate t label 0)
    (head (filter (fun n => n ∉ taken) (candidate t label <$> seqZ 0 (Z.of_nat (size taken) + 1)))).

Definition pkey_name (taken : gset string) (t : string) : string := free_name taken t "_pkey".

Definition new_table (name : string) (def : TableDef) (c : Catalog) : Catalog :=
  mkCatalog (<[name := def]> (ct_tables c)) ({[pkey_name ({[name]} ∪ relations c) name]} ∪ ct_indexes c) (ct_fk c).

(** What a statement does; [None] is an SQL error.  [IF NOT EXISTS] skips the creation when any relation has the
    name. *)
Definition exec (d : Ddl) (c : Catalog) : option Catalog :=
  match d with
  | CreateTable table has_idx cols pk =>
      name ← pg_ident table;
      cols ← quoted_cols cols;
      pk ← mapM pg_quoted pk;
      if bool_decide (name ∈ relations c) then Some c
      else
        let cols := all_cols has_idx cols in
        if bool_decide (NoDup cols.*1) && bool_decide (Forall (fun x => x ∉ SYSTEM_COLUMNS) cols.*1)
           && bool_decide (NoDup pk) && bool_decide (Forall (fun p => p ∈ cols.*1) pk)
        then Some (new_table name (mkTableDef cols pk) c)
        else None
  | AddColumn table col ty =>
      name ← pg_ident table;
      col ← pg_quoted col;
      t ← ct_tables c !! name;
      if bool_decide (col ∈ (td_cols t).*1) then Some c
      else if bool_decide (col ∈ SYSTEM_COLUMNS) then None
      else Some (mkCatalog (<[name := mkTableDef (td_cols t ++ [(col, ty)]) (td_pk t)]> (ct_tables c))
                   (ct_indexes c) (ct_fk c))
  | CreateIndex table col =>
      name ← pg_ident table;
      index ← pg_ident (index_name table col);
      cols ← index_reads col;
      t ← ct_tables c !! name;
      if bool_decide (index ∈ relations c) then Some c
      else if bool_decide (Forall (fun x => x ∈ (td_cols t).*1) cols)
      then Some (mkCatalog (ct_tables c) ({[index]} ∪ ct_indexes c) (ct_fk c))
      else None
  | ReceiptsFk =>
      if ct_fk c then Some c
      else
        _ ← ct_tables c !! RECEIPTS_TABLE;
        p ← ct_tables c !! "transactions";
        if bool_decide (td_pk p = ["chain_id"; "tx_id"])
        then Some (mkCatalog (ct_tables c) (ct_indexes c) true)
        else None
  end.

(** * The migrator ([migrator.rs], [error.rs]) *)

Inductive MigrateError : Type := MSqlx (msg : string).

Definition domain_of_migrate (e : MigrateError) : DomainError :=
  match e with MSqlx m => ESchema ("database error: " +:+ m) end.

Record SchemaPlan := mkSchemaPlan {
  sp_summary : list string;
  sp_statements : list Ddl;
  sp_destructive : bool
}.

Definition table_exists (c : Catalog) (table : string) : bool := bool_decide (is_Some (ct_tables c !! table)).

Definition plan (c : Catalog) (desired : list EventSchema) : SchemaPlan :=
  mkSchemaPlan
    (omap (fun s => if table_exists c (es_table s) then None else Some ("CREATE TABLE " +:+ es_table s)) desired)
    (concat (table_statements <$> desired)) false.

Fixpoint exec_all (ds : list Ddl) : M Catalog DomainError () :=
  match ds with
  | [] => mret_ tt
  | d :: ds =>
      do _ <- (fun c => match exec d c with
                        | Some c' => (Ok tt, c')
                        | None => (Err (domain_of_migrate (MSqlx "statement failed")), c)
                        end);
      exec_all ds
  end.

Definition apply_plan (p : SchemaPlan) (allow_destructive : bool) : M Catalog DomainError () :=
  if sp_destructive p && negb allow_destructive then
    mfail (ESchema "plan contains destructive changes; rerun with --allow-destructive")
  else exec_all (sp_statements p).

Definition is_in_sync (c : Catalog) (desired : list EventSchema) : bool :=
  forallb (fun s => table_exists c (es_table s)) desired.
