(* ===== verification/Retry.v ===== *)
(** Transport resilience ([crates/source/src/retry.rs], [crates/source/src/error.rs], the error
    classes of [crates/source/src/metric.rs]): jittered retry, range-cap classification and the
    adaptive range split; and the token-bucket client of [crates/source/src/limiter.rs]. *)
From S2P Require Import Prelude Model Text.

Inductive SourceError : Type :=
| Transport (msg : string)
| Malformed (msg : string)
| UnknownKind (kind : string)
| Unsupported (msg : string).

(** [#[error("...")]] display text, and the fold into the domain error. *)
Definition source_error_to_string (e : SourceError) : string :=
  match e with
  | Transport m => "rpc transport error: " +:+ m
  | Malformed m => "rpc returned malformed data: " +:+ m
  | UnknownKind k => "provider kind '" +:+ k +:+ "' unknown"
  | Unsupported m => "unsupported: " +:+ m
  end.

Definition domain_of_source (e : SourceError) : DomainError := ESource (source_error_to_string e).

(** * Jitter *)

Definition GAMMA : Z := 0x9E3779B97F4A7C15.

(** [jitter_below(max)] against the process-wide SplitMix counter [st]. *)
Definition jitter_below (max st : Z) : Z * Z :=
  if max =? 0 then (0, st)
  else
    let x := st in
    let st' := u64_add st GAMMA in
    let z := x in
    let z := u64_mul (Z.lxor z (Z.shiftr z 30)) 0xBF58476D1CE4E5B9 in
    let z := u64_mul (Z.lxor z (Z.shiftr z 27)) 0x94D049BB133111EB in
    let z := Z.lxor z (Z.shiftr z 31) in
    (z mod max, st').

(** * Error classes *)

Definition is_transient (e : string) : bool :=
  let el := str_to_ascii_lowercase e in
  contains el "429" || contains el "limit" || contains el "too many requests"
  || contains el "timeout" || contains el "timed out" || contains el "503"
  || contains el "502" || contains el "connection".

Definition error_reason (e : string) : string :=
  let e := str_to_ascii_lowercase e in
  if contains e "429" || contains e "too many requests" || contains e "limit" then "429"
  else if contains e "timeout" || contains e "timed out" then "timeout"
  else if contains e "503" || contains e "502" then "5xx"
  else if contains e "connection" then "connection"
  else "other".

Definition is_range_cap_error (e : string) : bool :=
  let e := str_to_ascii_lowercase e in
  contains e "more than" || contains e "too large" || contains e "response size"
  || contains e "range is too" || contains e "query timeout".

(** Halve an inclusive range. *)
Definition split_range (lo hi : Z) : (Z * Z) * (Z * Z) :=
  let mid := u64_add lo (u64_sub hi lo / 2) in
  ((lo, mid), (u64_add mid 1, hi)).

(** * Retry *)

(** What a retried call touches besides its own state: the jitter counter and the
    sleeps it took, newest first. *)
Record RetryEnv := mkRetryEnv { jitter_state : Z; sleeps : list Z }.

Section with_retry.
Context {W T : Type} (op : W -> result string T * W).

(** One pass of [for attempt in 0..6]; [n] attempts are left. *)
Fixpoint retry_loop (n : nat) (attempt delay_ms : Z) (s : W) (env : RetryEnv)
  : outcome (result SourceError T) * W * RetryEnv :=
  match n with
  | O => (Panic, s, env)
  | S n' =>
      match op s with
      | (Ok v, s') => (Done (Ok v), s', env)
      | (Err e, s') =>
          if negb (is_transient e) || (attempt =? 5) then (Done (Err (Transport e)), s', env)
          else
            let half := delay_ms / 2 in
            let '(j, st) := jitter_below (u64_add half 1) (jitter_state env) in
            let env' := mkRetryEnv st (u64_add half j :: sleeps env) in
            retry_loop n' (attempt + 1) (Z.min (u64_mul delay_ms 2) 4000) s' env'
      end
  end.

Definition with_retry (s : W) (env : RetryEnv) :
  outcome (result SourceError T) * W * RetryEnv :=
  retry_loop 6 0 250 s env.
End with_retry.

(** * Limiter *)

Record Limiter := mkLimiter { rps_quota : Z; cu_cap : option Z }.

(** [Limiter::from_plan]: at least one request per second; a zero CU cap is no CU bucket. *)
Definition from_plan (p : PlanProfile) : Limiter :=
  mkLimiter (Z.max (max_rps p) 1)
    (match max_cu_per_sec p with
     | Some n => if n =? 0 then None else Some n
     | None => None
     end).

(** The [until_n_ready] requests of [acquire_cu], in order; the loop ends because every
    request takes at least one unit, so [remaining] rounds suffice. *)
Fixpoint cu_requests (fuel : nat) (remaining cap : Z) : list Z :=
  match fuel with
  | O => []
  | S f =>
      if 0 <? remaining then
        let take := Z.min remaining cap in
        (if take =? 0 then [] else [take]) ++ cu_requests f (remaining - take) cap
      else []
  end.

Definition acquire_cu (l : Limiter) (units : Z) : list Z :=
  match cu_cap l with
  | None => []
  | Some cap => let remaining := Z.max units 1 in cu_requests (Z.to_nat remaining) remaining cap
  end.

(** * Theorems *)

Lemma jitter_below_range max st : 0 < max -> 0 <= fst (jitter_below max st) < max.
Proof.
  intros H. unfold jitter_below. destruct (Z.eqb_spec max 0); [lia|].
  cbn -[Z.lxor Z.shiftr]. by apply Z.mod_pos_bound.
Qed.

(** The pause before retry [k] of a call is in [delay/2, delay] for the [k]-th delay. *)
Fixpoint delay_at (k : nat) : Z :=
  match k with O => 250 | S k => Z.min (delay_at k * 2) 4000 end.

Lemma delay_at_range k : 250 <= delay_at k <= 4000.
Proof. induction k; cbn; lia. Qed.

Section retry_theorems.
Context {W T : Type} (op : W -> result string T * W).

(** [failed k s s'] : [k] attempts in a row failed with a transient error, from [s] to [s']. *)
Inductive failed : nat -> W -> W -> Prop :=
| failed_0 s : failed 0 s s
| failed_S k s s' s'' e :
    op s = (Err e, s') -> is_transient e = true -> failed k s' s'' -> failed (1 + k) s s''.

(** Pauses taken from delay index [k] on, newest first. *)
Definition pauses_ok (k n : nat) (ps : list Z) : Prop :=
  length ps = n /\
  forall i p, reverse ps !! i = Some p -> delay_at (k + i) / 2 <= p <= delay_at (k + i).

Lemma retry_loop_spec n k s env :
  (n + k = 6)%nat -> (0 < n)%nat ->
  exists j ps r s',
    (j < n)%nat
    /\ failed j s s'
    /\ op s' = r
    /\ retry_loop op n (Z.of_nat k) (delay_at k) s env
       = (match fst r with Ok v => Done (Ok v) | Err e => Done (Err (Transport e)) end,
          snd r, mkRetryEnv (jitter_state (snd (retry_loop op n (Z.of_nat k) (delay_at k) s env))) (ps ++ sleeps env))
    /\ (forall e, fst r = Err e -> is_transient e = false \/ (j + k = 5)%nat)
    /\ pauses_ok k j ps.
Proof.
  revert k s env. induction n as [|n IH]; intros k s env Hn Hpos; [lia|].
  destruct (op s) as [[v|e] s'] eqn:Eop.
  - exists 0%nat, [], (Ok v, s'), s. cbn [retry_loop]. rewrite Eop. cbn.
    split_and!; [lia|apply failed_0|done|by destruct env|done|by split].
  - destruct (negb (is_transient e) || (Z.of_nat k =? 5)) eqn:Estop.
    + exists 0%nat, [], (Err e, s'), s. cbn [retry_loop]. rewrite Eop, Estop. cbn.
      split_and!; [lia|apply failed_0|done|by destruct env| |by split].
      intros ? [= <-]. apply orb_prop in Estop as [?%negb_true_iff|?%Z.eqb_eq]; [auto|right; lia].
    + apply orb_false_elim in Estop as [Ht%negb_false_iff Hk%Z.eqb_neq].
      cbn [retry_loop]. rewrite Eop, Ht. destruct (Z.eqb_spec (Z.of_nat k) 5) as [|_]; [lia|].
      cbn [negb orb].
      pose proof (delay_at_range k) as Hd.
      assert (0 <= delay_at k / 2 <= 2000) as Hh.
      { split; [apply Z.div_pos|apply Z.div_le_upper_bound]; lia. }
      destruct (jitter_below (u64_add (delay_at k / 2) 1) (jitter_state env)) as [j st] eqn:Ej.
      assert (0 <= j <= delay_at k / 2) as Hj.
      { pose proof (jitter_below_range (u64_add (delay_at k / 2) 1) (jitter_state env)) as H.
        rewrite Ej in H. cbn in H. rewrite u64_add_small in H by (unfold U64; lia). lia. }
      set (p := u64_add (delay_at k / 2) j).
      assert (p = delay_at k / 2 + j) as Ep by (apply u64_add_small; unfold U64; lia).
      replace (Z.min (u64_mul (delay_at k) 2) 4000) with (delay_at (1 + k))
        by (cbn [delay_at Nat.add]; rewrite u64_mul_small by (unfold U64; lia); done).
      replace (Z.of_nat k + 1) with (Z.of_nat (1 + k)) by lia.
      destruct (IH (1 + k)%nat s' (mkRetryEnv st (p :: sleeps env)) ltac:(lia) ltac:(lia))
        as (i & ps & r & s'' & Hi & Hf & Hr & Eloop & Herr & Hps & Hpr).
      exists (1 + i)%nat, (ps ++ [p]), r, s''. split_and!.
      * lia.
      * by econstructor.
      * done.
      * rewrite Eloop. cbn. by rewrite <- app_assoc.
      * intros e' He'. destruct (Herr e' He'); [auto|right; lia].
      * split; [rewrite length_app; cbn; lia|]. intros m q. rewrite reverse_snoc. destruct m as [|m]; cbn [lookup list_lookup].
        -- intros [= <-]. rewrite Nat.add_0_r.
           pose proof (Z.div_mod (delay_at k) 2 ltac:(lia)).
           pose proof (Z.mod_pos_bound (delay_at k) 2 ltac:(lia)). lia.
        -- intros Hm. apply Hpr in Hm. by rewrite Nat.add_succ_comm in Hm.
Qed.

(** C39: [with_retry] always returns (the [unreachable!] after the loop is unreachable): it makes
    between one and six attempts, every attempt but the last failed with a transient error, the
    result is the last attempt's, an error is only given up on when it is not transient or the
    sixth attempt failed, and the pause before retry [i] lies between half of the [i]-th delay
    (250 ms doubling up to 4 s) and that delay. *)
Theorem with_retry_spec (s : W) (env : RetryEnv) :
  exists j ps last s' env',
    (j <= 5)%nat /\ failed j s s' /\ op s' = last
    /\ with_retry op s env
       = (match fst last with Ok v => Done (Ok v) | Err e => Done (Err (Transport e)) end,
          snd last, env')
    /\ sleeps env' = ps ++ sleeps env
    /\ (forall e, fst last = Err e -> is_transient e = false \/ j = 5%nat)
    /\ pauses_ok 0 j ps.
Proof.
  destruct (retry_loop_spec 6 0 s env) as (j & ps & r & s' & Hj & Hf & Hr & E & He & Hp); [lia|lia|].
  change (Z.of_nat 0) with 0 in E. change (delay_at 0) with 250 in E. fold (with_retry op s env) in E.
  exists j, ps, r, s'. eexists. split_and!; [lia|done|done|exact E|done| |apply Hp].
  intros e Ee. destruct (He e Ee); [auto|right; lia].
Qed.
End retry_theorems.

Lemma split_range_spec (lo hi : Z) :
  0 <= lo -> lo < hi -> hi < U64 ->
  exists mid, split_range lo hi = ((lo, mid), (mid + 1, hi))
    /\ lo <= mid /\ mid + 1 <= hi
    /\ mid - lo < hi - lo /\ hi - (mid + 1) < hi - lo.
Proof.
  intros H0 Hlt Hhi. unfold split_range. rewrite u64_sub_small by lia.
  assert (0 <= (hi - lo) / 2) by (apply Z.div_pos; lia).
  assert ((hi - lo) / 2 < hi - lo) by (apply Z.div_lt; lia).
  exists (lo + (hi - lo) / 2). rewrite (u64_add_small lo) by lia.
  rewrite u64_add_small by lia. split_and!; [done|lia..].
Qed.

(** The split of an oversized range is exact: two non-empty adjacent halves that cover it,
    each strictly smaller, so halving ends at single blocks. *)
Theorem split_range_partition (lo hi : Z) :
  0 <= lo -> lo < hi -> hi < U64 ->
  exists mid, split_range lo hi = ((lo, mid), (mid + 1, hi))
    /\ lo <= mid /\ mid + 1 <= hi
    /\ mid - lo < hi - lo /\ hi - (mid + 1) < hi - lo.
Proof. apply split_range_spec. Qed.

Lemma split_range_partition_witness :
  exists mid, split_range 0 2000 = ((0, mid), (mid + 1, 2000)) /\ 0 <= mid /\ mid + 1 <= 2000
    /\ mid - 0 < 2000 - 0 /\ 2000 - (mid + 1) < 2000 - 0.
Proof. apply split_range_partition; [lia|lia|reflexivity]. Defined.

Lemma cu_requests_spec fuel remaining cap :
  0 < cap -> 0 <= remaining <= Z.of_nat fuel ->
  foldr Z.add 0 (cu_requests fuel remaining cap) = remaining
  /\ Forall (fun t => 0 < t <= cap) (cu_requests fuel remaining cap).
Proof.
  intros Hc. revert remaining. induction fuel as [|f IH]; intros r Hr; cbn [cu_requests].
  { cbn. split; [lia|constructor]. }
  destruct (Z.ltb_spec 0 r) as [Hp|Hp]; [|cbn; split; [lia|constructor]].
  destruct (Z.eqb_spec (Z.min r cap) 0); [lia|].
  destruct (IH (r - Z.min r cap) ltac:(lia)) as [Hs Hf]. cbn. split; [lia|].
  constructor; [lia|done].
Qed.

(** [acquire_cu] drains a call's units in bucket-sized requests: each request is at least one
    and at most the burst capacity (so the bucket never answers "insufficient capacity"), and
    together they take exactly the units asked for, at least one. Without a CU cap it asks for
    nothing. *)
Theorem acquire_cu_exact (p : PlanProfile) (units : Z) :
  0 <= units -> (forall n, max_cu_per_sec p = Some n -> 0 <= n) ->
  match cu_cap (from_plan p) with
  | None => acquire_cu (from_plan p) units = []
  | Some cap =>
      Forall (fun t => 0 < t <= cap) (acquire_cu (from_plan p) units)
      /\ foldr Z.add 0 (acquire_cu (from_plan p) units) = Z.max units 1
  end.
Proof.
  intros Hu Hn. unfold acquire_cu, from_plan. cbn [cu_cap].
  destruct (max_cu_per_sec p) as [n|]; [|done]. specialize (Hn n eq_refl).
  destruct (Z.eqb_spec n 0); [done|].
  destruct (cu_requests_spec (Z.to_nat (Z.max units 1)) (Z.max units 1) n); [lia|lia|done].
Qed.

Lemma acquire_cu_exact_witness :
  let p := mkPlanProfile 25 (Some 10000) 100 2000 10000 None in
  match cu_cap (from_plan p) with
  | None => acquire_cu (from_plan p) 10050 = []
  | Some cap =>
      Forall (fun t => 0 < t <= cap) (acquire_cu (from_plan p) 10050)
      /\ foldr Z.add 0 (acquire_cu (from_plan p) 10050) = Z.max 10050 1
  end.
Proof. apply acquire_cu_exact; [lia|]. intros n [= <-]. lia. Defined.

Example range_cap_examples :
  (is_range_cap_error <$> ["query returned more than 10000 results"; "block range is too large";
     "Log response size exceeded the limit"; "connection reset"; "429 too many requests"])
  = [true; true; true; false; false].
Proof. vm_compute. reflexivity. Qed.
