(* ===== verification/Runtime.v ===== *)
(** What surrounds the program at run time: the series of the [metrics] facade with the guard of RPC calls
    ([crates/source/src/metric.rs]), the counters of [retry.rs] and [limiter.rs], the exporter's set-up
    ([crates/observability]) and the shutdown token ([shutdown.rs]).  Durations are nanoseconds; a gauge that
    only moves by one is an integer. *)
From S2P Require Import Prelude Model Text Retry.

(** * Series *)

(** A name with its labels. *)
Abbreviation Series := (string * list (string * string))%type.

Record Registry := mkRegistry {
  rg_counters : gmap Series Z;
  rg_gauges : gmap Series Z;
  rg_histograms : gmap Series (list Z)
}.

Definition Registry_empty : Registry := mkRegistry ∅ ∅ ∅.

Definition counter_of (s : Series) (g : Registry) : Z := default 0 (rg_counters g !! s).
Definition gauge_of (s : Series) (g : Registry) : Z := default 0 (rg_gauges g !! s).
Definition samples_of (s : Series) (g : Registry) : list Z := default [] (rg_histograms g !! s).

Definition counter_add (s : Series) (n : Z) (g : Registry) : Registry :=
  mkRegistry (<[s := counter_of s g + n]> (rg_counters g)) (rg_gauges g) (rg_histograms g).
Definition gauge_set (s : Series) (v : Z) (g : Registry) : Registry :=
  mkRegistry (rg_counters g) (<[s := v]> (rg_gauges g)) (rg_histograms g).
Definition gauge_add (s : Series) (n : Z) (g : Registry) : Registry := gauge_set s (gauge_of s g + n) g.
Definition histogram_record (s : Series) (v : Z) (g : Registry) : Registry :=
  mkRegistry (rg_counters g) (rg_gauges g) (<[s := v :: samples_of s g]> (rg_histograms g)).

(** * RPC calls ([metric.rs]) *)

Definition method_name (call : RpcCall) : string :=
  match call with
  | GetLogs _ _ => "eth_getLogs"
  | BlockNumber => "eth_blockNumber"
  | BlockByNumber _ _ => "eth_getBlockByNumber"
  | TxByHash _ => "eth_getTransactionByHash"
  | Receipt _ => "eth_getTransactionReceipt"
  | LogSubscription => "eth_subscribe"
  | Other => "other"
  end.

Record CallGuard := mkCallGuard { cg_chain : string; cg_method : string; cg_started : Z }.

Definition call_series (name chain method : string) : Series := (name, [("chain_id", chain); ("method", method)]).

(** [CallGuard::new] and its [Drop]. *)
Definition guard_new (chain method : string) (now : Z) (g : Registry) : CallGuard * Registry :=
  let g := counter_add (call_series "rpc_calls_total" chain method) 1 g in
  let g := gauge_add (call_series "rpc_in_flight" chain method) 1 g in
  (mkCallGuard chain method now, g).

Definition guard_drop (c : CallGuard) (now : Z) (g : Registry) : Registry :=
  let g := gauge_add (call_series "rpc_in_flight" (cg_chain c) (cg_method c)) (-1) g in
  histogram_record (call_series "rpc_call_duration_seconds" (cg_chain c) (cg_method c)) (now - cg_started c) g.

(** Concurrent calls: one enters, or one of those under way returns, is cancelled or fails. *)
Inductive GuardOp : Type :=
| GEnter (chain : string) (call : RpcCall)
| GLeave (i : nat).

Definition guard_op (now : Z) (op : GuardOp) (st : list CallGuard * Registry) : list CallGuard * Registry :=
  let '(live, g) := st in
  match op with
  | GEnter chain call => let '(c, g) := guard_new chain (method_name call) now g in (c :: live, g)
  | GLeave i => match live !! i with Some c => (delete i live, guard_drop c now g) | None => (live, g) end
  end.

Fixpoint guard_ops (ops : list (Z * GuardOp)) (st : list CallGuard * Registry) : list CallGuard * Registry :=
  match ops with [] => st | (now, op) :: ops => guard_ops ops (guard_op now op st) end.

(** * Retries ([retry.rs]) *)

Definition retry_series (name method reason : string) : Series := (name, [("method", method); ("reason", reason)]).

Section metered.
Context {W T : Type} (method : string) (op : W -> result string T * W).

(** [retry_loop] with its counters. *)
Fixpoint metered_loop (n : nat) (attempt delay_ms : Z) (s : W) (env : RetryEnv) (g : Registry)
  : outcome (result SourceError T) * W * RetryEnv * Registry :=
  match n with
  | O => (Panic, s, env, g)
  | S n' =>
      match op s with
      | (Ok v, s') => (Done (Ok v), s', env, g)
      | (Err e, s') =>
          let reason := error_reason e in
          if negb (is_transient e) || (attempt =? 5)
          then (Done (Err (Transport e)), s', env, counter_add (retry_series "rpc_failures_total" method reason) 1 g)
          else
            let g := counter_add (retry_series "rpc_retries_total" method reason) 1 g in
            let half := delay_ms / 2 in
            let '(j, st) := jitter_below (u64_add half 1) (jitter_state env) in
            let env' := mkRetryEnv st (u64_add half j :: sleeps env) in
            metered_loop n' (attempt + 1) (Z.min (u64_mul delay_ms 2) 4000) s' env' g
      end
  end.
End metered.

(** * The limiter's waits ([limiter.rs]) *)

Definition wait_series (name bucket : string) : Series := (name, [("bucket", bucket)]).

Definition record_wait (bucket : string) (waited : Z) (g : Registry) : Registry :=
  let g := histogram_record (wait_series "rate_limiter_wait_seconds" bucket) waited g in
  if 1 <=? waited / 1000000 then counter_add (wait_series "rate_limiter_throttled_total" bucket) 1 g else g.

(** How long the bucket kept the caller waiting is the environment's. *)
Definition acquire (waited : Z) (g : Registry) : Registry := record_wait "rps" waited g.

Definition acquire_cu_waited (l : Limiter) (units waited : Z) (g : Registry) : list Z * Registry :=
  (acquire_cu l units, match cu_cap l with None => g | Some _ => record_wait "cu" waited g end).

(** * The exporter ([crates/observability/src/lib.rs]) *)

(** In milliseconds. *)
Definition SECONDS_BUCKETS : list Z := [1; 5; 10; 25; 50; 100; 250; 500; 1000; 2500; 5000; 10000; 30000].
Definition BLOCKS_BUCKETS : list Z := [1; 8; 32; 128; 512; 2000; 8000].

Record PrometheusBuilder := mkPrometheusBuilder { pb_listener : option string; pb_buckets : list (string * list Z) }.

(** The exporter refuses an empty list of buckets. *)
Definition set_buckets_for_suffix (suffix : string) (buckets : list Z) (b : PrometheusBuilder) : result string PrometheusBuilder :=
  match buckets with
  | [] => Err "bucket bounds/quantiles cannot be empty"
  | _ => Ok (mkPrometheusBuilder (pb_listener b) (pb_buckets b ++ [(suffix, buckets)]))
  end.

Definition build_info_series (version git_sha : string) : Series := ("build_info", [("version", version); ("git_sha", git_sha)]).

Section install.
(** Binding the listener and installing the recorder; what the build was told. *)
Context (exporter_install : PrometheusBuilder -> result string ()) (version : string) (GIT_SHA : option string).

Definition record_build_info (g : Registry) : Registry :=
  gauge_set (build_info_series version (default "unknown" GIT_SHA)) 1 g.

Definition install (addr : string) : M Registry string () :=
  do b <- mlift (set_buckets_for_suffix "_seconds" SECONDS_BUCKETS (mkPrometheusBuilder (Some addr) []));
  do b <- mlift (set_buckets_for_suffix "_blocks" BLOCKS_BUCKETS b);
  do _ <- mlift (exporter_install b);
  fun g => (Ok tt, record_build_info g).
End install.

(** * Shutdown ([shutdown.rs]) *)

Inductive Signal : Type := SigInt | SigTerm | SigOther.

(** A branch of the [select!]: the signal arrived, or its handler could not be installed, in which case the
    branch ends at once. *)
Definition signal_branch (installed : bool) (is_it : Signal -> bool) (arrived : list Signal) : bool :=
  negb installed || existsb is_it arrived.

Definition shutdown_signal (ctrl_c_installed term_installed : bool) (arrived : list Signal) : bool :=
  signal_branch ctrl_c_installed (fun s => match s with SigInt => true | _ => false end) arrived
  || signal_branch term_installed (fun s => match s with SigTerm => true | _ => false end) arrived.

(** Whether the token is cancelled once [arrived] have come: the task behind it cancels it once and for all. *)
Definition shutdown_token (ctrl_c_installed term_installed : bool) (arrived : list Signal) : bool :=
  shutdown_signal ctrl_c_installed term_installed arrived.

(** [server.rs] has the same function for the drain of the query server. *)
Definition server_shutdown_signal (ctrl_c_installed term_installed : bool) (arrived : list Signal) : bool :=
  shutdown_signal ctrl_c_installed term_installed arrived.

(** * Theorems *)

Lemma counter_add_of s s' n g : counter_of s (counter_add s' n g) = counter_of s g + (if decide (s = s') then n else 0).
Proof.
  unfold counter_of, counter_add. cbn. destruct (decide (s = s')) as [->|Hne].
  - by rewrite lookup_insert_eq.
  - rewrite lookup_insert_ne by done. lia.
Qed.

Lemma gauge_add_of s s' n g : gauge_of s (gauge_add s' n g) = gauge_of s g + (if decide (s = s') then n else 0).
Proof.
  unfold gauge_of, gauge_add, gauge_set. cbn. destruct (decide (s = s')) as [->|Hne].
  - by rewrite lookup_insert_eq.
  - rewrite lookup_insert_ne by done. lia.
Qed.

Lemma record_length s s' v g :
  length (samples_of s (histogram_record s' v g)) = (length (samples_of s g) + if decide (s = s') then 1 else 0)%nat.
Proof.
  unfold samples_of, histogram_record. cbn. destruct (decide (s = s')) as [->|Hne].
  - rewrite lookup_insert_eq, Nat.add_1_r. done.
  - rewrite lookup_insert_ne by done. lia.
Qed.

(** The guards of a series. *)
Definition guards_on (chain method : string) (live : list CallGuard) : list CallGuard :=
  filter (fun c => (cg_chain c, cg_method c) = (chain, method)) live.

(** The gauge is the number of calls under way, and every call counted is under way or has its duration. *)
Definition accounted (st : list CallGuard * Registry) : Prop := forall chain method,
  let live := Z.of_nat (length (guards_on chain method st.1)) in
  gauge_of (call_series "rpc_in_flight" chain method) st.2 = live
  /\ counter_of (call_series "rpc_calls_total" chain method) st.2
     = live + Z.of_nat (length (samples_of (call_series "rpc_call_duration_seconds" chain method) st.2)).

Lemma call_series_if {A} n c m c' m' (x y : A) :
  (if decide (call_series n c m = call_series n c' m') then x else y) = if decide ((c', m') = (c, m)) then x else y.
Proof. unfold call_series. repeat case_decide; congruence. Qed.

Lemma guards_on_cons chain method c live :
  Z.of_nat (length (guards_on chain method (c :: live)))
  = Z.of_nat (length (guards_on chain method live)) + (if decide ((cg_chain c, cg_method c) = (chain, method)) then 1 else 0).
Proof. unfold guards_on. rewrite filter_cons. case_decide; cbn [length]; lia. Qed.

Lemma guards_on_delete chain method i c live : live !! i = Some c ->
  Z.of_nat (length (guards_on chain method (delete i live)))
  = Z.of_nat (length (guards_on chain method live)) - (if decide ((cg_chain c, cg_method c) = (chain, method)) then 1 else 0).
Proof.
  intros Hi. pose proof (guards_on_cons chain method c (delete i live)) as H.
  assert (length (guards_on chain method (c :: delete i live)) = length (guards_on chain method live)) as E.
  { unfold guards_on. apply Permutation_length, filter_Permutation. symmetry. by apply delete_Permutation. }
  lia.
Qed.

Lemma guard_op_accounted now op st : accounted st -> accounted (guard_op now op st).
Proof.
  destruct st as [live g]. intros H chain method. destruct (H chain method) as [H1 H2].
  destruct op as [chain' call|i]; cbn [guard_op].
  - unfold guard_new. cbn [fst snd] in *. rewrite guards_on_cons. cbn [cg_chain cg_method]. split.
    + rewrite gauge_add_of. change (gauge_of ?s (counter_add _ _ g)) with (gauge_of s g). rewrite H1.
      by rewrite call_series_if.
    + change (counter_of ?s (gauge_add _ _ ?g)) with (counter_of s g).
      change (samples_of ?s (gauge_add _ _ (counter_add _ _ g))) with (samples_of s g).
      rewrite counter_add_of, H2, call_series_if. lia.
  - destruct (live !! i) as [c|] eqn:Hi; [|done]. cbn [fst snd] in *. rewrite (guards_on_delete _ _ _ _ _ Hi).
    unfold guard_drop. split.
    + change (gauge_of ?s (histogram_record _ _ ?g)) with (gauge_of s g). rewrite gauge_add_of, H1.
      rewrite call_series_if. case_decide; lia.
    + change (counter_of ?s (histogram_record _ _ (gauge_add _ _ g))) with (counter_of s g).
      rewrite record_length. change (samples_of ?s (gauge_add _ _ g)) with (samples_of s g).
      rewrite H2, call_series_if. case_decide; lia.
Qed.

(** However calls overlap, the in-flight gauge of each endpoint is the number of calls under way, never below
    zero and back at zero when all have ended, and the call counter is those plus the durations recorded. *)
Theorem in_flight_exact (ops : list (Z * GuardOp)) : accounted (guard_ops ops ([], Registry_empty)).
Proof.
  assert (forall st, accounted st -> accounted (guard_ops ops st)) as H.
  { induction ops as [|[now op] ops IH]; intros st Hst; [done|]. cbn. by apply IH, guard_op_accounted. }
  apply H. by intros chain method.
Qed.

(** Every error that is retried has a reason of its own. *)
Lemma transient_reason e : is_transient e = true -> error_reason e <> "other".
Proof.
  unfold is_transient, error_reason. intros H E.
  destruct (contains _ "429"), (contains _ "too many requests"), (contains _ "limit"), (contains _ "timeout"),
    (contains _ "timed out"), (contains _ "503"), (contains _ "502"), (contains _ "connection"); done.
Qed.

(** The counters of a method, over the reasons. *)
Definition REASONS : list string := ["429"; "timeout"; "5xx"; "connection"; "other"].
Definition counted (name method : string) (g : Registry) : Z :=
  foldr (fun reason n => counter_of (retry_series name method reason) g + n) 0 REASONS.

Lemma counted_add name name' method e g : name <> name' ->
  counted name method (counter_add (retry_series name method (error_reason e)) 1 g) = counted name method g + 1
  /\ counted name' method (counter_add (retry_series name method (error_reason e)) 1 g) = counted name' method g.
Proof.
  intros Hne. assert (error_reason e ∈ REASONS) as Hr.
  { unfold error_reason. repeat case_match; repeat first [by left | right]. }
  revert Hr. generalize (error_reason e). intros reason Hr. unfold counted. cbn [foldr REASONS]. rewrite !counter_add_of.
  unfold retry_series. split.
  - repeat (apply elem_of_cons in Hr as [->|Hr]; [repeat case_decide; simplify_eq; lia|]). by apply not_elem_of_nil in Hr.
  - repeat case_decide; simplify_eq; lia.
Qed.

(** Counting changes nothing: the metered loop returns what the loop of [Retry] returns, the retries counted are the
    pauses taken, and a failure is counted exactly when an error is returned. *)
Theorem metered_retry_exact {W T} (method : string) (op : W -> result string T * W) (n : nat) (attempt delay_ms : Z)
    (s s' : W) (env env' : RetryEnv) (g g' : Registry) (o : outcome (result SourceError T)) :
  metered_loop method op n attempt delay_ms s env g = (o, s', env', g') ->
  retry_loop op n attempt delay_ms s env = (o, s', env')
  /\ counted "rpc_retries_total" method g' - counted "rpc_retries_total" method g
     = Z.of_nat (length (sleeps env')) - Z.of_nat (length (sleeps env))
  /\ counted "rpc_failures_total" method g' - counted "rpc_failures_total" method g
     = match o with Done (Err _) => 1 | _ => 0 end.
Proof.
  revert attempt delay_ms s env g. induction n as [|n IH]; intros attempt delay_ms s env g; cbn [metered_loop retry_loop].
  { intros [= <- <- <- <-]. split_and!; [done|lia|lia]. }
  destruct (op s) as [[v|e] s1]; [intros [= <- <- <- <-]; split_and!; [done|lia|lia]|].
  destruct (negb (is_transient e) || (attempt =? 5)).
  - intros [= <- <- <- <-]. destruct (counted_add "rpc_failures_total" "rpc_retries_total" method e g ltac:(done)) as [-> ->].
    split_and!; [done|lia|lia].
  - destruct (jitter_below _ _) as [j st]. intros (E & H1 & H2)%IH. split; [done|].
    destruct (counted_add "rpc_retries_total" "rpc_failures_total" method e g ltac:(done)) as [E1 E2].
    rewrite E1 in H1. rewrite E2 in H2. cbn [sleeps length] in H1. split; [lia|done].
Qed.

(** The set-up of the exporter fails only if the exporter itself does: bucket lists are accepted, ascending and
    positive. *)
Theorem install_fails_with_exporter (exporter_install : PrometheusBuilder -> result string ()) (version : string)
    (GIT_SHA : option string) (addr : string) (g : Registry) :
  StronglySorted Z.lt (0 :: SECONDS_BUCKETS) /\ StronglySorted Z.lt (0 :: BLOCKS_BUCKETS)
  /\ exists b, pb_listener b = Some addr /\ (pb_buckets b).*1 = ["_seconds"; "_blocks"]
     /\ install exporter_install version GIT_SHA addr g
        = match exporter_install b with
          | Ok _ => (Ok tt, record_build_info version GIT_SHA g)
          | Err e => (Err e, g)
          end.
Proof.
  split; [repeat (constructor; [|repeat constructor; lia]); constructor|].
  split; [repeat (constructor; [|repeat constructor; lia]); constructor|].
  exists (mkPrometheusBuilder (Some addr) [("_seconds", SECONDS_BUCKETS); ("_blocks", BLOCKS_BUCKETS)]).
  split; [done|]. split; [done|]. unfold install, mbind_, mlift. cbn. by destruct (exporter_install _).
Qed.

(** With both handlers in place the token is cancelled by the first SIGINT or SIGTERM, and stays cancelled. *)
Theorem shutdown_on_signal (arrived more : list Signal) :
  (shutdown_token true true arrived = true <-> SigInt ∈ arrived \/ SigTerm ∈ arrived)
  /\ (shutdown_token true true arrived = true -> shutdown_token true true (arrived ++ more) = true).
Proof.
  assert (forall l, shutdown_token true true l = true <-> SigInt ∈ l \/ SigTerm ∈ l) as H.
  { intros l. unfold shutdown_token, shutdown_signal, signal_branch. cbn [negb orb]. rewrite orb_true_iff, !existsb_exists.
    setoid_rewrite <- list_elem_of_In. split.
    - intros [(x & Hx & E)|(x & Hx & E)]; destruct x; try done; auto.
    - intros [Hx|Hx]; [left|right]; eauto. }
  split; [apply H|]. rewrite !H, !elem_of_app. tauto.
Qed.
