(* ===== verification/Encode.v ===== *)
(** Value framing of the write side ([crates/db/src/encode.rs]) and the bind-parameter chunking
    of [crates/db/src/repositories/mod.rs]. *)
From S2P Require Import Prelude Model Text.

(** [[len][bytes]...]; the length byte is [s.0.len() as u8]. *)
Definition frame_selectors (selectors : list bytes) : bytes :=
  flat_map (fun s => byte_of (Z.of_nat (length s)) :: s) selectors.

(** The release build: a truncated final frame ends the loop and is dropped (the
    [debug_assert!] is compiled out). Each round consumes the length byte, so the blob's length
    bounds the rounds. *)
Fixpoint unframe_go (fuel : nat) (blob : bytes) : list bytes :=
  match fuel, blob with
  | S f, l :: rest =>
      let len := Z.to_nat (byte_val l) in
      if (len <=? length rest)%nat then take len rest :: unframe_go f (drop len rest) else []
  | _, _ => []
  end.

Definition unframe_selectors (blob : bytes) : list bytes := unframe_go (length blob) blob.

(** Rows per multi-row INSERT under the 65535 bind-parameter cap. *)
Definition chunk_rows (cols : Z) : Z := Z.max (65535 / Z.max cols 1) 1.

(** [slice::chunks(n)]; every round takes at least one element, so the length bounds them. *)
Fixpoint chunks_go {A} (fuel n : nat) (l : list A) : list (list A) :=
  match fuel, l with
  | S f, _ :: _ => take n l :: chunks_go f n (drop n l)
  | _, _ => []
  end.

Definition chunks {A} (n : nat) (l : list A) : list (list A) := chunks_go (length l) n l.

(** * Lemmas *)

Definition framable (s : bytes) : Prop := (length s < 256)%nat.

Lemma byte_val_len s : framable s -> Z.to_nat (byte_val (byte_of (Z.of_nat (length s)))) = length s.
Proof. unfold framable. intros H. rewrite byte_val_of; lia. Qed.

Lemma unframe_go_frame fuel sels tail :
  Forall framable sels -> (length (frame_selectors sels ++ tail) <= fuel)%nat ->
  exists f, unframe_go fuel (frame_selectors sels ++ tail) = sels ++ unframe_go f tail
    /\ (length tail <= f)%nat.
Proof.
  intros Hs. revert fuel. induction Hs as [|s sels Hs _ IH]; intros fuel Hf; [by exists fuel|].
  change (frame_selectors (s :: sels))
    with (byte_of (Z.of_nat (length s)) :: s ++ frame_selectors sels) in *.
  rewrite <- app_comm_cons, <- app_assoc in *.
  destruct fuel as [|fuel]; [cbn in Hf; lia|]. cbn [unframe_go].
  rewrite byte_val_len by done. rewrite length_app.
  destruct (Nat.leb_spec (length s) (length s + length (frame_selectors sels ++ tail))); [|lia].
  rewrite take_app_length, drop_app_length.
  destruct (IH fuel) as (f & -> & Hl).
  - cbn in Hf. rewrite length_app in Hf. lia.
  - by exists f.
Qed.

(** Selectors survive the store: whatever list of selectors is framed into the [bytea] column
    (each shorter than 256 bytes), reading it back gives the same list, and a truncated frame
    after them is dropped without touching them. *)
Theorem unframe_frame_selectors (sels : list bytes) (len : byte) (partial : bytes) :
  Forall framable sels ->
  unframe_selectors (frame_selectors sels) = sels
  /\ ((length partial < Z.to_nat (byte_val len))%nat ->
      unframe_selectors (frame_selectors sels ++ len :: partial) = sels).
Proof.
  intros Hs. split.
  - destruct (unframe_go_frame (length (frame_selectors sels)) sels [] Hs) as (f & E & _).
    + by rewrite app_nil_r.
    + rewrite app_nil_r in E. unfold unframe_selectors. rewrite E. destruct f; apply app_nil_r.
  - intros Hp. unfold unframe_selectors.
    destruct (unframe_go_frame (length (frame_selectors sels ++ len :: partial)) sels
                (len :: partial) Hs ltac:(lia)) as (f & -> & _).
    destruct f; cbn [unframe_go]; [apply app_nil_r|].
    destruct (Nat.leb_spec (Z.to_nat (byte_val len)) (length partial)); [lia|apply app_nil_r].
Qed.

Lemma unframe_frame_selectors_witness :
  let sels := [replicate 32 (byte_of 1); replicate 8 (byte_of 2)] in
  unframe_selectors (frame_selectors sels) = sels
  /\ ((length [byte_of 7] < Z.to_nat (byte_val (byte_of 32)))%nat ->
      unframe_selectors (frame_selectors sels ++ byte_of 32 :: [byte_of 7]) = sels).
Proof.
  apply unframe_frame_selectors. repeat constructor; unfold framable; cbn; lia.
Defined.

Lemma unframe_selectors_wf sels : Forall framable sels -> unframe_selectors (frame_selectors sels) = sels.
Proof.
  intros Hs. destruct (unframe_go_frame (length (frame_selectors sels)) sels [] Hs) as (f & E & _).
  - by rewrite app_nil_r.
  - rewrite app_nil_r in E. unfold unframe_selectors. rewrite E. destruct f; apply app_nil_r.
Qed.

Lemma chunks_go_concat {A} fuel n (l : list A) :
  (0 < n)%nat -> (length l <= fuel)%nat -> concat (chunks_go fuel n l) = l.
Proof.
  intros Hn. revert l. induction fuel as [|f IH]; intros l Hl.
  - by destruct l; [|cbn in Hl; lia].
  - destruct l as [|x l]; [done|]. cbn [chunks_go concat]. rewrite IH.
    + apply take_drop.
    + rewrite length_drop. cbn in *. lia.
Qed.

Lemma chunks_concat {A} n (l : list A) : (0 < n)%nat -> concat (chunks n l) = l.
Proof. intros. by apply chunks_go_concat. Qed.

Lemma chunks_go_sizes {A} fuel n (l : list A) :
  (0 < n)%nat -> Forall (fun c => (0 < length c <= n)%nat) (chunks_go fuel n l).
Proof.
  intros Hn. revert l. induction fuel as [|f IH]; intros l; [constructor|].
  destruct l as [|x l]; [constructor|]. cbn [chunks_go]. constructor; [|apply IH].
  rewrite length_take. cbn. lia.
Qed.

Lemma chunk_rows_pos cols : 0 < chunk_rows cols.
Proof. unfold chunk_rows. lia. Qed.

(** C40: the chunked multi-row INSERT never exceeds the 65535 bind parameters of the wire protocol
    for any table of up to 65535 columns, and the chunks are exactly the rows in order. *)
Theorem chunk_rows_under_bind_cap {A} (cols : Z) (rows : list A) :
  1 <= cols <= 65535 ->
  concat (chunks (Z.to_nat (chunk_rows cols)) rows) = rows
  /\ Forall (fun c => Z.of_nat (length c) * cols <= 65535)
       (chunks (Z.to_nat (chunk_rows cols)) rows).
Proof.
  intros Hc. pose proof (chunk_rows_pos cols) as Hp. split; [apply chunks_concat; lia|].
  eapply List.Forall_impl; [|apply chunks_go_sizes; lia]. cbn. intros c [_ Hl].
  assert (chunk_rows cols * cols <= 65535); [|nia].
  unfold chunk_rows. rewrite (Z.max_l cols 1) by lia.
  assert (1 <= 65535 / cols) by (apply Z.div_le_lower_bound; lia).
  rewrite Z.max_l by lia. pose proof (Z.mul_div_le 65535 cols). lia.
Qed.

Lemma chunk_rows_under_bind_cap_witness :
  concat (chunks (Z.to_nat (chunk_rows 10)) (replicate 20 0)) = replicate 20 0
  /\ Forall (fun c => Z.of_nat (length c) * 10 <= 65535)
       (chunks (Z.to_nat (chunk_rows 10)) (replicate 20 0)).
Proof. apply chunk_rows_under_bind_cap. lia. Defined.
