(* ===== verification/Store.v ===== *)
(** The Postgres state behind the repositories and the meaning of the SQL statements the [db]
    crate issues: the fixed tables of [crates/db/src/base_schema.rs], the typed tables the
    migrator creates, statements and transactions with their failures. *)
From S2P Require Import Prelude Model Text.

(** * Errors ([crates/db/src/error.rs]) *)

Inductive DbError : Type :=
| Sqlx (msg : string)
| EncodeErr (msg : string).

Definition domain_of_db (e : DbError) : DomainError :=
  match e with
  | Sqlx m => EStorage ("database error: " +:+ m)
  | EncodeErr m => EStorage ("encode error: " +:+ m)
  end.

(** * Rows *)

(** [bigint] columns hold the [i64] the code binds. *)
Record BlockRow := mkBlockRow { b_hash : bytes; b_parent_hash : bytes; b_time : Z }.

Record RawRow := mkRawRow {
  rw_block_hash : bytes;
  rw_address : bytes;
  rw_selectors : bytes;
  rw_data : bytes;
  rw_tx_id : bytes;
  rw_tx_index : Z;
  rw_inner_index : option Z
}.

Record QueueRow := mkQueueRow {
  wq_id : Z;
  wq_chain_id : Z;
  wq_from : Z;
  wq_to : Z;
  wq_kind : string;
  wq_epoch : Z;
  wq_locked_at : option Z;
  wq_lease_seq : Z
}.

(** A row of a typed table: the meta columns and the decoded columns the INSERT named (the others
    are NULL). *)
Record TypedRow := mkTypedRow {
  tr_chain_id : Z;
  tr_height : Z;
  tr_block_hash : bytes;
  tr_block_time : option Z;
  tr_tx_id : bytes;
  tr_idx : option Z;
  tr_fields : list (string * EventValue)
}.

(** The two primary keys the schemas declare: [(chain_id, height, idx)] and
    [(chain_id, tx_id)]. *)
Inductive PkKind : Type := PkEvent | PkTx.
Definition Key : Type := (Z * Z * Z) + (Z * bytes).

Definition key_of (pk : PkKind) (r : TypedRow) : option Key :=
  match pk with
  | PkEvent => (fun i => inl (tr_chain_id r, tr_height r, i)) <$> tr_idx r
  | PkTx => Some (inr (tr_chain_id r, tr_tx_id r))
  end.

Record Table := mkTable {
  t_pk : PkKind;
  t_cols : list (string * string);  (* the columns with their Postgres types *)
  t_fk : bool;  (* (chain_id, tx_id) references transactions, ON DELETE CASCADE *)
  t_rows : gmap Key TypedRow
}.

Record Db := mkDb {
  db_blocks : gmap (Z * Z) BlockRow;
  db_cursors : gmap Z (Z * bytes);
  db_raw : gmap (Z * Z * Z) RawRow;
  db_queue : list QueueRow;
  db_tables : gmap string Table
}.

Definition set_blocks (b : gmap (Z * Z) BlockRow) (d : Db) : Db :=
  mkDb b (db_cursors d) (db_raw d) (db_queue d) (db_tables d).
Definition set_cursors (c : gmap Z (Z * bytes)) (d : Db) : Db :=
  mkDb (db_blocks d) c (db_raw d) (db_queue d) (db_tables d).
Definition set_raw (r : gmap (Z * Z * Z) RawRow) (d : Db) : Db :=
  mkDb (db_blocks d) (db_cursors d) r (db_queue d) (db_tables d).
Definition set_queue (q : list QueueRow) (d : Db) : Db :=
  mkDb (db_blocks d) (db_cursors d) (db_raw d) q (db_tables d).
Definition set_tables (t : gmap string Table) (d : Db) : Db :=
  mkDb (db_blocks d) (db_cursors d) (db_raw d) (db_queue d) t.
Definition set_rows (r : gmap Key TypedRow) (t : Table) : Table :=
  mkTable (t_pk t) (t_cols t) (t_fk t) r.

(** * Statements and transactions *)

(** A statement can be rejected, or be executed and its reply lost. *)
Inductive Fault : Type := NoFault | Reject | LostReply.

(** What the pool talks to: the committed state, the [bigserial] sequence (which no rollback
    resets), the server clock in seconds, and the faults still to come (none once the list is
    used up). *)
Record World := mkWorld {
  w_db : Db;
  w_seq : Z;
  w_now : Z;
  w_faults : list Fault
}.

Definition with_db (d : Db) (w : World) : World := mkWorld d (w_seq w) (w_now w) (w_faults w).
Definition upd_db (f : Db -> Db) (w : World) : World := with_db (f (w_db w)) w.

Definition next_fault (w : World) : Fault * World :=
  match w_faults w with
  | [] => (NoFault, w)
  | f :: fs => (f, mkWorld (w_db w) (w_seq w) (w_now w) fs)
  end.

Definition DbM (A : Type) : Type := M World DbError A.

(** One round trip: [run] is what the statement does, [None] a violated constraint. *)
Definition sql {A} (run : World -> option (A * World)) : DbM A := fun w =>
  let '(f, w1) := next_fault w in
  match f, run w1 with
  | NoFault, Some (a, w2) => (Ok a, w2)
  | LostReply, Some (_, w2) => (Err (Sqlx "connection lost"), w2)
  | NoFault, None => (Err (Sqlx "statement failed"), w1)
  | LostReply, None | Reject, _ => (Err (Sqlx "statement failed"), w1)
  end.

(** [pool.begin] ... [tx.commit]: a statement that fails drops the transaction, and what it wrote
    is undone; a commit whose reply is lost took place. *)
Definition in_tx {E A} (conv : DbError -> E) (body : M World E A) : M World E A := fun w =>
  match next_fault w with
  | (NoFault, w1) =>
      match body w1 with
      | (Err e, w2) => (Err e, with_db (w_db w) w2)
      | (Ok a, w2) =>
          match next_fault w2 with
          | (NoFault, w3) => (Ok a, w3)
          | (LostReply, w3) => (Err (conv (Sqlx "connection lost")), w3)
          | (Reject, w3) => (Err (conv (Sqlx "commit failed")), with_db (w_db w) w3)
          end
      end
  | (_, w1) => (Err (conv (Sqlx "begin failed")), w1)
  end.

(** Reject unsafe table and column identifiers. *)
Definition safe_ident (name : string) : result DbError string :=
  if is_valid_ident name then Ok name else Err (EncodeErr ("unsafe identifier: " +:+ name)).

(** * Runs of statements *)

Lemma next_fault_db w : w_db (next_fault w).2 = w_db w.
Proof. unfold next_fault. by destruct (w_faults w). Qed.

Lemma next_fault_seq w : w_seq (next_fault w).2 = w_seq w.
Proof. unfold next_fault. by destruct (w_faults w). Qed.

Lemma next_fault_now w : w_now (next_fault w).2 = w_now w.
Proof. unfold next_fault. by destruct (w_faults w). Qed.

(** The world is that of [w] but for the faults already met. *)
Definition same_state (w w' : World) : Prop :=
  w_db w' = w_db w /\ w_seq w' = w_seq w /\ w_now w' = w_now w.

Lemma next_fault_same w f w' : next_fault w = (f, w') -> same_state w w'.
Proof.
  intros E. pose proof (next_fault_db w). pose proof (next_fault_seq w).
  pose proof (next_fault_now w). rewrite E in *. done.
Qed.

Lemma sql_Ok {A} (run : World -> option (A * World)) w a w' :
  sql run w = (Ok a, w') <-> exists w1, next_fault w = (NoFault, w1) /\ run w1 = Some (a, w').
Proof.
  unfold sql. destruct (next_fault w) as [f w1]. split.
  - intros H. exists w1. destruct f, (run w1) as [[]|]; try discriminate. by injection H as -> ->.
  - by intros (? & [= -> <-] & ->).
Qed.

Lemma sql_Err {A} (run : World -> option (A * World)) w e w' :
  sql run w = (Err e, w') ->
  same_state w w' \/ exists w1 a, next_fault w = (LostReply, w1) /\ run w1 = Some (a, w').
Proof.
  unfold sql. destruct (next_fault w) as [f w1] eqn:Ef. apply next_fault_same in Ef as Hs.
  destruct f, (run w1) as [[a w2]|] eqn:Er; intros [= <- <-]; eauto.
Qed.

Lemma in_tx_Ok {E A} conv (body : M World E A) w a w' :
  in_tx conv body w = (Ok a, w') ->
  exists w1 w2, same_state w w1 /\ body w1 = (Ok a, w2) /\ same_state w2 w'.
Proof.
  unfold in_tx. destruct (next_fault w) as [[| |] w1] eqn:E1; try done.
  destruct (body w1) as [[a'|e] w2] eqn:Eb; [|done].
  destruct (next_fault w2) as [[| |] w3] eqn:E3; try done. intros [= -> <-].
  exists w1, w2. split_and!; [by eapply next_fault_same|done|by eapply next_fault_same].
Qed.

(** A failed transaction left the tables as they were, or its commit took place and only the reply
    was lost. *)
Lemma in_tx_Err {E A} conv (body : M World E A) w e w' :
  in_tx conv body w = (Err e, w') ->
  w_db w' = w_db w
  \/ exists w1 w2 a, same_state w w1 /\ body w1 = (Ok a, w2) /\ same_state w2 w'.
Proof.
  unfold in_tx. destruct (next_fault w) as [[| |] w1] eqn:E1.
  - destruct (body w1) as [[a|e'] w2] eqn:Eb; [|by intros [= _ <-]; left].
    destruct (next_fault w2) as [[| |] w3] eqn:E3; [done|by intros [= _ <-]; left|].
    intros [= _ <-]. right. exists w1, w2, a.
    split_and!; [by eapply next_fault_same|done|by eapply next_fault_same].
  - intros [= _ <-]. left. by destruct (next_fault_same _ _ _ E1).
  - intros [= _ <-]. left. by destruct (next_fault_same _ _ _ E1).
Qed.

Lemma in_tx_calm {E A} conv (body : M World E A) w a w' :
  w_faults w = [] -> body w = (Ok a, w') -> w_faults w' = [] ->
  in_tx conv body w = (Ok a, w').
Proof. intros H Hb H'. unfold in_tx, next_fault. rewrite H, Hb, H'. done. Qed.

Lemma sql_calm {A} (run : World -> option (A * World)) w a w' :
  w_faults w = [] -> run w = Some (a, w') -> sql run w = (Ok a, w').
Proof. intros H Hr. unfold sql, next_fault. by rewrite H, Hr. Qed.

(** A call that, when it returns, has updated the tables by [f] and nothing else. *)
Definition updates {E A} (m : M World E A) (f : Db -> Db) : Prop :=
  forall w a w', m w = (Ok a, w') ->
    w_db w' = f (w_db w) /\ w_seq w' = w_seq w /\ w_now w' = w_now w.

Lemma updates_bind {E A B} (m : M World E A) (k : A -> M World E B) f g :
  updates m f -> (forall a, updates (k a) g) -> updates (mbind_ m k) (fun d => g (f d)).
Proof.
  intros Hm Hk w b w' H. apply mbind_Ok in H as (a & w1 & H1 & H2).
  apply Hm in H1 as (E1 & E2 & E3). apply Hk in H2 as (F1 & F2 & F3).
  by rewrite F1, F2, F3, E1, E2, E3.
Qed.

Lemma updates_ret {E A} (a : A) : updates (mret_ (E:=E) a) (fun d => d).
Proof. intros w a' w' [-> ->]%mret_Ok. done. Qed.

Lemma updates_mfold {E A B} (body : B -> A -> M World E B) (f : A -> Db -> Db) l acc :
  (forall acc x, updates (body acc x) (f x)) ->
  updates (mfold body acc l) (fun d => fold_left (fun d x => f x d) l d).
Proof.
  intros Hb. revert acc. induction l as [|x l IH]; intros acc; [apply updates_ret|].
  cbn. apply (updates_bind _ _ (f x)); [apply Hb|]. intros a. apply IH.
Qed.

Lemma updates_ext {E A} (m : M World E A) f g :
  (forall d, f d = g d) -> updates m f -> updates m g.
Proof. intros Hfg Hm w a w' H. rewrite <- Hfg. by eapply Hm. Qed.

Lemma updates_sql {A} (run : World -> option (A * World)) f :
  (forall w a w', run w = Some (a, w') ->
     w_db w' = f (w_db w) /\ w_seq w' = w_seq w /\ w_now w' = w_now w) ->
  updates (sql run) f.
Proof.
  intros Hr w a w' (w1 & (Ed & Es & En)%next_fault_same & H)%sql_Ok.
  apply Hr in H as (F1 & F2 & F3). by rewrite F1, F2, F3, Ed, Es, En.
Qed.

Lemma updates_map_err {E F A} (g : E -> F) (m : M World E A) f :
  updates m f -> updates (mmap_err g m) f.
Proof. intros Hm w a w' H%mmap_err_Ok. by eapply Hm. Qed.

Lemma updates_in_tx {E A} conv (body : M World E A) f :
  updates body f -> updates (in_tx conv body) f.
Proof.
  intros Hb w a w' (w1 & w2 & (E1 & E2 & E3) & H & (E4 & E5 & E6))%in_tx_Ok.
  apply Hb in H as (F1 & F2 & F3). rewrite E4, E5, E6, F1, F2, F3, E1, E2, E3. done.
Qed.

(** Committed in full or not at all: a call in a transaction that reports an error either changed
    no table or made the whole update. *)
Lemma in_tx_all_or_nothing {E A} conv (body : M World E A) f w e w' :
  updates body f -> in_tx conv body w = (Err e, w') ->
  w_db w' = w_db w \/ w_db w' = f (w_db w).
Proof.
  intros Hb [H|(w1 & w2 & a & (E1 & _) & H & (E4 & _))]%in_tx_Err; [by left|right].
  apply Hb in H as (F1 & _). by rewrite E4, F1, E1.
Qed.

(** ** The sequence behind the queue's ids never goes back, whatever fails. *)

Definition seq_mono {E A} (m : M World E A) : Prop := forall w r w', m w = (r, w') -> w_seq w <= w_seq w'.

Lemma seq_mono_ret {E A} (a : A) : seq_mono (mret_ (E:=E) a).
Proof. by intros w r w' [= _ <-]. Qed.

Lemma seq_mono_lift {E A} (x : result E A) : seq_mono (mlift x).
Proof. by intros w r w' [= _ <-]. Qed.

Lemma seq_mono_bind {E A B} (m : M World E A) (k : A -> M World E B) :
  seq_mono m -> (forall a, seq_mono (k a)) -> seq_mono (mbind_ m k).
Proof.
  intros Hm Hk w r w' H. unfold mbind_ in H. destruct (m w) as [[a|e] w1] eqn:E1; apply Hm in E1.
  - apply Hk in H. lia.
  - injection H as _ <-. lia.
Qed.

Lemma seq_mono_map_err {E F A} (g : E -> F) (m : M World E A) : seq_mono m -> seq_mono (mmap_err g m).
Proof. intros Hm w r w' H. unfold mmap_err in H. destruct (m w) eqn:E1. injection H as _ <-. by eapply Hm. Qed.

Lemma seq_mono_mfold {E A B} (body : B -> A -> M World E B) acc l :
  (forall acc x, seq_mono (body acc x)) -> seq_mono (mfold body acc l).
Proof.
  intros Hb. revert acc. induction l as [|x l IH]; intros acc; [apply seq_mono_ret|]. cbn. by apply seq_mono_bind.
Qed.

Lemma seq_mono_mfor {E A} (l : list A) (body : A -> M World E ()) :
  (forall x, seq_mono (body x)) -> seq_mono (mfor l body).
Proof. intros Hb. induction l as [|x l IH]; [apply seq_mono_ret|]. cbn. by apply seq_mono_bind. Qed.

Lemma seq_mono_sql {A} (run : World -> option (A * World)) :
  (forall w a w', run w = Some (a, w') -> w_seq w <= w_seq w') -> seq_mono (sql run).
Proof.
  intros Hr w r w' H. unfold sql in H. destruct (next_fault w) as [f w1] eqn:Ef.
  apply next_fault_same in Ef as (_ & S1 & _).
  destruct f, (run w1) as [[a w2]|] eqn:E1; injection H as _ <-; try apply Hr in E1; lia.
Qed.

Lemma seq_mono_in_tx {E A} conv (body : M World E A) : seq_mono body -> seq_mono (in_tx conv body).
Proof.
  intros Hb w r w' H. unfold in_tx in H. destruct (next_fault w) as [f w1] eqn:Ef.
  apply next_fault_same in Ef as (_ & S1 & _).
  destruct f; [|injection H as _ <-; lia..]. destruct (body w1) as [[a|e] w2] eqn:Eb; apply Hb in Eb.
  - destruct (next_fault w2) as [g w3] eqn:Eg. apply next_fault_same in Eg as (_ & S3 & _).
    destruct g; injection H as _ <-; cbn; lia.
  - injection H as _ <-. cbn. lia.
Qed.

#[export] Hint Resolve seq_mono_ret seq_mono_lift seq_mono_bind seq_mono_map_err seq_mono_mfold seq_mono_mfor seq_mono_in_tx : t0.
