(* ===== verification/Query.v ===== *)
(** The read side ([crates/db-query]): SQL construction and keyset pagination.  A
    statement is kept with its parts; [select_text] is the text sent, [eval_select] what Postgres
    returns for it. *)
From S2P Require Import Prelude Model Text Schema Store.

(** * Errors *)

Inductive QueryError : Type :=
| QSqlx (msg : string)
| QInvalid (msg : string).

Definition domain_of_query (e : QueryError) : DomainError :=
  match e with
  | QInvalid m => EInvalid m
  | QSqlx m => EStorage ("database error: " +:+ m)
  end.

(** * Keyset cursor ([pagination.rs]) *)

Definition format_cursor (height idx : Z) : string := show height +:+ ":" +:+ show idx.

Definition parse_cursor (c : string) : result QueryError (Z * Z) :=
  let bad := QInvalid "bad cursor" in
  let? hi := ok_or (split_once ":" (to_list c)) bad in
  let? h := ok_or (parse_i64 (of_list hi.1)) bad in
  let? i := ok_or (parse_i64 (of_list hi.2)) bad in
  Ok (h, i).

(** * Builder ([builder.rs]) *)

Definition meta_col_type (name : string) : option ColumnType :=
  if bool_decide (name ∈ ["chain_id"; "height"; "idx"]) then Some CInt64
  else if String.eqb name "block_time" then Some CTimestamp
  else if bool_decide (name ∈ ["block_hash"; "tx_id"]) then Some CBytes
  else None.

Definition AUX_TABLES : list string := ["transactions"; "receipts"].

Definition row_json (alias : string) (cols : list (string * ColumnType)) (has_idx : bool) : string :=
  let parts :=
    ["'chain_id', " +:+ alias +:+ ".chain_id";
     "'height', " +:+ alias +:+ ".height";
     "'block_hash', '0x' || encode(" +:+ alias +:+ ".block_hash, 'hex')";
     "'block_time', " +:+ alias +:+ ".block_time";
     "'tx_id', '0x' || encode(" +:+ alias +:+ ".tx_id, 'hex')"]
    ++ (if has_idx then ["'idx', " +:+ alias +:+ ".idx"] else [])
    ++ ((fun nt => "'" +:+ nt.1 +:+ "', " +:+ json_projection alias nt.1 nt.2) <$> cols) in
  "jsonb_build_object(" +:+ join ", " parts +:+ ")".

Inductive Bind : Type :=
| BInt (z : Z)
| BBytes (b : bytes)
| BBool (b : bool)
| BText (s : string).

Definition safe_table (name : string) : result QueryError string :=
  if is_valid_ident name then Ok name else Err (QInvalid ("bad table name: " +:+ name)).

Definition op_sql (op : FilterOp) : string :=
  match op with
  | OpEq => "="
  | OpNe => "<>"
  | OpGt => ">"
  | OpGte => ">="
  | OpLt => "<"
  | OpLte => "<="
  end.

(** [str::parse::<bool>]. *)
Definition parse_bool (s : string) : option bool :=
  if String.eqb s "true" then Some true else if String.eqb s "false" then Some false else None.

(** [Panic] is that of [hex_decode]. *)
Definition bind_value (ty : ColumnType) (raw : string) : outcome (result QueryError (string * Bind)) :=
  let cast := cast_suffix ty in
  match ty with
  | CInt64 => Done (let? z := ok_or (parse_i64 raw) (QInvalid "expected an integer") in Ok (cast, BInt z))
  | CBool => Done (let? b := ok_or (parse_bool raw) (QInvalid "expected a boolean") in Ok (cast, BBool b))
  | CAddress | CBytes =>
      match hex_decode raw with
      | Panic => Panic
      | Done o => Done (let? b := ok_or o (QInvalid "expected 0x-hex bytes") in Ok (cast, BBytes b))
      end
  | CUInt _ | CInt _ | CTimestamp | CUtf8 => Done (Ok (cast, BText raw))
  | CJson => Done (Err (QInvalid "jsonb columns are not filterable"))
  end.

(** * The repository ([lib.rs]) *)

(** A filter predicate: [t."col" op $n cast], with its bind. *)
Record Cond := mkCond { cd_column : string; cd_op : FilterOp; cd_cast : string; cd_bind : Bind }.

(** How Postgres answers a statement with the predicates: its error (a text that its cast refuses, a failure of the
    database), or which rows each predicate holds of. *)
Record Postgres := mkPostgres { pg_error : list Cond -> option string; pg_holds : Cond -> TypedRow -> bool }.

(** A nested aux object: alias, table, key and columns. *)
Record Nested := mkNested { ns_alias : string; ns_table : string; ns_key : string; ns_cols : list (string * ColumnType) }.

Record Select := mkSelect {
  se_table : string;
  se_cols : list (string * ColumnType);
  se_nested : list Nested;
  se_conds : list Cond;
  se_after : option (Z * Z);
  se_desc : bool;
  se_limit : Z
}.

Section repo.
(** Table name to its decoded columns. *)
Context (tables : gmap string (list (string * ColumnType))).

Definition col_type (table col : string) : option ColumnType :=
  match meta_col_type col with
  | Some t => Some t
  | None =>
      cols ← tables !! table;
      nt ← snd <$> list_find (fun nt : string * ColumnType => nt.1 = col) cols;
      Some nt.2
  end.

Definition validate_table (spec : QuerySpec) : result DomainError string :=
  let? table := res_map_err domain_of_query (safe_table (q_table spec)) in
  if negb (table_has_idx table) then
    Err (EInvalid "receipts are queried via their transaction, not standalone")
  else if negb (bool_decide (is_Some (tables !! table))) then
    Err (EInvalid ("unknown table '" +:+ table +:+ "'"))
  else Ok table.

Definition build_filter (table : string) (f : Filter) : result DomainError Cond :=
  let? ty := ok_or (col_type table (f_column f))
               (EInvalid ("unknown filter column '" +:+ f_column f +:+ "'")) in
  match bind_value ty (f_value f) with
  | Panic => Err panicked
  | Done r => let? cb := res_map_err domain_of_query r in Ok (mkCond (f_column f) (f_op f) cb.1 cb.2)
  end.

Definition build_filters (table : string) (filters : list Filter) : result DomainError (list Cond) :=
  res_map (build_filter table) filters.

(** [spec.first.clamp(1, 1000)]. *)
Definition clamp_first (first : Z) : Z := Z.max 1 (Z.min first 1000).

Definition nested_of (table : string) (spec : QuerySpec) : list Nested :=
  if bool_decide (table ∈ AUX_TABLES) then []
  else
    omap (fun x : (string * string * string) * bool =>
      let '((alias, aux, key), include) := x in
      if include then mkNested alias aux key <$> tables !! aux else None)
      [(("tx", "transactions", "transaction"), q_include_tx spec);
       (("rc", "receipts", "receipt"), q_include_receipt spec)].

(** The statement of [query]. *)
Definition query_select (spec : QuerySpec) : result DomainError Select :=
  let? table := validate_table spec in
  let cols := default [] (tables !! table) in
  let? conds := build_filters table (q_filters spec) in
  let? after := match q_after spec with
                | None => Ok None
                | Some c => let? k := res_map_err domain_of_query (parse_cursor c) in Ok (Some k)
                end in
  Ok (mkSelect table cols (nested_of table spec) conds after (q_descending spec) (clamp_first (q_first spec) + 1)).

(** ** Text *)

Definition cond_text (n : nat) (c : Cond) : string :=
  "t." +:+ dq +:+ cd_column c +:+ dq +:+ " " +:+ op_sql (cd_op c) +:+ " $" +:+ show (Z.of_nat n + 1) +:+ cd_cast c.

Definition where_text (conds : list string) : string :=
  match conds with [] => EmptyString | _ => " WHERE " +:+ join " AND " conds end.

Definition nested_text (n : Nested) : string :=
  "'" +:+ ns_key n +:+ "', CASE WHEN " +:+ ns_alias n +:+ ".tx_id IS NULL THEN NULL ELSE "
  +:+ row_json (ns_alias n) (ns_cols n) (table_has_idx (ns_table n)) +:+ " END".

Definition join_text (n : Nested) : string :=
  " LEFT JOIN " +:+ ns_table n +:+ " " +:+ ns_alias n +:+ " ON " +:+ ns_alias n +:+ ".chain_id = t.chain_id AND "
  +:+ ns_alias n +:+ ".tx_id = t.tx_id".

Definition select_text (s : Select) : string :=
  let row := row_json "t" (se_cols s) true
             +:+ match se_nested s with
                 | [] => EmptyString
                 | ns => " || jsonb_build_object(" +:+ join ", " (nested_text <$> ns) +:+ ")"
                 end in
  let n := length (se_conds s) in
  let conds := imap cond_text (se_conds s)
               ++ match se_after s with
                  | None => []
                  | Some _ => ["(t.height, t.idx) " +:+ (if se_desc s then "<" else ">") +:+ " ($"
                               +:+ show (Z.of_nat n + 1) +:+ ", $" +:+ show (Z.of_nat n + 2) +:+ ")"]
                  end in
  "SELECT (" +:+ row +:+ ")::text AS j, t.height, t.idx FROM " +:+ se_table s +:+ " t"
  +:+ join EmptyString (join_text <$> se_nested s) +:+ where_text conds
  +:+ " ORDER BY " +:+ (if se_desc s then "t.height DESC, t.idx DESC" else "t.height, t.idx")
  +:+ " LIMIT " +:+ show (se_limit s).

Definition select_binds (s : Select) : list Bind :=
  (cd_bind <$> se_conds s) ++ match se_after s with None => [] | Some (b, l) => [BInt b; BInt l] end.

(** ** Meaning *)

(** The database, and the JSON text it projects. *)
Context (pg : Postgres) (project : list (string * ColumnType) -> list Nested -> TypedRow -> string).

(** The statement is sent: [QueryError::Sqlx]. *)
Definition pg_answer (conds : list Cond) : result DomainError () :=
  match pg_error pg conds with
  | Some msg => Err (domain_of_query (QSqlx msg))
  | None => Ok tt
  end.

Definition row_pos (r : TypedRow) : Z * Z := (tr_height r, default 0 (tr_idx r)).

(** [(a.1, a.2) < (b.1, b.2)] and [<=]. *)
Definition pos_lt (a b : Z * Z) : bool := (a.1 <? b.1) || ((a.1 =? b.1) && (a.2 <? b.2)).
Definition pos_le (a b : Z * Z) : bool := (a.1 <? b.1) || ((a.1 =? b.1) && (a.2 <=? b.2)).

(** [ORDER BY], ascending or descending. *)
Definition row_before (desc : bool) (a b : TypedRow) : Prop :=
  (if desc then pos_le (row_pos b) (row_pos a) else pos_le (row_pos a) (row_pos b)) = true.

#[export] Instance row_before_dec desc : RelDecision (row_before desc).
Proof. intros a b. unfold row_before. apply _. Defined.

Definition past_cursor (s : Select) (r : TypedRow) : bool :=
  match se_after s with
  | None => true
  | Some k => if se_desc s then pos_lt (row_pos r) k else pos_lt k (row_pos r)
  end.

Definition matches (conds : list Cond) (r : TypedRow) : bool := forallb (fun c => pg_holds pg c r) conds.

(** The aux joins match at most one row each ([chain_id, tx_id] is their key), so they never
    multiply rows. *)
Definition eval_select (rows : list TypedRow) (s : Select) : list TypedRow :=
  take (Z.to_nat (se_limit s))
    (merge_sort (row_before (se_desc s))
       (filter (fun r => matches (se_conds s) r && past_cursor s r = true) rows)).

Definition query (rows : list TypedRow) (spec : QuerySpec) : result DomainError (Page string) :=
  let? sel := query_select spec in
  let first := Z.to_nat (clamp_first (q_first spec)) in
  let? _ := pg_answer (se_conds sel) in
  let got := eval_select rows sel in
  let has_next := (first <? length got)%nat in
  let page := take first got in
  let end_cursor := (fun r => format_cursor (row_pos r).1 (row_pos r).2) <$> list.last page in
  Ok (mkPage (project (se_cols sel) (se_nested sel) <$> page) (if has_next then end_cursor else None) has_next).

Definition count (rows : list TypedRow) (spec : QuerySpec) : result DomainError Z :=
  let? table := validate_table spec in
  let? conds := build_filters table (q_filters spec) in
  let? _ := pg_answer conds in
  Ok (Z.of_nat (length (filter (fun r => matches conds r = true) rows))).

Definition with_after (spec : QuerySpec) (after : option string) : QuerySpec :=
  mkQuerySpec (q_table spec) (q_filters spec) (q_sort spec) (q_first spec) after (q_include_tx spec)
    (q_include_receipt spec) (q_descending spec).

(** A client that follows [end_cursor] while there is a next page: the items of all pages ([None]
    when the fuel runs out). *)
Fixpoint all_pages (fuel : nat) (rows : list TypedRow) (spec : QuerySpec) : result DomainError (option (list string)) :=
  match fuel with
  | O => Ok None
  | S fuel =>
      let? p := query rows spec in
      if p_has_next p then
        let? rest := all_pages fuel rows (with_after spec (p_end_cursor p)) in
        Ok ((fun r => p_items p ++ r) <$> rest)
      else Ok (Some (p_items p))
  end.
End repo.

(** [PgEventQueryRepository::new]: the last schema of a table wins. *)
Definition query_tables (schemas : list EventSchema) : gmap string (list (string * ColumnType)) :=
  list_to_map (reverse ((fun s => (es_table s, (fun c => (c_name c, c_ty c)) <$> es_columns s)) <$> schemas)).
