(* ===== verification/QueryFacts.v ===== *)
(** Theorems about the read side: cursors survive the trip through the client, following the pages of
    a query gives every matching row once and in order. *)
From S2P Require Import Prelude Model Text Schema Store Query.

(** * Cursors *)

Lemma split_once_app c a b : c ∉ a -> split_once c (a ++ c :: b) = Some (a, b).
Proof.
  induction a as [|x a IH]; intros Hc; cbn [app split_once]; [by rewrite Ascii.eqb_refl|].
  apply not_elem_of_cons in Hc as [Hne Hc]. destruct (Ascii.eqb_spec x c); [congruence|]. by rewrite (IH Hc).
Qed.

Lemma colon_digit d : 0 <= d < 10 -> ":"%char <> digit_char d.
Proof.
  intros Hd C. pose proof (digit_char_val d ltac:(lia)) as E. rewrite <- C in E. revert E.
  vm_compute (byte_val _). zcase; lia.
Qed.

Lemma show_no_colon z : ":"%char ∉ show_i z.
Proof.
  assert (forall n, ":"%char ∉ show_u n) as Hu.
  { intros n. unfold show_u. destruct (dec_digits_acc (S (Z.to_nat (Z.log2 n))) n []) as (ds & -> & Hd & _).
    rewrite app_nil_r. intros Hin. rewrite Forall_forall in Hd. destruct (Hd _ Hin) as (d & Hr & C).
    by apply (colon_digit d). }
  unfold show_i. destruct (_ <? _); [|apply Hu]. apply not_elem_of_cons. split; [done|apply Hu].
Qed.

Definition is_i64 (z : Z) : Prop := - I63 <= z < I63.

Lemma cursor_roundtrip h i : is_i64 h -> is_i64 i -> parse_cursor (format_cursor h i) = Ok (h, i).
Proof.
  intros Hh Hi. unfold parse_cursor, format_cursor, show.
  rewrite !to_list_app, !to_list_of_list. cbn [to_list app].
  rewrite split_once_app by apply show_no_colon. cbn [ok_or res_bind fst snd].
  unfold parse_i64. rewrite !to_list_of_list. unfold is_i64, I63 in *.
  rewrite !parse_int_show by lia. done.
Qed.

(** * Pages *)

Lemma pos_le_iff a b : pos_le a b = true <-> a.1 < b.1 \/ a.1 = b.1 /\ a.2 <= b.2.
Proof. unfold pos_le. rewrite orb_true_iff, andb_true_iff. lia. Qed.

Lemma pos_lt_iff a b : pos_lt a b = true <-> a.1 < b.1 \/ a.1 = b.1 /\ a.2 < b.2.
Proof. unfold pos_lt. rewrite orb_true_iff, andb_true_iff. lia. Qed.

Lemma pos_le_antisym a b : pos_le a b = true -> pos_le b a = true -> a = b.
Proof. destruct a, b. rewrite !pos_le_iff. cbn. intros. f_equal; lia. Qed.

Lemma pos_le_lt a b : pos_le a b = true -> a <> b -> pos_lt a b = true.
Proof.
  rewrite pos_le_iff, pos_lt_iff. intros H Hne. destruct a as [a1 a2], b as [b1 b2]. cbn in *.
  destruct (Z.eq_dec a1 b1) as [->|]; [|lia]. destruct (Z.eq_dec a2 b2) as [->|]; [done|lia].
Qed.

Lemma pos_lt_not_le a b : pos_lt a b = true -> pos_le b a = false.
Proof. intros H%pos_lt_iff. apply not_true_iff_false. rewrite pos_le_iff. lia. Qed.

#[export] Instance row_before_trans desc : Transitive (row_before desc).
Proof. intros a b c. unfold row_before. destruct desc; rewrite !pos_le_iff; lia. Qed.

#[export] Instance row_before_total desc : Total (row_before desc).
Proof. intros a b. unfold row_before. destruct desc; rewrite !pos_le_iff; lia. Qed.

Lemma row_before_antisym desc a b : row_before desc a b -> row_before desc b a -> row_pos a = row_pos b.
Proof. unfold row_before. destruct desc; intros; by apply pos_le_antisym. Qed.

(** Strictly past the cursor row, in the direction of the order. *)
Definition beyond (desc : bool) (x r : TypedRow) : bool :=
  if desc then pos_lt (row_pos r) (row_pos x) else pos_lt (row_pos x) (row_pos r).

Lemma beyond_before desc x r : row_before desc x r -> row_pos x <> row_pos r -> beyond desc x r = true.
Proof. unfold row_before, beyond. destruct desc; intros; apply pos_le_lt; congruence. Qed.

Lemma before_not_beyond desc x r : row_before desc r x -> beyond desc x r = false.
Proof.
  unfold row_before, beyond. intros H. apply not_true_iff_false. intros C.
  destruct desc; apply pos_lt_not_le in C; congruence.
Qed.

Section pages.
Context (tables : gmap string (list (string * ColumnType))) (pg : Postgres).
Context (project : list (string * ColumnType) -> list Nested -> TypedRow -> string) (rows : list TypedRow).
Context (spec : QuerySpec) (table : string) (conds : list Cond).
Context (Htable : validate_table tables spec = Ok table).
Context (Hconds : build_filters tables table (q_filters spec) = Ok conds).
Context (Hanswer : pg_error pg conds = None).

Abbreviation desc := (q_descending spec).
Abbreviation first := (Z.to_nat (clamp_first (q_first spec))).

Definition found : list TypedRow := filter (fun r => matches pg conds r = true) rows.
Definition ordered : list TypedRow := merge_sort (row_before desc) found.

Context (Hpos : NoDup (row_pos <$> found)).
Context (Hi64 : forall r, r ∈ found -> is_i64 (row_pos r).1 /\ is_i64 (row_pos r).2).

Definition sel_at (after : option (Z * Z)) : Select :=
  mkSelect table (default [] (tables !! table)) (nested_of tables table spec) conds after desc
    (clamp_first (q_first spec) + 1).

Lemma query_select_at after c :
  match c with None => after = None | Some x => exists k, parse_cursor x = Ok k /\ after = Some k end ->
  query_select tables (with_after spec c) = Ok (sel_at after).
Proof.
  intros Hc. unfold query_select.
  change (validate_table tables (with_after spec c)) with (validate_table tables spec). rewrite Htable.
  cbn [res_bind]. change (q_filters (with_after spec c)) with (q_filters spec). rewrite Hconds. cbn [res_bind].
  cbn [q_after with_after]. destruct c as [x|]; [destruct Hc as (k & -> & ->)|subst after]; done.
Qed.

Lemma ordered_perm : ordered ≡ₚ found.
Proof. apply merge_sort_Permutation. Qed.

Lemma ordered_sorted : StronglySorted (row_before desc) ordered.
Proof. apply StronglySorted_merge_sort; apply _. Qed.

Lemma ordered_found r : r ∈ ordered -> r ∈ found.
Proof. by rewrite ordered_perm. Qed.

Lemma ordered_pos_NoDup : NoDup (row_pos <$> ordered).
Proof. by rewrite ordered_perm. Qed.

(** The rows past the row [x] of the order are those after it. *)
Lemma filter_beyond a x b :
  ordered = a ++ x :: b -> filter (fun r => beyond desc x r = true) ordered = b.
Proof.
  intros E. pose proof ordered_sorted as Hs. pose proof ordered_pos_NoDup as Hn. rewrite E in Hs, Hn |- *.
  rewrite filter_app, filter_none, filter_cons, decide_False.
  - apply filter_every. intros r Hr. apply beyond_before.
    + apply StronglySorted_app_1_r in Hs. apply StronglySorted_cons in Hs as [Hs _].
      rewrite Forall_forall in Hs. auto.
    + intros C. rewrite fmap_app, fmap_cons in Hn. apply NoDup_app in Hn as (_ & _ & Hn).
      apply NoDup_cons in Hn as [Hn _]. apply Hn. rewrite C. apply list_elem_of_fmap. eauto.
  - rewrite before_not_beyond; [done|]. unfold row_before. destruct desc; apply pos_le_iff; lia.
  - intros r Hr. rewrite before_not_beyond; [done|].
    eapply StronglySorted_app_1_elem_of; [exact Hs|done|left].
Qed.

(** What the statement returns after the row [x]. *)
Lemma eval_after a x b :
  ordered = a ++ x :: b ->
  eval_select pg rows (sel_at (Some (row_pos x))) = take (S first) b.
Proof.
  intros E. unfold eval_select. cbn [se_limit sel_at se_desc se_conds].
  replace (Z.to_nat (clamp_first (q_first spec) + 1)) with (S first) by (unfold clamp_first; lia). f_equal.
  rewrite <- (filter_beyond a x b E).
  assert (filter (fun r => matches pg conds r && past_cursor (sel_at (Some (row_pos x))) r = true) rows
    = filter (fun r => beyond desc x r = true) found) as ->.
  { unfold found. rewrite list_filter_filter. apply list_filter_iff. intros r.
    rewrite andb_true_iff. unfold past_cursor, beyond. cbn. tauto. }
  eapply StronglySorted_unique_strong.
  - intros r1 r2 H1 H2 B1 B2. rewrite merge_sort_Permutation in H1.
    apply list_elem_of_filter in H1 as [_ H1]. apply list_elem_of_filter in H2 as [_ H2%ordered_found].
    eapply NoDup_fmap_same; [exact Hpos|done|done|]. by eapply row_before_antisym.
  - apply StronglySorted_merge_sort; apply _.
  - rewrite (filter_beyond a x b E). pose proof ordered_sorted as Hs. rewrite E in Hs.
    apply StronglySorted_app_1_r in Hs. by apply StronglySorted_cons in Hs as [_ ?].
  - by rewrite merge_sort_Permutation, ordered_perm.
Qed.

Lemma eval_first : eval_select pg rows (sel_at None) = take (S first) ordered.
Proof.
  unfold eval_select. cbn [se_limit sel_at se_desc se_conds].
  replace (Z.to_nat (clamp_first (q_first spec) + 1)) with (S first) by (unfold clamp_first; lia). f_equal.
  unfold ordered, found. f_equal. apply list_filter_iff. intros r. cbn. by rewrite andb_true_r.
Qed.

Lemma all_pages_S fuel s :
  all_pages tables pg project (S fuel) rows s
  = res_bind (query tables pg project rows s) (fun p =>
      if p_has_next p then
        res_bind (all_pages tables pg project fuel rows (with_after s (p_end_cursor p)))
          (fun rest => Ok ((fun r => p_items p ++ r) <$> rest))
      else Ok (Some (p_items p))).
Proof. done. Qed.

(** The pages of a run from a cursor that leaves the rows [b]. *)
Lemma pages_from n a b c after :
  (length b <= n)%nat -> ordered = a ++ b ->
  match c with None => after = None | Some x => exists k, parse_cursor x = Ok k /\ after = Some k end ->
  eval_select pg rows (sel_at after) = take (S first) b ->
  all_pages tables pg project (S n) rows (with_after spec c)
  = Ok (Some (project (default [] (tables !! table)) (nested_of tables table spec) <$> b)).
Proof.
  assert (1 <= first)%nat as H1 by (unfold clamp_first; lia).
  revert a b c after. induction n as [|n IH]; intros a b c after Hb E Hc He; rewrite all_pages_S; unfold query;
    rewrite (query_select_at after c Hc); cbn [res_bind]; unfold pg_answer; cbn [se_conds sel_at]; rewrite Hanswer;
    cbn [res_bind]; rewrite He;
    change (q_first (with_after spec c)) with (q_first spec); rewrite length_take, take_take;
    rewrite (Nat.min_l first (S first)) by lia; cbn [p_has_next p_items p_end_cursor].
  { destruct b; [|cbn in Hb; lia]. cbn. by rewrite take_nil. }
  destruct (Nat.ltb_spec first (Nat.min (S first) (length b))) as [Hlt|Hge].
  2: { by rewrite take_ge by lia. }
  assert (exists x, last (take first b) = Some x) as [x Hx].
  { apply last_is_Some. intros C. apply (f_equal length) in C. rewrite length_take in C. cbn in C. lia. }
  rewrite Hx. cbn [fmap option_fmap option_map].
  change (with_after (with_after spec c) ?z) with (with_after spec z).
  assert (ordered = (a ++ take (pred first) b) ++ x :: drop first b) as Eo.
  { rewrite E, <- app_assoc. f_equal. apply last_Some in Hx as [l Hl].
    rewrite <- (take_drop first b) at 1. rewrite Hl, <- app_assoc. cbn. f_equal.
    transitivity (take (pred first) (take first b)).
    - rewrite Hl. symmetry. apply take_app_length'. apply (f_equal length) in Hl.
      rewrite length_take, length_app in Hl. cbn in Hl. lia.
    - rewrite take_take. f_equal. lia. }
  assert (x ∈ found) as Hxf.
  { apply ordered_found. rewrite Eo. apply elem_of_app. right. left. }
  destruct (Hi64 x Hxf) as [Hh Hl].
  rewrite (IH ((a ++ take (pred first) b) ++ [x]) (drop first b) _ (Some (row_pos x))).
  - cbn [res_bind fmap option_fmap option_map]. by rewrite <- fmap_app, take_drop.
  - rewrite length_drop. lia.
  - by rewrite <- app_assoc.
  - exists (row_pos x). split; [|done]. rewrite cursor_roundtrip by done. by destruct (row_pos x).
  - by eapply eval_after.
Qed.
End pages.

Lemma pages_run (tables : gmap string (list (string * ColumnType)))
    (pg : Postgres)
    (project : list (string * ColumnType) -> list Nested -> TypedRow -> string)
    (rows : list TypedRow) (spec : QuerySpec) (table : string) (conds : list Cond) :
  q_after spec = None -> validate_table tables spec = Ok table ->
  build_filters tables table (q_filters spec) = Ok conds ->
  pg_error pg conds = None -> NoDup (row_pos <$> found pg rows conds) ->
  (forall r, r ∈ found pg rows conds -> is_i64 (row_pos r).1 /\ is_i64 (row_pos r).2) ->
  exists out,
    all_pages tables pg project (S (length rows)) rows spec
    = Ok (Some (project (default [] (tables !! table)) (nested_of tables table spec) <$> out))
    /\ out ≡ₚ found pg rows conds /\ StronglySorted (row_before (q_descending spec)) out
    /\ count tables pg rows spec = Ok (Z.of_nat (length out)).
Proof.
  intros Ha Ht Hc Hok Hp Hi. set (out := ordered pg rows spec conds). exists out.
  pose proof (ordered_perm pg rows spec conds) as Hperm.
  assert (spec = with_after spec None) as Es by (destruct spec; cbn in *; by subst).
  split_and!; [|done|apply ordered_sorted|].
  - rewrite Es at 1. apply (pages_from tables pg project rows spec table conds Ht Hc Hok Hp Hi _ [] out None None).
    + subst out. rewrite Hperm. unfold found. apply length_filter.
    + done.
    + done.
    + apply eval_first.
  - unfold count, pg_answer. rewrite Ht. cbn [res_bind]. rewrite Hc. cbn [res_bind]. rewrite Hok. cbn [res_bind]. subst out.
    by rewrite Hperm.
Qed.

Lemma pages_fail (tables : gmap string (list (string * ColumnType))) (pg : Postgres)
    (project : list (string * ColumnType) -> list Nested -> TypedRow -> string)
    (fuel : nat) (rows : list TypedRow) (spec : QuerySpec) (table : string) (conds : list Cond) (msg : string) :
  q_after spec = None -> validate_table tables spec = Ok table ->
  build_filters tables table (q_filters spec) = Ok conds -> pg_error pg conds = Some msg ->
  all_pages tables pg project (S fuel) rows spec = Err (EStorage ("database error: " +:+ msg))
  /\ count tables pg rows spec = Err (EStorage ("database error: " +:+ msg)).
Proof.
  intros Ha Ht Hc E. cbn [all_pages]. unfold query, query_select, count, pg_answer. rewrite Ht. cbn [res_bind].
  rewrite Hc. cbn [res_bind]. rewrite Ha. cbn [res_bind se_conds]. by rewrite E.
Qed.

(** C30: following the pages of a query is complete: when the matching rows of the table have distinct
    positions [(height, idx)], a client that follows [end_cursor] gets every one of them exactly
    once, in the requested order, after at most one page per row; [count] is their number.  When the database
    refuses the statement (say a text that is no number for a numeric column), both give the
    storage error. *)
Theorem pages_complete (tables : gmap string (list (string * ColumnType)))
    (pg : Postgres)
    (project : list (string * ColumnType) -> list Nested -> TypedRow -> string)
    (rows : list TypedRow) (spec : QuerySpec) (table : string) (conds : list Cond) :
  q_after spec = None -> validate_table tables spec = Ok table ->
  build_filters tables table (q_filters spec) = Ok conds ->
  NoDup (row_pos <$> found pg rows conds) ->
  (forall r, r ∈ found pg rows conds -> is_i64 (row_pos r).1 /\ is_i64 (row_pos r).2) ->
  match pg_error pg conds with
  | None => exists out,
      all_pages tables pg project (S (length rows)) rows spec
      = Ok (Some (project (default [] (tables !! table)) (nested_of tables table spec) <$> out))
      /\ out ≡ₚ found pg rows conds /\ StronglySorted (row_before (q_descending spec)) out
      /\ count tables pg rows spec = Ok (Z.of_nat (length out))
  | Some msg => all_pages tables pg project (S (length rows)) rows spec = Err (EStorage ("database error: " +:+ msg))
      /\ count tables pg rows spec = Err (EStorage ("database error: " +:+ msg))
  end.
Proof.
  intros Ha Ht Hc Hp Hi. destruct (pg_error pg conds) as [msg|] eqn:E; [by eapply pages_fail|by apply pages_run].
Qed.

(** * Samples *)

Definition sample_trow (chain h i : Z) : TypedRow := mkTypedRow chain h [] None [] (Some i) [].

(** Filters on [chain_id] by equality with an integer bind. *)
Definition sample_cond (c : Cond) (r : TypedRow) : bool :=
  match cd_bind c with BInt z => tr_chain_id r =? z | _ => true end.
(** A numeric column takes a text of decimal digits. *)
Definition sample_error (conds : list Cond) : option string :=
  if forallb (fun c => match cd_bind c with BText s => negb (String.eqb (cd_cast c) "::numeric")
                         || bool_decide (is_Some (parse_int 10 0 (10 ^ 78) (to_list s))) | _ => true end) conds
  then None else Some "invalid input syntax for type numeric".
Definition sample_holds : Postgres := mkPostgres sample_error sample_cond.
Definition sample_project (_ : list (string * ColumnType)) (_ : list Nested) (r : TypedRow) : string :=
  show (tr_chain_id r) +:+ ":" +:+ format_cursor (row_pos r).1 (row_pos r).2.

Definition sample_tables : gmap string (list (string * ColumnType)) := {["evt_x" := [("value", CUInt 256)]]}.
Definition sample_rows : list TypedRow :=
  [sample_trow 1 9 0; sample_trow 1 7 2; sample_trow 1 7 1; sample_trow 2 7 1; sample_trow 1 (-3) 0].
Definition on_chain : QuerySpec :=
  mkQuerySpec "evt_x" [mkFilter "chain_id" OpEq "1"] [] 2 None false false true.

Lemma pages_complete_witness :
  count sample_tables sample_holds sample_rows (mkQuerySpec "evt_x" [mkFilter "value" OpEq "ten"] [] 2 None false false true)
    = Err (EStorage "database error: invalid input syntax for type numeric")
  /\ exists out,
    all_pages sample_tables sample_holds sample_project 6 sample_rows on_chain
    = Ok (Some (sample_project [("value", CUInt 256)] [] <$> out))
    /\ out ≡ₚ found sample_holds sample_rows [mkCond "chain_id" OpEq EmptyString (BInt 1)]
    /\ StronglySorted (row_before true) out
    /\ count sample_tables sample_holds sample_rows on_chain = Ok (Z.of_nat (length out)).
Proof.
  split; [by vm_compute|].
  apply (pages_complete sample_tables sample_holds sample_project sample_rows on_chain "evt_x"
           [mkCond "chain_id" OpEq EmptyString (BInt 1)]).
  - reflexivity.
  - by vm_compute.
  - by vm_compute.
  - apply (bool_decide_unpack _). by vm_compute.
  - apply Forall_forall. cbn. repeat constructor; unfold is_i64, I63; cbn; lia.
Defined.

(** Across chains a page boundary can lose rows: the keyset compares [(height, idx)] only, so when
    rows of two chains share a position and a page ends between them, the other is on no page.  Here
    three rows match and two are returned. *)
Theorem pages_lose_rows_across_chains :
  let spec := mkQuerySpec "evt_x" [] [] 1 None false false false in
  let rows := [sample_trow 1 7 1; sample_trow 2 7 1; sample_trow 1 9 0] in
  count sample_tables sample_holds rows spec = Ok 3
  /\ all_pages sample_tables sample_holds sample_project 4 rows spec = Ok (Some ["1:7:1"; "1:9:0"]).
Proof. by vm_compute. Qed.
