(* ===== verification/Cache.v ===== *)
(** The TTL cache in front of the read side ([crates/db-query/src/cache.rs]): a decorator over the query
    port.  Times are milliseconds; what the store holds changes with time, so an inner repository
    answers at a time. *)
From S2P Require Import Prelude Model Text Schema Store Query.

(** [EventQueryRepository]. *)
Record QueryRepo := mkQueryRepo {
  rq_query : Z -> QuerySpec -> result DomainError (Page string);
  rq_count : Z -> QuerySpec -> result DomainError Z
}.

(** What the count cache relies on: a count depends on the table and the filters only. *)
Class CountByFilter (r : QueryRepo) : Prop :=
  count_by_filter : forall now s1 s2, q_table s1 = q_table s2 -> q_filters s1 = q_filters s2 ->
    rq_count r now s1 = rq_count r now s2.

(** The Postgres repository over the rows each table has at each time. *)
Definition pg_repo (tables : gmap string (list (string * ColumnType))) (pg : Postgres)
    (project : list (string * ColumnType) -> list Nested -> TypedRow -> string)
    (rows_at : Z -> string -> list TypedRow) : QueryRepo :=
  mkQueryRepo (fun now s => query tables pg project (rows_at now (q_table s)) s)
    (fun now s => count tables pg (rows_at now (q_table s)) s).

#[export] Instance pg_repo_count_by_filter tables pg project rows_at :
  CountByFilter (pg_repo tables pg project rows_at).
Proof.
  intros now s1 s2 Ht Hf. cbn. unfold count, validate_table. by rewrite Ht, Hf.
Qed.

Definition MAX_ENTRIES : Z := 10000.

(** A cache: each value with the time it was inserted.  The library may drop entries at any time (the
    capacity, expiry); it never serves one older than the TTL. *)
Abbreviation Cache V := (gmap string (V * Z)).

Definition cache_get {V} (ttl now : Z) (k : string) (c : Cache V) : option V :=
  '(v, t) ← c !! k;
  if now - t <? ttl then Some v else None.

Record Caches := mkCaches { queries : Cache (Page string); counts : Cache Z }.

(** [CachingEventQueryRepository::new]: both caches start empty. *)
Definition Caches_new : Caches := mkCaches ∅ ∅.

(** What the keys rely on: [serde_json] can read back every value it writes. *)
Class Serializes {A} (to_string : A -> result string string) : Prop :=
  serializes : exists from_str : string -> option A, forall x, exists t, to_string x = Ok t /\ from_str t = Some x.

(** [serde_json::to_string(x).unwrap_or_default()]. *)
Definition json_key {A} (to_string : A -> result string string) (x : A) : string :=
  match to_string x with Ok t => t | Err _ => EmptyString end.

#[export] Instance json_key_inj {A} (to_string : A -> result string string) : Serializes to_string -> Inj (=) (=) (json_key to_string).
Proof.
  intros [from_str H] x y. unfold json_key. destruct (H x) as (tx & -> & Hx), (H y) as (ty & -> & Hy). congruence.
Qed.

Section cache.
Context (inner : QueryRepo) (ttl : Z).
(** [serde_json::to_string] of a spec, and of its table and filters. *)
Context (spec_json : QuerySpec -> result string string) (count_json : string * list Filter -> result string string).

Definition query_key (spec : QuerySpec) : string := json_key spec_json spec.
Definition count_key (spec : QuerySpec) : string := json_key count_json (q_table spec, q_filters spec).

(** [get], else ask and [insert]; an error is returned and not kept. *)
Definition memo {S V} (key : S -> string) (ask : Z -> S -> result DomainError V) (now : Z) (s : S) (c : Cache V) :
    result DomainError V * Cache V :=
  match cache_get ttl now (key s) c with
  | Some v => (Ok v, c)
  | None =>
      match ask now s with
      | Ok v => (Ok v, <[key s := (v, now)]> c)
      | Err e => (Err e, c)
      end
  end.

Definition cached_query (now : Z) (spec : QuerySpec) (c : Caches) : result DomainError (Page string) * Caches :=
  let '(r, q) := memo query_key (rq_query inner) now spec (queries c) in (r, mkCaches q (counts c)).

Definition cached_count (now : Z) (spec : QuerySpec) (c : Caches) : result DomainError Z * Caches :=
  let '(r, n) := memo count_key (rq_count inner) now spec (counts c) in
  (r, mkCaches (queries c) n).

(** The caches a server can have at a time: requests in time order, entries dropped at any time. *)
Inductive reachable : Z -> Caches -> Prop :=
| r_empty now : reachable now Caches_new
| r_later now now' c : reachable now c -> now <= now' -> reachable now' c
| r_query now spec c r c' : reachable now c -> cached_query now spec c = (r, c') -> reachable now c'
| r_count now spec c r c' : reachable now c -> cached_count now spec c = (r, c') -> reachable now c'
| r_evict now c q n : reachable now c -> q ⊆ queries c -> n ⊆ counts c -> reachable now (mkCaches q n).

(** Every entry is what the inner repository answered to a request with that key. *)
Definition entries_ok {S V} (key : S -> string) (ask : Z -> S -> result DomainError V) (now : Z) (c : Cache V) : Prop :=
  forall k v t, c !! k = Some (v, t) -> t <= now /\ exists s, key s = k /\ ask t s = Ok v.

Lemma memo_ok {S V} (key : S -> string) (ask : Z -> S -> result DomainError V) now s (c : Cache V) r c' :
  entries_ok key ask now c -> memo key ask now s c = (r, c') ->
  entries_ok key ask now c'
  /\ ((r = ask now s) \/ exists v t s', r = Ok v /\ now - ttl < t <= now /\ key s' = key s /\ ask t s' = Ok v).
Proof.
  intros Hc H. unfold memo in H. destruct (cache_get ttl now (key s) c) as [v|] eqn:E.
  - injection H as <- <-. split; [done|]. right. unfold cache_get in E.
    destruct (c !! key s) as [[v' t]|] eqn:El; [|done]. cbn in E.
    destruct (Z.ltb_spec (now - t) ttl); [|done]. injection E as ->.
    destruct (Hc _ _ _ El) as (Ht & s' & Hk & Ha). exists v, t, s'. split_and!; [done|lia|lia|done|done].
  - destruct (ask now s) as [v|e] eqn:Ea; injection H as <- <-; (split; [|by left]); [|done].
    intros k v' t. destruct (decide (k = key s)) as [->|Hne].
    + rewrite lookup_insert_eq. intros [= <- <-]. split; [lia|eauto].
    + rewrite lookup_insert_ne by done. apply Hc.
Qed.

Lemma entries_later {S V} (key : S -> string) (ask : Z -> S -> result DomainError V) now now' (c : Cache V) :
  now <= now' -> entries_ok key ask now c -> entries_ok key ask now' c.
Proof. intros Hle Hc k v t H. destruct (Hc _ _ _ H). split; [lia|done]. Qed.


Lemma reachable_ok now c : reachable now c ->
  entries_ok query_key (rq_query inner) now (queries c) /\ entries_ok count_key (rq_count inner) now (counts c).
Proof.
  induction 1 as [now|now now' c _ [IH1 IH2] Hle|now spec c r c' _ [IH1 IH2] H|now spec c r c' _ [IH1 IH2] H
                 |now c q n _ [IH1 IH2] Hq Hn].
  - split; intros k v t H; cbn in H; by rewrite lookup_empty in H.
  - split; by eapply entries_later.
  - unfold cached_query in H. destruct (memo _ _ _ _ _) as [r1 q] eqn:E. injection H as <- <-.
    apply memo_ok in E as [E _]; [by split|done].
  - unfold cached_count in H. destruct (memo _ _ _ _ _) as [r1 q] eqn:E. injection H as <- <-.
    apply memo_ok in E as [E _]; [by split|done].
  - split; intros k v t H; [eapply IH1|eapply IH2]; by eapply lookup_weaken.
Qed.
End cache.

(** C32: the cache is transparent up to the TTL: whatever requests came before and whatever the library
    evicts, the answer to a query or a count is the inner repository's answer to the same request,
    given now or less than a TTL ago; only an answer of now can be an error. *)
Theorem cached_answers_recent (inner : QueryRepo) (ttl now : Z) (spec_json : QuerySpec -> result string string)
    (count_json : string * list Filter -> result string string) (spec : QuerySpec) (c : Caches) :
  CountByFilter inner -> Serializes spec_json -> Serializes count_json ->
  reachable inner ttl spec_json count_json now c ->
  (let r := (cached_query inner ttl spec_json now spec c).1 in
   r = rq_query inner now spec
   \/ exists p t, r = Ok p /\ now - ttl < t <= now /\ rq_query inner t spec = Ok p)
  /\ (let r := (cached_count inner ttl count_json now spec c).1 in
      r = rq_count inner now spec
      \/ exists n t, r = Ok n /\ now - ttl < t <= now /\ rq_count inner t spec = Ok n).
Proof.
  intros Hcf Hq Hn Hr. apply reachable_ok in Hr as [H1 H2]. split.
  - unfold cached_query. destruct (memo _ _ _ _ _ _) as [r q] eqn:E. cbn.
    apply memo_ok in E as [_ [->|(v & t & s' & -> & Ht & Hk & Ha)]]; [by left| |done].
    apply (json_key_inj _ Hq) in Hk as ->. right. eauto.
  - unfold cached_count. destruct (memo _ _ _ _ _ _) as [r q] eqn:E. cbn.
    apply memo_ok in E as [_ [->|(v & t & s' & -> & Ht & Hk & Ha)]]; [by left| |done].
    apply (json_key_inj _ Hn) in Hk. injection Hk as E1 E2. right. exists v, t. split_and!; [done|lia|lia|].
    rewrite <- Ha. by apply count_by_filter.
Qed.

(** * Sample: keys that tell requests apart, over a repository whose answers change *)

#[export] Instance SortDir_eq : EqDecision SortDir.
Proof. solve_decision. Defined.
#[export] Instance Sort_eq : EqDecision Sort.
Proof. solve_decision. Defined.
#[export] Instance Filter_eq : EqDecision Filter.
Proof. solve_decision. Defined.
#[export] Instance QuerySpec_eq : EqDecision QuerySpec.
Proof. solve_decision. Defined.

#[export] Instance FilterOp_countable : Countable FilterOp.
Proof.
  refine (inj_countable' (fun o => match o with OpEq => 0 | OpNe => 1 | OpGt => 2 | OpGte => 3 | OpLt => 4 | OpLte => 5 end)
    (fun z => match z with 0 => OpEq | 1 => OpNe | 2 => OpGt | 3 => OpGte | 4 => OpLt | _ => OpLte end) _).
  by intros [].
Defined.
#[export] Instance Filter_countable : Countable Filter.
Proof.
  refine (inj_countable' (fun f => (f_column f, f_op f, f_value f)) (fun x => mkFilter x.1.1 x.1.2 x.2) _).
  by intros [].
Defined.
#[export] Instance Sort_countable : Countable Sort.
Proof.
  refine (inj_countable' (fun s => (s_column s, match s_dir s with Asc => true | Desc => false end))
    (fun x => mkSort x.1 (if x.2 then Asc else Desc)) _).
  by intros [? []].
Defined.
#[export] Instance QuerySpec_countable : Countable QuerySpec.
Proof.
  refine (inj_countable'
    (fun q => (q_table q, q_filters q, q_sort q, q_first q, q_after q, q_include_tx q, q_include_receipt q, q_descending q))
    (fun x => let '(a, b, c, d, e, f, g, h) := x in mkQuerySpec a b c d e f g h) _).
  by intros [].
Defined.

Definition text_key {A} `{Countable A} (x : A) : result string string := Ok (show (Zpos (encode x))).

#[export] Instance text_key_serializes {A} `{Countable A} : Serializes (text_key (A := A)).
Proof.
  exists (fun t => match digits_val 10 0 (to_list t) with Some (Zpos p) => decode p | _ => None end).
  intros x. eexists. split; [done|]. unfold show. rewrite to_list_of_list.
  change (show_i (Zpos (encode x))) with (show_u (Zpos (encode x))).
  rewrite digits_val_show by lia. apply decode_encode.
Qed.

(** The count is the time it was taken at. *)
Definition clock_repo : QueryRepo := mkQueryRepo (fun now _ => Ok (mkPage [show now] None false)) (fun now _ => Ok now).

Lemma cached_answers_recent_witness :
  let spec := mkQuerySpec "evt_x" [] [] 2 None false false true in
  let c := (cached_count clock_repo 1000 text_key 100 spec Caches_new).2 in
  (cached_count clock_repo 1000 text_key 600 spec c).1 = Ok 100
  /\ (let r := (cached_count clock_repo 1000 text_key 600 spec c).1 in
      r = rq_count clock_repo 600 spec
      \/ exists n t, r = Ok n /\ 600 - 1000 < t <= 600 /\ rq_count clock_repo t spec = Ok n).
Proof.
  intros spec c. split; [by vm_compute|].
  assert (reachable clock_repo 1000 text_key text_key 600 c) as Hr.
  { apply (r_later _ _ _ _ 100); [|lia]. eapply r_count; [apply r_empty|].
    rewrite (surjective_pairing (cached_count _ _ _ _ _ _)). reflexivity. }
  assert (CountByFilter clock_repo) as Hc by (by intros now s1 s2 _ _).
  apply (cached_answers_recent clock_repo 1000 600 text_key text_key spec c Hc _ _ Hr).
Defined.
