(* ===== verification/Repos.v ===== *)
(** The Postgres repositories ([crates/db/src/repositories]): raw records, blocks, cursors and
    typed event rows, each statement as its effect on the tables of [Store]. *)
From S2P Require Import Prelude Model Btree Text Encode Store.

(** * Multi-row statements *)

Section statements.
Context {K V : Type} `{Countable K}.

(** [INSERT ... ON CONFLICT DO NOTHING]: a row whose key is taken (also by an earlier row of the
    same statement) is skipped; the count is that of the rows written. *)
Definition insert_new (mn : gmap K V * Z) (kv : K * V) : gmap K V * Z :=
  match mn.1 !! kv.1 with
  | Some _ => mn
  | None => (<[kv.1 := kv.2]> mn.1, mn.2 + 1)
  end.

Definition insert_absent (m : gmap K V) (kvs : list (K * V)) : gmap K V * Z :=
  fold_left insert_new kvs (m, 0).

(** [INSERT ... ON CONFLICT DO UPDATE] of rows with distinct keys. *)
Definition upsert_all (m : gmap K V) (kvs : list (K * V)) : gmap K V :=
  fold_left (fun m kv => <[kv.1 := kv.2]> m) kvs m.

Lemma insert_absent_fst m n kvs :
  (fold_left insert_new kvs (m, n)).1 = m ∪ list_to_map kvs.
Proof.
  revert m n. induction kvs as [|[k v] kvs IH]; intros m n.
  { cbn. by rewrite map_union_empty. }
  cbn [fold_left]. unfold insert_new at 2. cbn [fst snd].
  destruct (m !! k) eqn:E; rewrite IH; cbn.
  - apply map_eq. intros i. rewrite !lookup_union. destruct (decide (i = k)) as [->|Hn].
    + rewrite E, lookup_insert_eq. destruct (list_to_map kvs !! k); done.
    + by rewrite lookup_insert_ne by done.
  - by rewrite <- insert_union_l, insert_union_r by done.
Qed.

Lemma insert_absent_union m kvs : (insert_absent m kvs).1 = m ∪ list_to_map kvs.
Proof. apply insert_absent_fst. Qed.

(** The affected-row count is the growth of the table. *)
Lemma insert_absent_count m kvs :
  (insert_absent m kvs).2 = Z.of_nat (size (insert_absent m kvs).1) - Z.of_nat (size m).
Proof.
  unfold insert_absent.
  assert (forall n, (fold_left insert_new kvs (m, n)).2
    = n + Z.of_nat (size (fold_left insert_new kvs (m, n)).1) - Z.of_nat (size m)) as Hn.
  { revert m. induction kvs as [|[k v] kvs IH]; intros m n; cbn [fold_left]; [cbn; lia|].
    unfold insert_new at 2 4. cbn [fst snd]. destruct (m !! k) eqn:E; rewrite IH; [lia|].
    rewrite map_size_insert_None by done. lia. }
  rewrite Hn. lia.
Qed.

Lemma upsert_all_lookup m kvs k :
  upsert_all m kvs !! k =
  match list_to_map (M:=gmap K V) (reverse kvs) !! k with Some v => Some v | None => m !! k end.
Proof.
  unfold upsert_all. induction kvs as [|[k' v] kvs IH] using rev_ind; [done|].
  rewrite fold_left_app, reverse_app. cbn. destruct (decide (k = k')) as [->|].
  - by rewrite !lookup_insert_eq.
  - rewrite !lookup_insert_ne by done. apply IH.
Qed.

End statements.

(** * Raw records ([raw_record_repo.rs]) *)

Definition RAW_COLS : Z := 10.

Definition raw_key (r : RawRecord) : Z * Z * Z :=
  (as_i64 (rr_chain_id r), as_i64 (rr_height r), as_i64 (rr_index r)).

Definition raw_row (r : RawRecord) : RawRow :=
  mkRawRow (rr_block_hash r) (rr_address r) (frame_selectors (rr_selectors r)) (rr_data r)
    (rr_tx_id r) (as_i64 (rr_tx_index r)) (as_i64 <$> rr_inner_index r).

Definition raw_kv (r : RawRecord) : (Z * Z * Z) * RawRow := (raw_key r, raw_row r).

Definition raw_insert_stmt (chunk : list RawRecord) (w : World) : option (Z * World) :=
  let '(m, n) := insert_absent (db_raw (w_db w)) (raw_kv <$> chunk) in
  Some (n, upd_db (set_raw m) w).

Definition raw_insert_batch_tx (records : list RawRecord) : DbM Z :=
  mfold (fun n chunk => do k <- sql (raw_insert_stmt chunk); mret_ (u64_add n k)) 0
    (chunks (Z.to_nat (chunk_rows RAW_COLS)) records).

Definition raw_insert_batch (records : list RawRecord) : M World DomainError Z :=
  in_tx domain_of_db (mmap_err domain_of_db (raw_insert_batch_tx records)).

(** [WHERE chain_id = $1 AND height BETWEEN $2 AND $3 ORDER BY height, idx]. *)
Definition raw_decode (chain : Z) (kv : (Z * Z * Z) * RawRow) : RawRecord :=
  let '((_, h, i), r) := kv in
  mkRawRecord chain (as_u64 h) (rw_block_hash r) (as_u64 i) (rw_address r)
    (unframe_selectors (rw_selectors r)) (rw_data r) (rw_tx_id r) (as_u64 (rw_tx_index r))
    (as_u64 <$> rw_inner_index r).

Definition raw_between (chain from to : Z) (kv : (Z * Z * Z) * RawRow) : bool :=
  let '((c, h, _), _) := kv in (c =? as_i64 chain) && (as_i64 from <=? h) && (h <=? as_i64 to).

Definition height_idx_le (a b : (Z * Z * Z) * RawRow) : Prop :=
  let '((_, h, i), _) := a in let '((_, h', i'), _) := b in h < h' \/ (h = h' /\ i <= i').

#[export] Instance height_idx_le_dec : RelDecision height_idx_le.
Proof. intros [[[c h] i] r] [[[c' h'] i'] r']. cbn. apply _. Defined.

Definition raw_range_rows (chain from to : Z) (m : gmap (Z * Z * Z) RawRow) : list RawRecord :=
  raw_decode chain <$>
    merge_sort height_idx_le (filter (fun kv => raw_between chain from to kv) (map_to_list m)).

Definition raw_range (chain from to : Z) : M World DomainError (list RawRecord) :=
  mmap_err domain_of_db
    (sql (fun w => Some (raw_range_rows chain from to (db_raw (w_db w)), w))).

(** [DELETE FROM raw_records WHERE chain_id = $1 AND height >= $2]. *)
Definition raw_at_or_above (chain from : Z) (k : Z * Z * Z) : bool :=
  let '(c, h, _) := k in (c =? as_i64 chain) && (as_i64 from <=? h).

Definition raw_delete_from_height_tx (chain from : Z) : DbM Z :=
  sql (fun w =>
    let m := db_raw (w_db w) in
    let m' := filter (fun kv => raw_at_or_above chain from kv.1 = false) m in
    Some (Z.of_nat (size m) - Z.of_nat (size m'), upd_db (set_raw m') w)).

Definition raw_delete_from_height (chain from : Z) : M World DomainError Z :=
  in_tx domain_of_db (mmap_err domain_of_db (raw_delete_from_height_tx chain from)).

(** * Block metas ([block_repo.rs]) *)

Definition BLOCK_COLS : Z := 5.
Definition CALLDATA_CHUNK : Z := 10000.

Definition block_key (b : BlockMeta) : Z * Z := (as_i64 (bm_chain_id b), as_i64 (bm_height b)).
Definition block_kv (b : BlockMeta) : (Z * Z) * BlockRow :=
  (block_key b, mkBlockRow (bm_hash b) (bm_parent_hash b) (bm_time b)).

(** A DO UPDATE statement that names one row twice is refused. *)
Definition block_upsert_stmt (chunk : list BlockMeta) (w : World) : option (Z * World) :=
  if bool_decide (NoDup (block_key <$> chunk)) then
    Some (Z.of_nat (length chunk),
          upd_db (fun d => set_blocks (upsert_all (db_blocks d) (block_kv <$> chunk)) d) w)
  else None.

Definition block_upsert_batch_tx (blocks : list BlockMeta) : DbM Z :=
  mfold (fun n chunk => do k <- sql (block_upsert_stmt chunk); mret_ (u64_add n k)) 0
    (chunks (Z.to_nat (chunk_rows BLOCK_COLS)) blocks).

Definition block_upsert_batch (blocks : list BlockMeta) : M World DomainError Z :=
  in_tx domain_of_db (mmap_err domain_of_db (block_upsert_batch_tx blocks)).

Definition block_get (chain height : Z) : M World DomainError (option BlockMeta) :=
  mmap_err domain_of_db (sql (fun w =>
    Some ((fun r => mkBlockMeta chain height (b_hash r) (b_parent_hash r) (b_time r))
            <$> db_blocks (w_db w) !! (as_i64 chain, as_i64 height), w))).

Definition block_between (chain from to : Z) (kv : (Z * Z) * BlockRow) : bool :=
  let '((c, h), _) := kv in (c =? as_i64 chain) && (as_i64 from <=? h) && (h <=? as_i64 to).

Definition block_times (chain from to : Z) : M World DomainError (list (Z * Z)) :=
  mmap_err domain_of_db (sql (fun w =>
    Some ((fun kv : (Z * Z) * BlockRow => (as_u64 kv.1.2, b_time kv.2))
            <$> filter (fun kv => block_between chain from to kv)
                  (map_to_list (db_blocks (w_db w))), w))).

(** [SELECT max(height) FROM blocks WHERE chain_id = $1]. *)
Definition max_opt (o : option Z) (h : Z) : option Z :=
  Some (match o with Some m => Z.max m h | None => h end).

Definition chain_heights (chain : Z) (m : gmap (Z * Z) BlockRow) : list Z :=
  snd <$> filter (fun k : Z * Z => k.1 = as_i64 chain) (map_to_list m).*1.

Definition block_max_height (chain : Z) : M World DomainError (option Z) :=
  mmap_err domain_of_db (sql (fun w =>
    Some (as_u64 <$> fold_left max_opt (chain_heights chain (db_blocks (w_db w))) None, w))).

Definition block_delete_from_height_tx (chain from : Z) : DbM Z :=
  sql (fun w =>
    let m := db_blocks (w_db w) in
    let m' := filter (fun kv => ~ (kv.1.1 = as_i64 chain /\ as_i64 from <= kv.1.2)) m in
    Some (Z.of_nat (size m) - Z.of_nat (size m'), upd_db (set_blocks m') w)).

Definition block_delete_from_height (chain from : Z) : M World DomainError Z :=
  in_tx domain_of_db (mmap_err domain_of_db (block_delete_from_height_tx chain from)).

(** A column of a typed row read as [bytea]; a NULL [input] (no transactions row has one) makes
    [get] panic, and gives no row here. *)
Definition field_bytes (name : string) (r : TypedRow) : option bytes :=
  match list_find (fun f : string * EventValue => f.1 = name) (tr_fields r) with
  | Some (_, (_, VAddress b)) | Some (_, (_, VBytes b)) | Some (_, (_, VHash b)) => Some b
  | _ => None
  end.

Definition calldata_of (chain : Z) (r : TypedRow) : option TxCalldata :=
  input ← field_bytes "input" r;
  Some (mkTxCalldata chain (as_u64 (tr_height r)) (tr_block_hash r) (tr_tx_id r)
          (default [] (field_bytes "to_addr" r)) (as_u64 (default 0 (tr_idx r))) input).

Definition calldata_stmt (chain : Z) (ids : list bytes) (w : World) :
    option (list TxCalldata * World) :=
  t ← db_tables (w_db w) !! "transactions";
  let rows := filter (fun r => tr_chain_id r = as_i64 chain /\ tr_tx_id r ∈ ids)
                (map_to_list (t_rows t)).*2 in
  out ← mapM (calldata_of chain) rows;
  Some (out, w).

Definition block_calldata (chain : Z) (tx_ids : list bytes) : M World DomainError (list TxCalldata) :=
  mmap_err domain_of_db
    (mfold (fun out ids => do rows <- sql (calldata_stmt chain ids); mret_ (out ++ rows)) []
       (chunks (Z.to_nat CALLDATA_CHUNK) tx_ids)).

(** * Cursors ([cursor_repo.rs]) *)

Definition cursor_get (chain : Z) : M World DomainError (option (Z * bytes)) :=
  mmap_err domain_of_db (sql (fun w =>
    Some ((fun lh : Z * bytes => (as_u64 lh.1, lh.2)) <$> db_cursors (w_db w) !! as_i64 chain, w))).

Definition advance_in_tx (chain last : Z) (last_hash : bytes) : DbM () :=
  sql (fun w => Some (tt, upd_db (fun d =>
    set_cursors (<[as_i64 chain := (as_i64 last, last_hash)]> (db_cursors d)) d) w)).

Definition cursor_advance (chain last : Z) (last_hash : bytes) : M World DomainError () :=
  in_tx domain_of_db (mmap_err domain_of_db (advance_in_tx chain last last_hash)).

(** [UPDATE cursors SET last_height = $2, last_hash = '' WHERE chain_id = $1]. *)
Definition rewind_in_tx (chain to : Z) : DbM () :=
  sql (fun w => Some (tt, upd_db (fun d =>
    set_cursors (alter (fun _ => (as_i64 to, [])) (as_i64 chain) (db_cursors d)) d) w)).

Definition cursor_rewind (chain to : Z) : M World DomainError () :=
  in_tx domain_of_db (mmap_err domain_of_db (rewind_in_tx chain to)).

(** * Typed rows ([event_repo.rs]) *)

Definition meta_cols : list string := ["chain_id"; "height"; "block_hash"; "block_time"; "tx_id"].

Definition insert_cols (has_idx : bool) (sig : list string) : list string :=
  meta_cols ++ (if has_idx then ["idx"] else []) ++ sig.

Definition typed_row (has_idx : bool) (r : EventRow) : TypedRow :=
  mkTypedRow (as_i64 (er_chain_id r)) (as_i64 (er_height r)) (er_block_hash r) (er_block_time r)
    (er_tx_id r) (if has_idx then Some (as_i64 (er_index r)) else None) (de_fields (er_event r)).

Definition typed_kv (pk : PkKind) (has_idx : bool) (r : EventRow) : option (Key * TypedRow) :=
  let row := typed_row has_idx r in (fun k => (k, row)) <$> key_of pk row.

(** The rows of [transactions], the only table a foreign key refers to. *)
Definition parents (d : Db) : gmap Key TypedRow := default ∅ (t_rows <$> db_tables d !! "transactions").

Definition has_parent (ps : gmap Key TypedRow) (r : TypedRow) : bool :=
  bool_decide (is_Some (ps !! inr (tr_chain_id r, tr_tx_id r))).

(** A written row of a table with the foreign key has its parent. *)
Definition fk_ok (d : Db) (t : Table) (kvs : list (Key * TypedRow)) : bool :=
  negb (t_fk t)
  || forallb (fun kv => bool_decide (is_Some (t_rows t !! kv.1)) || has_parent (parents d) kv.2) kvs.

(** The Postgres type a value is bound with ([bind_value]). *)
Definition bound_type (v : EventValue) : string :=
  match v with
  | VAddress _ | VBytes _ | VHash _ => "bytea"
  | VBool _ => "boolean"
  | VUint _ | VInt _ => "numeric(78,0)"
  | VString _ => "text"
  | VJson _ => "jsonb"
  end.

Definition NUL : byte := byte_of 0.

(** [jsonb] takes any text that [serde_json] prints, but for the escape of the NUL character. *)
Fixpoint jsonb_text (l : bytes) : bool :=
  match l with
  | [] => true
  | c :: l =>
      if Ascii.eqb c NUL then false
      else if Ascii.eqb c "\" then
        match l with
        | d :: l => negb (Ascii.eqb d "u" && bool_decide (take 4 l = to_list "0000")) && jsonb_text l
        | [] => true
        end
      else jsonb_text l
  end.

(** The values Postgres takes at all: a text has no NUL byte, a [numeric(78,0)] at most 78 digits. *)
Definition storable (v : EventValue) : bool :=
  match v with
  | VUint s | VInt s => bool_decide (is_Some (parse_int 10 (1 - 10 ^ 78) (10 ^ 78 - 1) (to_list s)))
  | VString s => forallb (fun b => negb (Ascii.eqb b NUL)) (to_list s)
  | VJson s => jsonb_text (to_list s)
  | VAddress _ | VBool _ | VBytes _ | VHash _ => true
  end.

(** A column takes the values bound with its type; a [text] column takes every value, as its text. *)
Definition accepts (ty : string) (v : EventValue) : bool :=
  (String.eqb ty (bound_type v) || String.eqb ty "text") && storable v.

Definition column_ty (cols : list (string * string)) (name : string) : option string :=
  snd <$> (snd <$> list_find (fun ct : string * string => ct.1 = name) cols).

Definition row_accepted (cols : list (string * string)) (r : EventRow) : bool :=
  forallb (fun f => match column_ty cols f.1 with Some ty => accepts ty f.2 | None => false end)
    (de_fields (er_event r)).

Definition event_insert_stmt (table : string) (has_idx : bool) (sig : list string)
    (part : list EventRow) (w : World) : option (Z * World) :=
  t ← db_tables (w_db w) !! table;
  kvs ← mapM (typed_kv (t_pk t) has_idx) part;
  let cols := insert_cols has_idx sig in
  if bool_decide (NoDup cols) && bool_decide (Forall (fun c => c ∈ (t_cols t).*1) cols)
     && forallb (row_accepted (t_cols t)) part && fk_ok (w_db w) t kvs then
    let '(rows, n) := insert_absent (t_rows t) kvs in
    Some (n, upd_db (fun d => set_tables (<[table := set_rows rows t]> (db_tables d)) d) w)
  else None.

Definition sig_of (r : EventRow) : list string := (de_fields (er_event r)).*1.

Definition event_upsert_batch_tx (table : string) (rows : list EventRow) : DbM Z :=
  do _ <- mlift (safe_ident table);
  let has_idx := table_has_idx table in
  let groups := btree_group strs_cmp sig_of rows in
  mfold (fun n g =>
    let '(sig, group) := g in
    let cols := (if has_idx then 6 else 5) + Z.of_nat (length sig) in
    mfold (fun n part =>
      do _ <- mlift (res_map safe_ident sig);
      do k <- sql (event_insert_stmt table has_idx sig part);
      mret_ (u64_add n k)) n (chunks (Z.to_nat (chunk_rows cols)) group)) 0 groups.

Definition event_upsert_batch (table : string) (rows : list EventRow) : M World DomainError Z :=
  do _ <- mlift (res_map_err domain_of_db (safe_ident table));
  in_tx domain_of_db (mmap_err domain_of_db (event_upsert_batch_tx table rows)).

Definition typed_at_or_above (chain from : Z) (r : TypedRow) : bool :=
  (tr_chain_id r =? as_i64 chain) && (as_i64 from <=? tr_height r).

(** Deleting from [transactions] cascades to the rows that refer to it. *)
Definition cascade (t : Table) (gone : gmap Key TypedRow) : Table :=
  if t_fk t then set_rows (filter (fun kv => has_parent gone kv.2 = false) (t_rows t)) t else t.

Definition delete_rows (chain from : Z) (table : string) (ts : gmap string Table) :
    option (Z * gmap string Table) :=
  t ← ts !! table;
  let gone := filter (fun kv => typed_at_or_above chain from kv.2 = true) (t_rows t) in
  let kept := filter (fun kv => typed_at_or_above chain from kv.2 = false) (t_rows t) in
  let ts := <[table := set_rows kept t]> ts in
  Some (Z.of_nat (size gone),
        if bool_decide (table = "transactions") then (fun t => cascade t gone) <$> ts else ts).

Definition event_delete_from_height_tx (table : string) (chain from : Z) : DbM Z :=
  do _ <- mlift (safe_ident table);
  sql (fun w =>
    '(n, ts) ← delete_rows chain from table (db_tables (w_db w));
    Some (n, upd_db (set_tables ts) w)).

Definition event_delete_from_height (table : string) (chain from : Z) : M World DomainError Z :=
  in_tx domain_of_db (mmap_err domain_of_db (event_delete_from_height_tx table chain from)).

(** * What each batch does to the tables *)

Definition raw_effect (rs : list RawRecord) (d : Db) : Db :=
  set_raw (db_raw d ∪ list_to_map (raw_kv <$> rs)) d.

Definition block_effect (bs : list BlockMeta) (d : Db) : Db :=
  set_blocks (upsert_all (db_blocks d) (block_kv <$> bs)) d.

Definition cursor_effect (chain last : Z) (h : bytes) (d : Db) : Db :=
  set_cursors (<[as_i64 chain := (as_i64 last, h)]> (db_cursors d)) d.

Definition rewind_effect (chain to : Z) (d : Db) : Db :=
  set_cursors (alter (fun _ => (as_i64 to, [])) (as_i64 chain) (db_cursors d)) d.

Definition typed_effect (table : string) (rs : list EventRow) (d : Db) : Db :=
  set_tables (alter (fun t => set_rows
    (t_rows t ∪ list_to_map (omap (typed_kv (t_pk t) (table_has_idx table)) rs)) t)
    table (db_tables d)) d.

(** Rows reach the table signature by signature. *)
Definition by_signature (rs : list EventRow) : list EventRow :=
  concat (btree_group strs_cmp sig_of rs).*2.

Lemma by_signature_perm rs : by_signature rs ≡ₚ rs.
Proof. apply btree_group_perm. Qed.

(** A batch written in chunks has the effect of its rows in one go. *)
Lemma chunks_fold {A} (f : list A -> Db -> Db) cols rows d :
  (forall d, f [] d = d) -> (forall a b d, f (a ++ b) d = f b (f a d)) ->
  fold_left (fun d c => f c d) (chunks (Z.to_nat (chunk_rows cols)) rows) d = f rows d.
Proof.
  intros H0 Happ. pose proof (chunk_rows_pos cols).
  assert (concat (chunks (Z.to_nat (chunk_rows cols)) rows) = rows) as Hc
    by (apply chunks_concat; lia).
  revert Hc. generalize (chunks (Z.to_nat (chunk_rows cols)) rows) as cs. intros cs <-. revert d.
  induction cs as [|c cs IH]; intros d; cbn; [by rewrite H0|]. by rewrite Happ, IH.
Qed.

Lemma chunked_updates {A} (stmt : list A -> World -> option (Z * World)) (f : list A -> Db -> Db)
    cols rows :
  (forall c, updates (sql (stmt c)) (f c)) -> (forall d, f [] d = d) ->
  (forall a b d, f (a ++ b) d = f b (f a d)) ->
  updates (mfold (fun n c => do k <- sql (stmt c); mret_ (u64_add n k)) 0
             (chunks (Z.to_nat (chunk_rows cols)) rows)) (f rows).
Proof.
  intros Hs H0 Happ. eapply updates_ext; [|apply (updates_mfold _ f)].
  - intros d. by apply chunks_fold.
  - intros acc c. apply (updates_bind _ _ (f c) (fun d => d)); [apply Hs|]. intros k. apply updates_ret.
Qed.

Lemma raw_insert_updates rs : updates (raw_insert_batch_tx rs) (raw_effect rs).
Proof.
  apply chunked_updates.
  - intros c. apply updates_sql. intros w a w'. unfold raw_insert_stmt.
    destruct (insert_absent _ _) as [m n] eqn:E. intros [= <- <-]. unfold raw_effect.
    rewrite <- insert_absent_union, E. done.
  - intros [b c r q t]. unfold raw_effect. cbn. by rewrite map_union_empty.
  - intros a b d. unfold raw_effect. cbn. by rewrite fmap_app, list_to_map_app, (assoc_L (∪)).
Qed.

Lemma block_upsert_updates bs : updates (block_upsert_batch_tx bs) (block_effect bs).
Proof.
  apply chunked_updates.
  - intros c. apply updates_sql. intros w a w'. unfold block_upsert_stmt.
    case_bool_decide; [|done]. by intros [= <- <-].
  - by intros [b c r q t].
  - intros a b d. unfold block_effect, upsert_all. cbn. by rewrite fmap_app, fold_left_app.
Qed.

Lemma advance_updates chain last h : updates (advance_in_tx chain last h) (cursor_effect chain last h).
Proof. apply updates_sql. by intros w a w' [= <- <-]. Qed.

Lemma rewind_updates chain to : updates (rewind_in_tx chain to) (rewind_effect chain to).
Proof. apply updates_sql. by intros w a w' [= <- <-]. Qed.

Lemma typed_effect_nil table d : typed_effect table [] d = d.
Proof.
  destruct d as [b c r q ts]. unfold typed_effect, set_tables. cbn. f_equal.
  apply map_eq. intros i. destruct (decide (i = table)) as [->|].
  - rewrite lookup_alter_eq. destruct (ts !! table) as [[]|]; [|done]. cbn. unfold set_rows. cbn.
    by rewrite map_union_empty.
  - by rewrite lookup_alter_ne.
Qed.

Lemma typed_effect_app table a b d :
  typed_effect table (a ++ b) d = typed_effect table b (typed_effect table a d).
Proof.
  unfold typed_effect, set_tables. cbn. f_equal. rewrite alter_alter_eq.
  apply alter_ext. intros t _. unfold set_rows. cbn. f_equal.
  by rewrite omap_app, list_to_map_app, (assoc_L (∪)).
Qed.

Lemma mapM_omap {A B} (f : A -> option B) l k : mapM f l = Some k -> omap f l = k.
Proof.
  revert k. induction l as [|x l IH]; intros k; cbn; [by intros [= <-]|].
  destruct (f x); cbn; [|done]. destruct (mapM f l) as [k'|]; cbn; [|done].
  intros [= <-]. by rewrite (IH k').
Qed.

Lemma event_insert_updates table sig part :
  updates (sql (event_insert_stmt table (table_has_idx table) sig part)) (typed_effect table part).
Proof.
  apply updates_sql. intros w a w'. unfold event_insert_stmt.
  destruct (db_tables (w_db w) !! table) as [t|] eqn:Et; cbn; [|done].
  destruct (mapM _ part) as [kvs|] eqn:Ek; cbn; [|done].
  destruct (_ && _); [|done]. destruct (insert_absent _ _) as [m n] eqn:E. intros [= <- <-].
  split; [|done]. cbn. unfold typed_effect. f_equal.
  apply map_eq. intros i. destruct (decide (i = table)) as [->|].
  - rewrite lookup_insert_eq, lookup_alter_eq, Et. cbn.
    by rewrite (mapM_omap _ _ _ Ek), <- insert_absent_union, E.
  - by rewrite lookup_insert_ne, lookup_alter_ne.
Qed.

Lemma mlift_bind_updates {E A B} (r : result E A) (k : A -> M World E B) f :
  (forall a, updates (k a) f) -> updates (mbind_ (mlift r) k) f.
Proof.
  intros Hk w b w' H. destruct r as [a|e]; [|done]. by apply (Hk a) in H.
Qed.

Lemma event_upsert_updates table rs :
  updates (event_upsert_batch_tx table rs) (typed_effect table (by_signature rs)).
Proof.
  unfold event_upsert_batch_tx, by_signature. apply mlift_bind_updates. intros _.
  eapply updates_ext; [|apply (updates_mfold _ (fun g => typed_effect table g.2))].
  - generalize (btree_group strs_cmp sig_of rs) as gs. intros gs.
    induction gs as [|[sig g] gs IH]; intros d; cbn; [by rewrite typed_effect_nil|].
    by rewrite typed_effect_app, IH.
  - intros acc [sig g]. cbn [snd]. set (cols := _ + _).
    eapply updates_ext; [|apply (updates_mfold _ (typed_effect table))].
    + intros d. apply chunks_fold; [apply typed_effect_nil|apply typed_effect_app].
    + intros n part. apply mlift_bind_updates. intros _.
      apply (updates_bind _ _ (typed_effect table part) (fun d => d)); [apply event_insert_updates|].
      intros k. apply updates_ret.
Qed.

(** * The raw store gives back what it was given *)

Definition rec_le (a b : RawRecord) : Prop :=
  rr_height a < rr_height b \/ (rr_height a = rr_height b /\ rr_index a <= rr_index b).

Definition rec_in_range (chain from to : Z) (r : RawRecord) : Prop :=
  rr_chain_id r = chain /\ from <= rr_height r <= to.

#[export] Instance rec_in_range_dec chain from to r : Decision (rec_in_range chain from to r).
Proof. unfold rec_in_range. apply _. Defined.

#[export] Instance height_idx_le_total : Total height_idx_le.
Proof. intros [[[c h] i] r] [[[c' h'] i'] r']. cbn. lia. Qed.

#[export] Instance height_idx_le_trans : Transitive height_idx_le.
Proof. intros [[[? ?] ?] ?] [[[? ?] ?] ?] [[[? ?] ?] ?]. cbn. lia. Qed.

Lemma map_as_u64_i64 o : Forall is_u64 (option_list o) -> as_u64 <$> (as_i64 <$> o) = o.
Proof. destruct o as [z|]; [|done]. cbn. intros [Hz _]%Forall_cons. by rewrite as_u64_as_i64. Qed.

(** Reading a stored record gives the record. *)
Lemma raw_decode_kv r : wf_raw r -> raw_decode (rr_chain_id r) (raw_kv r) = r.
Proof.
  intros (Hc & Hh & Hi & Ht & Hn & Hs). destruct r. cbn -[unframe_selectors frame_selectors] in *.
  rewrite !as_u64_as_i64 by auto with t0. rewrite map_as_u64_i64 by done.
  by rewrite unframe_selectors_wf.
Qed.

Lemma raw_between_kv chain from to r :
  wf_raw r -> is_u64 chain -> is_i63 from -> is_i63 to ->
  raw_between chain from to (raw_kv r) = true <-> rec_in_range chain from to r.
Proof.
  intros (Hc & Hh & _) Hch Hf Ht. unfold raw_between, raw_kv, raw_key, rec_in_range.
  rewrite !andb_true_iff, Z.eqb_eq, !Z.leb_le.
  rewrite (as_i64_small (rr_height r)), (as_i64_small from), (as_i64_small to)
    by (unfold_int; lia).
  split; [intros [[Heq ?] ?]|intros [-> ?]]; [|lia]. apply as_i64_inj in Heq; [lia|done|done].
Qed.

Lemma filter_decode chain from to l :
  Forall wf_raw l -> is_u64 chain -> is_i63 from -> is_i63 to ->
  raw_decode chain <$> filter (fun kv => raw_between chain from to kv) (raw_kv <$> l)
  = filter (rec_in_range chain from to) l.
Proof.
  intros Hl Hc Hf Ht. induction Hl as [|r l Hr _ IH]; [done|].
  rewrite fmap_cons, !filter_cons.
  pose proof (raw_between_kv chain from to r Hr Hc Hf Ht) as Hb.
  destruct (decide (rec_in_range chain from to r)) as [Hin|Hin].
  - rewrite decide_True by (by rewrite (proj2 Hb Hin)). rewrite fmap_cons, IH.
    destruct Hin as [<- _]. by rewrite raw_decode_kv.
  - rewrite decide_False; [done|]. intros Hx. apply Hin, Hb. by destruct (raw_between _ _ _ _).
Qed.

(** The rows of a range after an insert into a store that had none there. *)
Lemma range_rows_perm chain from to m l :
  NoDup (raw_key <$> l) ->
  (forall k v, m !! k = Some v -> raw_between chain from to (k, v) = false) ->
  filter (fun kv => raw_between chain from to kv) (map_to_list (m ∪ list_to_map (raw_kv <$> l)))
  ≡ₚ filter (fun kv => raw_between chain from to kv) (raw_kv <$> l).
Proof.
  intros Hnd Hm.
  assert (NoDup ((raw_kv <$> l).*1)) as Hnd'
    by (by rewrite <- list_fmap_compose).
  apply NoDup_Permutation.
  - apply NoDup_filter, NoDup_map_to_list.
  - apply NoDup_filter. by apply (NoDup_fmap_1 fst).
  - intros [k v]. rewrite !list_elem_of_filter, elem_of_map_to_list.
    split; intros [Hb Hkv]; split; try done.
    + apply lookup_union_Some_raw in Hkv as [Hk|[_ Hk]].
      * by rewrite (Hm _ _ Hk) in Hb.
      * by apply elem_of_list_to_map_2.
    + apply lookup_union_Some_raw. destruct (m !! k) as [v'|] eqn:Ek.
      * specialize (Hm _ _ Ek). destruct k as [[c h] i]. cbn in *. by rewrite Hm in Hb.
      * right. split; [done|]. by apply elem_of_list_to_map_1.
Qed.

Lemma sorted_rows_sorted chain from to rows :
  is_i63 from -> is_i63 to -> Forall (fun kv => raw_between chain from to kv) rows ->
  Forall (fun kv : (Z * Z * Z) * RawRow => is_i63 kv.1.2) rows ->
  StronglySorted height_idx_le rows -> StronglySorted rec_le (raw_decode chain <$> rows).
Proof.
  intros Hf Ht Hb Hi Hs. induction Hs as [|x rows Hs IH Hx]; cbn; [constructor|].
  apply Forall_cons in Hb as [Hbx Hb]. apply Forall_cons in Hi as [Hix Hi].
  constructor; [by apply IH|]. apply List.Forall_forall. intros y (y0 & <- & Hy)%in_map_iff.
  rewrite List.Forall_forall in Hx, Hb, Hi. specialize (Hx _ Hy). specialize (Hb _ Hy).
  specialize (Hi _ Hy). destruct x as [[[c h] i] r], y0 as [[[c' h'] i'] r'].
  apply Is_true_true in Hb, Hbx. unfold raw_between in Hb, Hbx. cbn in *.
  rewrite !andb_true_iff, !Z.leb_le, (as_i64_small from), (as_i64_small to) in *
    by (unfold_int; lia).
  unfold rec_le. cbn. rewrite !as_u64_small by (unfold_int; lia). lia.
Qed.

(** C36: the raw store is a faithful log: records inserted where the store had none come back from
    [range] exactly once each, unchanged, in [(height, index)] order, and nothing else does. *)
Theorem raw_insert_range_roundtrip (l : list RawRecord) (chain from to n : Z)
    (out : list RawRecord) (w w1 w2 : World) :
  Forall wf_raw l -> NoDup (raw_key <$> l) -> is_u64 chain -> is_i63 from -> is_i63 to ->
  (forall k v, db_raw (w_db w) !! k = Some v -> raw_between chain from to (k, v) = false) ->
  raw_insert_batch l w = (Ok n, w1) -> raw_range chain from to w1 = (Ok out, w2) ->
  out ≡ₚ filter (rec_in_range chain from to) l /\ StronglySorted rec_le out.
Proof.
  intros Hwf Hnd Hc Hf Ht Hm Hins Hr.
  apply (updates_in_tx _ _ _ (updates_map_err _ _ _ (raw_insert_updates l))) in Hins as (Hdb & _).
  unfold raw_range in Hr. apply mmap_err_Ok, sql_Ok in Hr as (w3 & (E3 & _)%next_fault_same & Hr).
  injection Hr as <- _. unfold raw_range_rows. rewrite E3, Hdb. cbn.
  pose proof (range_rows_perm chain from to _ _ Hnd Hm) as Hp. split.
  - rewrite <- (filter_decode chain from to l Hwf Hc Hf Ht), merge_sort_Permutation, Hp. done.
  - apply (sorted_rows_sorted _ from to); try done.
    + rewrite merge_sort_Permutation. apply Forall_forall.
      intros x Hx. by apply list_elem_of_filter in Hx as [? _].
    + rewrite merge_sort_Permutation, Hp. apply Forall_forall.
      intros x (_ & (r & -> & Hr)%list_elem_of_fmap)%list_elem_of_filter.
      rewrite Forall_forall in Hwf. destruct (Hwf _ Hr) as (_ & _ & Hi & _). cbn.
      rewrite as_i64_small; [done|apply Hi].
    + apply StronglySorted_merge_sort; apply _.
Qed.

Definition empty_db : Db := mkDb ∅ ∅ ∅ [] ∅.
Definition calm_world (d : Db) : World := mkWorld d 1 0 [].

Definition sample_rec (h i : Z) : RawRecord :=
  mkRawRecord 1 h [byte_of 1] i [byte_of 2] [[byte_of 3; byte_of 4]] [byte_of 5] [byte_of 6] 0 None.

Lemma sample_rec_wf h i : is_i63 h -> is_i63 i -> wf_raw (sample_rec h i).
Proof.
  intros. unfold wf_raw, sample_rec. split_and!; cbn; try done; try (unfold_int; lia).
  repeat constructor.
Qed.

Lemma raw_insert_range_roundtrip_witness :
  let l := [sample_rec 9 0; sample_rec 7 1; sample_rec 7 0] in
  let r1 := raw_insert_batch l (calm_world empty_db) in
  let r2 := raw_range 1 5 8 r1.2 in
  r1.1 = Ok 3 /\ r2.1 = Ok [sample_rec 7 0; sample_rec 7 1]
  /\ [sample_rec 7 0; sample_rec 7 1] ≡ₚ filter (rec_in_range 1 5 8) l
  /\ StronglySorted rec_le [sample_rec 7 0; sample_rec 7 1].
Proof.
  intros l r1 r2. split; [by vm_compute|]. split; [by vm_compute|].
  apply (raw_insert_range_roundtrip l 1 5 8 3 _ (calm_world empty_db) r1.2 r2.2).
  - do 3 (constructor; [apply sample_rec_wf; unfold_int; lia|]). constructor.
  - apply (bool_decide_unpack _). by vm_compute.
  - unfold_int; lia.
  - unfold_int; lia.
  - unfold_int; lia.
  - intros k v H. cbn in H. by rewrite lookup_empty in H.
  - by vm_compute.
  - by vm_compute.
Defined.
