(* ===== verification/Queue.v ===== *)
(** The work queue ([crates/db/src/repositories/queue_repo.rs]): a Postgres table of decode items
    with leases.  Operations as statements of [Store], the queue as a state machine, and the
    invariants that make the lease protocol safe. *)
From S2P Require Import Prelude Model Text Store Repos.

(** * Operations *)

Definition kind_str (k : WorkKind) : string :=
  match k with Backfill => "backfill" | Tip => "tip" | Reorg => "reorg" end.

Definition parse_kind (s : string) : WorkKind :=
  if String.eqb s "tip" then Tip else if String.eqb s "reorg" then Reorg else Backfill.

(** The unique index [work_queue_item_uniq]. *)
Definition dedup_key (r : QueueRow) : Z * Z * Z * string :=
  (wq_chain_id r, wq_from r, wq_to r, wq_kind r).

Definition item_key (i : WorkItem) : Z * Z * Z * string :=
  (as_i64 (wi_chain_id i), as_i64 (wi_from i), as_i64 (wi_to i), kind_str (wi_kind i)).

Definition fresh_row (id : Z) (i : WorkItem) : QueueRow :=
  mkQueueRow id (as_i64 (wi_chain_id i)) (as_i64 (wi_from i)) (as_i64 (wi_to i))
    (kind_str (wi_kind i)) (as_i64 (wi_epoch i)) None 0.

(** [INSERT ... ON CONFLICT DO NOTHING]; the sequence moves in both cases. *)
Definition push_rows (id : Z) (i : WorkItem) (q : list QueueRow) : list QueueRow :=
  if bool_decide (item_key i ∈ dedup_key <$> q) then q else q ++ [fresh_row id i].

Definition push_in_tx (i : WorkItem) : DbM () :=
  sql (fun w => Some (tt,
    mkWorld (set_queue (push_rows (w_seq w) i (db_queue (w_db w))) (w_db w)) (w_seq w + 1)
      (w_now w) (w_faults w))).

Definition push (i : WorkItem) : M World DomainError () :=
  in_tx domain_of_db (mmap_err domain_of_db (push_in_tx i)).

Definition locked (r : QueueRow) : bool := bool_decide (is_Some (wq_locked_at r)).

(** [chain_id NOT IN (SELECT chain_id FROM work_queue WHERE locked_at IS NOT NULL)]. *)
Definition in_flight (q : list QueueRow) (chain : Z) : bool :=
  existsb (fun r => locked r && (wq_chain_id r =? chain)) q.

Definition ready (q : list QueueRow) (r : QueueRow) : bool :=
  negb (locked r) && negb (in_flight q (wq_chain_id r)).

Definition lock_row (now : Z) (r : QueueRow) : QueueRow :=
  mkQueueRow (wq_id r) (wq_chain_id r) (wq_from r) (wq_to r) (wq_kind r) (wq_epoch r)
    (Some now) (wq_lease_seq r + 1).

Definition unlock_row (r : QueueRow) : QueueRow :=
  mkQueueRow (wq_id r) (wq_chain_id r) (wq_from r) (wq_to r) (wq_kind r) (wq_epoch r)
    None (wq_lease_seq r + 1).

Definition lease_item (r : QueueRow) : WorkItem :=
  mkWorkItem (as_u64 (wq_chain_id r)) (as_u64 (wq_from r)) (as_u64 (wq_to r))
    (parse_kind (wq_kind r)) (as_u64 (wq_epoch r)).

Definition lease_of (r : QueueRow) : Lease := mkLease (wq_id r) (wq_lease_seq r) (lease_item r).

(** The rows are kept in [id] order, so the first ready one is the oldest. *)
Definition pull_rows (now : Z) (q : list QueueRow) : option (Lease * list QueueRow) :=
  match list_find (fun r => ready q r) q with
  | Some (i, r) => Some (lease_of (lock_row now r), <[i := lock_row now r]> q)
  | None => None
  end.

Definition pull_any : M World DomainError (option Lease) :=
  mmap_err domain_of_db (sql (fun w =>
    match pull_rows (w_now w) (db_queue (w_db w)) with
    | Some (l, q) => Some (Some l, upd_db (set_queue q) w)
    | None => Some (None, w)
    end)).

Definition depth : M World DomainError Z :=
  mmap_err domain_of_db (sql (fun w => Some (Z.of_nat (length (db_queue (w_db w))), w))).

Definition ack_rows (id seq : Z) (q : list QueueRow) : list QueueRow :=
  filter (fun r => ~ (wq_id r = id /\ wq_lease_seq r = seq)) q.

Definition ack (lease_id lease_seq : Z) : M World DomainError () :=
  mmap_err domain_of_db (sql (fun w =>
    Some (tt, upd_db (fun d => set_queue (ack_rows lease_id lease_seq (db_queue d)) d) w))).

(** [locked_at IS NOT NULL AND locked_at < now() - make_interval(secs => $1)]. *)
Definition expired (now older_than_secs : Z) (r : QueueRow) : bool :=
  match wq_locked_at r with Some t => t <? now - older_than_secs | None => false end.

Definition reclaim_rows (now secs : Z) (q : list QueueRow) : list QueueRow :=
  (fun r => if expired now secs r then unlock_row r else r) <$> q.

Definition reclaim_expired (older_than_secs : Z) : M World DomainError Z :=
  mmap_err domain_of_db (sql (fun w =>
    let q := db_queue (w_db w) in
    Some (Z.of_nat (length (filter (fun r => expired (w_now w) older_than_secs r) q)),
          upd_db (set_queue (reclaim_rows (w_now w) older_than_secs q)) w))).

(** * The queue as a state machine *)

(** The world and every lease handed to a worker so far. *)
Definition QState : Type := World * list Lease.

(** Producers, workers and the reclaim ticker run one statement at a time; any statement may fail,
    with or without having taken effect, and time passes between them. *)
Inductive qstep : QState -> QState -> Prop :=
| QPush i w r w' L : push i w = (r, w') -> qstep (w, L) (w', L)
| QPull w l w' L : pull_any w = (Ok (Some l), w') -> qstep (w, L) (w', l :: L)
| QPullNone w r w' L : pull_any w = (r, w') -> (forall l, r <> Ok (Some l)) -> qstep (w, L) (w', L)
| QAck l w r w' L : l ∈ L -> ack (l_id l) (l_lease_seq l) w = (r, w') -> qstep (w, L) (w', L)
| QReclaim secs w r w' L : reclaim_expired secs w = (r, w') -> qstep (w, L) (w', L)
| QTime w t L : w_now w <= t ->
    qstep (w, L) (mkWorld (w_db w) (w_seq w) t (w_faults w), L).

Inductive qreach (s : QState) : QState -> Prop :=
| QRefl : qreach s s
| QStep s1 s2 : qreach s s1 -> qstep s1 s2 -> qreach s s2.

Definition holds (r : QueueRow) (l : Lease) : Prop :=
  wq_id r = l_id l -> l_lease_seq l <= wq_lease_seq r
  /\ (l_lease_seq l = wq_lease_seq r -> locked r = true /\ l_item l = lease_item r).

Record queue_ok (q : list QueueRow) (n : Z) (L : list Lease) : Prop := mkQueueOk {
  qo_sorted : StronglySorted Z.lt (wq_id <$> q);
  qo_below : Forall (fun r => wq_id r < n) q;
  qo_dedup : NoDup (dedup_key <$> q);
  qo_serial : forall a b, a ∈ q -> b ∈ q -> locked a = true -> locked b = true ->
    wq_chain_id a = wq_chain_id b -> a = b;
  qo_leases : Forall (fun l => l_id l < n) L;
  qo_holds : forall r l, r ∈ q -> l ∈ L -> holds r l;
  qo_tokens : NoDup ((fun l => (l_id l, l_lease_seq l)) <$> L)
}.

Definition qinv (s : QState) : Prop := queue_ok (db_queue (w_db s.1)) (w_seq s.1) s.2.

(** * The invariant is kept *)

Lemma sorted_lt_NoDup l : StronglySorted Z.lt l -> NoDup l.
Proof.
  induction 1 as [|x l Hs IH Hx]; constructor; [|done]. intros Hin.
  rewrite Forall_forall in Hx. specialize (Hx _ Hin). lia.
Qed.

Lemma sorted_lt_snoc l n : StronglySorted Z.lt l -> Forall (fun x => x < n) l ->
  StronglySorted Z.lt (l ++ [n]).
Proof.
  induction 1 as [|x l Hs IH Hx]; intros Hf; cbn; [repeat constructor|].
  apply Forall_cons in Hf as [? Hf]. constructor; [auto|].
  apply Forall_app. split; [done|]. repeat constructor. done.
Qed.

Lemma sorted_lt_filter (P : QueueRow -> Prop) `{!forall x, Decision (P x)} q :
  StronglySorted Z.lt (wq_id <$> q) -> StronglySorted Z.lt (wq_id <$> filter P q).
Proof.
  induction q as [|r q IH]; [done|]. rewrite fmap_cons, filter_cons.
  intros Hs. apply StronglySorted_inv in Hs as [Hs Hr].
  destruct (decide (P r)); [|auto]. rewrite fmap_cons. constructor; [auto|].
  apply List.Forall_forall. intros x (y & <- & Hy)%in_map_iff.
  rewrite Forall_fmap, Forall_forall in Hr. apply Hr.
  apply list_elem_of_In in Hy. by apply list_elem_of_filter in Hy as [_ ?].
Qed.

Section preservation.
Context (q : list QueueRow) (n : Z) (L : list Lease) (Hok : queue_ok q n L).

Lemma ids_unique i j a b : q !! i = Some a -> q !! j = Some b -> wq_id a = wq_id b -> i = j.
Proof.
  intros Hi Hj E. pose proof (sorted_lt_NoDup _ (qo_sorted _ _ _ Hok)) as Hnd.
  eapply NoDup_lookup; [exact Hnd| |]; rewrite list_lookup_fmap; [by rewrite Hi|].
  rewrite Hj. cbn. by rewrite E.
Qed.

Lemma queue_ok_next m : n <= m -> queue_ok q m L.
Proof.
  intros Hm. destruct Hok. constructor; try done.
  - eapply Forall_impl; [done|]. cbn. lia.
  - eapply Forall_impl; [done|]. cbn. lia.
Qed.

Lemma queue_ok_push i : queue_ok (push_rows n i q) (n + 1) L.
Proof.
  unfold push_rows. case_bool_decide as Hk; [apply queue_ok_next; lia|].
  destruct Hok as [Hs Hb Hd Hse Hl Hh Ht]. constructor.
  - rewrite fmap_app. apply sorted_lt_snoc; [done|]. by apply Forall_fmap.
  - apply Forall_app. split; [eapply Forall_impl; [done|]; cbn; lia|repeat constructor; cbn; lia].
  - rewrite fmap_app. apply NoDup_app. split_and!; [done| |apply NoDup_singleton].
    intros x Hx Hx'%list_elem_of_singleton. by subst x.
  - intros a b [Ha|Ha%list_elem_of_singleton]%elem_of_app
      [Hb'|Hb'%list_elem_of_singleton]%elem_of_app La Lb Hc; subst; try done; auto.
  - eapply Forall_impl; [done|]. cbn. lia.
  - intros r l [Hr|Hr%list_elem_of_singleton]%elem_of_app Hin; [auto|subst r].
    intros E. rewrite Forall_forall in Hl. specialize (Hl _ Hin). cbn in E. lia.
  - done.
Qed.

(** Replacing the row at [i] by one with the same id and item. *)
Lemma updated_rows i r r' x :
  q !! i = Some r -> x ∈ <[i := r']> q ->
  x = r' \/ (x ∈ q /\ wq_id x <> wq_id r).
Proof.
  intros Hi (j & Hj)%list_elem_of_lookup.
  apply list_lookup_insert_Some in Hj as [(-> & <- & _)|[Hne Hj]]; [by left|right].
  split; [by eapply list_elem_of_lookup_2|]. intros E. apply Hne. by eapply ids_unique.
Qed.

Lemma queue_ok_pull now l q' :
  pull_rows now q = Some (l, q') -> queue_ok q' n (l :: L).
Proof.
  unfold pull_rows. destruct (list_find _ q) as [[i r]|] eqn:Ef; [|done]. intros [= <- <-].
  apply list_find_Some in Ef as (Hi & Hr & _). apply Is_true_true in Hr.
  unfold ready in Hr. apply andb_true_iff in Hr as [Hnl Hnf].
  rewrite negb_true_iff in Hnl, Hnf. pose proof (list_elem_of_lookup_2 _ _ _ Hi) as Hin.
  set (r' := lock_row now r). destruct Hok as [Hs Hb Hd Hse Hl Hh Ht].
  assert (forall {B} (f : QueueRow -> B), f r' = f r -> f <$> <[i:=r']> q = f <$> q) as Hf.
  { intros B f E. rewrite list_fmap_insert, E, list_insert_id; [done|].
    by rewrite list_lookup_fmap, Hi. }
  assert (forall b, b ∈ q -> locked b = true -> wq_chain_id b <> wq_chain_id r) as Hno.
  { intros b Hb' Lb E. unfold in_flight in Hnf. apply not_true_iff_false in Hnf.
    apply Hnf, existsb_exists. exists b. rewrite Lb, E, Z.eqb_refl.
    split; [by apply list_elem_of_In|done]. }
  constructor.
  - by rewrite (Hf _ wq_id).
  - apply Forall_forall. intros x Hx. rewrite Forall_forall in Hb.
    apply (updated_rows i r) in Hx as [->|[Hx _]]; [apply (Hb _ Hin)|auto|done].
  - by rewrite (Hf _ dedup_key).
  - intros a b Ha Hb' La Lb Hc.
    apply (updated_rows i r) in Ha as [->|[Ha _]]; [| |done];
      (apply (updated_rows i r) in Hb' as [->|[Hb' _]]; [| |done]).
    + done.
    + by destruct (Hno b Hb' Lb).
    + by destruct (Hno a Ha La).
    + auto.
  - constructor; [|done]. rewrite Forall_forall in Hb. cbn. auto.
  - intros x l Hx Hlx E. apply (updated_rows i r) in Hx as [->|[Hx Hne]]; [| |done];
      apply elem_of_cons in Hlx as [->|Hlx]; cbn in *.
    + split; [lia|done].
    + destruct (Hh r l Hin Hlx E) as [? _]. split; [lia|]. intros E'. lia.
    + by destruct Hne.
    + by apply Hh.
  - rewrite fmap_cons. constructor; [|done].
    intros (l & El & Hlx)%list_elem_of_fmap. cbn in El. injection El as E1 E2.
    destruct (Hh r l Hin Hlx E1) as [? _]. lia.
Qed.

Lemma queue_ok_ack id seq : queue_ok (ack_rows id seq q) n L.
Proof.
  destruct Hok as [Hs Hb Hd Hse Hl Hh Ht]. unfold ack_rows. constructor; try done.
  - by apply sorted_lt_filter.
  - apply Forall_forall. intros x [_ Hx]%list_elem_of_filter. rewrite Forall_forall in Hb. auto.
  - eapply sublist_NoDup; [exact Hd|]. apply fmap_sublist, sublist_filter.
  - intros a b [_ Ha]%list_elem_of_filter [_ Hb']%list_elem_of_filter. auto.
  - intros r l [_ Hr]%list_elem_of_filter. auto.
Qed.

Lemma queue_ok_reclaim now secs : queue_ok (reclaim_rows now secs q) n L.
Proof.
  destruct Hok as [Hs Hb Hd Hse Hl Hh Ht]. unfold reclaim_rows.
  set (f := fun r => if expired now secs r then unlock_row r else r).
  assert (forall r, wq_id (f r) = wq_id r /\ dedup_key (f r) = dedup_key r
            /\ wq_chain_id (f r) = wq_chain_id r /\ (locked (f r) = true -> f r = r)) as Hf.
  { intros r. unfold f. by destruct (expired now secs r). }
  constructor; try done.
  - rewrite <- list_fmap_compose, (list_fmap_ext _ wq_id q); [done|]. intros; apply Hf.
  - apply Forall_fmap. eapply Forall_impl; [done|]. intros x. cbn. by rewrite (proj1 (Hf x)).
  - rewrite <- list_fmap_compose, (list_fmap_ext _ dedup_key q); [done|]. intros; apply Hf.
  - intros a b (a0 & -> & Ha)%list_elem_of_fmap (b0 & -> & Hb')%list_elem_of_fmap La Lb Hc.
    destruct (Hf a0) as (_ & _ & _ & Ea), (Hf b0) as (_ & _ & _ & Eb).
    specialize (Ea La). specialize (Eb Lb). rewrite Ea in La, Hc |- *.
    rewrite Eb in Lb, Hc |- *. auto.
  - intros x l (r & -> & Hr)%list_elem_of_fmap Hin E. rewrite (proj1 (Hf r)) in E.
    destruct (Hh r l Hr Hin E) as [? Hx]. unfold f. destruct (expired now secs r); [|auto].
    cbn. split; [lia|]. lia.
Qed.

End preservation.

(** * Every reachable state *)

Lemma sql_runs {A} (run : World -> option (A * World)) w r w' :
  mmap_err domain_of_db (sql run) w = (r, w') ->
  exists w1, same_state w w1 /\ (same_state w w' \/ exists a, run w1 = Some (a, w'))
    /\ forall a, r = Ok a -> run w1 = Some (a, w').
Proof.
  intros H. destruct r as [a|e].
  - apply mmap_err_Ok, sql_Ok in H as (w1 & Hs%next_fault_same & Hr).
    exists w1. split_and!; [done|eauto|]. by intros a' [= <-].
  - apply mmap_err_Err in H as (e' & -> & H). apply sql_Err in H as [H|(w1 & a & Hs & Hr)].
    + exists w. split_and!; [done|by left|done].
    + exists w1. split_and!; [by eapply next_fault_same|eauto|done].
Qed.

Definition queue_of (w : World) : list QueueRow := db_queue (w_db w).

Lemma push_runs i w r w' :
  push i w = (r, w') ->
  (queue_of w' = queue_of w /\ w_seq w <= w_seq w')
  \/ (queue_of w' = push_rows (w_seq w) i (queue_of w) /\ w_seq w' = w_seq w + 1).
Proof.
  assert (forall w a w', mmap_err domain_of_db (push_in_tx i) w = (Ok a, w') ->
    queue_of w' = push_rows (w_seq w) i (queue_of w) /\ w_seq w' = w_seq w + 1) as Hb.
  { intros v a v' (v1 & (E1 & E2 & _)%next_fault_same & H)%mmap_err_Ok%sql_Ok.
    injection H as _ <-. unfold queue_of. cbn. by rewrite E1, E2. }
  assert (forall w e w', mmap_err domain_of_db (push_in_tx i) w = (Err e, w') -> w_seq w <= w_seq w') as He.
  { intros v e v' (w1 & (_ & E2 & _) & [(_ & E3 & _)|[a H]] & _)%sql_runs; [lia|].
    injection H as _ <-. cbn. lia. }
  unfold push, in_tx. destruct (next_fault w) as [f w1] eqn:E1.
  apply next_fault_same in E1 as (D1 & S1 & _). unfold queue_of in *.
  destruct f; [|intros [= _ <-]; left; rewrite D1, S1; split; [done|lia]..].
  destruct (mmap_err _ _ w1) as [[a|e] w2] eqn:Ew.
  - apply Hb in Ew as (Q2 & S2). destruct (next_fault w2) as [f w3] eqn:E3.
    apply next_fault_same in E3 as (D3 & S3 & _).
    destruct f; intros [= _ <-]; cbn; rewrite ?D3, ?S3, ?Q2, ?S2, ?D1, ?S1;
      [by right|left; split; [done|lia]|by right].
  - apply He in Ew. intros [= _ <-]. left. cbn. split; [done|lia].
Qed.

Lemma qinv_step s s' : qinv s -> qstep s s' -> qinv s'.
Proof.
  unfold qinv. intros Hi Hs. destruct Hs; cbn [fst snd] in *; fold (queue_of w) in *.
  - apply push_runs in H as [[E1 E2]|[E1 E2]]; unfold queue_of in E1; rewrite E1.
    + by eapply queue_ok_next.
    + rewrite E2. by apply queue_ok_push.
  - apply sql_runs in H as (w1 & (D & S' & _) & _ & Hr). specialize (Hr _ eq_refl). cbn in Hr.
    destruct (pull_rows _ _) as [[l' q]|] eqn:E; [|done]. injection Hr as <- <-. cbn.
    rewrite D in E. rewrite S'. by eapply queue_ok_pull.
  - apply sql_runs in H as (w1 & (D & S' & _) & [(D' & S'' & _)|[a Hr]] & _); [by rewrite D', S''|].
    destruct (pull_rows _ _) as [[l' q]|] eqn:E; injection Hr as <- <-; [|by rewrite D, S'].
    cbn. rewrite S'. rewrite D in E. apply queue_ok_pull with (n := w_seq w) (L := L) in E; [|done].
    destruct E. constructor; try done.
    + by eapply Forall_cons.
    + intros; apply qo_holds0; [done|by right].
    + by eapply NoDup_cons.
  - apply sql_runs in H0 as (w1 & (D & S' & _) & [(D' & S'' & _)|[a Hr]] & _); [by rewrite D', S''|].
    injection Hr as <- <-. cbn. rewrite D, S'. by apply queue_ok_ack.
  - apply sql_runs in H as (w1 & (D & S' & N) & [(D' & S'' & _)|[a Hr]] & _); [by rewrite D', S''|].
    injection Hr as <- <-. cbn. rewrite D, S'. by apply queue_ok_reclaim.
  - done.
Qed.

Lemma queue_ok_start n : queue_ok [] n [].
Proof.
  constructor; try (by constructor); cbn.
  - by intros a b ?%not_elem_of_nil.
  - by intros r l ?%not_elem_of_nil.
Qed.

Lemma qinv_reach w s : queue_of w = [] -> qreach (w, []) s -> qinv s.
Proof.
  intros Hw. induction 1 as [|s1 s2 _ IH Hs]; [|by eapply qinv_step].
  unfold qinv. cbn. unfold queue_of in Hw. rewrite Hw. apply queue_ok_start.
Qed.

(** One item in flight per chain: whatever the interleaving of pushes, pulls, acks, reclaims
    and failures, two leased rows of the queue are never of the same chain. *)
Theorem one_in_flight_per_chain (w : World) (s : QState) (a b : QueueRow) :
  queue_of w = [] -> qreach (w, []) s ->
  a ∈ queue_of s.1 -> b ∈ queue_of s.1 -> locked a = true -> locked b = true ->
  wq_chain_id a = wq_chain_id b -> a = b.
Proof. intros Hw Hr. apply (qo_serial _ _ _ (qinv_reach w s Hw Hr)). Qed.

Lemma ack_rows_noop id seq q :
  (forall r, r ∈ q -> wq_id r = id -> wq_lease_seq r <> seq) -> ack_rows id seq q = q.
Proof.
  intros H. unfold ack_rows. apply filter_every. intros r Hr [? ?]. by apply (H r).
Qed.

Lemma ack_rows_app id seq a b : ack_rows id seq (a ++ b) = ack_rows id seq a ++ ack_rows id seq b.
Proof. apply filter_app. Qed.

(** C19: leases are fenced: no two leases ever carry the same [(id, lease_seq)], and an ack of an
    issued lease either removes exactly the row that lease still holds, or nothing. *)
Theorem lease_fencing (w : World) (s : QState) (l : Lease) :
  queue_of w = [] -> qreach (w, []) s -> l ∈ s.2 ->
  NoDup ((fun l => (l_id l, l_lease_seq l)) <$> s.2)
  /\ (ack_rows (l_id l) (l_lease_seq l) (queue_of s.1) = queue_of s.1
      \/ exists q1 r q2, queue_of s.1 = q1 ++ r :: q2 /\ locked r = true /\ lease_of r = l
           /\ ack_rows (l_id l) (l_lease_seq l) (queue_of s.1) = q1 ++ q2).
Proof.
  intros Hw Hr Hl. pose proof (qinv_reach w s Hw Hr) as Hok.
  unfold qinv in Hok. fold (queue_of s.1) in Hok. split; [apply Hok|].
  destruct (decide (Exists (fun r => wq_id r = l_id l /\ wq_lease_seq r = l_lease_seq l)
    (queue_of s.1))) as [He|Hn].
  - right. apply Exists_exists in He as (r & Hin & Hid & Hseq).
    apply list_elem_of_split in Hin as (q1 & q2 & Hq). exists q1, r, q2.
    assert (r ∈ queue_of s.1) as Hin by (rewrite Hq; set_solver).
    destruct (qo_holds _ _ _ Hok r l Hin Hl Hid) as [_ Hx].
    destruct (Hx (eq_sym Hseq)) as [Hlk Hit]. split_and!; [done|done| |].
    + unfold lease_of. destruct l. cbn in *. congruence.
    + assert (forall x, x ∈ q1 ++ q2 -> wq_id x <> l_id l) as Hne.
      { intros x Hx' E. pose proof (sorted_lt_NoDup _ (qo_sorted _ _ _ Hok)) as Hnd.
        rewrite Hq, fmap_app, fmap_cons, <- Permutation_middle in Hnd.
        apply NoDup_cons in Hnd as [Hni _]. apply Hni. rewrite <- fmap_app.
        apply list_elem_of_fmap. exists x. split; [congruence|done]. }
      rewrite Hq, ack_rows_app. unfold ack_rows at 2. rewrite filter_cons, decide_False by tauto.
      fold (ack_rows (l_id l) (l_lease_seq l) q2).
      rewrite !ack_rows_noop; [done| |]; intros x Hx2 E; destruct (Hne x); try done;
        apply elem_of_app; auto.
  - left. apply ack_rows_noop. intros r Hin Hid Hs. apply Hn, Exists_exists. eauto.
Qed.

(** What one step does to the rows and the sequence. *)
Inductive qchange (L : list Lease) (q : list QueueRow) (n : Z) : list QueueRow -> Z -> Prop :=
| CSame n' : n <= n' -> qchange L q n q n'
| CPush i : qchange L q n (push_rows n i q) (n + 1)
| CPull now l q' : pull_rows now q = Some (l, q') -> qchange L q n q' n
| CAck l : l ∈ L -> qchange L q n (ack_rows (l_id l) (l_lease_seq l) q) n
| CReclaim now secs : qchange L q n (reclaim_rows now secs q) n.

Lemma qstep_change s s' :
  qstep s s' -> qchange s.2 (queue_of s.1) (w_seq s.1) (queue_of s'.1) (w_seq s'.1).
Proof.
  assert (forall w r w' L, pull_any w = (r, w') ->
    qchange L (queue_of w) (w_seq w) (queue_of w') (w_seq w')) as Hpull.
  { intros w r w' L (w1 & (D & S' & N) & [(D' & S'' & _)|[a Hr]] & _)%sql_runs; unfold queue_of.
    - rewrite D', S''. apply CSame. lia.
    - rewrite D in Hr. destruct (pull_rows _ _) as [[l q]|] eqn:E; injection Hr as <- <-; cbn.
      + rewrite S'. by eapply CPull.
      + rewrite D, S'. apply CSame. lia. }
  destruct 1; cbn [fst snd]; eauto.
  - apply push_runs in H as [[-> ?]|[-> ->]]; [by apply CSame|apply CPush].
  - apply sql_runs in H0 as (w1 & (D & S' & _) & [(D' & S'' & _)|[a Hr]] & _); unfold queue_of.
    + rewrite D', S''. apply CSame. lia.
    + injection Hr as <- <-. cbn. rewrite D, S'. by apply CAck.
  - apply sql_runs in H as (w1 & (D & S' & _) & [(D' & S'' & _)|[a Hr]] & _); unfold queue_of.
    + rewrite D', S''. apply CSame. lia.
    + injection Hr as <- <-. cbn. rewrite D, S'. apply CReclaim.
  - apply CSame. cbn. lia.
Qed.

Lemma pull_rows_ids now q l q' : pull_rows now q = Some (l, q') -> wq_id <$> q' = wq_id <$> q.
Proof.
  unfold pull_rows. destruct (list_find _ _) as [[i r]|] eqn:E; [|done]. intros [= _ <-].
  apply list_find_Some in E as (Hi & _). rewrite list_fmap_insert, list_insert_id; [done|].
  by rewrite list_lookup_fmap, Hi.
Qed.

Lemma pull_rows_elem now q l q' x :
  pull_rows now q = Some (l, q') -> x ∈ q' -> x ∈ q \/ exists r, r ∈ q /\ x = lock_row now r.
Proof.
  unfold pull_rows. destruct (list_find _ _) as [[i r]|] eqn:E; [|done]. intros [= _ <-].
  apply list_find_Some in E as (Hi & _). intros (j & Hj)%list_elem_of_lookup.
  apply list_lookup_insert_Some in Hj as [(-> & <- & _)|[_ Hj]].
  - right. exists r. split; [by eapply list_elem_of_lookup_2|done].
  - left. by eapply list_elem_of_lookup_2.
Qed.

Lemma reclaim_rows_ids now secs q : wq_id <$> reclaim_rows now secs q = wq_id <$> q.
Proof.
  unfold reclaim_rows. rewrite <- list_fmap_compose. apply list_fmap_ext. intros i x _. cbn.
  by destruct (expired _ _ x).
Qed.

(** A lease that no longer fits its row. *)
Definition superseded (l : Lease) (q : list QueueRow) (n : Z) : Prop :=
  l_id l < n /\ forall r, r ∈ q -> wq_id r = l_id l -> l_lease_seq l < wq_lease_seq r.

Lemma superseded_change L l q n q' n' :
  superseded l q n -> qchange L q n q' n' -> superseded l q' n'.
Proof.
  intros [Hn Hq] Hs. destruct Hs as [n'|i|now l' q' Hp|l' _|now secs]; (split; [lia|]).
  - done.
  - unfold push_rows. case_bool_decide; [done|].
    intros r0 [Hr|Hr%list_elem_of_singleton]%elem_of_app; [auto|]. subst r0. cbn. lia.
  - intros x Hx Ex. destruct (pull_rows_elem _ _ _ _ _ Hp Hx) as [?|(r & Hr & ->)]; [auto|].
    specialize (Hq _ Hr Ex). cbn. lia.
  - intros x [_ Hx]%list_elem_of_filter. auto.
  - intros x (r0 & -> & Hr)%list_elem_of_fmap. destruct (expired _ _ r0); cbn; [|auto].
    intros Ex. specialize (Hq _ Hr Ex). lia.
Qed.

Lemma superseded_reach l s s' :
  qreach s s' -> superseded l (queue_of s.1) (w_seq s.1) -> superseded l (queue_of s'.1) (w_seq s'.1).
Proof.
  induction 1 as [|s1 s2 _ IH Hs]; [done|]. intros H.
  eapply superseded_change; [auto|by apply qstep_change].
Qed.

Lemma superseded_ack l q n : superseded l q n -> ack_rows (l_id l) (l_lease_seq l) q = q.
Proof. intros [_ H]. apply ack_rows_noop. intros r Hr E. specialize (H r Hr E). lia. Qed.

Lemma same_id_same_row q n L a b :
  queue_ok q n L -> a ∈ q -> b ∈ q -> wq_id a = wq_id b -> a = b.
Proof.
  intros Hok (i & Hi)%list_elem_of_lookup (j & Hj)%list_elem_of_lookup E.
  pose proof (ids_unique _ _ _ Hok i j a b Hi Hj E) as ->. congruence.
Qed.

(** Once the reclaim ticker has taken a lease back, that lease can never again remove an
    item: the ack of the worker that was too slow is a no-op for ever after, whoever holds the
    item then. *)
Theorem reclaimed_lease_cannot_ack (w0 w w1 : World) (L : list Lease) (l : Lease) (r : QueueRow)
    (secs k : Z) (s2 : QState) :
  queue_of w0 = [] -> qreach (w0, []) (w, L) -> l ∈ L ->
  r ∈ queue_of w -> lease_of r = l -> expired (w_now w) secs r = true ->
  reclaim_expired secs w = (Ok k, w1) -> qreach (w1, L) s2 ->
  ack_rows (l_id l) (l_lease_seq l) (queue_of s2.1) = queue_of s2.1.
Proof.
  intros Hw Hr Hl Hin Hlr Hex Hrc Hr2. pose proof (qinv_reach _ _ Hw Hr) as Hok.
  apply (superseded_ack l _ (w_seq s2.1)), (superseded_reach l (w1, L) s2 Hr2).
  apply sql_runs in Hrc as (w2 & (D & S' & N) & _ & Hrun). specialize (Hrun _ eq_refl).
  injection Hrun as _ <-. unfold queue_of. cbn. rewrite D, S', N. unfold qinv in Hok. cbn in Hok.
  split; [pose proof (qo_leases _ _ _ Hok) as H; rewrite Forall_forall in H; auto|].
  intros x (x0 & -> & Hx)%list_elem_of_fmap Ex.
  assert (x0 = r) as ->.
  { eapply same_id_same_row; [exact Hok|done|done|]. rewrite <- Hlr in Ex.
    by destruct (expired _ _ x0). }
  rewrite Hex, <- Hlr. cbn. lia.
Qed.

(** No work is lost: an item leaves the queue only through an ack of the lease that holds its
    row at that moment. *)
Theorem item_leaves_only_by_ack (w0 : World) (s s' : QState) (r : QueueRow) :
  queue_of w0 = [] -> qreach (w0, []) s -> qstep s s' ->
  r ∈ queue_of s.1 -> wq_id r ∉ wq_id <$> queue_of s'.1 ->
  locked r = true /\ lease_of r ∈ s.2.
Proof.
  intros Hw Hr Hs%qstep_change Hin Hout. pose proof (qinv_reach _ _ Hw Hr) as Hok.
  unfold qinv in Hok. fold (queue_of s.1) in Hok.
  assert (forall q, (wq_id <$> q) = (wq_id <$> queue_of s.1) -> wq_id r ∈ wq_id <$> q) as Hsame.
  { intros q ->. apply list_elem_of_fmap. eauto. }
  revert Hout. destruct Hs as [n'|i|now l q' Hp|l Hl|now secs]; intros Hout.
  - by destruct Hout; apply Hsame.
  - destruct Hout. apply list_elem_of_fmap. exists r. split; [done|]. unfold push_rows.
    case_bool_decide; [done|]. apply elem_of_app. by left.
  - destruct Hout. eapply Hsame, pull_rows_ids, Hp.
  - destruct (decide (wq_id r = l_id l /\ wq_lease_seq r = l_lease_seq l)) as [[Ei Es]|Hn].
    + destruct (qo_holds _ _ _ Hok r l Hin Hl Ei) as [_ Hx]. destruct (Hx (eq_sym Es)) as [Hlk Hit].
      split; [done|]. assert (lease_of r = l) as -> by (unfold lease_of; destruct l; cbn in *; congruence).
      done.
    + destruct Hout. apply list_elem_of_fmap. exists r. split; [done|].
      by apply list_elem_of_filter.
  - destruct Hout. apply Hsame, reclaim_rows_ids.
Qed.

Lemma pull_rows_split now q l q' :
  pull_rows now q = Some (l, q') ->
  exists q1 r q2, q = q1 ++ r :: q2 /\ ready q r = true /\ Forall (fun x => ready q x = false) q1
    /\ l = lease_of (lock_row now r) /\ q' = q1 ++ lock_row now r :: q2.
Proof.
  unfold pull_rows. destruct (list_find _ q) as [[i r]|] eqn:E; [|done]. intros [= <- <-].
  apply list_find_Some in E as (Hi & Hr & Hb).
  exists (take i q), r, (drop (S i) q). split_and!.
  - symmetry. by apply take_drop_middle.
  - by apply Is_true_true.
  - apply Forall_lookup. intros j x Hj. apply lookup_take_Some in Hj as [Hj Hlt].
    specialize (Hb j x Hj Hlt). by apply Is_true_false in Hb.
  - done.
  - apply insert_take_drop. by eapply lookup_lt_Some.
Qed.

Lemma pull_rows_none now q : pull_rows now q = None -> Forall (fun x => ready q x = false) q.
Proof.
  unfold pull_rows. destruct (list_find _ q) as [[i r]|] eqn:E; [done|]. intros _.
  apply list_find_None in E. eapply Forall_impl; [exact E|]. cbn. intros x. by apply Is_true_false.
Qed.

(** [pull_any] leases the oldest ready item (every older row is leased already or waits for its
    chain), stamps it with a fresh sequence number and changes no other row; it returns nothing
    only when no row is ready. *)
Theorem pull_any_leases_oldest_ready (w w' : World) (o : option Lease) :
  pull_any w = (Ok o, w') ->
  match o with
  | Some l =>
      exists q1 r q2, queue_of w = q1 ++ r :: q2 /\ ready (queue_of w) r = true
        /\ Forall (fun x => ready (queue_of w) x = false) q1
        /\ l = lease_of (lock_row (w_now w) r)
        /\ queue_of w' = q1 ++ lock_row (w_now w) r :: q2
  | None => Forall (fun x => ready (queue_of w) x = false) (queue_of w) /\ queue_of w' = queue_of w
  end.
Proof.
  intros (w1 & (D & S' & N) & _ & H)%sql_runs. specialize (H _ eq_refl). unfold queue_of. cbn in H.
  rewrite D, N in H. destruct (pull_rows _ _) as [[l q]|] eqn:E; injection H as <- <-.
  - cbn. by apply pull_rows_split.
  - rewrite D. split; [by eapply pull_rows_none|done].
Qed.

Lemma parse_kind_str k : parse_kind (kind_str k) = k.
Proof. by destruct k. Qed.

Lemma lease_item_fresh id i : wf_item i -> lease_item (fresh_row id i) = i.
Proof.
  intros (Hc & Hf & Ht & He). destruct i. unfold lease_item. cbn in *.
  rewrite parse_kind_str, !as_u64_as_i64 by auto with t0. done.
Qed.

(** A pushed item comes back as it was: on a queue where nothing is ready and the chain is
    idle, pushing an item with no pending twin and pulling returns a lease on that very item. *)
Theorem push_then_pull (w w1 w2 : World) (i : WorkItem) (o : option Lease) :
  wf_item i -> Forall (fun r => ready (queue_of w) r = false) (queue_of w) ->
  in_flight (queue_of w) (as_i64 (wi_chain_id i)) = false ->
  item_key i ∉ dedup_key <$> queue_of w ->
  push i w = (Ok tt, w1) -> pull_any w1 = (Ok o, w2) ->
  exists l, o = Some l /\ l_item l = i.
Proof.
  intros Hwf Hnr Hidle Hk Hp Hl.
  assert (queue_of w1 = queue_of w ++ [fresh_row (w_seq w) i]) as Hq.
  { unfold push in Hp. apply in_tx_Ok in Hp as (v1 & v2 & (D & S' & _) & H & (D' & _)).
    apply mmap_err_Ok, sql_Ok in H as (v3 & (D3 & S3 & _)%next_fault_same & H).
    injection H as <-. unfold queue_of in *. rewrite D'. cbn. rewrite D3, S3, D, S'.
    unfold push_rows. by rewrite bool_decide_false. }
  assert (ready (queue_of w1) (fresh_row (w_seq w) i) = true) as Hready.
  { unfold ready. cbn. apply negb_true_iff. rewrite Hq. unfold in_flight in *.
    rewrite existsb_app, Hidle. done. }
  apply sql_runs in Hl as (w3 & (D & _) & _ & H). specialize (H _ eq_refl). cbn in H.
  rewrite D in H. fold (queue_of w1) in H.
  destruct (pull_rows _ _) as [[l q']|] eqn:E; injection H as <- _.
  - apply pull_rows_split in E as (q1 & r & q2 & E1 & Er & _ & El & _). exists l. split; [done|].
    rewrite El. cbn. change (lease_item (lock_row (w_now w3) r)) with (lease_item r).
    assert (r ∈ queue_of w1) as Hin by (rewrite E1; apply elem_of_app; right; left).
    rewrite Hq in Hin. apply elem_of_app in Hin as [Hin|Hin%list_elem_of_singleton].
    + rewrite Forall_forall in Hnr. specialize (Hnr _ Hin). unfold ready in *.
      rewrite Hq in Er. unfold in_flight in *. rewrite existsb_app in Er. cbn in Er.
      rewrite orb_false_r in Er. congruence.
    + subst r. by apply lease_item_fresh.
  - apply pull_rows_none in E. rewrite Forall_forall in E.
    rewrite (E (fresh_row (w_seq w) i)) in Hready; [done|]. rewrite Hq. apply elem_of_app. right. left.
Qed.

(** * Where the protocol does not reach *)

(** Two pulls whose statements overlap: the second reads the rows as committed before the first,
    and skips the row the first has locked. *)
Definition overlapping_pulls (now : Z) (q : list QueueRow) : option (Lease * Lease * list QueueRow) :=
  '(l1, q1) ← pull_rows now q;
  '(i, r) ← list_find (fun r => ready q r && negb (wq_id r =? l_id l1)) q;
  Some (l1, lease_of (lock_row now r), <[i := lock_row now r]> q1).

Definition sample_item (from : Z) : WorkItem := mkWorkItem 1 from (from + 9) Backfill 0.

(** The one-in-flight rule holds only for pulls that do not overlap: two workers that pull at
    the same time lease two items of one chain. *)
Theorem overlapping_pulls_share_a_chain :
  exists l1 l2 q, overlapping_pulls 0 [fresh_row 1 (sample_item 1); fresh_row 2 (sample_item 11)]
      = Some (l1, l2, q)
    /\ Forall (fun r => locked r = true /\ wq_chain_id r = 1) q /\ length q = 2%nat.
Proof.
  eexists _, _, _. split; [reflexivity|]. split; [|done]. repeat constructor.
Qed.

(** A push is dropped while its twin is leased: the range pushed again during the lease is gone
    once that lease is acked, so the second request is never decoded. *)
Theorem push_during_lease_is_dropped (i : WorkItem) (w w1 w2 w3 : World) (l : Lease) :
  queue_of w = [fresh_row 1 i] -> pull_any w = (Ok (Some l), w1) ->
  push i w1 = (Ok tt, w2) -> ack (l_id l) (l_lease_seq l) w2 = (Ok tt, w3) -> queue_of w3 = [].
Proof.
  intros Hq Hpull Hp Ha.
  apply sql_runs in Hpull as (v & (D & _) & _ & H). specialize (H _ eq_refl). cbn in H.
  unfold queue_of in *. rewrite D, Hq in H. cbn in H. injection H as <- <-.
  unfold push in Hp. apply in_tx_Ok in Hp as (v1 & v2 & (D1 & S1 & _) & H & (D2 & _)).
  apply mmap_err_Ok, sql_Ok in H as (v3 & (D3 & _)%next_fault_same & H). injection H as <-.
  apply sql_runs in Ha as (v4 & (D4 & _) & _ & H). specialize (H _ eq_refl). injection H as <-.
  cbn in *. rewrite D4, D2. cbn. rewrite D3, D1. cbn. unfold push_rows.
  rewrite bool_decide_true by (apply list_elem_of_singleton; done). done.
Qed.

(** * A sample run *)

Definition run_w0 : World := calm_world empty_db.
Definition run_w1 : World := (push (sample_item 1) run_w0).2.
Definition run_w2 : World := (pull_any run_w1).2.
Definition run_w3 : World := mkWorld (w_db run_w2) (w_seq run_w2) 100 (w_faults run_w2).
Definition run_w4 : World := (reclaim_expired 60 run_w3).2.
Definition run_lease : Lease := mkLease 1 1 (sample_item 1).
Definition run_row : QueueRow := lock_row 0 (fresh_row 1 (sample_item 1)).

Lemma run_reach : qreach (run_w0, []) (run_w2, [run_lease]).
Proof.
  eapply QStep; [eapply QStep; [apply QRefl|]|].
  - apply (QPush (sample_item 1) run_w0 (Ok tt) run_w1). by vm_compute.
  - apply (QPull run_w1 run_lease run_w2). by vm_compute.
Qed.

Lemma one_in_flight_per_chain_witness :
  queue_of run_w2 = [run_row] /\ locked run_row = true /\ run_row = run_row.
Proof.
  split; [reflexivity|]. split; [reflexivity|].
  apply (one_in_flight_per_chain run_w0 (run_w2, [run_lease]) run_row run_row);
    first [reflexivity|exact run_reach|left].
Defined.

Lemma lease_fencing_witness :
  NoDup ((fun l => (l_id l, l_lease_seq l)) <$> [run_lease])
  /\ (ack_rows (l_id run_lease) (l_lease_seq run_lease) (queue_of run_w2) = queue_of run_w2
      \/ exists q1 r q2, queue_of run_w2 = q1 ++ r :: q2 /\ locked r = true /\ lease_of r = run_lease
           /\ ack_rows (l_id run_lease) (l_lease_seq run_lease) (queue_of run_w2) = q1 ++ q2).
Proof.
  apply (lease_fencing run_w0 (run_w2, [run_lease]) run_lease);
    first [reflexivity|exact run_reach|left].
Defined.

Lemma reclaimed_lease_cannot_ack_witness :
  lease_of run_row = run_lease
  /\ ack_rows (l_id run_lease) (l_lease_seq run_lease) (queue_of run_w4) = queue_of run_w4.
Proof.
  split; [reflexivity|].
  apply (reclaimed_lease_cannot_ack run_w0 run_w3 run_w4 [run_lease] run_lease run_row 60 1
           (run_w4, [run_lease])).
  - reflexivity.
  - eapply QStep; [exact run_reach|]. apply (QTime run_w2 100). apply Z.leb_le. reflexivity.
  - left.
  - left.
  - reflexivity.
  - reflexivity.
  - reflexivity.
  - apply QRefl.
Defined.

Lemma item_leaves_only_by_ack_witness : locked run_row = true /\ lease_of run_row ∈ [run_lease].
Proof.
  apply (item_leaves_only_by_ack run_w0 (run_w2, [run_lease])
           ((ack 1 1 run_w2).2, [run_lease]) run_row).
  - reflexivity.
  - exact run_reach.
  - apply (QAck run_lease run_w2 (Ok tt)); [left|reflexivity].
  - left.
  - cbn. apply not_elem_of_nil.
Defined.

Lemma pull_any_leases_oldest_ready_witness :
  exists q1 r q2, queue_of run_w1 = q1 ++ r :: q2 /\ ready (queue_of run_w1) r = true
    /\ Forall (fun x => ready (queue_of run_w1) x = false) q1
    /\ run_lease = lease_of (lock_row (w_now run_w1) r)
    /\ queue_of run_w2 = q1 ++ lock_row (w_now run_w1) r :: q2.
Proof. exact (pull_any_leases_oldest_ready run_w1 run_w2 (Some run_lease) ltac:(reflexivity)). Defined.

Lemma push_then_pull_witness : exists l, Some run_lease = Some l /\ l_item l = sample_item 1.
Proof.
  apply (push_then_pull run_w0 run_w1 run_w2 (sample_item 1)); try reflexivity.
  - unfold wf_item, sample_item. cbn. unfold_int. lia.
  - constructor.
  - apply not_elem_of_nil.
Defined.

Lemma push_during_lease_is_dropped_witness :
  queue_of (ack 1 1 (push (sample_item 1) run_w2).2).2 = [].
Proof.
  apply (push_during_lease_is_dropped (sample_item 1) run_w1 run_w2
           (push (sample_item 1) run_w2).2 _ run_lease); reflexivity.
Defined.
