(* ===== verification/UnitOfWork.v ===== *)
(** [PgUnitOfWork] ([crates/db/src/unit_of_work.rs]): the two transactions of the write side, the
    ingest commit and the reorg rollback, with their specifications. *)
From S2P Require Import Prelude Model Btree Text Encode Store Repos Queue.

(** * Operations *)

(** [tables.sort_by_key(|t| **t == RECEIPTS_TABLE)]: a stable sort on a boolean. *)
Definition parents_first (ts : list string) : list string :=
  filter (fun t => t <> RECEIPTS_TABLE) ts ++ filter (fun t => t = RECEIPTS_TABLE) ts.

Definition row_table (r : EventRow) : string := de_table (er_event r).

Definition commit_ingest_tx (b : IngestBatch) : M World DomainError () :=
  do _ <- mmap_err domain_of_db (raw_insert_batch_tx (ib_raw_records b));
  do _ <- mmap_err domain_of_db (block_upsert_batch_tx (ib_block_metas b));
  let by_table := btree_group str_cmp row_table (ib_enrichment b) in
  do _ <- mfor (parents_first by_table.*1) (fun t =>
    do _ <- mmap_err domain_of_db (event_upsert_batch_tx t (group_of by_table t)); mret_ tt);
  do _ <- match ib_enqueue b with
          | Some item => mmap_err domain_of_db (push_in_tx item)
          | None => mret_ tt
          end;
  match ib_advance_cursor b with
  | Some (chain, last, last_hash) => mmap_err domain_of_db (advance_in_tx chain last last_hash)
  | None => mret_ tt
  end.

Definition commit_ingest (b : IngestBatch) : M World DomainError () :=
  in_tx domain_of_db (commit_ingest_tx b).

Definition rollback_to_tx (chain from : Z) (tables : list string) : M World DomainError () :=
  do _ <- mfor tables (fun t =>
    do _ <- mmap_err domain_of_db (event_delete_from_height_tx t chain from); mret_ tt);
  do _ <- mmap_err domain_of_db (raw_delete_from_height_tx chain from);
  do _ <- mmap_err domain_of_db (block_delete_from_height_tx chain from);
  let fork := u64_ssub from 1 in
  mmap_err domain_of_db (rewind_in_tx chain fork).

Definition rollback_to (chain from : Z) (tables : list string) : M World DomainError () :=
  in_tx domain_of_db (rollback_to_tx chain from tables).

(** * What a commit is meant to do *)

(** The rows of the batch for one table, in the order they are written. *)
Definition rows_for (b : IngestBatch) (t : string) : list EventRow :=
  by_signature (filter (fun r => row_table r = t) (ib_enrichment b)).

(** The abstract commit: existing raw records and typed rows win, block metas are replaced, the
    work item is enqueued unless its twin is pending, the cursor moves when asked. *)
Record ingested (b : IngestBatch) (n : Z) (d d' : Db) : Prop := mkIngested {
  in_raw : db_raw d' = db_raw d ∪ list_to_map (raw_kv <$> ib_raw_records b);
  in_blocks : db_blocks d' = upsert_all (db_blocks d) (block_kv <$> ib_block_metas b);
  in_tables : forall t, db_tables d' !! t =
    (fun tab => set_rows (t_rows tab ∪
       list_to_map (omap (typed_kv (t_pk tab) (table_has_idx t)) (rows_for b t))) tab)
      <$> db_tables d !! t;
  in_queue : db_queue d' =
    match ib_enqueue b with Some i => push_rows n i (db_queue d) | None => db_queue d end;
  in_cursors : db_cursors d' =
    match ib_advance_cursor b with
    | Some (c, l, h) => <[as_i64 c := (as_i64 l, h)]> (db_cursors d)
    | None => db_cursors d
    end
}.

(** * The commit refines it *)

Lemma updates_mfor {E A} (body : A -> M World E ()) (f : A -> Db -> Db) l :
  (forall x, updates (body x) (f x)) ->
  updates (mfor l body) (fun d => fold_left (fun d x => f x d) l d).
Proof.
  intros Hb. induction l as [|x l IH]; [apply updates_ret|].
  cbn. by apply (updates_bind _ _ (f x)).
Qed.

Definition tables_effect (f : string -> list EventRow) (ts : list string) (d : Db) : Db :=
  fold_left (fun d t => typed_effect t (f t) d) ts d.

Lemma tables_effect_others f ts d :
  db_raw (tables_effect f ts d) = db_raw d /\ db_blocks (tables_effect f ts d) = db_blocks d
  /\ db_queue (tables_effect f ts d) = db_queue d /\ db_cursors (tables_effect f ts d) = db_cursors d.
Proof. revert d. induction ts as [|t ts IH]; intros d; [done|]. apply (IH (typed_effect t (f t) d)). Qed.

Definition add_rows (t : string) (rs : list EventRow) (tab : Table) : Table :=
  set_rows (t_rows tab ∪ list_to_map (omap (typed_kv (t_pk tab) (table_has_idx t)) rs)) tab.

Lemma add_rows_nil t tab : add_rows t [] tab = tab.
Proof. destruct tab. unfold add_rows, set_rows. cbn. by rewrite map_union_empty. Qed.

Lemma tables_effect_lookup f ts d t :
  NoDup ts ->
  db_tables (tables_effect f ts d) !! t =
  if decide (t ∈ ts) then add_rows t (f t) <$> db_tables d !! t else db_tables d !! t.
Proof.
  revert d. induction ts as [|t0 ts IH]; intros d Hnd.
  { by rewrite decide_False by apply not_elem_of_nil. }
  apply NoDup_cons in Hnd as [Hni Hnd]. cbn [tables_effect fold_left].
  fold (tables_effect f ts (typed_effect t0 (f t0) d)). rewrite IH by done. cbn.
  destruct (decide (t = t0)) as [->|Hne].
  - rewrite decide_False by done. rewrite decide_True by left. by rewrite lookup_alter_eq.
  - rewrite lookup_alter_ne by done. destruct (decide (t ∈ ts)).
    + by rewrite decide_True by (by right).
    + rewrite decide_False; [done|]. by intros [?|?]%elem_of_cons.
Qed.

Lemma parents_first_perm ts : parents_first ts ≡ₚ ts.
Proof.
  unfold parents_first. rewrite Permutation_app_comm.
  induction ts as [|t ts IH]; [done|]. rewrite !filter_cons.
  destruct (decide (t = RECEIPTS_TABLE)) as [->|Hne].
  - rewrite decide_False by auto. cbn. by rewrite IH.
  - rewrite decide_True by done. by rewrite <- Permutation_middle, IH.
Qed.

(** The tables written, as a list without duplicates, and the rows each gets. *)
Lemma by_table_spec b :
  let m := btree_group str_cmp row_table (ib_enrichment b) in
  NoDup (parents_first m.*1)
  /\ (forall t, t ∈ parents_first m.*1 <-> exists r, r ∈ ib_enrichment b /\ row_table r = t)
  /\ (forall t, group_of m t = filter (fun r => row_table r = t) (ib_enrichment b)).
Proof.
  intros m. destruct (btree_group_spec str_cmp row_table (ib_enrichment b)) as (H1 & H2 & H3).
  fold m in H1, H2, H3. split_and!.
  - rewrite parents_first_perm. by apply (ascending_NoDup str_cmp).
  - intros t. rewrite parents_first_perm. apply H2.
  - apply H3.
Qed.

Lemma commit_ingest_tx_refines b w a w' :
  commit_ingest_tx b w = (Ok a, w') -> ingested b (w_seq w) (w_db w) (w_db w').
Proof.
  unfold commit_ingest_tx. intros H. run_ok.
  destruct (by_table_spec b) as (Hnd & Hin & Hg).
  set (m := btree_group str_cmp row_table (ib_enrichment b)) in *.
  apply raw_insert_updates in H0 as (D1 & S1 & _). apply block_upsert_updates in H1 as (D2 & S2 & _).
  apply (updates_mfor _ (fun t => typed_effect t (by_signature (group_of m t)))) in H2
    as (D3 & S3 & _).
  2:{ intros t. apply (updates_bind _ _ _ (fun d => d)); [|intros; apply updates_ret].
      apply updates_map_err, event_upsert_updates. }
  fold (tables_effect (fun t => by_signature (group_of m t)) (parents_first m.*1) (w_db x2)) in D3.
  set (d3 := tables_effect _ _ _) in D3.
  assert (db_raw d3 = db_raw (w_db w) ∪ list_to_map (raw_kv <$> ib_raw_records b)
    /\ db_blocks d3 = upsert_all (db_blocks (w_db w)) (block_kv <$> ib_block_metas b)
    /\ db_queue d3 = db_queue (w_db w) /\ db_cursors d3 = db_cursors (w_db w)) as (R3 & B3 & Q3 & C3).
  { unfold d3. destruct (tables_effect_others (fun t => by_signature (group_of m t))
      (parents_first m.*1) (w_db x2)) as (-> & -> & -> & ->). by rewrite D2, D1. }
  assert (forall t, db_tables d3 !! t = add_rows t (rows_for b t) <$> db_tables (w_db w) !! t) as T3.
  { intros t. unfold d3. rewrite tables_effect_lookup by done. rewrite D2, D1. cbn.
    unfold rows_for. rewrite <- Hg. destruct (decide _) as [|Hni]; [done|].
    rewrite Hg. replace (filter _ (ib_enrichment b)) with (@nil EventRow).
    - destruct (_ !! t); [|done]. cbn. by rewrite add_rows_nil.
    - symmetry. apply filter_none. intros r Hr E. apply Hni, Hin. eauto. }
  assert (w_db x6 = match ib_enqueue b with
      | Some i => set_queue (push_rows (w_seq w) i (db_queue d3)) d3 | None => d3 end) as D4.
  { destruct (ib_enqueue b) as [i|]; run_ok; [|done].
    apply sql_Ok in H3 as (v & (E1 & E2 & _)%next_fault_same & Hr). injection Hr as _ <-. cbn.
    by rewrite E1, E2, D3, S3, S2, S1. }
  assert (w_db w' = match ib_advance_cursor b with
      | Some (c, l, h) => cursor_effect c l h (w_db x6) | None => w_db x6 end) as D5.
  { destruct (ib_advance_cursor b) as [[[c l] h]|]; run_ok; [|done].
    by apply advance_updates in H as (-> & _). }
  rewrite D5, D4. destruct (ib_advance_cursor b) as [[[c l] h]|] eqn:Ec,
    (ib_enqueue b) as [i|] eqn:Ei; constructor;
    rewrite ?Ec, ?Ei; cbn; rewrite ?R3, ?B3, ?Q3, ?C3; done.
Qed.

Lemma commit_ingest_cases b w r w' :
  commit_ingest b w = (r, w') ->
  match r with
  | Ok _ => ingested b (w_seq w) (w_db w) (w_db w')
  | Err _ => w_db w' = w_db w \/ ingested b (w_seq w) (w_db w) (w_db w')
  end.
Proof.
  intros H. destruct r as [a|e].
  - apply in_tx_Ok in H as (w1 & w2 & (D1 & S1 & _) & H & (D2 & _)).
    apply commit_ingest_tx_refines in H. by rewrite D2, <- D1, <- S1.
  - apply in_tx_Err in H as [H|(w1 & w2 & a & (D1 & S1 & _) & H & (D2 & _))]; [by left|right].
    apply commit_ingest_tx_refines in H. by rewrite D2, <- D1, <- S1.
Qed.

(** C17: the ingest commit is all or nothing and does what it should: when it returns, the tables
    are those of the abstract commit; when it reports an error, either no table has changed or the
    whole batch is in (a commit whose reply was lost). *)
Theorem commit_ingest_atomic (b : IngestBatch) (w w' : World) (r : result DomainError ()) :
  commit_ingest b w = (r, w') ->
  match r with
  | Ok _ => ingested b (w_seq w) (w_db w) (w_db w')
  | Err _ => w_db w' = w_db w \/ ingested b (w_seq w) (w_db w) (w_db w')
  end.
Proof. apply commit_ingest_cases. Qed.

Lemma upsert_all_idem {K V} `{Countable K} (m : gmap K V) kvs :
  upsert_all (upsert_all m kvs) kvs = upsert_all m kvs.
Proof. apply map_eq. intros k. rewrite !upsert_all_lookup. by destruct (list_to_map _ !! k). Qed.

Lemma push_rows_idem n n' i q : push_rows n' i (push_rows n i q) = push_rows n i q.
Proof.
  unfold push_rows at 2 3. case_bool_decide as Hin.
  - unfold push_rows. by rewrite bool_decide_true.
  - unfold push_rows. rewrite bool_decide_true; [done|]. rewrite fmap_app. apply elem_of_app.
    right. by apply list_elem_of_singleton.
Qed.

Lemma union_idem_r {K V} `{Countable K} (m m' : gmap K V) : (m ∪ m') ∪ m' = m ∪ m'.
Proof. by rewrite <- (assoc_L (∪)), (idemp_L (∪)). Qed.

(** Committing a batch a second time changes nothing. *)
Lemma ingested_idem b n n' d d1 d2 : ingested b n d d1 -> ingested b n' d1 d2 -> d2 = d1.
Proof.
  intros [R1 B1 T1 Q1 C1] [R2 B2 T2 Q2 C2].
  assert (db_raw d2 = db_raw d1) as ER by (rewrite R2, R1; apply union_idem_r).
  assert (db_blocks d2 = db_blocks d1) as EB by (rewrite B2, B1; apply upsert_all_idem).
  assert (db_tables d2 = db_tables d1) as ET.
  { apply map_eq. intros t. rewrite T2, T1. destruct (db_tables d !! t) as [tab|]; [|done]. cbn.
    unfold set_rows. cbn. by rewrite union_idem_r. }
  assert (db_queue d2 = db_queue d1) as EQ.
  { rewrite Q2, Q1. destruct (ib_enqueue b); [apply push_rows_idem|done]. }
  assert (db_cursors d2 = db_cursors d1) as EC.
  { rewrite C2, C1. destruct (ib_advance_cursor b) as [[[c l] h]|]; [|done].
    by rewrite insert_insert_eq. }
  destruct d1, d2. cbn in *. congruence.
Qed.

(** C18: retrying a commit is safe: whatever became of the first attempt (it returned, it failed,
    or its reply was lost), a retry that returns leaves the tables as one commit of the batch. *)
Theorem commit_ingest_retry_safe (b : IngestBatch) (w w1 w2 : World) (r : result DomainError ()) :
  commit_ingest b w = (r, w1) -> commit_ingest b w1 = (Ok tt, w2) ->
  exists n, ingested b n (w_db w) (w_db w2).
Proof.
  intros H1 H2. apply commit_ingest_cases in H1, H2. cbn in H2.
  assert (w_db w1 = w_db w \/ ingested b (w_seq w) (w_db w) (w_db w1)) as [E|Hi]
    by (destruct r; auto).
  - exists (w_seq w1). by rewrite <- E.
  - exists (w_seq w). by rewrite (ingested_idem _ _ _ _ _ _ Hi H2).
Qed.

(** * The commit succeeds *)

Definition calm (w : World) : Prop := w_faults w = [].

(** A calm run from a state with [P] returns, calm, in a state with [Q]. *)
Definition succeeds {E A} (P : Db -> Prop) (m : M World E A) (Q : Db -> Prop) : Prop :=
  forall w, calm w -> P (w_db w) -> exists a w', m w = (Ok a, w') /\ calm w' /\ Q (w_db w').

Lemma succeeds_bind {E A B} P Q R (m : M World E A) (k : A -> M World E B) :
  succeeds P m Q -> (forall a, succeeds Q (k a) R) -> succeeds P (mbind_ m k) R.
Proof.
  intros Hm Hk w Hc HP. destruct (Hm w Hc HP) as (a & w1 & E1 & Hc1 & HQ).
  destruct (Hk a w1 Hc1 HQ) as (b & w2 & E2 & Hc2 & HR). exists b, w2.
  split; [|done]. apply mbind_Ok. eauto.
Qed.

Lemma succeeds_ret {E A} P (a : A) : succeeds P (mret_ (E:=E) a) P.
Proof. intros w Hc HP. by exists a, w. Qed.

Lemma succeeds_map_err {E F A} P Q (g : E -> F) (m : M World E A) :
  succeeds P m Q -> succeeds P (mmap_err g m) Q.
Proof.
  intros Hm w Hc HP. destruct (Hm w Hc HP) as (a & w1 & E1 & ?). exists a, w1.
  split; [by apply mmap_err_Ok|done].
Qed.

Lemma succeeds_mfold {E A B} P (body : B -> A -> M World E B) l acc :
  (forall acc x, x ∈ l -> succeeds P (body acc x) P) -> succeeds P (mfold body acc l) P.
Proof.
  revert acc. induction l as [|x l IH]; intros acc Hb; [apply succeeds_ret|]. cbn.
  eapply succeeds_bind; [apply Hb; left|]. intros a. apply IH. intros; apply Hb; by right.
Qed.

Lemma succeeds_sql {A} (P Q : Db -> Prop) (run : World -> option (A * World)) :
  (forall w, calm w -> P (w_db w) -> exists a w', run w = Some (a, w') /\ calm w' /\ Q (w_db w')) ->
  succeeds P (sql run) Q.
Proof.
  intros Hr w Hc HP. destruct (Hr w Hc HP) as (a & w1 & E & ?). exists a, w1.
  split; [by apply sql_calm|done].
Qed.

Lemma succeeds_weaken {E A} P P' Q Q' (m : M World E A) :
  (forall d, P d -> P' d) -> (forall d, Q' d -> Q d) -> succeeds P' m Q' -> succeeds P m Q.
Proof.
  intros HP HQ Hm w Hc H. destruct (Hm w Hc (HP _ H)) as (a & w1 & E1 & ? & ?). eauto 7.
Qed.

(** The row fits its table: the table has every column the INSERT names, once each, under safe
    names and with a type that takes the value, the key is not NULL, and the row a foreign key names is
    there. *)
Definition row_shape (tab : Table) (t : string) (r : EventRow) : Prop :=
  is_Some (typed_kv (t_pk tab) (table_has_idx t) r)
  /\ NoDup (insert_cols (table_has_idx t) (sig_of r))
  /\ Forall (fun c => c ∈ (t_cols tab).*1) (insert_cols (table_has_idx t) (sig_of r))
  /\ Forall (fun c => is_valid_ident c = true) (sig_of r)
  /\ row_accepted (t_cols tab) r = true.

Definition row_fits (d : Db) (t : string) (r : EventRow) : Prop :=
  exists tab, db_tables d !! t = Some tab /\ row_shape tab t r
    /\ (t_fk tab = true -> has_parent (parents d) (typed_row (table_has_idx t) r) = true).

(** Tables with the same columns and at least the same rows. *)
Definition grown (d d' : Db) : Prop :=
  forall t tab, db_tables d !! t = Some tab -> exists rows,
    db_tables d' !! t = Some (set_rows rows tab) /\ t_rows tab ⊆ rows.

Lemma grown_parents d d' r : grown d d' ->
  has_parent (parents d) r = true -> has_parent (parents d') r = true.
Proof.
  unfold has_parent, parents. rewrite !bool_decide_eq_true. intros Hg [p Hp].
  destruct (db_tables d !! "transactions") as [tab|] eqn:E; cbn in Hp; [|by rewrite lookup_empty in Hp].
  destruct (Hg _ _ E) as (rows & -> & Hsub). cbn. exists p. by eapply lookup_weaken.
Qed.

Lemma row_fits_grown d d' t r : grown d d' -> row_fits d t r -> row_fits d' t r.
Proof.
  intros Hg (tab & Ht & Hs & Hp). destruct (Hg _ _ Ht) as (rows & Ht' & _).
  exists (set_rows rows tab). split_and!; try done. intros Hf. eapply grown_parents; eauto.
Qed.

Lemma grown_typed d t rs : grown d (typed_effect t rs d).
Proof.
  intros t' tab Ht. cbn. destruct (decide (t' = t)) as [->|Hne].
  - rewrite lookup_alter_eq, Ht. eexists. split; [done|]. apply map_union_subseteq_l.
  - rewrite lookup_alter_ne by done. exists (t_rows tab). split; [|done]. rewrite Ht. by destruct tab.
Qed.

Lemma grown_trans d1 d2 d3 : grown d1 d2 -> grown d2 d3 -> grown d1 d3.
Proof.
  intros H1 H2 t tab Ht. destruct (H1 _ _ Ht) as (r1 & Hr1 & S1).
  destruct (H2 _ _ Hr1) as (r2 & Hr2 & S2). exists r2. split; [done|]. cbn in S2. by etrans.
Qed.

Lemma safe_idents_ok sig :
  Forall (fun c => is_valid_ident c = true) sig -> res_map safe_ident sig = Ok sig.
Proof.
  induction 1 as [|c sig Hc _ IH]; [done|]. cbn. unfold safe_ident at 1. rewrite Hc. cbn.
  by rewrite IH.
Qed.

(** One INSERT of rows that fit, all of one signature, succeeds. *)
Lemma event_insert_succeeds (d0 : Db) t sig part :
  Forall (fun r => row_fits d0 t r /\ sig_of r = sig) part -> part <> [] ->
  succeeds (grown d0) (sql (event_insert_stmt t (table_has_idx t) sig part)) (grown d0).
Proof.
  intros Hp Hne. apply succeeds_sql. intros w Hc Hg.
  assert (Forall (fun r => row_fits (w_db w) t r /\ sig_of r = sig) part) as Hp'.
  { eapply Forall_impl; [exact Hp|]. cbn. intros r [? ?]. split; [by eapply row_fits_grown|done]. }
  destruct part as [|r0 part]; [done|].
  pose proof (Forall_cons_1 _ _ _ Hp') as [[(tab & Ht & (_ & Hn & Hcl & _) & _) Hs0] _].
  rewrite Hs0 in Hn, Hcl.
  assert (exists kvs, mapM (typed_kv (t_pk tab) (table_has_idx t)) (r0 :: part) = Some kvs
    /\ (t_fk tab = true -> Forall (fun kv => has_parent (parents (w_db w)) kv.2 = true) kvs)) as (kvs & Hk & Hf).
  { clear Hne Hs0 Hp. induction Hp' as [|r rs [(tab' & Ht' & ([kv Hkv] & _) & Hpar) _] _ (kvs & Hk & Hf)].
    - by exists [].
    - rewrite Ht in Ht'. injection Ht' as <-. exists (kv :: kvs). cbn. rewrite Hkv. cbn. rewrite Hk.
      split; [done|]. intros Hfk. constructor; [|auto]. unfold typed_kv in Hkv.
      destruct (key_of _ _); [|done]. injection Hkv as <-. cbn. auto. }
  assert (fk_ok (w_db w) tab kvs = true) as Hfk.
  { unfold fk_ok. destruct (t_fk tab); [cbn|done]. apply forallb_forall. intros kv Hin%list_elem_of_In.
    specialize (Hf eq_refl). rewrite Forall_forall in Hf. rewrite (Hf _ Hin). apply orb_true_r. }
  assert (forallb (row_accepted (t_cols tab)) (r0 :: part) = true) as Hacc.
  { apply forallb_forall. intros r Hin%list_elem_of_In. rewrite Forall_forall in Hp'.
    destruct (Hp' r Hin) as [(tab' & Ht' & (_ & _ & _ & _ & Ha) & _) _]. congruence. }
  assert (exists n w', event_insert_stmt t (table_has_idx t) sig (r0 :: part) w = Some (n, w')
    /\ calm w') as (n & w' & Hrun & Hc').
  { unfold event_insert_stmt. rewrite Ht. cbn [mbind option_bind]. rewrite Hk. cbn [mbind option_bind].
    rewrite !bool_decide_true, Hacc, Hfk by done. cbn. destruct (insert_absent _ _). eauto. }
  exists n, w'. split_and!; [done|done|].
  destruct (event_insert_updates t sig (r0 :: part) w n w') as (-> & _); [by apply sql_calm|].
  eapply grown_trans; [exact Hg|apply grown_typed].
Qed.

Lemma chunk_elem {A} cols (rows part : list A) x :
  part ∈ chunks (Z.to_nat (chunk_rows cols)) rows -> x ∈ part -> x ∈ rows.
Proof.
  intros Hp Hx. pose proof (chunk_rows_pos cols).
  rewrite <- (chunks_concat (Z.to_nat (chunk_rows cols)) rows) by lia.
  apply list_elem_of_In, in_concat. exists part. split; by apply list_elem_of_In.
Qed.

Lemma chunk_nonempty {A} cols (rows part : list A) :
  part ∈ chunks (Z.to_nat (chunk_rows cols)) rows -> part <> [].
Proof.
  intros Hp ->. pose proof (chunk_rows_pos cols).
  pose proof (chunks_go_sizes (length rows) (Z.to_nat (chunk_rows cols)) rows ltac:(lia)) as Hs.
  rewrite Forall_forall in Hs. specialize (Hs [] Hp). cbn in Hs. lia.
Qed.

Lemma signature_group rs sig g :
  (sig, g) ∈ btree_group strs_cmp sig_of rs -> forall r, r ∈ g -> r ∈ rs /\ sig_of r = sig.
Proof.
  destruct (btree_group_spec strs_cmp sig_of rs) as (H1 & _ & H3). intros Hin r Hr.
  apply (ascending_NoDup strs_cmp) in H1. rewrite <- (group_of_elem _ _ _ H1 Hin), H3 in Hr.
  by apply list_elem_of_filter in Hr as [? ?].
Qed.

(** Rows that fit their table can be written, whatever else has been written meanwhile. *)
Lemma event_upsert_succeeds (d0 : Db) t rs :
  is_valid_ident t = true -> Forall (row_fits d0 t) rs ->
  succeeds (grown d0) (event_upsert_batch_tx t rs) (grown d0).
Proof.
  intros Hv Hrs. rewrite Forall_forall in Hrs. unfold event_upsert_batch_tx, safe_ident at 1.
  rewrite Hv. change (mlift (Ok t)) with (mret_ (S:=World) (E:=DbError) t).
  eapply succeeds_bind; [apply succeeds_ret|]. intros _. apply succeeds_mfold.
  intros acc [sig g] Hg. apply succeeds_mfold. intros n part Hpart.
  assert (Forall (fun r => row_fits d0 t r /\ sig_of r = sig) part) as Hp.
  { apply Forall_forall. intros r Hr. destruct (signature_group _ _ _ Hg r); [|auto].
    by eapply chunk_elem. }
  apply chunk_nonempty in Hpart as Hne. rewrite safe_idents_ok.
  - change (mlift (Ok sig)) with (mret_ (S:=World) (E:=DbError) sig).
    eapply succeeds_bind; [apply succeeds_ret|]. intros _.
    eapply succeeds_bind; [by apply event_insert_succeeds|]. intros k. apply succeeds_ret.
  - destruct part as [|r part]; [done|]. apply Forall_cons_1 in Hp as [[(tab & _ & Hs & _) <-] _].
    apply Hs.
Qed.

(** A batch the schema has room for: block heights are distinct, every row fits its table, and the
    transaction of each receipt is in the store or in the batch. *)
Record batch_ready (d : Db) (b : IngestBatch) : Prop := mkBatchReady {
  br_blocks : NoDup (block_key <$> ib_block_metas b);
  br_idents : forall r, r ∈ ib_enrichment b -> is_valid_ident (row_table r) = true;
  br_rows : forall r, r ∈ ib_enrichment b -> row_table r <> RECEIPTS_TABLE ->
    row_fits d (row_table r) r;
  br_receipts : forall r, r ∈ ib_enrichment b -> row_table r = RECEIPTS_TABLE ->
    (exists tab, db_tables d !! RECEIPTS_TABLE = Some tab /\ row_shape tab RECEIPTS_TABLE r)
    /\ (has_parent (parents d) (typed_row false r) = true
        \/ exists p, p ∈ ib_enrichment b /\ row_table p = "transactions"
             /\ er_chain_id p = er_chain_id r /\ er_tx_id p = er_tx_id r);
  br_tx_key : forall tab, db_tables d !! "transactions" = Some tab -> t_pk tab = PkTx
}.

Lemma mfor_app {S E A} (body : A -> M S E ()) l k s :
  mfor (l ++ k) body s = mbind_ (mfor l body) (fun _ => mfor k body) s.
Proof.
  revert s. induction l as [|x l IH]; intros s; [done|]. cbn. unfold mbind_ at 1 3.
  unfold mbind_ at 1. destruct (body x s) as [[[]|e] s1]; [|done]. apply IH.
Qed.

Lemma succeeds_mfor {E A} P (body : A -> M World E ()) l :
  (forall x, x ∈ l -> succeeds P (body x) P) -> succeeds P (mfor l body) P.
Proof.
  induction l as [|x l IH]; intros Hb; [apply succeeds_ret|]. cbn.
  eapply succeeds_bind; [apply Hb; left|]. intros _. apply IH. intros; apply Hb; by right.
Qed.

Definition write_table (m : list (string * list EventRow)) (t : string) : M World DomainError () :=
  do _ <- mmap_err domain_of_db (event_upsert_batch_tx t (group_of m t)); mret_ tt.

Lemma write_table_succeeds d0 b t :
  let m := btree_group str_cmp row_table (ib_enrichment b) in
  t ∈ m.*1 -> (forall r, r ∈ ib_enrichment b -> is_valid_ident (row_table r) = true) ->
  (forall r, r ∈ ib_enrichment b -> row_table r = t -> row_fits d0 t r) ->
  succeeds (grown d0) (write_table m t) (grown d0).
Proof.
  intros m Ht Hv Hf. destruct (by_table_spec b) as (_ & Hin & Hg). fold m in Hin, Hg.
  rewrite <- parents_first_perm in Ht. apply Hin in Ht as (r & Hr & <-).
  eapply succeeds_bind; [|intros; apply succeeds_ret]. apply succeeds_map_err.
  apply event_upsert_succeeds; [auto|]. rewrite Hg. apply Forall_forall.
  intros x [Hx Hx']%list_elem_of_filter. auto.
Qed.

Lemma write_tables_updates m ts :
  updates (mfor ts (write_table m)) (tables_effect (fun t => by_signature (group_of m t)) ts).
Proof.
  apply updates_mfor. intros t. apply (updates_bind _ _ _ (fun d => d)); [|intros; apply updates_ret].
  apply updates_map_err, event_upsert_updates.
Qed.

Lemma by_signature_elem rs r : r ∈ rs -> r ∈ by_signature rs.
Proof.
  intros Hr. destruct (btree_group_spec strs_cmp sig_of rs) as (H1 & H2 & H3).
  assert (sig_of r ∈ (btree_group strs_cmp sig_of rs).*1) as Hk by (apply H2; eauto).
  apply list_elem_of_fmap in Hk as ([k g] & Ek & Hkg). cbn in Ek. subst k.
  apply (ascending_NoDup strs_cmp) in H1.
  assert (r ∈ g) as Hrg.
  { rewrite <- (group_of_elem _ _ _ H1 Hkg), H3. by apply list_elem_of_filter. }
  unfold by_signature. apply list_elem_of_In, in_concat. exists g.
  split; apply list_elem_of_In; [|done]. apply list_elem_of_fmap. by exists (sig_of r, g).
Qed.

(** A transaction row written is a parent for the receipts that follow. *)
Lemma written_parent d b ts r p :
  let m := btree_group str_cmp row_table (ib_enrichment b) in
  NoDup ts -> "transactions" ∈ ts ->
  (forall tab, db_tables d !! "transactions" = Some tab -> t_pk tab = PkTx) ->
  is_Some (db_tables d !! "transactions") ->
  p ∈ ib_enrichment b -> row_table p = "transactions" ->
  er_chain_id p = er_chain_id r -> er_tx_id p = er_tx_id r ->
  has_parent (parents (tables_effect (fun t => by_signature (group_of m t)) ts d))
    (typed_row false r) = true.
Proof.
  intros m Hnd Hin Hpk [tab Ht] Hp Hpt Ec Etx. destruct (by_table_spec b) as (_ & _ & Hg).
  fold m in Hg. unfold has_parent, parents. rewrite bool_decide_eq_true.
  rewrite tables_effect_lookup, decide_True, Ht by done. cbn. rewrite (Hpk _ Ht).
  apply lookup_union_is_Some. right.
  set (kvs := omap _ _). destruct (list_to_map kvs !! _) eqn:E; [by eexists|].
  apply not_elem_of_list_to_map in E. destruct E. apply list_elem_of_fmap.
  exists (inr (as_i64 (er_chain_id r), er_tx_id r), typed_row true p). split; [done|].
  apply list_elem_of_omap. exists p. split.
  - apply by_signature_elem. rewrite Hg. by apply list_elem_of_filter.
  - unfold typed_kv, key_of. cbn. by rewrite Ec, Etx.
Qed.

Lemma write_all_succeeds d b :
  batch_ready d b ->
  let m := btree_group str_cmp row_table (ib_enrichment b) in
  succeeds (fun d' => db_tables d' = db_tables d) (mfor (parents_first m.*1) (write_table m)) (fun _ => True).
Proof.
  intros [_ Hid Hrows Hrcpt Htx] m w Hc Hd. destruct (by_table_spec b) as (Hnd & Hin & Hg).
  fold m in Hnd, Hin, Hg. set (ts1 := filter (fun t => t <> RECEIPTS_TABLE) m.*1).
  assert (row_fits_same : forall t r, row_fits d t r -> row_fits (w_db w) t r).
  { intros t r (tab & H1 & H2 & H3). exists tab. unfold parents in *. by rewrite Hd. }
  assert (grown (w_db w) (w_db w)) as Hrefl.
  { intros t tab Ht. exists (t_rows tab). split; [|done]. rewrite Ht. by destruct tab. }
  assert (NoDup ts1) as Hnd1.
  { unfold parents_first in Hnd. by apply NoDup_app in Hnd as (? & _). }
  destruct (succeeds_mfor (grown (w_db w)) (write_table m) ts1) with (w := w)
    as ([] & w1 & E1 & Hc1 & Hg1); [|done|done|].
  { intros t [Hne Ht]%list_elem_of_filter. apply write_table_succeeds; [done|done|].
    intros r Hr <-. auto. }
  pose proof (write_tables_updates m ts1 _ _ _ E1) as (D1 & _).
  destruct (succeeds_mfor (grown (w_db w1)) (write_table m) (filter (fun t => t = RECEIPTS_TABLE) m.*1))
    with (w := w1) as ([] & w2 & E2 & Hc2 & _); [|done| |].
  { intros t [-> Ht]%list_elem_of_filter. apply write_table_succeeds; [done|done|].
    intros r Hr Hrt. destruct (Hrcpt r Hr Hrt) as [(tab & Htab & Hsh) Hpar].
    rewrite <- Hd in Htab. destruct (Hg1 _ _ Htab) as (rows & Hrows1 & _).
    exists (set_rows rows tab). split_and!; [done|done|]. intros _.
    destruct Hpar as [Hp|(p & Hp & Hpt & Ec & Etx)].
    - eapply grown_parents; [exact Hg1|]. unfold parents in *. by rewrite Hd.
    - rewrite D1. eapply written_parent; try done.
      + apply list_elem_of_filter. split; [by unfold RECEIPTS_TABLE|].
        rewrite <- parents_first_perm. apply Hin. eauto.
      + intros tab'. rewrite Hd. apply Htx.
      + rewrite Hd. destruct (Hrows p Hp) as (tab' & Htab' & _); [by rewrite Hpt|].
        rewrite Hpt in Htab'. eauto. }
  { intros t tab Ht. exists (t_rows tab). split; [|done]. rewrite Ht. by destruct tab. }
  exists tt, w2. split_and!; [|done|done]. unfold parents_first. rewrite mfor_app.
  apply mbind_Ok. eauto.
Qed.

Lemma raw_insert_succeeds P rs :
  (forall d m, P d -> P (set_raw m d)) -> succeeds P (raw_insert_batch_tx rs) P.
Proof.
  intros HP. apply succeeds_mfold. intros n c _.
  eapply succeeds_bind; [|intros; apply succeeds_ret]. apply succeeds_sql. intros w Hc Hd.
  unfold raw_insert_stmt. destruct (insert_absent _ _) as [m k]. exists k, (upd_db (set_raw m) w).
  split_and!; [done|done|by apply HP].
Qed.

Lemma chunk_keys_NoDup cols (bs part : list BlockMeta) :
  NoDup (block_key <$> bs) -> part ∈ chunks (Z.to_nat (chunk_rows cols)) bs ->
  NoDup (block_key <$> part).
Proof.
  intros Hnd Hp. pose proof (chunk_rows_pos cols).
  rewrite <- (chunks_concat (Z.to_nat (chunk_rows cols)) bs) in Hnd by lia.
  revert Hp Hnd. generalize (chunks (Z.to_nat (chunk_rows cols)) bs) as cs.
  induction cs as [|c cs IH]; [by intros ?%not_elem_of_nil|]. cbn. rewrite fmap_app.
  intros [->|Hin]%elem_of_cons (H1 & _ & H3)%NoDup_app; [done|auto].
Qed.

Lemma block_upsert_succeeds P bs :
  NoDup (block_key <$> bs) -> (forall d m, P d -> P (set_blocks m d)) ->
  succeeds P (block_upsert_batch_tx bs) P.
Proof.
  intros Hnd HP. apply succeeds_mfold. intros n c Hc0.
  eapply succeeds_bind; [|intros; apply succeeds_ret]. apply succeeds_sql. intros w Hc Hd.
  unfold block_upsert_stmt. rewrite bool_decide_true by (by eapply chunk_keys_NoDup).
  eexists _, _. split_and!; [done|done|]. by apply HP.
Qed.

(** C16: the commit goes through: without storage faults, a batch that fits the schema commits, and
    the receipts' foreign key holds because their transactions are written first. *)
Theorem commit_ingest_succeeds (b : IngestBatch) (w : World) :
  w_faults w = [] -> batch_ready (w_db w) b ->
  exists w', commit_ingest b w = (Ok tt, w') /\ ingested b (w_seq w) (w_db w) (w_db w').
Proof.
  intros Hc Hb. set (P := fun d => db_tables d = db_tables (w_db w)).
  assert (succeeds P (commit_ingest_tx b) (fun _ => True)) as Hs.
  { unfold commit_ingest_tx. eapply succeeds_bind.
    { apply succeeds_map_err, (raw_insert_succeeds P). done. }
    intros _. eapply succeeds_bind.
    { apply succeeds_map_err, (block_upsert_succeeds P); [apply Hb|done]. }
    intros _. eapply succeeds_bind; [by apply write_all_succeeds|]. intros _.
    eapply (succeeds_bind _ (fun _ => True)).
    { destruct (ib_enqueue b) as [i|]; [|apply succeeds_ret]. apply succeeds_map_err, succeeds_sql.
      intros v Hv _. by eexists _, _. }
    intros _. destruct (ib_advance_cursor b) as [[[c l] h]|]; [|apply succeeds_ret].
    apply succeeds_map_err, succeeds_sql. intros v Hv _. by eexists _, _. }
  destruct (Hs w Hc eq_refl) as ([] & w' & E & Hc' & _).
  assert (commit_ingest b w = (Ok tt, w')) as Hok by (by apply in_tx_calm).
  exists w'. split; [done|]. exact (commit_ingest_cases _ _ _ _ Hok).
Qed.

(** * Rollback *)

(** The transactions a rollback of these tables deletes. *)
Definition gone_parents (chain from : Z) (tables : list string) (d : Db) : gmap Key TypedRow :=
  if decide ("transactions" ∈ tables) then
    filter (fun kv => typed_at_or_above chain from kv.2 = true) (parents d)
  else ∅.

(** A row survives when it is below [from] (or its table is not rolled back) and the transaction it
    refers to is not deleted. *)
Definition survives (chain from : Z) (tables : list string) (d : Db) (t : string) (tab : Table)
    (r : TypedRow) : Prop :=
  ~ (t ∈ tables /\ typed_at_or_above chain from r = true)
  /\ ~ (t_fk tab = true /\ has_parent (gone_parents chain from tables d) r = true).

#[export] Instance survives_dec chain from tables d t tab r :
  Decision (survives chain from tables d t tab r).
Proof. unfold survives. apply _. Defined.

Record rolled_back (chain from : Z) (tables : list string) (d d' : Db) : Prop := mkRolledBack {
  rb_raw : db_raw d' = filter (fun kv => raw_at_or_above chain from kv.1 = false) (db_raw d);
  rb_blocks : db_blocks d' =
    filter (fun kv => ~ (kv.1.1 = as_i64 chain /\ as_i64 from <= kv.1.2)) (db_blocks d);
  rb_tables : forall t, db_tables d' !! t =
    (fun tab => set_rows (filter (fun kv => survives chain from tables d t tab kv.2) (t_rows tab)) tab)
      <$> db_tables d !! t;
  rb_queue : db_queue d' = db_queue d;
  rb_cursors : db_cursors d' =
    alter (fun _ => (as_i64 (u64_ssub from 1), [])) (as_i64 chain) (db_cursors d)
}.

Section rollback.
Context (chain from : Z) (d0 : Db).
Context (Htx : forall tab, db_tables d0 !! "transactions" = Some tab -> t_fk tab = false).

Definition keep (P : list string) (t : string) (tab : Table) : Table :=
  set_rows (filter (fun kv => survives chain from P d0 t tab kv.2) (t_rows tab)) tab.

(** The typed tables after the tables [P] have been rolled back. *)
Definition after (P : list string) (ts : gmap string Table) : Prop :=
  forall t, ts !! t = keep P t <$> db_tables d0 !! t.

Lemma has_parent_empty r : has_parent ∅ r = false.
Proof. unfold has_parent. rewrite lookup_empty. by apply bool_decide_eq_false, is_Some_None. Qed.

Lemma keep_ext P Q t tab :
  (forall r, survives chain from P d0 t tab r <-> survives chain from Q d0 t tab r) ->
  keep P t tab = keep Q t tab.
Proof. intros H. unfold keep. f_equal. apply map_filter_ext. intros k r _. cbn. apply H. Qed.

Lemma gone_parents_snoc P t :
  t <> "transactions" -> gone_parents chain from (P ++ [t]) d0 = gone_parents chain from P d0.
Proof.
  intros Ht. unfold gone_parents. destruct (decide ("transactions" ∈ P)) as [Hin|Hni].
  - rewrite decide_True; [done|]. apply elem_of_app. by left.
  - rewrite decide_False; [done|]. intros [?|?%list_elem_of_singleton]%elem_of_app; congruence.
Qed.

Lemma keep_other P t t' tab :
  t <> "transactions" -> t' <> t -> keep P t' tab = keep (P ++ [t]) t' tab.
Proof.
  intros Ht Hne. apply keep_ext. intros r. unfold survives. rewrite gone_parents_snoc by done.
  rewrite elem_of_app, list_elem_of_singleton. intuition congruence.
Qed.

Lemma keep_self P t tab :
  (t = "transactions" -> t_fk tab = false) ->
  set_rows (filter (fun kv => typed_at_or_above chain from kv.2 = false) (t_rows (keep P t tab)))
    (keep P t tab) = keep (P ++ [t]) t tab.
Proof.
  intros Hfk. unfold keep, set_rows. cbn. f_equal. rewrite map_filter_filter. apply map_filter_ext.
  intros k r _. cbn. unfold survives. rewrite elem_of_app, list_elem_of_singleton.
  destruct (decide (t = "transactions")) as [->|Hne].
  - rewrite (Hfk eq_refl). destruct (typed_at_or_above chain from r); intuition congruence.
  - rewrite gone_parents_snoc by done. destruct (typed_at_or_above chain from r); intuition congruence.
Qed.

(** What the DELETE of [transactions] removes, and what was removed before, are together every
    transaction at or above [from]. *)
Lemma gone_split P tab r :
  db_tables d0 !! "transactions" = Some tab ->
  let gone := filter (fun kv => typed_at_or_above chain from kv.2 = true)
                (t_rows (keep P "transactions" tab)) in
  has_parent (gone_parents chain from (P ++ ["transactions"]) d0) r
  = has_parent (gone_parents chain from P d0) r || has_parent gone r.
Proof.
  intros Ht gone. unfold gone_parents at 1. rewrite decide_True by (apply elem_of_app; right; left).
  assert (gone = filter (fun kv => typed_at_or_above chain from kv.2 = true
     /\ "transactions" ∉ P) (t_rows tab)) as ->.
  { unfold gone, keep. cbn. rewrite map_filter_filter. apply map_filter_ext. intros k x _. cbn.
    unfold survives. rewrite (Htx _ Ht). intuition congruence. }
  unfold gone_parents, parents. rewrite Ht. cbn. destruct (decide ("transactions" ∈ P)) as [Hin|Hni].
  - replace (filter (fun kv : Key * TypedRow => _ /\ _) (t_rows tab)) with (∅ : gmap Key TypedRow).
    + by rewrite has_parent_empty, orb_false_r.
    + symmetry. apply map_empty_filter_2. intros k x _ [_ ?]. done.
  - rewrite has_parent_empty. cbn. f_equal. apply map_filter_ext. intros k x _. cbn. intuition congruence.
Qed.

Lemma keep_cascade P t tab txs :
  db_tables d0 !! "transactions" = Some txs -> t <> "transactions" ->
  cascade (keep P t tab) (filter (fun kv => typed_at_or_above chain from kv.2 = true)
    (t_rows (keep P "transactions" txs))) = keep (P ++ ["transactions"]) t tab.
Proof.
  intros Htxs Hne. set (gone := filter _ _).
  assert (t ∈ P ++ ["transactions"] <-> t ∈ P) as Hin.
  { rewrite elem_of_app, list_elem_of_singleton. intuition congruence. }
  unfold cascade, keep at 1 3. cbn [t_fk set_rows]. destruct (t_fk tab) eqn:Ef.
  - unfold keep, set_rows. cbn. f_equal. rewrite map_filter_filter. apply map_filter_ext.
    intros k r _. cbn. unfold survives. rewrite Hin, (gone_split P txs r Htxs). fold gone. rewrite Ef.
    destruct (has_parent (gone_parents _ _ P _) r), (has_parent gone r); intuition congruence.
  - unfold keep, set_rows. cbn. f_equal. apply map_filter_ext. intros k r _. cbn. unfold survives.
    rewrite Hin, Ef. intuition congruence.
Qed.

Lemma delete_step P t ts n ts' :
  after P ts -> delete_rows chain from t ts = Some (n, ts') -> after (P ++ [t]) ts'.
Proof.
  intros Ha. unfold delete_rows. rewrite (Ha t).
  destruct (db_tables d0 !! t) as [tab|] eqn:Et; cbn [mbind option_bind fmap option_fmap option_map];
    [|done]. rewrite keep_self by (intros ->; auto). intros [= <- <-] t'.
  case_bool_decide as Htt.
  - subst t. rewrite lookup_fmap. destruct (decide (t' = "transactions")) as [->|Hne].
    + rewrite lookup_insert_eq, Et. cbn. unfold cascade, keep at 1. cbn. by rewrite (Htx _ Et).
    + rewrite lookup_insert_ne by done. rewrite (Ha t').
      destruct (db_tables d0 !! t') as [tab'|]; [|done]. cbn. f_equal. by apply keep_cascade.
  - destruct (decide (t' = t)) as [->|Hne].
    + by rewrite lookup_insert_eq, Et.
    + rewrite lookup_insert_ne by done. rewrite (Ha t').
      destruct (db_tables d0 !! t') as [tab'|]; [|done]. cbn. f_equal. by apply keep_other.
Qed.

End rollback.

Lemma after_start chain from d : after chain from d [] (db_tables d).
Proof.
  intros t. destruct (db_tables d !! t) as [tab|]; [|done]. cbn. f_equal. destruct tab as [pk cols fk rows].
  unfold keep, set_rows. cbn. f_equal. symmetry. apply map_filter_id. intros k r _. cbn.
  unfold survives, gone_parents. rewrite decide_False by apply not_elem_of_nil.
  rewrite has_parent_empty, elem_of_nil. intuition congruence.
Qed.

Lemma rollback_tables_run chain from d0 P tables w a w' :
  (forall tab, db_tables d0 !! "transactions" = Some tab -> t_fk tab = false) ->
  after chain from d0 P (db_tables (w_db w)) ->
  mfor tables (fun t =>
    do _ <- mmap_err domain_of_db (event_delete_from_height_tx t chain from); mret_ tt) w = (Ok a, w') ->
  after chain from d0 (P ++ tables) (db_tables (w_db w'))
  /\ w_db w' = set_tables (db_tables (w_db w')) (w_db w).
Proof.
  intros Htx. revert P w. induction tables as [|t ts IH]; intros P w Ha H; cbn in H.
  { run_ok. rewrite app_nil_r. split; [done|]. by destruct (w_db w). }
  apply mbind_Ok in H as ([] & w1 & H0 & H). apply mbind_Ok in H0 as (k0 & w0 & H0 & [_ ->]%mret_Ok).
  apply mmap_err_Ok, mbind_Ok in H0 as (t0 & w2 & H1 & H0).
  unfold mlift in H1. destruct (safe_ident t); [|done]. injection H1 as -> <-.
  apply sql_Ok in H0 as (w3 & (D3 & _)%next_fault_same & Hr).
  destruct (delete_rows _ _ _ _) as [[k ts']|] eqn:Ed; [|done]. cbn in Hr. injection Hr as <- <-.
  rewrite D3 in Ed. apply (delete_step chain from d0 Htx P) in Ed; [|done].
  apply (IH (P ++ [t])) in H as [H1 H2]; [|done].
  rewrite <- app_assoc in H1. split; [done|]. rewrite H2. cbn. by rewrite D3.
Qed.

Lemma rollback_tx_refines chain from tables w a w' :
  (forall tab, db_tables (w_db w) !! "transactions" = Some tab -> t_fk tab = false) ->
  rollback_to_tx chain from tables w = (Ok a, w') ->
  rolled_back chain from tables (w_db w) (w_db w').
Proof.
  intros Htx H. unfold rollback_to_tx in H. apply mbind_Ok in H as ([] & x0 & H0 & H).
  apply mbind_Ok in H as (n1 & x1 & H1%mmap_err_Ok & H).
  apply mbind_Ok in H as (n2 & x2 & H2%mmap_err_Ok & H%mmap_err_Ok).
  apply (rollback_tables_run chain from (w_db w) []) in H0 as [Ht D1]; [|done|apply after_start].
  apply sql_Ok in H1 as (v1 & (E1 & _)%next_fault_same & H1). injection H1 as _ <-.
  apply sql_Ok in H2 as (v2 & (E2 & _)%next_fault_same & H2). injection H2 as _ <-.
  apply sql_Ok in H as (v3 & (E3 & _)%next_fault_same & H). injection H as _ <-.
  cbn in *. rewrite E3. cbn. rewrite E2. cbn. rewrite E1. cbn.
  assert (db_raw (w_db x0) = db_raw (w_db w) /\ db_blocks (w_db x0) = db_blocks (w_db w)
    /\ db_queue (w_db x0) = db_queue (w_db w) /\ db_cursors (w_db x0) = db_cursors (w_db w))
    as (-> & -> & HQ & HC) by (by rewrite D1).
  constructor; cbn; [done|done| |done|by rewrite HC]. exact Ht.
Qed.

(** C27: a reorg rollback is exact and all or nothing: when it returns, the raw records, blocks and
    rows of the listed tables of that chain at or above [from] are gone, a receipt whose
    transaction went goes with it, every other row of every chain is as it was, the queue is
    untouched and the cursor stands at the fork with its hash cleared; when it fails, nothing
    changed or all of it did. *)
Theorem rollback_to_exact (chain from : Z) (tables : list string) (w w' : World)
    (r : result DomainError ()) :
  (forall tab, db_tables (w_db w) !! "transactions" = Some tab -> t_fk tab = false) ->
  rollback_to chain from tables w = (r, w') ->
  match r with
  | Ok _ => rolled_back chain from tables (w_db w) (w_db w')
  | Err _ => w_db w' = w_db w \/ rolled_back chain from tables (w_db w) (w_db w')
  end.
Proof.
  intros Htx H. destruct r as [a|e].
  - apply in_tx_Ok in H as (w1 & w2 & (D1 & _) & H & (D2 & _)).
    rewrite <- D1 in Htx. apply rollback_tx_refines in H; [|done]. by rewrite D2, <- D1.
  - apply in_tx_Err in H as [H|(w1 & w2 & a & (D1 & _) & H & (D2 & _))]; [by left|right].
    rewrite <- D1 in Htx. apply rollback_tx_refines in H; [|done]. by rewrite D2, <- D1.
Qed.

(** * Samples *)

Definition sample_row (t : string) (h i : Z) (tx : bytes) (fields : list (string * EventValue)) : EventRow :=
  mkEventRow 1 h [byte_of 1] None tx i (mkDecodedEvent t fields).

Definition typed_meta : list (string * string) :=
  [("chain_id", "bigint"); ("height", "bigint"); ("block_hash", "bytea"); ("block_time", "timestamptz"); ("tx_id", "bytea")].

Definition sample_db : Db :=
  mkDb ∅ (<[1 := (4, [byte_of 9])]> ∅) ∅ []
    (<["transactions" := mkTable PkTx (typed_meta ++ [("idx", "bigint"); ("input", "bytea"); ("to_addr", "bytea")]) false ∅]>
     (<["receipts" := mkTable PkTx (typed_meta ++ [("status", "boolean")]) true ∅]> ∅)).

Definition sample_batch : IngestBatch :=
  mkIngestBatch [sample_rec 5 0; sample_rec 6 1]
    [mkBlockMeta 1 5 [byte_of 1] [byte_of 0] 50; mkBlockMeta 1 6 [byte_of 2] [byte_of 1] 60]
    [sample_row "receipts" 5 0 [byte_of 6] [("status", VBool true)];
     sample_row "transactions" 5 3 [byte_of 6] [("input", VBytes [byte_of 7])]]
    (Some (sample_item 5)) (Some (1, 6, [byte_of 2])).

Lemma sample_row_shape tab t h i tx fs :
  bool_decide (is_Some (typed_kv (t_pk tab) (table_has_idx t) (sample_row t h i tx fs))
    /\ NoDup (insert_cols (table_has_idx t) fs.*1)
    /\ Forall (fun c => c ∈ (t_cols tab).*1) (insert_cols (table_has_idx t) fs.*1)
    /\ Forall (fun c => is_valid_ident c = true) fs.*1
    /\ row_accepted (t_cols tab) (sample_row t h i tx fs) = true) = true ->
  row_shape tab t (sample_row t h i tx fs).
Proof. intros H%bool_decide_eq_true. exact H. Qed.

Lemma sample_batch_ready : batch_ready sample_db sample_batch.
Proof.
  constructor.
  - apply (bool_decide_unpack _). by vm_compute.
  - apply Forall_forall. repeat constructor.
  - intros r Hr. apply elem_of_cons in Hr as [->|Hr]; [by intros []|].
    apply list_elem_of_singleton in Hr as ->. intros _.
    eexists. split; [reflexivity|]. split; [by apply sample_row_shape|done].
  - intros r Hr. apply elem_of_cons in Hr as [->|Hr].
    + intros _. split.
      * eexists. split; [reflexivity|]. by apply sample_row_shape.
      * right. eexists. split; [right; left|done].
    + apply list_elem_of_singleton in Hr as ->. done.
  - intros tab [= <-]. done.
Qed.

Lemma commit_ingest_succeeds_witness :
  exists w', commit_ingest sample_batch (calm_world sample_db) = (Ok tt, w')
    /\ ingested sample_batch 1 sample_db (w_db w').
Proof. exact (commit_ingest_succeeds sample_batch (calm_world sample_db) eq_refl sample_batch_ready). Defined.

(** The commit's reply is lost: an error is reported, the batch is in. *)
Definition lossy_world : World :=
  mkWorld sample_db 1 0 ([NoFault; NoFault; NoFault; NoFault; NoFault; NoFault; NoFault; LostReply]).

Lemma commit_ingest_atomic_witness :
  let w' := (commit_ingest sample_batch lossy_world).2 in
  w_db w' = sample_db \/ ingested sample_batch 1 sample_db (w_db w').
Proof.
  intros w'.
  exact (commit_ingest_atomic sample_batch lossy_world w' (Err (EStorage "database error: connection lost"))
           ltac:(vm_compute; reflexivity)).
Defined.

Lemma commit_ingest_retry_safe_witness :
  let w1 := (commit_ingest sample_batch lossy_world).2 in
  let w2 := (commit_ingest sample_batch w1).2 in
  exists n, ingested sample_batch n sample_db (w_db w2).
Proof.
  intros w1 w2.
  exact (commit_ingest_retry_safe sample_batch lossy_world w1 w2
           (Err (EStorage "database error: connection lost"))
           ltac:(vm_compute; reflexivity) ltac:(vm_compute; reflexivity)).
Defined.

Lemma rollback_to_exact_witness :
  let w1 := (commit_ingest sample_batch (calm_world sample_db)).2 in
  let w2 := (rollback_to 1 5 ["transactions"; "receipts"] w1).2 in
  rolled_back 1 5 ["transactions"; "receipts"] (w_db w1) (w_db w2).
Proof.
  intros w1 w2.
  refine (rollback_to_exact 1 5 ["transactions"; "receipts"] w1 w2 (Ok tt) _ ltac:(vm_compute; reflexivity)).
  intros tab H. vm_compute in H. injection H as <-. reflexivity.
Defined.
