(* ===== verification/Services.v ===== *)
(** The services over the ports ([crates/services]): ingestion, decoding, the queue worker and reorg
    safety, written against the port interfaces of [crates/domain]. *)
From S2P Require Import Prelude Model Btree Text Encode Store Repos Queue UnitOfWork.

(** * Ports *)

(** [ChainSource]: what the services call on a chain adapter with state [St].  A live stream is not a
    value of the model: [cs_subscribe] says whether one was opened, and its events are inputs of the
    loop that reads it. *)
Record ChainSource (St : Type) := mkChainSource {
  cs_chain_id : Z;
  cs_caps : ChainCaps;
  cs_head : M St DomainError Z;
  cs_fetch_records : RecordFilter -> Z -> Z -> M St DomainError (list RawRecord);
  cs_fetch_aux : list RawRecord -> M St DomainError AuxData;
  cs_block_hash : Z -> M St DomainError (option bytes);
  cs_subscribe : RecordFilter -> M St DomainError ()
}.
Arguments cs_chain_id {St}.
Arguments cs_caps {St}.
Arguments cs_head {St}.
Arguments cs_fetch_records {St}.
Arguments cs_fetch_aux {St}.
Arguments cs_block_hash {St}.
Arguments cs_subscribe {St}.

(** The order in which the hash maps of a decoder are iterated: it differs from one process to the next and
    from one map to the next, and stays the same while the map does. *)
Record HashOrder := mkHashOrder {
  ho_schemas : list EventSchema -> list EventSchema;
  ho_topics : list bytes -> list bytes
}.

Class Shuffles (o : HashOrder) : Prop := {
  sh_schemas : forall l, ho_schemas o l ≡ₚ l;
  sh_topics : forall l, ho_topics o l ≡ₚ l
}.

Definition keep_order : HashOrder := mkHashOrder (fun l => l) (fun l => l).

#[export] Instance keep_shuffles : Shuffles keep_order.
Proof. by split. Qed.

Definition flip_order : HashOrder := mkHashOrder reverse reverse.

#[export] Instance flip_shuffles : Shuffles flip_order.
Proof. split; intros l; apply reverse_Permutation. Qed.

(** [Decoder]: pure, per chain. *)
Record Decoder := mkDecoder {
  dec_decode : RawRecord -> result DomainError (option EventRow);
  dec_decode_call : TxCalldata -> result DomainError (option EventRow);
  dec_has_calls : bool;
  dec_schemas : HashOrder -> list EventSchema;
  dec_record_filter : HashOrder -> RecordFilter
}.

(** Calls on the store and calls on the source, over the state of both. *)
Definition on_db {St E A} (m : M World E A) : M (World * St) E A := fun ws =>
  let '(r, w') := m ws.1 in (r, (w', ws.2)).
Definition on_src {St E A} (m : M St E A) : M (World * St) E A := fun ws =>
  let '(r, s') := m ws.2 in (r, (ws.1, s')).

(** * Ingestion ([ingestion.rs]) *)

Record IngestOutcome := mkIngestOutcome {
  io_records : Z;
  io_blocks : Z;
  io_enrichment : Z;
  io_last_block : option (Z * bytes)
}.

Record FetchedRange := mkFetchedRange {
  fr_from : Z;
  fr_to : Z;
  fr_records : list RawRecord;
  fr_aux : AuxData;
  fr_last_block : option (Z * bytes)
}.

(** [iter().max_by_key(|b| b.height)]: the last of the highest. *)
Definition max_by_height (bs : list BlockMeta) : option BlockMeta :=
  fold_left (fun best b =>
    match best with
    | Some m => if bm_height m <=? bm_height b then Some b else best
    | None => Some b
    end) bs None.

Definition last_block_of (bs : list BlockMeta) : option (Z * bytes) :=
  (fun b => (bm_height b, bm_hash b)) <$> max_by_height bs.

Definition fetch_range {St} (src : ChainSource St) (filter : RecordFilter) (from to : Z) :
    M St DomainError FetchedRange :=
  do records <- cs_fetch_records src filter from to;
  do aux <- match records with
            | [] => mret_ AuxData_default
            | _ => cs_fetch_aux src records
            end;
  mret_ (mkFetchedRange from to records aux (last_block_of (block_metas aux))).

Definition batch_of (chain : Z) (f : FetchedRange) (epoch : Z) (advance_cursor : bool) : IngestBatch :=
  mkIngestBatch (fr_records f) (block_metas (fr_aux f)) (enrichment (fr_aux f))
    (match fr_records f with
     | [] => None
     | _ => Some (mkWorkItem chain (fr_from f) (fr_to f) Backfill epoch)
     end)
    (if advance_cursor
     then Some (chain, fr_to f, match fr_last_block f with Some (_, h) => h | None => [] end)
     else None).

Definition commit (chain : Z) (f : FetchedRange) (epoch : Z) (advance_cursor : bool) :
    M World DomainError IngestOutcome :=
  do _ <- commit_ingest (batch_of chain f epoch advance_cursor);
  mret_ (mkIngestOutcome (Z.of_nat (length (fr_records f)))
           (Z.of_nat (length (block_metas (fr_aux f)))) (Z.of_nat (length (enrichment (fr_aux f))))
           (fr_last_block f)).

Definition commit_range (chain : Z) (f : FetchedRange) (epoch : Z) : M World DomainError IngestOutcome :=
  commit chain f epoch false.

Definition ingest_range {St} (src : ChainSource St) (filter : RecordFilter) (from to epoch : Z)
    (advance_cursor : bool) : M (World * St) DomainError IngestOutcome :=
  do f <- on_src (fetch_range src filter from to);
  on_db (commit (cs_chain_id src) f epoch advance_cursor).

(** * Decoding ([decoding.rs]) *)

Section decoding.
(** The iteration orders of the [HashMap] of tables and of the [HashSet] of transaction ids. *)
Context (map_order : list (string * list EventRow) -> list (string * list EventRow)).
Context (set_order : list bytes -> list bytes).

Definition time_at (times : list (Z * Z)) (h : Z) : option Z :=
  snd <$> (snd <$> list_find (fun ht : Z * Z => ht.1 = h) (reverse times)).

Definition stamp (times : list (Z * Z)) (row : EventRow) : EventRow :=
  mkEventRow (er_chain_id row) (er_height row) (er_block_hash row) (time_at times (er_height row))
    (er_tx_id row) (er_index row) (er_event row).

(** [for x in xs { if let Some(row) = decode(x)? { collect(row) } }]. *)
Fixpoint decode_all {A} (decode : A -> result DomainError (option EventRow)) (xs : list A) :
    result DomainError (list EventRow) :=
  match xs with
  | [] => Ok []
  | x :: xs =>
      let? o := decode x in
      let? rows := decode_all decode xs in
      Ok (match o with Some row => row :: rows | None => rows end)
  end.

(** The rows of a range, each stamped with its block's time. *)
Definition decode_rows (dec : Decoder) (chain from to : Z) : M World DomainError (list EventRow) :=
  do raw <- raw_range chain from to;
  do times <- block_times chain from to;
  do rows <- mlift (decode_all (dec_decode dec) raw);
  do calls <- (if dec_has_calls dec then
                 do txs <- block_calldata chain (set_order (remove_dups (rr_tx_id <$> raw)));
                 mlift (decode_all (dec_decode_call dec) txs)
               else mret_ []);
  mret_ (stamp times <$> rows ++ calls).

Definition write_rows (rows : list EventRow) : M World DomainError Z :=
  mfold (fun written kv => do n <- event_upsert_batch kv.1 kv.2; mret_ (written + n)) 0
    (map_order (btree_group str_cmp row_table rows)).

Definition decode_range (dec : Decoder) (chain from to : Z) : M World DomainError Z :=
  do rows <- decode_rows dec chain from to;
  write_rows rows.

(** * The queue worker ([worker.rs]) *)

Definition run_once (decoders : gmap Z Decoder) : M World DomainError (option Z) :=
  do l <- pull_any;
  match l with
  | None => mret_ None
  | Some lease =>
      let item := l_item lease in
      do written <- match decoders !! wi_chain_id item with
                    | Some dec => decode_range dec (wi_chain_id item) (wi_from item) (wi_to item)
                    | None => mret_ 0
                    end;
      do _ <- ack (l_id lease) (l_lease_seq lease);
      mret_ (Some written)
  end.

End decoding.

Definition reclaim (older_than_secs : Z) : M World DomainError Z := reclaim_expired older_than_secs.

(** * Reorg safety ([reorg.rs]) *)

Definition reorg_check {St} (tables : list string) (src : ChainSource St) (confirmations : Z) :
    M (World * St) DomainError (option Z) :=
  if negb (supports_reorg (cs_caps src)) then mret_ None
  else
    let chain := cs_chain_id src in
    do tip <- on_db (block_max_height chain);
    match tip with
    | None => mret_ None
    | Some tip =>
        do stored <- on_db (block_get chain tip);
        match stored with
        | None => mret_ None
        | Some stored =>
            do canon <- on_src (cs_block_hash src tip);
            match canon with
            | None => mret_ None
            | Some canon =>
                if bool_decide (canon = bm_hash stored) then mret_ None
                else
                  let fork := u64_ssub tip confirmations in
                  let from := u64_add fork 1 in
                  do _ <- on_db (rollback_to chain from tables);
                  mret_ (Some from)
            end
        end
    end.
