(* ===== verification/ServicesFacts.v ===== *)
(** Theorems about the services: what a fetched range reports, decoding as an at-least-once
    computation that converges, the worker's hand-over of items, reorg safety. *)
From S2P Require Import Prelude Model Btree Text Encode Store Repos Queue UnitOfWork Services.

(** * Fetched ranges *)

Lemma max_by_height_spec bs :
  match max_by_height bs with
  | None => bs = []
  | Some m => m ∈ bs /\ forall b, b ∈ bs -> bm_height b <= bm_height m
  end.
Proof.
  unfold max_by_height. induction bs as [|b bs IH] using rev_ind; [done|].
  rewrite fold_left_app. cbn. destruct (fold_left _ bs None) as [m|].
  - destruct IH as [Hin Hmax]. destruct (Z.leb_spec (bm_height m) (bm_height b)).
    + split; [apply elem_of_app; right; left|].
      intros x [Hx|Hx%list_elem_of_singleton]%elem_of_app; [specialize (Hmax _ Hx); lia|subst; lia].
    + split; [apply elem_of_app; by left|].
      intros x [Hx|Hx%list_elem_of_singleton]%elem_of_app; [auto|subst; lia].
  - subst bs. split; [left|]. intros x Hx%list_elem_of_singleton. subst. lia.
Qed.

(** * Calls that only read *)

Definition reads {E A} (m : M World E A) : Prop := forall w r w', m w = (r, w') -> same_state w w'.

Lemma same_state_trans w1 w2 w3 : same_state w1 w2 -> same_state w2 w3 -> same_state w1 w3.
Proof. intros (? & ? & ?) (? & ? & ?). repeat split; congruence. Qed.

Lemma reads_bind {E A B} (m : M World E A) (k : A -> M World E B) :
  reads m -> (forall a, reads (k a)) -> reads (mbind_ m k).
Proof.
  intros Hm Hk w r w'. unfold mbind_. destruct (m w) as [[a|e] w1] eqn:E1.
  - intros H. eapply same_state_trans; [by eapply Hm|by eapply Hk].
  - intros [= <- <-]. by eapply Hm.
Qed.

Lemma reads_ret {E A} (a : A) : reads (mret_ (E:=E) a).
Proof. by intros w r w' [= <- <-]. Qed.

Lemma reads_lift {E A} (x : result E A) : reads (mlift x).
Proof. by intros w r w' [= <- <-]. Qed.

Lemma reads_map_err {E F A} (g : E -> F) (m : M World E A) : reads m -> reads (mmap_err g m).
Proof. intros Hm w r w'. unfold mmap_err. destruct (m w) eqn:E1. intros [= <- <-]. by eapply Hm. Qed.

Lemma reads_sql {A} (run : World -> option (A * World)) :
  (forall w a w', run w = Some (a, w') -> w' = w) -> reads (sql run).
Proof.
  intros Hr w r w'. unfold sql. destruct (next_fault w) as [f w1] eqn:E1. apply next_fault_same in E1.
  destruct f, (run w1) as [[a w2]|] eqn:E2; intros [= <- <-]; try done; by rewrite (Hr _ _ _ E2).
Qed.

Lemma reads_mfold {E A B} (body : B -> A -> M World E B) acc l :
  (forall acc x, reads (body acc x)) -> reads (mfold body acc l).
Proof.
  intros Hb. revert acc. induction l as [|x l IH]; intros acc; [apply reads_ret|]. by apply reads_bind.
Qed.

Lemma reads_raw_range chain from to : reads (raw_range chain from to).
Proof. apply reads_map_err, reads_sql. by intros w a w' [= <- <-]. Qed.

Lemma reads_block_times chain from to : reads (block_times chain from to).
Proof. apply reads_map_err, reads_sql. by intros w a w' [= <- <-]. Qed.

Lemma calldata_stmt_read chain ids w a w' : calldata_stmt chain ids w = Some (a, w') -> w' = w.
Proof.
  unfold calldata_stmt. destruct (_ !! _); cbn; [|done]. destruct (mapM _ _); cbn; [|done].
  by intros [= _ <-].
Qed.

Lemma reads_calldata chain ids : reads (block_calldata chain ids).
Proof.
  apply reads_map_err, reads_mfold. intros out c. apply reads_bind; [|intros; apply reads_ret].
  apply reads_sql. intros w a w'. apply calldata_stmt_read.
Qed.

#[export] Hint Resolve reads_raw_range reads_block_times reads_calldata reads_ret reads_lift : t0.

(** * Calldata does not depend on the order of the ids *)

Definition tx_rows (chain : Z) (d : Db) (ids : list bytes) : list TypedRow :=
  filter (fun r => tr_chain_id r = as_i64 chain /\ tr_tx_id r ∈ ids) (map_to_list (parents d)).*2.

Lemma tx_rows_app chain d a b :
  (forall x, x ∈ a -> x ∉ b) -> tx_rows chain d (a ++ b) ≡ₚ tx_rows chain d a ++ tx_rows chain d b.
Proof.
  intros Hd. unfold tx_rows. induction (map_to_list (parents d)).*2 as [|r l IH]; [done|].
  rewrite !filter_cons.
  assert (tr_tx_id r ∈ a ++ b <-> tr_tx_id r ∈ a \/ tr_tx_id r ∈ b) as Ha by apply elem_of_app.
  pose proof (Hd (tr_tx_id r)) as Hdr.
  destruct (decide (tr_chain_id r = as_i64 chain /\ tr_tx_id r ∈ a)) as [[Hc Hin]|Hn].
  - rewrite decide_True by (split; [done|tauto]). rewrite decide_False by tauto.
    rewrite <- app_comm_cons. by apply Permutation_skip.
  - destruct (decide (tr_chain_id r = as_i64 chain /\ tr_tx_id r ∈ b)) as [[Hc Hin]|Hn'].
    + rewrite decide_True by (split; [done|tauto]). rewrite <- Permutation_middle. by apply Permutation_skip.
    + rewrite decide_False by tauto. done.
Qed.

Lemma mapM_app_Some {A B} (f : A -> option B) l k a b :
  mapM f l = Some a -> mapM f k = Some b -> mapM f (l ++ k) = Some (a ++ b).
Proof.
  intros H1 H2. apply mapM_Some in H1, H2. apply mapM_Some. by apply Forall2_app.
Qed.

(** The calls of the listed transactions, up to order. *)
Lemma calldata_rows chain ids w out w' :
  NoDup ids -> block_calldata chain ids w = (Ok out, w') ->
  exists rows, rows ≡ₚ tx_rows chain (w_db w) ids /\ mapM (calldata_of chain) rows = Some out.
Proof.
  unfold block_calldata. intros Hnd H%mmap_err_Ok.
  assert (concat (chunks (Z.to_nat CALLDATA_CHUNK) ids) = ids) as Hc
    by (apply chunks_concat; unfold CALLDATA_CHUNK; lia).
  assert (forall cs acc v, NoDup (concat cs) -> w_db v = w_db w ->
    mfold (fun out ids => do rows <- sql (calldata_stmt chain ids); mret_ (out ++ rows)) acc cs v
      = (Ok out, w') ->
    exists rows rest, rows ≡ₚ tx_rows chain (w_db w) (concat cs)
      /\ mapM (calldata_of chain) rows = Some rest /\ out = acc ++ rest) as Hcs.
  { clear H Hnd Hc. induction cs as [|c cs IH]; intros acc v Hnd Hv H; cbn in H.
    - apply mret_Ok in H as [-> ->]. exists [], []. split_and!; [|done|by rewrite app_nil_r].
      unfold tx_rows. cbn. rewrite filter_none; [done|]. intros x _ [_ ?%not_elem_of_nil]. done.
    - apply mbind_Ok in H as (acc' & v1 & H1 & H). apply mbind_Ok in H1 as (rs & v2 & H1 & [-> ->]%mret_Ok).
      apply sql_Ok in H1 as (v3 & (D3 & _)%next_fault_same & H1). apply calldata_stmt_read in H1 as Hv2.
      subst v2. unfold calldata_stmt in H1. rewrite D3, Hv in H1.
      destruct (db_tables (w_db w) !! "transactions") as [t|] eqn:Et; [|done]. cbn in H1.
      destruct (mapM _ _) as [rs'|] eqn:Em; [|done]. cbn in H1. injection H1 as ->.
      cbn in Hnd. apply NoDup_app in Hnd as (_ & Hdis & Hnd).
      destruct (IH (acc ++ rs) v3 Hnd) as (rows & rest & Hp & Hm & ->); [by rewrite D3|done|].
      exists (tx_rows chain (w_db w) c ++ rows), (rs ++ rest). split_and!.
      + cbn. rewrite tx_rows_app by done. by rewrite Hp.
      + apply mapM_app_Some; [|done]. unfold tx_rows, parents. by rewrite Et.
      + by rewrite app_assoc. }
  destruct (Hcs (chunks (Z.to_nat CALLDATA_CHUNK) ids) [] w) as (rows & rest & Hp & Hm & ->);
    [by rewrite Hc|done|done|].
  rewrite Hc in Hp. eauto.
Qed.

(** * Decoding *)

(** The reference: what a range decodes to, as a function of the store. *)
Definition ok_row {A} (decode : A -> result DomainError (option EventRow)) (x : A) : option EventRow :=
  match decode x with Ok o => o | Err _ => None end.

Definition times_of (chain from to : Z) (d : Db) : list (Z * Z) :=
  (fun kv : (Z * Z) * BlockRow => (as_u64 kv.1.2, b_time kv.2))
    <$> filter (fun kv => block_between chain from to kv) (map_to_list (db_blocks d)).

Definition decoded_rows (dec : Decoder) (chain from to : Z) (d : Db) : list EventRow :=
  let raw := raw_range_rows chain from to (db_raw d) in
  stamp (times_of chain from to d) <$>
    omap (ok_row (dec_decode dec)) raw
    ++ (if dec_has_calls dec then
          omap (ok_row (dec_decode_call dec))
            (omap (calldata_of chain) (tx_rows chain d (remove_dups (rr_tx_id <$> raw))))
        else []).

(** A batch that decodes has no record that fails. *)
Lemma decode_all_each {A} (f : A -> result DomainError (option EventRow)) xs rows x :
  decode_all f xs = Ok rows -> x ∈ xs -> exists o, f x = Ok o.
Proof.
  revert rows. induction xs as [|y xs IH]; intros rows H Hx; [by apply not_elem_of_nil in Hx|]. cbn in H.
  destruct (f y) as [o|] eqn:Ey; [|done]. cbn in H. destruct (decode_all f xs) as [rs|] eqn:Er; [|done].
  apply elem_of_cons in Hx as [->|Hx]; [by exists o|by eapply IH].
Qed.

Lemma decode_all_omap {A} (f : A -> result DomainError (option EventRow)) xs rows :
  decode_all f xs = Ok rows -> rows = omap (ok_row f) xs.
Proof.
  revert rows. induction xs as [|x xs IH]; intros rows; cbn; [by intros [= <-]|].
  unfold ok_row at 1. destruct (f x) as [o|e]; cbn; [|done].
  destruct (decode_all f xs) as [rs|e]; cbn; [|done]. intros [= <-].
  rewrite <- (IH _ eq_refl). by destruct o.
Qed.

Lemma decode_rows_spec set_order dec chain from to w rows w' :
  (forall l, set_order l ≡ₚ l) ->
  decode_rows set_order dec chain from to w = (Ok rows, w') ->
  same_state w w' /\ rows ≡ₚ decoded_rows dec chain from to (w_db w).
Proof.
  intros Hso H. unfold decode_rows in H.
  apply mbind_Ok in H as (raw & w1 & H1 & H). pose proof (reads_raw_range _ _ _ _ _ _ H1) as S1.
  apply mmap_err_Ok, sql_Ok in H1 as (v1 & (D1 & _)%next_fault_same & H1).
  assert (raw = raw_range_rows chain from to (db_raw (w_db w))) as Hraw by (injection H1; congruence).
  apply mbind_Ok in H as (times & w2 & H2 & H). pose proof (reads_block_times _ _ _ _ _ _ H2) as S2.
  apply mmap_err_Ok, sql_Ok in H2 as (v2 & (D2 & _)%next_fault_same & H2).
  assert (times = times_of chain from to (w_db w)) as Ht.
  { injection H2 as <- _. unfold times_of. by rewrite D2, (proj1 S1). }
  apply mbind_Ok in H as (ev & w3 & H3 & H). injection H3 as Hev <-. apply decode_all_omap in Hev.
  apply mbind_Ok in H as (calls & w4 & H4 & [-> ->]%mret_Ok).
  pose proof (same_state_trans _ _ _ S1 S2) as S12. unfold decoded_rows. rewrite <- Hraw, <- Ht, Hev.
  destruct (dec_has_calls dec).
  - apply mbind_Ok in H4 as (txs & w5 & H4 & H5). injection H5 as H5 <-.
    pose proof (reads_calldata _ _ _ _ _ H4) as S4. split; [by eapply same_state_trans|].
    apply calldata_rows in H4 as (rs & Hp & Hm); [|rewrite Hso; apply NoDup_remove_dups].
    rewrite (proj1 S12) in Hp. apply decode_all_omap in H5. rewrite H5.
    apply mapM_omap in Hm. rewrite <- Hm.
    apply fmap_Permutation, Permutation_app_head. rewrite Hp. unfold tx_rows.
    do 2 apply omap_Permutation. erewrite list_filter_iff; [done|]. intros r. cbn. by rewrite Hso.
  - apply mret_Ok in H4 as [-> ->]. done.
Qed.

(** Writing the rows table by table: whatever the outcome, some of the tables got all their rows
    and the others none; a run that returns wrote them all. *)
Lemma write_groups_run (f : string -> list EventRow) gs acc w r w' :
  NoDup gs.*1 -> (forall t g, (t, g) ∈ gs -> by_signature g = f t) ->
  mfold (fun written kv => do n <- event_upsert_batch kv.1 kv.2; mret_ (written + n)) acc gs w = (r, w') ->
  exists ts, NoDup ts /\ (forall t, t ∈ ts -> t ∈ gs.*1) /\ w_db w' = tables_effect f ts (w_db w)
    /\ (forall n, r = Ok n -> ts = gs.*1).
Proof.
  revert acc w. induction gs as [|[t g] gs IH]; intros acc w Hnd Hf H.
  { cbn in H. injection H as <- <-. exists []. split_and!; [constructor|done|done|done]. }
  apply NoDup_cons in Hnd as [Hni Hnd]. cbn [mfold] in H. unfold mbind_ at 1 in H. cbn [fst snd] in H.
  assert (Hone : forall r1 w1, event_upsert_batch t g w = (r1, w1) ->
    w_db w1 = w_db w \/ w_db w1 = typed_effect t (f t) (w_db w)).
  { intros r1 w1 H1. unfold event_upsert_batch, mbind_, mlift in H1.
    destruct (safe_ident t); cbn in H1; [|injection H1 as <- <-; by left].
    pose proof (updates_map_err domain_of_db _ _ (event_upsert_updates t g)) as Hu.
    rewrite (Hf t g) in Hu by left.
    destruct r1 as [n|e]; [right|by apply (in_tx_all_or_nothing _ _ _ _ _ _ Hu) in H1].
    by apply (updates_in_tx domain_of_db _ _ Hu) in H1 as (-> & _). }
  assert (Hok : forall n w1, event_upsert_batch t g w = (Ok n, w1) ->
    w_db w1 = typed_effect t (f t) (w_db w)).
  { intros n w1 H1. unfold event_upsert_batch in H1. apply mbind_Ok in H1 as (? & ? & E & H1).
    injection E as _ <-. rewrite <- (Hf t g) by left.
    by apply (updates_in_tx domain_of_db _ _ (updates_map_err _ _ _ (event_upsert_updates t g))) in H1 as (-> & _). }
  unfold mbind_ at 1 in H. destruct (event_upsert_batch t g w) as [[n|e] w1] eqn:E1.
  - specialize (Hok n w1 eq_refl). cbn in H.
    apply IH in H as (ts & H1 & H2 & H3 & H4); [|done|intros; apply Hf; by right].
    exists (t :: ts). split_and!.
    + constructor; [|done]. intros Hin. apply Hni. auto.
    + intros x [->|Hx]%elem_of_cons; [left|right; auto].
    + rewrite H3, Hok. done.
    + intros m Hm. cbn. f_equal. by eapply H4.
  - injection H as <- <-. destruct (Hone _ _ eq_refl) as [E|E].
    + exists []. split_and!; [constructor|by intros ? ?%not_elem_of_nil|done|done].
    + exists [t]. split_and!; [apply NoDup_singleton| |done|done].
      intros x Hx%list_elem_of_singleton. subst. left.
Qed.

Definition rows_of (rows : list EventRow) (t : string) : list EventRow :=
  filter (fun r => row_table r = t) rows.

(** No two decoded rows of a table have the same key. *)
Definition distinct_keys (d : Db) (rows : list EventRow) : Prop :=
  forall t tab, db_tables d !! t = Some tab ->
    NoDup (omap (typed_kv (t_pk tab) (table_has_idx t)) (rows_of rows t)).*1.

Lemma add_rows_perm t a b tab :
  a ≡ₚ b -> NoDup (omap (typed_kv (t_pk tab) (table_has_idx t)) a).*1 ->
  add_rows t a tab = add_rows t b tab.
Proof.
  intros Hp Hnd. unfold add_rows. do 2 f_equal. apply list_to_map_proper; [done|].
  by apply omap_Permutation.
Qed.

Section converge.
Context (map_order : list (string * list EventRow) -> list (string * list EventRow)).
Context (set_order : list bytes -> list bytes).
Context (Hmo : forall l, map_order l ≡ₚ l) (Hso : forall l, set_order l ≡ₚ l).

(** One attempt, whatever its outcome. *)
Lemma decode_attempt dec chain from to w r w' :
  decode_range map_order set_order dec chain from to w = (r, w') ->
  distinct_keys (w_db w) (decoded_rows dec chain from to (w_db w)) ->
  let rows := decoded_rows dec chain from to (w_db w) in
  exists ts, NoDup ts /\ (forall t, t ∈ ts -> exists x, x ∈ rows /\ row_table x = t)
    /\ w_db w' = set_tables (db_tables (w_db w')) (w_db w)
    /\ (forall t, db_tables (w_db w') !! t =
          if decide (t ∈ ts) then add_rows t (rows_of rows t) <$> db_tables (w_db w) !! t
          else db_tables (w_db w) !! t)
    /\ (forall n, r = Ok n -> forall x, x ∈ rows -> row_table x ∈ ts).
Proof.
  intros H Hdk rows. unfold decode_range, mbind_ in H.
  assert (Hnone : forall v e, same_state w v -> r = Err e -> w' = v -> exists ts, NoDup ts
    /\ (forall t, t ∈ ts -> exists x, x ∈ rows /\ row_table x = t)
    /\ w_db w' = set_tables (db_tables (w_db w')) (w_db w)
    /\ (forall t, db_tables (w_db w') !! t =
          if decide (t ∈ ts) then add_rows t (rows_of rows t) <$> db_tables (w_db w) !! t
          else db_tables (w_db w) !! t)
    /\ (forall n, r = Ok n -> forall x, x ∈ rows -> row_table x ∈ ts)).
  { intros v e (D & _) -> ->. exists []. split_and!.
    - constructor.
    - by intros ? ?%not_elem_of_nil.
    - rewrite D. by destruct (w_db w).
    - intros t. by rewrite decide_False, D by apply not_elem_of_nil.
    - done. }
  destruct (decode_rows set_order dec chain from to w) as [[rs|e] w1] eqn:E.
  2:{ injection H as <- <-. eapply (Hnone w1); [|done|done].
      assert (reads (decode_rows set_order dec chain from to)) as Hr.
      { unfold decode_rows. apply reads_bind; [auto with t0|]. intros. apply reads_bind; [auto with t0|].
        intros. apply reads_bind; [auto with t0|]. intros. apply reads_bind; [|auto with t0].
        destruct (dec_has_calls dec); [|auto with t0]. apply reads_bind; auto with t0. }
      by eapply Hr. }
  apply decode_rows_spec in E as [(D1 & _) Hp]; [|done]. fold rows in Hp.
  set (gs := btree_group str_cmp row_table rs) in H.
  destruct (btree_group_spec str_cmp row_table rs) as (G1 & G2 & G3). fold gs in G1, G2, G3.
  apply (ascending_NoDup str_cmp) in G1.
  apply (write_groups_run (fun t => by_signature (rows_of rs t))) in H as (ts & H1 & H2 & H3 & H4).
  - assert (Hin : forall t, t ∈ (map_order gs).*1 <-> exists x, x ∈ rows /\ row_table x = t).
    { intros t. rewrite Hmo, G2. by setoid_rewrite Hp. }
    exists ts. split_and!.
    + done.
    + intros t Ht. by apply Hin, H2.
    + rewrite H3. destruct (tables_effect_others (fun t => by_signature (rows_of rs t)) ts (w_db w1))
        as (E1 & E2 & E3 & E4). rewrite D1 in *. unfold set_tables. rewrite <- E1, <- E2, <- E3, <- E4.
      by destruct (tables_effect _ _ _).
    + intros t. rewrite H3, tables_effect_lookup, D1 by done. destruct (decide _); [|done].
      destruct (db_tables (w_db w) !! t) as [tab|] eqn:Et; [|done]. cbn. f_equal. symmetry.
      apply add_rows_perm; [|by apply Hdk]. rewrite by_signature_perm. unfold rows_of.
      by rewrite Hp.
    + intros n Hn x Hx. rewrite (H4 n Hn). apply Hin. eauto.
  - by rewrite Hmo.
  - intros t g. rewrite Hmo. intros Hg. by rewrite <- (group_of_elem _ _ _ G1 Hg), G3.
Qed.

End converge.

Lemma rows_of_none rows t : (forall x, x ∈ rows -> row_table x <> t) -> rows_of rows t = [].
Proof. intros H. apply filter_none. auto. Qed.

Lemma add_rows_idem t rs tab : add_rows t rs (add_rows t rs tab) = add_rows t rs tab.
Proof. unfold add_rows, set_rows. cbn. by rewrite union_idem_r. Qed.

(** C26: decoding is at-least-once and converges: after any number of outcomes of a first attempt
    (it returned, it failed in any statement, a reply was lost), an attempt that returns leaves
    every typed table with exactly the rows the range decodes to added to those it had, existing
    rows winning, and touches nothing else; the iteration orders of the hash containers do not
    matter. *)
Theorem decode_retry_converges
    (mo1 mo2 : list (string * list EventRow) -> list (string * list EventRow))
    (so1 so2 : list bytes -> list bytes) (dec : Decoder) (chain from to n : Z)
    (w w1 w2 : World) (r : result DomainError Z) :
  (forall l, mo1 l ≡ₚ l) -> (forall l, so1 l ≡ₚ l) -> (forall l, mo2 l ≡ₚ l) -> (forall l, so2 l ≡ₚ l) ->
  let rows := decoded_rows dec chain from to (w_db w) in
  (forall x, x ∈ rows -> row_table x <> "transactions") -> distinct_keys (w_db w) rows ->
  decode_range mo1 so1 dec chain from to w = (r, w1) ->
  decode_range mo2 so2 dec chain from to w1 = (Ok n, w2) ->
  w_db w2 = set_tables (db_tables (w_db w2)) (w_db w)
  /\ forall t, db_tables (w_db w2) !! t = add_rows t (rows_of rows t) <$> db_tables (w_db w) !! t.
Proof.
  intros P1 P2 P3 P4 rows Htx Hdk H1 H2.
  apply decode_attempt in H1 as (ts1 & _ & Hin1 & D1 & T1 & _); [|done|done|done].
  fold rows in Hin1, T1.
  assert (parents (w_db w1) = parents (w_db w)) as Hpar.
  { unfold parents. rewrite T1, decide_False; [done|]. intros (x & Hx & E)%Hin1. by apply (Htx x). }
  assert (decoded_rows dec chain from to (w_db w1) = rows) as Hrows.
  { unfold rows, decoded_rows, tx_rows, times_of. rewrite Hpar, D1. done. }
  apply decode_attempt in H2 as (ts2 & _ & Hin2 & D2 & T2 & Hall); [|done|done|].
  2:{ rewrite Hrows. intros t tab. rewrite T1. destruct (decide _); [|apply Hdk].
      destruct (db_tables (w_db w) !! t) as [tab0|] eqn:E; [|done]. cbn. intros [= <-]. cbn. by apply Hdk. }
  rewrite Hrows in Hin2, T2, Hall. split; [by rewrite D2, D1|].
  intros t. rewrite T2. destruct (decide (t ∈ ts2)) as [Ht|Ht].
  - rewrite T1. destruct (decide (t ∈ ts1)); [|done].
    destruct (db_tables (w_db w) !! t) as [tab|]; [|done]. cbn. by rewrite add_rows_idem.
  - assert (forall x, x ∈ rows -> row_table x <> t) as Hno.
    { intros x Hx <-. by apply Ht, (Hall n). }
    rewrite T1, decide_False by (intros (x & Hx & E)%Hin1; by apply (Hno x)).
    rewrite (rows_of_none rows t Hno). destruct (db_tables (w_db w) !! t) as [tab|]; [|done].
    cbn. by rewrite add_rows_nil.
Qed.

Definition evt_row (r : RawRecord) : EventRow :=
  mkEventRow (rr_chain_id r) (rr_height r) (rr_block_hash r) None (rr_tx_id r) (rr_index r)
    (mkDecodedEvent "evt" [("value", VUint "1")]).

Definition sample_decoder : Decoder :=
  mkDecoder (fun r => Ok (Some (evt_row r))) (fun _ => Ok None) true (fun _ => []) (fun _ => mkRecordFilter [] []).

Definition decode_db : Db :=
  mkDb (<[(1, 5) := mkBlockRow [byte_of 1] [byte_of 0] 50]> ∅) ∅
    (list_to_map (raw_kv <$> [sample_rec 5 0; sample_rec 6 1])) [fresh_row 1 (sample_item 5)]
    (<["transactions" := mkTable PkTx (typed_meta ++ [("idx", "bigint"); ("input", "bytea"); ("to_addr", "bytea")]) false ∅]>
     (<["evt" := mkTable PkEvent (typed_meta ++ [("idx", "bigint"); ("value", "numeric(78,0)")]) false ∅]> ∅)).

(** The first attempt fails at its INSERT. *)
Definition decode_world : World :=
  mkWorld decode_db 2 0 [NoFault; NoFault; NoFault; NoFault; Reject].

Lemma decode_retry_converges_witness :
  let rows := decoded_rows sample_decoder 1 5 14 decode_db in
  let r1 := decode_range (fun l => l) (fun l => l) sample_decoder 1 5 14 decode_world in
  let r2 := decode_range (fun l => l) (fun l => l) sample_decoder 1 5 14 r1.2 in
  length rows = 2%nat /\ r1.1 = Err (EStorage "database error: statement failed") /\ r2.1 = Ok 2
  /\ w_db r2.2 = set_tables (db_tables (w_db r2.2)) decode_db
  /\ forall t, db_tables (w_db r2.2) !! t = add_rows t (rows_of rows t) <$> db_tables decode_db !! t.
Proof.
  intros rows r1 r2. split; [by vm_compute|]. split; [by vm_compute|]. split; [by vm_compute|].
  apply (decode_retry_converges (fun l => l) (fun l => l) (fun l => l) (fun l => l)
           sample_decoder 1 5 14 2 decode_world r1.2 r2.2 (Err (EStorage "database error: statement failed"))
           ltac:(done) ltac:(done) ltac:(done) ltac:(done)).
  - intros x Hx. apply Forall_forall with (x := x) (l := rows); [|done]. vm_compute. repeat constructor; done.
  - intros t tab Ht. destruct (decide (t = "evt")) as [->|Hne].
    + vm_compute in Ht. injection Ht as <-. apply (bool_decide_unpack _). by vm_compute.
    + rewrite rows_of_none; [constructor|]. intros x Hx Hxt. apply Hne. rewrite <- Hxt.
      apply Forall_forall with (P := fun x => row_table x = "evt") (x := x) (l := rows); [|done].
      vm_compute. repeat constructor.
  - by vm_compute.
  - by vm_compute.
Defined.

(** * The worker *)

Lemma event_upsert_batch_queue t g w r w' :
  event_upsert_batch t g w = (r, w') -> queue_of w' = queue_of w.
Proof.
  unfold event_upsert_batch, mbind_, mlift, queue_of. destruct (safe_ident t); cbn; [|by intros [= _ <-]].
  pose proof (updates_map_err domain_of_db _ _ (event_upsert_updates t g)) as Hu. intros H.
  destruct r as [n|e].
  - by apply (updates_in_tx domain_of_db _ _ Hu) in H as (-> & _).
  - by apply (in_tx_all_or_nothing _ _ _ _ _ _ Hu) in H as [->| ->].
Qed.

Lemma decode_range_queue mo so dec chain from to w r w' :
  decode_range mo so dec chain from to w = (r, w') -> queue_of w' = queue_of w.
Proof.
  unfold decode_range, mbind_. destruct (decode_rows so dec chain from to w) as [x w1] eqn:E.
  assert (queue_of w1 = queue_of w) as Hq.
  { assert (reads (decode_rows so dec chain from to)) as Hr.
    { unfold decode_rows. do 3 (apply reads_bind; [auto with t0|]; intros).
      apply reads_bind; [|auto with t0].
      destruct (dec_has_calls dec); [|auto with t0]. apply reads_bind; auto with t0. }
    destruct (Hr _ _ _ E) as (D & _). unfold queue_of. by rewrite D. }
  destruct x as [rows|e]; [|by intros [= _ <-]]. rewrite <- Hq. unfold write_rows. intros H.
  refine (mfold_inv (fun v => queue_of v = queue_of w1) _ _ _ _ _ _ _ _ H); [|done].
  intros acc kv v r' v' _ Hv Hb. unfold mbind_ in Hb. destruct (event_upsert_batch _ _ v) as [y v1] eqn:E1.
  apply event_upsert_batch_queue in E1. destruct y; injection Hb as _ <-; congruence.
Qed.

Lemma pull_any_ids w o w' : pull_any w = (o, w') -> wq_id <$> queue_of w' = wq_id <$> queue_of w.
Proof.
  intros (v & (D & _ & N) & [(D' & _)|[a Hr]] & _)%sql_runs; unfold queue_of; [by rewrite D'|].
  rewrite D, N in Hr. destruct (pull_rows _ _) as [[l q]|] eqn:E; injection Hr as _ <-; [|by rewrite D].
  cbn. by eapply pull_rows_ids.
Qed.

Lemma pull_any_row w l w' :
  pull_any w = (Ok (Some l), w') -> exists y, y ∈ queue_of w /\ l = lease_of (lock_row (w_now w) y).
Proof.
  intros (v & (D & _ & N) & _ & Hr)%sql_runs. specialize (Hr _ eq_refl). cbn in Hr.
  rewrite D, N in Hr. destruct (pull_rows _ _) as [[l' q]|] eqn:E; [|done]. injection Hr as -> _.
  apply pull_rows_split in E as (q1 & y & q2 & E & _ & _ & -> & _). exists y. split; [|done].
  unfold queue_of. rewrite E. apply elem_of_app. right. left.
Qed.

(** A row that an ack removed had the id of the lease; the typed tables stay. *)
Lemma ack_removes l w r w' i :
  ack (l_id l) (l_lease_seq l) w = (r, w') -> i ∈ wq_id <$> queue_of w ->
  i ∉ wq_id <$> queue_of w' -> l_id l = i /\ db_tables (w_db w') = db_tables (w_db w).
Proof.
  intros (v & (D & _) & [(D' & _)|[a Hr]] & _)%sql_runs Hin Hout; unfold queue_of in *.
  { by rewrite D' in Hout. }
  injection Hr as _ <-. cbn in *. rewrite D in *. split; [|done].
  destruct (decide (l_id l = i)) as [|Hne]; [done|]. destruct Hout.
  apply list_elem_of_fmap in Hin as (y & -> & Hy). apply list_elem_of_fmap. exists y.
  split; [done|]. apply list_elem_of_filter. split; [|done]. by intros [? _].
Qed.

(** An item leaves the queue only after its range has been decoded: whatever fails in a worker's
    turn, a row that is gone afterwards was leased in that turn, and when its chain has a decoder
    that decode returned and its rows are in the typed tables. *)
Theorem item_done_only_after_decode
    (mo : list (string * list EventRow) -> list (string * list EventRow)) (so : list bytes -> list bytes)
    (decoders : gmap Z Decoder) (w w' : World) (r : result DomainError (option Z)) (x : QueueRow) :
  run_once mo so decoders w = (r, w') -> x ∈ queue_of w -> NoDup (wq_id <$> queue_of w) ->
  wq_id x ∉ wq_id <$> queue_of w' ->
  exists l w1, pull_any w = (Ok (Some l), w1) /\ l_id l = wq_id x /\ l_item l = lease_item x
    /\ match decoders !! wi_chain_id (l_item l) with
       | None => True
       | Some dec => exists n w2,
           decode_range mo so dec (wi_chain_id (l_item l)) (wi_from (l_item l)) (wi_to (l_item l)) w1
             = (Ok n, w2) /\ db_tables (w_db w') = db_tables (w_db w2)
       end.
Proof.
  intros H Hx Hnd Hout. unfold run_once in H. unfold mbind_ at 1 in H.
  destruct (pull_any w) as [o w1] eqn:Ep. pose proof (pull_any_ids _ _ _ Ep) as Hids.
  assert (Hin : wq_id x ∈ wq_id <$> queue_of w1) by (rewrite Hids; apply list_elem_of_fmap; eauto).
  destruct o as [[l|]|e]; [|by injection H as _ <-|by injection H as _ <-].
  exists l, w1. split; [done|]. apply pull_any_row in Ep as (y & Hy & Hl).
  set (dc := match decoders !! wi_chain_id (l_item l) with
             | Some dec => decode_range mo so dec (wi_chain_id (l_item l)) (wi_from (l_item l)) (wi_to (l_item l))
             | None => mret_ 0 end) in H.
  assert (Hdq : forall rr v, dc w1 = (rr, v) -> queue_of v = queue_of w1).
  { intros rr v Hv. unfold dc in Hv. destruct (decoders !! _); [by eapply decode_range_queue|].
    by injection Hv as _ <-. }
  unfold mbind_ in H. destruct (dc w1) as [[n|e] w2] eqn:Ed; specialize (Hdq _ _ eq_refl).
  2:{ injection H as _ <-. by rewrite Hdq in Hout. }
  destruct (ack (l_id l) (l_lease_seq l) w2) as [ra w3] eqn:Ea.
  assert (w' = w3) as -> by (destruct ra; by injection H as _ <-).
  apply (ack_removes l _ _ _ (wq_id x)) in Ea as [Hid Htab]; [|by rewrite Hdq|done].
  split_and!; [done| |].
  - rewrite Hl in Hid |- *. cbn in Hid |- *.
    assert (y = x) as -> by (by apply (NoDup_fmap_same wq_id (queue_of w))). done.
  - unfold dc in Ed. destruct (decoders !! _); [eauto|done].
Qed.

Lemma item_done_only_after_decode_witness :
  let w := calm_world decode_db in
  let w' := (run_once (fun l => l) (fun l => l) (<[1 := sample_decoder]> ∅) w).2 in
  queue_of w' = []
  /\ exists l w1, pull_any w = (Ok (Some l), w1) /\ l_id l = 1 /\ l_item l = sample_item 5
    /\ match (<[1 := sample_decoder]> ∅ : gmap Z Decoder) !! wi_chain_id (l_item l) with
       | None => True
       | Some dec => exists n w2,
           decode_range (fun l => l) (fun l => l) dec (wi_chain_id (l_item l)) (wi_from (l_item l)) (wi_to (l_item l)) w1
             = (Ok n, w2) /\ db_tables (w_db w') = db_tables (w_db w2)
       end.
Proof.
  intros w w'. split; [by vm_compute|].
  apply (item_done_only_after_decode (fun l => l) (fun l => l) (<[1 := sample_decoder]> ∅) w w'
           (Ok (Some 2)) (fresh_row 1 (sample_item 5))).
  - by vm_compute.
  - left.
  - apply NoDup_singleton.
  - vm_compute. apply not_elem_of_nil.
Defined.

(** * Reorg safety *)

Definition is_tip (chain : Z) (d : Db) (tip : Z) : Prop :=
  is_Some (db_blocks d !! (as_i64 chain, tip))
  /\ forall h row, db_blocks d !! (as_i64 chain, h) = Some row -> h <= tip.

Lemma fold_max_spec l o :
  match fold_left max_opt l o with
  | None => l = [] /\ o = None
  | Some m => (m ∈ l \/ o = Some m) /\ (forall x, x ∈ l -> x <= m) /\ (forall y, o = Some y -> y <= m)
  end.
Proof.
  revert o. induction l as [|x l IH]; intros o; cbn.
  { destruct o as [m|]; [|done]. split_and!; [by right|by intros ? ?%not_elem_of_nil|].
    intros y [= ->]. lia. }
  specialize (IH (max_opt o x)). destruct (fold_left max_opt l (max_opt o x)) as [m|].
  - destruct IH as (H1 & H2 & H3). specialize (H3 _ eq_refl). split_and!.
    + destruct H1 as [H1|H1]; [left; by right|]. unfold max_opt in H1. injection H1 as <-.
      destruct o as [y|]; [|left; left]. destruct (Z.max_spec y x) as [[_ ->]|[_ ->]]; [left; left|by right].
    + intros y [->|Hy]%elem_of_cons; [|auto]. destruct o; lia.
    + intros y ->. lia.
  - destruct IH as [_ IH]. by destruct o.
Qed.

Lemma chain_heights_elem chain m h :
  h ∈ chain_heights chain m <-> is_Some (m !! (as_i64 chain, h)).
Proof.
  unfold chain_heights. rewrite list_elem_of_fmap. split.
  - intros ([c h'] & -> & (Hc & Hin)%list_elem_of_filter). cbn in *. subst c.
    apply list_elem_of_fmap in Hin as ([k v] & -> & Hkv). apply elem_of_map_to_list in Hkv. eauto.
  - intros [v Hv]. exists (as_i64 chain, h). split; [done|]. apply list_elem_of_filter. split; [done|].
    apply list_elem_of_fmap. exists ((as_i64 chain, h), v). split; [done|]. by apply elem_of_map_to_list.
Qed.

Lemma block_max_height_spec chain w o w' :
  (forall h row, db_blocks (w_db w) !! (as_i64 chain, h) = Some row -> is_i63 h) ->
  block_max_height chain w = (Ok o, w') ->
  same_state w w' /\ (forall tip, o = Some tip -> is_tip chain (w_db w) tip /\ is_i63 tip)
  /\ (o = None -> forall h, db_blocks (w_db w) !! (as_i64 chain, h) = None).
Proof.
  intros Hh H. assert (reads (block_max_height chain)) as Hr.
  { apply reads_map_err, reads_sql. by intros v a v' [= <- <-]. }
  split; [by eapply Hr|].
  apply mmap_err_Ok, sql_Ok in H as (v & (D & _)%next_fault_same & H). rewrite D in H.
  pose proof (fold_max_spec (chain_heights chain (db_blocks (w_db w))) None) as Hs.
  destruct (fold_left max_opt _ None) as [m|]; injection H as <- _; (split; [intros tip Ho|intros Ho]);
    try discriminate Ho; [injection Ho as <-|destruct Hs as [Hs _]; intros h; apply eq_None_not_Some;
      rewrite <- chain_heights_elem, Hs; by intros ?%not_elem_of_nil].
  destruct Hs as ([Hm|Hm] & Hmax & _); [|done]. apply chain_heights_elem in Hm as [row Hrow].
  specialize (Hh _ _ Hrow) as Hm. rewrite as_u64_small by auto with t0. split; [|done].
  split; [eauto|]. intros h row' Hr'. apply Hmax, chain_heights_elem. eauto.
Qed.

Lemma on_db_Ok {St E A} (m : M World E A) (ws : World * St) a ws' :
  on_db m ws = (Ok a, ws') <-> m ws.1 = (Ok a, ws'.1) /\ ws'.2 = ws.2.
Proof.
  unfold on_db. destruct (m ws.1) as [r w1]. destruct ws' as [w' s']. cbn. split.
  - by intros [= -> -> ->].
  - by intros [[= -> ->] ->].
Qed.

Lemma on_src_Ok {St E A} (m : M St E A) (ws : World * St) a ws' :
  on_src m ws = (Ok a, ws') <-> m ws.2 = (Ok a, ws'.2) /\ ws'.1 = ws.1.
Proof.
  unfold on_src. destruct (m ws.2) as [r s1]. destruct ws' as [w' s']. cbn. split.
  - by intros [= -> -> ->].
  - by intros [[= -> ->] ->].
Qed.

(** The blocks left by a rollback are those below it. *)
Lemma rolled_back_blocks chain from tables d d' h row :
  rolled_back chain from tables d d' -> is_i63 from ->
  db_blocks d' !! (as_i64 chain, h) = Some row ->
  db_blocks d !! (as_i64 chain, h) = Some row /\ h < from.
Proof.
  intros Hrb Hf. rewrite (rb_blocks _ _ _ _ _ Hrb), map_lookup_filter_Some. cbn.
  rewrite (as_i64_small from) by (unfold_int; lia). intros [? ?]. split; [done|].
  destruct (Z.lt_ge_cases h from); [done|tauto].
Qed.

Lemma rollback_ok chain from tables w a w' :
  (forall tab, db_tables (w_db w) !! "transactions" = Some tab -> t_fk tab = false) ->
  rollback_to chain from tables w = (Ok a, w') -> rolled_back chain from tables (w_db w) (w_db w').
Proof.
  intros Htx (w1 & w2 & (D1 & _) & H & (D2 & _))%in_tx_Ok. rewrite <- D1 in Htx.
  apply rollback_tx_refines in H; [|done]. by rewrite D2, <- D1.
Qed.

(** The answers of the source and of the store on which the check leaves the chain alone: the source
    has no reorgs, no block of the chain is stored, or the source does not know the highest stored
    block or gives the stored hash for it. *)
Definition tip_unchallenged {St} (src : ChainSource St) (d : Db) (s : St) : Prop :=
  supports_reorg (cs_caps src) = false
  \/ (forall h, db_blocks d !! (as_i64 (cs_chain_id src), h) = None)
  \/ exists tip row s', is_tip (cs_chain_id src) d tip
       /\ db_blocks d !! (as_i64 (cs_chain_id src), tip) = Some row
       /\ (cs_block_hash src tip s = (Ok None, s') \/ cs_block_hash src tip s = (Ok (Some (b_hash row)), s')).

(** The source gives another hash than the stored one for the highest stored block. *)
Definition tip_orphaned {St} (src : ChainSource St) (d : Db) (s : St) (tip : Z) : Prop :=
  supports_reorg (cs_caps src) = true /\ is_tip (cs_chain_id src) d tip /\ is_i63 tip
  /\ exists row c s', db_blocks d !! (as_i64 (cs_chain_id src), tip) = Some row
       /\ cs_block_hash src tip s = (Ok (Some c), s') /\ c <> b_hash row.

Lemma reorg_check_cases {St} (src : ChainSource St) (tables : list string) (conf : Z)
    (w w' : World) (s s' : St) (o : option Z) :
  (forall h row, db_blocks (w_db w) !! (as_i64 (cs_chain_id src), h) = Some row -> is_i63 h) ->
  (forall tab, db_tables (w_db w) !! "transactions" = Some tab -> t_fk tab = false) -> 0 < conf ->
  reorg_check tables src conf (w, s) = (Ok o, (w', s')) ->
  (o = None /\ w_db w' = w_db w /\ tip_unchallenged src (w_db w) s)
  \/ exists tip, tip_orphaned src (w_db w) s tip /\ o = Some (Z.max 0 (tip - conf) + 1)
       /\ rolled_back (cs_chain_id src) (Z.max 0 (tip - conf) + 1) tables (w_db w) (w_db w').
Proof.
  intros Hh Htx Hconf H. unfold reorg_check in H.
  destruct (supports_reorg _) eqn:Es; cbn [negb] in H;
    [|injection H as <- <- <-; left; split_and!; [done..|by left]].
  apply mbind_Ok in H as (tip & [w1 s1] & [H1 E1]%on_db_Ok & H). cbn in H1, E1. subst s1.
  apply block_max_height_spec in H1 as ((D1 & S1) & Htip & Hnone); [|done].
  destruct tip as [tip|]; [|injection H as <- <- <-; left; split_and!; [done..|right; left; auto]].
  destruct (Htip _ eq_refl) as [Ht Hti].
  apply mbind_Ok in H as (st & [w2 s2] & [H2 E2]%on_db_Ok & H). cbn in H2, E2. subst s2.
  apply mmap_err_Ok, sql_Ok in H2 as (v2 & (D2 & S2)%next_fault_same & H2).
  injection H2 as Hst <-. rewrite D2, D1, (as_i64_small tip) in Hst by apply Hti.
  pose proof Ht as [[row Hrow] Hmax]. rewrite Hrow in Hst. cbn in Hst. subst st.
  apply mbind_Ok in H as (canon & [w3 s3] & [H3 E3]%on_src_Ok & H). cbn in H3, E3. subst w3.
  destruct canon as [c|]; [|injection H as <- <- <-; left; split_and!; [done|by rewrite D2, D1|];
    right; right; exists tip, row, s3; auto].
  cbn [bm_hash] in H. case_bool_decide as Hc; [injection H as <- <- <-; left;
    split_and!; [done|by rewrite D2, D1|]; right; right; exists tip, row, s3; subst c; auto|].
  apply mbind_Ok in H as ([] & [w4 s4] & [H4 E4]%on_db_Ok & H). injection H as <- <- <-. cbn in H4.
  assert (u64_add (u64_ssub tip conf) 1 = Z.max 0 (tip - conf) + 1) as Hf.
  { unfold u64_ssub. apply u64_add_small; unfold_int; lia. }
  rewrite Hf in H4. apply rollback_ok in H4; [|by rewrite D2, D1]. rewrite D2, D1 in H4.
  right. exists tip. split_and!; [|by rewrite Hf|done]. split_and!; [done..|]. by exists row, c, s3.
Qed.

(** C28: the reorg check acts exactly when it should. When it returns without a rollback the store
    is unchanged and there was no reason to act: the source has no reorgs, no block of the chain is
    stored, or the source does not know the highest stored block or gives the stored hash for it.
    When it returns a height, the source gave another hash for the highest stored block, the chain
    was rolled back to [confirmations] below that block, and when no stored block at that depth or
    deeper was orphaned, every block left is canonical. *)
Theorem reorg_check_outcome {St} (src : ChainSource St) (tables : list string) (conf : Z)
    (w w' : World) (s s' : St) (o : option Z) :
  let chain := cs_chain_id src in
  (forall h row, db_blocks (w_db w) !! (as_i64 chain, h) = Some row -> is_i63 h) ->
  (forall tab, db_tables (w_db w) !! "transactions" = Some tab -> t_fk tab = false) -> 0 < conf ->
  reorg_check tables src conf (w, s) = (Ok o, (w', s')) ->
  (o = None /\ w_db w' = w_db w /\ tip_unchallenged src (w_db w) s)
  \/ exists tip, tip_orphaned src (w_db w) s tip
       /\ o = Some (Z.max 0 (tip - conf) + 1)
       /\ rolled_back chain (Z.max 0 (tip - conf) + 1) tables (w_db w) (w_db w')
       /\ forall canonical : Z -> bytes,
            (forall h r, db_blocks (w_db w) !! (as_i64 chain, h) = Some r -> h <= Z.max 0 (tip - conf) ->
               b_hash r = canonical h) ->
            forall h r, db_blocks (w_db w') !! (as_i64 chain, h) = Some r -> b_hash r = canonical h.
Proof.
  intros chain Hh Htx Hconf H. apply reorg_check_cases in H as [H|(tip & Ho & -> & H)]; [by left| |done..].
  right. exists tip. split_and!; [done..|]. intros can Hcan h r Hr.
  assert (is_i63 (Z.max 0 (tip - conf) + 1)) as Hfi by (destruct Ho as (_ & _ & Ht & _); unfold_int; lia).
  destruct (rolled_back_blocks _ _ _ _ _ _ _ H Hfi Hr) as [? ?]. apply Hcan; [done|lia].
Qed.

Definition forked_source : ChainSource unit :=
  mkChainSource unit 1 ChainCaps_default (mret_ 20) (fun _ _ _ => mret_ [])
    (fun _ => mret_ AuxData_default) (fun h => mret_ (Some [byte_of (h + 100)])) (fun _ => mret_ tt).

Definition reorg_db : Db :=
  mkDb (list_to_map [((1, 8), mkBlockRow [byte_of 108] [] 80); ((1, 9), mkBlockRow [byte_of 9] [] 90)])
    (<[1 := (9, [byte_of 9])]> ∅) (list_to_map [raw_kv (sample_rec 9 0)]) [] ∅.

Lemma reorg_check_outcome_witness :
  let w' := (reorg_check [] forked_source 1 (calm_world reorg_db, tt)).2.1 in
  (Some 9 = None /\ w_db w' = reorg_db /\ tip_unchallenged forked_source reorg_db tt)
  \/ exists tip, tip_orphaned forked_source reorg_db tt tip
       /\ Some 9 = Some (Z.max 0 (tip - 1) + 1)
       /\ rolled_back 1 (Z.max 0 (tip - 1) + 1) [] reorg_db (w_db w')
       /\ forall canonical : Z -> bytes,
            (forall h r, db_blocks reorg_db !! (as_i64 1, h) = Some r -> h <= Z.max 0 (tip - 1) ->
               b_hash r = canonical h) ->
            forall h r, db_blocks (w_db w') !! (as_i64 1, h) = Some r -> b_hash r = canonical h.
Proof.
  intros w'.
  apply (reorg_check_outcome forked_source [] 1 (calm_world reorg_db) w' tt tt (Some 9)).
  - assert (map_Forall (fun (k : Z * Z) (_ : BlockRow) => 0 <= k.2 < I63) (db_blocks reorg_db)) as H.
    { apply (bool_decide_unpack _). by vm_compute. }
    intros h row Hr. exact (H _ _ Hr).
  - intros tab Ht. vm_compute in Ht. discriminate.
  - lia.
  - by vm_compute.
Defined.
