(* ===== verification/Ports.v ===== *)
(** The persistence ports ([crates/domain/src/ports]) as records of operations over any state, the services
    ([crates/services]) as the source writes them, over ports, and the wiring ([wiring.rs]) that puts the
    Postgres repositories behind them.  What the worker needs of a queue is a class; the worker's guarantee is
    proved for every implementation of it, and the Postgres queue is shown to be one. *)
From S2P Require Import Prelude Model Btree Text Encode Store Repos Queue UnitOfWork Services ServicesFacts.

(** * The ports *)

Section ports.
Context (W : Type).
Abbreviation IO A := (M W DomainError A).

Record EventRepository := mkEventRepository {
  evr_upsert_batch : string -> list EventRow -> IO Z;
  evr_delete_from_height : string -> Z -> Z -> IO Z
}.

Record RawRecordRepository := mkRawRecordRepository {
  rwr_insert_batch : list RawRecord -> IO Z;
  rwr_range : Z -> Z -> Z -> IO (list RawRecord);
  rwr_delete_from_height : Z -> Z -> IO Z
}.

Record BlockRepository := mkBlockRepository {
  blr_upsert_batch : list BlockMeta -> IO Z;
  blr_get : Z -> Z -> IO (option BlockMeta);
  blr_times : Z -> Z -> Z -> IO (list (Z * Z));
  blr_max_height : Z -> IO (option Z);
  blr_delete_from_height : Z -> Z -> IO Z;
  blr_calldata : Z -> list bytes -> IO (list TxCalldata)
}.

Record CursorRepository := mkCursorRepository {
  cur_get : Z -> IO (option (Z * bytes));
  cur_advance : Z -> Z -> bytes -> IO ();
  cur_rewind : Z -> Z -> IO ()
}.

Record QueueRepository := mkQueueRepository {
  qur_push : WorkItem -> IO ();
  qur_pull_any : IO (option Lease);
  qur_ack : Z -> Z -> IO ();
  qur_reclaim_expired : Z -> IO Z;
  qur_depth : IO Z
}.

Record UnitOfWork := mkUnitOfWork {
  uow_commit_ingest : IngestBatch -> IO ();
  uow_rollback_to : Z -> Z -> list string -> IO ()
}.

(** * The services over them *)

Record DecodeWorker := mkDecodeWorker {
  dw_queue : QueueRepository;
  dw_events : EventRepository;
  dw_raw : RawRecordRepository;
  dw_blocks : BlockRepository;
  dw_decoders : gmap Z Decoder
}.

Record IngestionService (St : Type) := mkIngestionService { is_source : ChainSource St; is_uow : UnitOfWork }.

Record ReorgService := mkReorgService { rs_blocks : BlockRepository; rs_uow : UnitOfWork; rs_tables : list string }.
End ports.

Arguments evr_upsert_batch {W}.
Arguments evr_delete_from_height {W}.
Arguments rwr_insert_batch {W}.
Arguments rwr_range {W}.
Arguments rwr_delete_from_height {W}.
Arguments blr_upsert_batch {W}.
Arguments blr_get {W}.
Arguments blr_times {W}.
Arguments blr_max_height {W}.
Arguments blr_delete_from_height {W}.
Arguments blr_calldata {W}.
Arguments cur_get {W}.
Arguments cur_advance {W}.
Arguments cur_rewind {W}.
Arguments qur_push {W}.
Arguments qur_pull_any {W}.
Arguments qur_ack {W}.
Arguments qur_reclaim_expired {W}.
Arguments qur_depth {W}.
Arguments uow_commit_ingest {W}.
Arguments uow_rollback_to {W}.
Arguments dw_queue {W}.
Arguments dw_events {W}.
Arguments dw_raw {W}.
Arguments dw_blocks {W}.
Arguments dw_decoders {W}.
Arguments is_source {W St}.
Arguments is_uow {W St}.
Arguments rs_blocks {W}.
Arguments rs_uow {W}.
Arguments rs_tables {W}.

Section services.
Context {W : Type}.
Context (map_order : list (string * list EventRow) -> list (string * list EventRow)).
Context (set_order : list bytes -> list bytes).

(** [decoding.rs]. *)
Definition decode_range_on (dec : Decoder) (raw : RawRecordRepository W) (blocks : BlockRepository W) (events : EventRepository W)
    (chain from to : Z) : M W DomainError Z :=
  do rs <- rwr_range raw chain from to;
  do times <- blr_times blocks chain from to;
  do rows <- mlift (decode_all (dec_decode dec) rs);
  do calls <- (if dec_has_calls dec then
                 do txs <- blr_calldata blocks chain (set_order (remove_dups (rr_tx_id <$> rs)));
                 mlift (decode_all (dec_decode_call dec) txs)
               else mret_ []);
  mfold (fun written kv => do n <- evr_upsert_batch events kv.1 kv.2; mret_ (written + n)) 0
    (map_order (btree_group str_cmp row_table (stamp times <$> rows ++ calls))).

(** [worker.rs]. *)
Definition decode_item (dw : DecodeWorker W) (item : WorkItem) : M W DomainError Z :=
  match dw_decoders dw !! wi_chain_id item with
  | Some dec => decode_range_on dec (dw_raw dw) (dw_blocks dw) (dw_events dw) (wi_chain_id item) (wi_from item) (wi_to item)
  | None => mret_ 0
  end.

Definition worker_run_once (dw : DecodeWorker W) : M W DomainError (option Z) :=
  do l <- qur_pull_any (dw_queue dw);
  match l with
  | None => mret_ None
  | Some lease =>
      do written <- decode_item dw (l_item lease);
      do _ <- qur_ack (dw_queue dw) (l_id lease) (l_lease_seq lease);
      mret_ (Some written)
  end.

Definition worker_reclaim (dw : DecodeWorker W) (older_than_secs : Z) : M W DomainError Z :=
  qur_reclaim_expired (dw_queue dw) older_than_secs.
Definition worker_depth (dw : DecodeWorker W) : M W DomainError Z := qur_depth (dw_queue dw).

(** [ingestion.rs]: the head and the commit of a fetched range. *)
Definition ingest_head {St} (svc : IngestionService W St) : M St DomainError Z := cs_head (is_source svc).

Definition ingest_commit {St} (svc : IngestionService W St) (f : FetchedRange) (epoch : Z) (advance_cursor : bool) :
    M W DomainError IngestOutcome :=
  do _ <- uow_commit_ingest (is_uow svc) (batch_of (cs_chain_id (is_source svc)) f epoch advance_cursor);
  mret_ (mkIngestOutcome (Z.of_nat (length (fr_records f))) (Z.of_nat (length (block_metas (fr_aux f))))
           (Z.of_nat (length (enrichment (fr_aux f)))) (fr_last_block f)).

Definition on_store {St A} (m : M W DomainError A) : M (W * St) DomainError A := fun ws =>
  let '(r, w') := m ws.1 in (r, (w', ws.2)).
Definition on_chain {St A} (m : M St DomainError A) : M (W * St) DomainError A := fun ws =>
  let '(r, s') := m ws.2 in (r, (ws.1, s')).

Definition ingest_service_range {St} (svc : IngestionService W St) (filter : RecordFilter) (from to epoch : Z) (advance_cursor : bool) :
    M (W * St) DomainError IngestOutcome :=
  do f <- on_chain (fetch_range (is_source svc) filter from to);
  on_store (ingest_commit svc f epoch advance_cursor).

(** [reorg.rs]. *)
Definition reorg_service_check {St} (rs : ReorgService W) (src : ChainSource St) (confirmations : Z) :
    M (W * St) DomainError (option Z) :=
  if negb (supports_reorg (cs_caps src)) then mret_ None
  else
    let chain := cs_chain_id src in
    do tip <- on_store (blr_max_height (rs_blocks rs) chain);
    match tip with
    | None => mret_ None
    | Some tip =>
        do stored <- on_store (blr_get (rs_blocks rs) chain tip);
        match stored with
        | None => mret_ None
        | Some stored =>
            do canon <- on_chain (cs_block_hash src tip);
            match canon with
            | None => mret_ None
            | Some canon =>
                if bool_decide (canon = bm_hash stored) then mret_ None
                else
                  let fork := u64_ssub tip confirmations in
                  let from := u64_add fork 1 in
                  do _ <- on_store (uow_rollback_to (rs_uow rs) chain from (rs_tables rs));
                  mret_ (Some from)
            end
        end
    end.
End services.

(** * The Postgres side and the wiring *)

Definition PgEventRepository : EventRepository World := mkEventRepository _ event_upsert_batch event_delete_from_height.
Definition PgRawRecordRepository : RawRecordRepository World :=
  mkRawRecordRepository _ raw_insert_batch raw_range raw_delete_from_height.
Definition PgBlockRepository : BlockRepository World :=
  mkBlockRepository _ block_upsert_batch block_get block_times block_max_height block_delete_from_height block_calldata.
Definition PgCursorRepository : CursorRepository World := mkCursorRepository _ cursor_get cursor_advance cursor_rewind.
Definition PgQueueRepository : QueueRepository World := mkQueueRepository _ push pull_any ack reclaim_expired depth.
Definition PgUnitOfWork : UnitOfWork World := mkUnitOfWork _ commit_ingest rollback_to.

Definition new_ingest {St} (source : ChainSource St) : IngestionService World St := mkIngestionService _ _ source PgUnitOfWork.
Definition build_reorg (tables : list string) : ReorgService World := mkReorgService _ PgBlockRepository PgUnitOfWork tables.
Definition new_worker (decoders : gmap Z Decoder) : DecodeWorker World :=
  mkDecodeWorker _ PgQueueRepository PgEventRepository PgRawRecordRepository PgBlockRepository decoders.

(** * What a worker needs of a queue *)

(** [items w]: the ids and items waiting in [w], leased or not.  A pull leases one of them and removes none; an ack
    removes nothing but its own id. *)
Class LeasedQueue {W} (q : QueueRepository W) (items : W -> list (Z * WorkItem)) : Prop := {
  lq_pull : forall w r w', qur_pull_any q w = (r, w') -> items w' = items w;
  lq_lease : forall w l w', qur_pull_any q w = (Ok (Some l), w') -> (l_id l, l_item l) ∈ items w;
  lq_ack : forall id seq w r w' x, qur_ack q id seq w = (r, w') -> x ∈ items w -> x.1 <> id -> x ∈ items w'
}.

(** A call that leaves the queue alone. *)
Definition untouched {W A} (items : W -> list (Z * WorkItem)) (m : M W DomainError A) : Prop :=
  forall w r w', m w = (r, w') -> items w' = items w.

(** The stores a worker reads and writes are apart from its queue. *)
Class StoresApart {W} (dw : DecodeWorker W) (items : W -> list (Z * WorkItem)) : Prop := {
  sa_range : forall c lo hi, untouched items (rwr_range (dw_raw dw) c lo hi);
  sa_times : forall c lo hi, untouched items (blr_times (dw_blocks dw) c lo hi);
  sa_calldata : forall c ids, untouched items (blr_calldata (dw_blocks dw) c ids);
  sa_upsert : forall t rows, untouched items (evr_upsert_batch (dw_events dw) t rows)
}.

Section client.
Context {W : Type} (items : W -> list (Z * WorkItem)).

Lemma untouched_ret {A} (a : A) : untouched items (mret_ a).
Proof. by intros w r w' [= _ <-]. Qed.

Lemma untouched_lift {A} (x : result DomainError A) : untouched items (mlift x).
Proof. by intros w r w' [= _ <-]. Qed.

Lemma untouched_bind {A B} (m : M W DomainError A) (k : A -> M W DomainError B) :
  untouched items m -> (forall a, untouched items (k a)) -> untouched items (mbind_ m k).
Proof.
  intros Hm Hk w r w' H. unfold mbind_ in H. destruct (m w) as [[a|e] w1] eqn:E; apply Hm in E.
  - apply Hk in H. congruence.
  - by injection H as _ <-.
Qed.

Lemma untouched_mfold {A B} (body : B -> A -> M W DomainError B) l acc :
  (forall acc x, untouched items (body acc x)) -> untouched items (mfold body acc l).
Proof.
  intros Hb. revert acc. induction l as [|x l IH]; intros acc; [apply untouched_ret|]. cbn. by apply untouched_bind.
Qed.

Context (mo : list (string * list EventRow) -> list (string * list EventRow)) (so : list bytes -> list bytes).
Context (dw : DecodeWorker W) {Hq : LeasedQueue (dw_queue dw) items} {Hs : StoresApart dw items}.

Lemma decode_item_untouched i : untouched items (decode_item mo so dw i).
Proof.
  unfold decode_item. destruct (dw_decoders dw !! wi_chain_id i) as [dec|]; [|apply untouched_ret].
  unfold decode_range_on. apply untouched_bind; [apply sa_range|intros rs].
  apply untouched_bind; [apply sa_times|intros times]. apply untouched_bind; [apply untouched_lift|intros rows].
  apply untouched_bind; [|intros calls].
  - destruct (dec_has_calls dec); [|apply untouched_ret]. apply untouched_bind; [apply sa_calldata|intros; apply untouched_lift].
  - apply untouched_mfold. intros acc kv. apply untouched_bind; [apply sa_upsert|intros; apply untouched_ret].
Qed.

(** Whatever implements the ports: an item that is gone after a worker's turn was leased in that turn, and its
    range was decoded (or has no decoder); when the decode fails no item goes. *)
Theorem done_only_after_decode (w w' : W) (r : result DomainError (option Z)) (x : Z * WorkItem) :
  worker_run_once mo so dw w = (r, w') -> x ∈ items w -> x ∉ items w' ->
  exists l w1 n w2, qur_pull_any (dw_queue dw) w = (Ok (Some l), w1) /\ l_id l = x.1
    /\ (l_id l, l_item l) ∈ items w /\ decode_item mo so dw (l_item l) w1 = (Ok n, w2).
Proof.
  intros H Hx Hout. unfold worker_run_once, mbind_ at 1 in H. destruct (qur_pull_any (dw_queue dw) w) as [o w1] eqn:Ep.
  pose proof (lq_pull _ _ _ Ep) as E1. destruct o as [[l|]|e]; [|injection H as _ <-; by rewrite E1 in Hout..].
  unfold mbind_ in H. destruct (decode_item mo so dw (l_item l) w1) as [[n|e] w2] eqn:Ed;
    pose proof (decode_item_untouched _ _ _ _ Ed) as E2; [|injection H as _ <-; by rewrite E2, E1 in Hout].
  exists l, w1, n, w2. split; [done|]. split; [|split; [by eapply lq_lease|done]].
  destruct (qur_ack _ _ _ w2) as [ra w3] eqn:Ea. assert (w3 = w') as -> by (destruct ra; by injection H as _ <-).
  destruct (decide (l_id l = x.1)) as [|Hne]; [done|]. destruct Hout.
  eapply lq_ack; [exact Ea|by rewrite E2, E1|congruence].
Qed.
End client.

(** * The Postgres repositories are such an implementation *)

Definition pg_items (w : World) : list (Z * WorkItem) := (fun q => (wq_id q, lease_item q)) <$> queue_of w.

Lemma pg_items_same w w' : same_state w w' -> pg_items w' = pg_items w.
Proof. intros (D & _). unfold pg_items, queue_of. by rewrite D. Qed.

#[export] Instance pg_leased_queue : LeasedQueue PgQueueRepository pg_items.
Proof.
  split.
  - intros w r w' (v & Sv & [Hs|[a Ha]] & _)%sql_runs; [by apply pg_items_same|].
    rewrite <- (pg_items_same _ _ Sv). unfold pull_rows in Ha.
    destruct (list_find _ _) as [[i row]|] eqn:Ef; injection Ha as _ <-; [|done].
    apply list_find_Some in Ef as (Hrow & _). unfold pg_items. cbn. rewrite list_fmap_insert.
    apply list_insert_id. unfold queue_of. rewrite list_lookup_fmap. by setoid_rewrite Hrow.
  - intros w l w' (v & Sv & _ & Hr)%sql_runs. specialize (Hr _ eq_refl). rewrite <- (pg_items_same _ _ Sv).
    unfold pull_rows in Hr. destruct (list_find _ _) as [[i row]|] eqn:Ef; [|done]. injection Hr as <- _.
    apply list_find_Some in Ef as (Hrow & _). apply list_elem_of_fmap. exists row. split; [done|]. by eapply list_elem_of_lookup_2.
  - intros id seq w r w' x (v & Sv & [Hs|[a [= _ <-]]] & _)%sql_runs Hx Hne; [by rewrite (pg_items_same _ _ Hs)|].
    rewrite <- (pg_items_same _ _ Sv) in Hx. apply list_elem_of_fmap in Hx as (q & -> & Hq). apply list_elem_of_fmap.
    exists q. split; [done|]. apply list_elem_of_filter. split; [|done]. intros [? _]. by apply Hne.
Qed.

#[export] Instance pg_stores_apart decoders : StoresApart (new_worker decoders) pg_items.
Proof.
  split; intros; intros w r w' H.
  - by eapply pg_items_same, reads_raw_range.
  - by eapply pg_items_same, reads_block_times.
  - by eapply pg_items_same, reads_calldata.
  - unfold pg_items. by rewrite (event_upsert_batch_queue _ _ _ _ _ H).
Qed.

(** The services of [Services], which name the Postgres operations directly, are these services behind the wiring. *)
Theorem wired_services {St} (mo : list (string * list EventRow) -> list (string * list EventRow)) (so : list bytes -> list bytes)
    (decoders : gmap Z Decoder) (tables : list string) (src : ChainSource St) (conf epoch : Z) (adv : bool) (f : FetchedRange)
    (w : World) (s : St) :
  worker_run_once mo so (new_worker decoders) w = run_once mo so decoders w
  /\ reorg_service_check (build_reorg tables) src conf (w, s) = reorg_check tables src conf (w, s)
  /\ ingest_commit (new_ingest src) f epoch adv w = commit (cs_chain_id src) f epoch adv w.
Proof.
  split; [|by split]. unfold worker_run_once, run_once, mbind_ at 1 4. cbn [new_worker dw_queue PgQueueRepository qur_pull_any].
  destruct (pull_any w) as [[[l|]|e] w1]; [|done|done]. unfold decode_item. cbn [new_worker dw_decoders].
  destruct (decoders !! wi_chain_id (l_item l)) as [dec|]; [|done].
  cbn [new_worker dw_raw dw_blocks dw_events].
  set (i := l_item l). assert (forall v, decode_range_on mo so dec PgRawRecordRepository PgBlockRepository PgEventRepository
      (wi_chain_id i) (wi_from i) (wi_to i) v = decode_range mo so dec (wi_chain_id i) (wi_from i) (wi_to i) v) as E.
  { intros v. unfold decode_range_on, decode_range, decode_rows, write_rows, mbind_, mlift. cbn.
    destruct (raw_range _ _ _ v) as [[rs|] v1]; [|done]. destruct (block_times _ _ _ v1) as [[tm|] v2]; [|done].
    destruct (decode_all (dec_decode dec) rs); [|done]. destruct (dec_has_calls dec); [|done].
    destruct (block_calldata _ _ v2) as [[txs|] v3]; [|done]. by destruct (decode_all (dec_decode_call dec) txs). }
  unfold mbind_ at 1. rewrite E. by unfold mbind_ at 2.
Qed.
