(* ===== verification/Ranges.v ===== *)
(** Inclusive block ranges: the chunking loop shared by [plan_ranges] and by the seeding of
    [fetch_records], and what it means for a list of ranges to tile an interval. *)
From S2P Require Import Prelude.

(** [while s <= target { e = (s + step - 1).min(target); push (s, e); s = e + 1 }].
    [None] when the fuel runs out before the loop ends. *)
Fixpoint range_chunks_go (fuel : nat) (s target step : Z) : option (list (Z * Z)) :=
  match fuel with
  | O => None
  | S f =>
      if s <=? target then
        let e := Z.min (u64_sub (u64_add s step) 1) target in
        cons (s, e) <$> range_chunks_go f (u64_add e 1) target step
      else Some []
  end.

(** One round per block is more than enough when [step] is positive. *)
Definition range_chunks (s target step : Z) : option (list (Z * Z)) :=
  range_chunks_go (S (Z.to_nat (target + 1 - s))) s target step.

(** [tiles a rs b]: the ranges are non-empty, adjacent, in order, and cover exactly the blocks
    [a, a + 1, .., b - 1]. *)
Fixpoint tiles (a : Z) (rs : list (Z * Z)) (b : Z) : Prop :=
  match rs with
  | [] => a = b
  | (lo, hi) :: rs => lo = a /\ lo <= hi /\ tiles (hi + 1) rs b
  end.

Lemma tiles_app a rs1 rs2 c :
  tiles a (rs1 ++ rs2) c <-> exists b, tiles a rs1 b /\ tiles b rs2 c.
Proof.
  revert a. induction rs1 as [|[lo hi] rs1 IH]; intros a; cbn.
  - split; [eauto|]. by intros (b & -> & ?).
  - rewrite IH. split.
    + intros (-> & ? & b & ? & ?). eauto.
    + intros (b & (-> & ? & ?) & ?). eauto.
Qed.

Lemma tiles_le a rs b : tiles a rs b -> a <= b.
Proof.
  revert a. induction rs as [|[lo hi] rs IH]; intros a; cbn; [lia|].
  intros (-> & ? & H%IH). lia.
Qed.

Lemma tiles_elem a rs b lo hi : tiles a rs b -> (lo, hi) ∈ rs -> a <= lo <= hi /\ hi < b.
Proof.
  revert a. induction rs as [|[lo' hi'] rs IH]; intros a; [by intros _ ?%not_elem_of_nil|].
  cbn. intros (-> & Hle & Ht) [[= -> ->]|H]%elem_of_cons.
  - apply tiles_le in Ht. lia.
  - destruct (IH _ Ht H). lia.
Qed.

(** Every block of the interval is in a range of the tiling. *)
Lemma tiles_cover a rs b x : tiles a rs b -> a <= x < b -> exists lo hi, (lo, hi) ∈ rs /\ lo <= x <= hi.
Proof.
  revert a. induction rs as [|[lo hi] rs IH]; intros a; cbn; [lia|].
  intros (-> & Hle & Ht) Hx. destruct (Z_le_gt_dec x hi) as [H|H].
  - exists a, hi. split; [left|lia].
  - destruct (IH _ Ht ltac:(lia)) as (l & h & ? & ?). exists l, h. split; [by right|done].
Qed.

Lemma tiles_head_unique a rs b hi : tiles a rs b -> (a, hi) ∈ rs -> exists rs', rs = (a, hi) :: rs'.
Proof.
  destruct rs as [|[lo hi'] rs]; [by intros _ ?%not_elem_of_nil|]. cbn.
  intros (-> & Hle & Ht) [[= <-]|H]%elem_of_cons; [eauto|].
  destruct (tiles_elem _ _ _ _ _ Ht H). lia.
Qed.

Lemma tiles_key_unique a rs b lo hi hi' :
  tiles a rs b -> (lo, hi) ∈ rs -> (lo, hi') ∈ rs -> hi = hi'.
Proof.
  intros Ht H H'. apply list_elem_of_split in H as (l1 & l2 & ->).
  apply tiles_app in Ht as (c & Ht1 & Ht2). cbn in Ht2. destruct Ht2 as (<- & Hle & Ht2).
  apply elem_of_app in H' as [H'|H']; [destruct (tiles_elem _ _ _ _ _ Ht1 H'); lia|].
  apply elem_of_cons in H' as [[= ->]|H']; [done|].
  destruct (tiles_elem _ _ _ _ _ Ht2 H'); lia.
Qed.

Lemma tiles_NoDup a rs b : tiles a rs b -> NoDup rs.
Proof.
  revert a. induction rs as [|[lo hi] rs IH]; intros a; cbn; [constructor|].
  intros (-> & Hle & Ht). constructor; [|eauto].
  intros H. destruct (tiles_elem _ _ _ _ _ Ht H). lia.
Qed.

Lemma range_chunks_go_spec fuel s target step :
  1 <= step -> 0 <= s -> target + step < U64 -> (Z.max 0 (target + 1 - s) < Z.of_nat fuel) ->
  exists rs, range_chunks_go fuel s target step = Some rs
    /\ tiles s rs (Z.max s (target + 1))
    /\ Forall (fun '(lo, hi) => hi - lo + 1 <= step /\ hi <= target) rs.
Proof.
  intros Hst. revert s. induction fuel as [|f IH]; intros s Hs Ht Hf; [lia|].
  cbn [range_chunks_go]. destruct (Z.leb_spec s target) as [Hle|Hgt].
  - rewrite u64_add_small by lia. rewrite u64_sub_small by lia.
    set (e := Z.min (s + step - 1) target). rewrite u64_add_small by lia.
    destruct (IH (e + 1) ltac:(lia) Ht ltac:(lia)) as (rs & -> & Htl & Hall).
    exists ((s, e) :: rs). split_and!; [done| |].
    + cbn. split_and!; [done|lia|]. by replace (Z.max s (target + 1)) with (Z.max (e + 1) (target + 1)) by lia.
    + constructor; [lia|done].
  - exists []. split_and!; [done|cbn; lia|constructor].
Qed.

Lemma range_chunks_spec s target step :
  1 <= step -> 0 <= s -> target + step < U64 ->
  exists rs, range_chunks s target step = Some rs
    /\ tiles s rs (Z.max s (target + 1))
    /\ Forall (fun '(lo, hi) => hi - lo + 1 <= step /\ hi <= target) rs.
Proof.
  intros Hst Hs Ht. unfold range_chunks. apply range_chunks_go_spec; lia.
Qed.
