(* ===== verification/Plan.v ===== *)
(** Range planning and contiguous-prefix cursor tracking ([bins/indexer-cli/src/plan.rs]). *)
From S2P Require Import Prelude Model Ranges.

(** * Planning *)

Definition fetch_target (safe next step range_concurrency : Z) (must_fetch : bool) : Z :=
  if must_fetch
  then Z.min safe (u64_sub (u64_add next (u64_mul step range_concurrency)) 1)
  else safe.

(** Chunk [next..=target] into provider-sized ranges. *)
Definition plan_ranges (next target step : Z) : option (list (Z * Z)) :=
  range_chunks next target step.

(** * Prefix tracker *)

Record PrefixTracker := mkPrefixTracker {
  frontier : Z;
  waiting : gmap Z (Z * option (Z * bytes));
  best : option (Z * bytes);
  advanced_to : option Z
}.

Definition tracker_new (start : Z) : PrefixTracker := mkPrefixTracker start ∅ None None.

(** The [best] update of one drained range: a matched block at least as high as the best. *)
Definition update_best (best : option (Z * bytes)) (last_block : option (Z * bytes)) :
  option (Z * bytes) :=
  match last_block with
  | Some (h, hash) =>
      if match best with None => true | Some (best_h, _) => best_h <=? h end
      then Some (h, hash) else best
  | None => best
  end.

(** [while let Some(..) = self.waiting.remove(&self.frontier)]; every round removes an entry, so
    the number of waiting entries bounds the rounds. *)
Fixpoint drain (fuel : nat) (t : PrefixTracker) (moved : bool) : PrefixTracker * bool :=
  match fuel with
  | O => (t, moved)
  | S f =>
      match waiting t !! frontier t with
      | None => (t, moved)
      | Some (end_, last_block) =>
          drain f
            (mkPrefixTracker (u64_add end_ 1) (delete (frontier t) (waiting t))
               (update_best (best t) last_block) (Some end_))
            true
      end
  end.

Definition best_hash (t : PrefixTracker) : bytes :=
  match best t with Some (_, hash) => hash | None => [] end.

Definition tracker_record (t : PrefixTracker) (from to : Z) (last_block : option (Z * bytes)) :
  PrefixTracker * option (Z * bytes) :=
  let t := mkPrefixTracker (frontier t) (<[from := (to, last_block)]> (waiting t)) (best t)
             (advanced_to t) in
  let '(t', moved) := drain (size (waiting t)) t false in
  (t', if moved then option_map (fun h => (h, best_hash t')) (advanced_to t') else None).

(** * Theorems *)



Example plan_ranges_25 : plan_ranges 1 25 10 = Some [(1, 10); (11, 20); (21, 25)].
Proof. reflexivity. Qed.

(** A fetch window never passes the safe tip and always makes progress; the bounded window
    holds at most [range_concurrency] ranges' worth of blocks, and the no-fetch path takes the
    whole safe range. *)
Theorem fetch_target_bounds (safe next step rc : Z) (must_fetch : bool) :
  0 <= next <= safe -> safe < U64 -> 1 <= step -> 1 <= rc -> next + step * rc < U64 ->
  let t := fetch_target safe next step rc must_fetch in
  next <= t <= safe
  /\ (if must_fetch then t - next + 1 <= step * rc else t = safe).
Proof.
  intros Hn Hs Hst Hrc Ho. unfold fetch_target. destruct must_fetch; cbn; [|lia].
  assert (1 <= step * rc) by nia.
  rewrite u64_mul_small, u64_add_small, u64_sub_small by lia. lia.
Qed.

Lemma fetch_target_bounds_witness :
  let t := fetch_target 1000 1 10 4 true in 1 <= t <= 1000 /\ t - 1 + 1 <= 10 * 4.
Proof. apply (fetch_target_bounds 1000 1 10 4 true); try lia; reflexivity. Defined.

Section tracker.
(** The planned ranges and, for each, the highest matched block its fetch reported. *)
Context (start stop : Z) (rs : list (Z * Z)) (lb : Z * Z -> option (Z * bytes)).
Context (Htiles : tiles start rs stop) (Hstart : 0 <= start) (Hstop : stop < U64).

Definition best_of (pfx : list (Z * Z)) : option (Z * bytes) :=
  fold_left update_best (map lb pfx) None.

(** The tracker [t] holds the committed ranges [cs], drained up to the prefix [pfx]. *)
Record drained (cs pfx rest : list (Z * Z)) (t : PrefixTracker) : Prop := {
  dr_split : rs = pfx ++ rest;
  dr_front : tiles start pfx (frontier t) /\ tiles (frontier t) rest stop;
  dr_done : forall r, r ∈ pfx -> r ∈ cs;
  dr_wait : forall k v, waiting t !! k = Some v <->
    exists hi, v = (hi, lb (k, hi)) /\ (k, hi) ∈ rest /\ (k, hi) ∈ cs;
  dr_adv : advanced_to t = snd <$> list.last pfx;
  dr_best : best t = best_of pfx
}.

(** [pfx] is the longest prefix of the plan made of committed ranges only. *)
Definition maximal (cs rest : list (Z * Z)) : Prop := forall r, head rest = Some r -> r ∉ cs.

Lemma drained_step cs pfx rest t end_ l :
  drained cs pfx rest t -> waiting t !! frontier t = Some (end_, l) ->
  exists rest', rest = (frontier t, end_) :: rest' /\ l = lb (frontier t, end_)
    /\ drained cs (pfx ++ [(frontier t, end_)]) rest'
         (mkPrefixTracker (u64_add end_ 1) (delete (frontier t) (waiting t))
            (update_best (best t) l) (Some end_)).
Proof.
  intros [Hs [Hf1 Hf2] Hd Hw Ha Hb] Hl.
  apply Hw in Hl as (hi & [= -> ->] & Hin & Hc).
  destruct (tiles_head_unique _ _ _ _ Hf2 Hin) as (rest' & Er).
  exists rest'. split_and!; [done|done|]. rewrite Er in Hf2. cbn in Hf2.
  destruct Hf2 as (_ & Hle & Hf2). pose proof (tiles_le _ _ _ Hf2).
  pose proof (tiles_le _ _ _ Hf1).
  assert (u64_add hi 1 = hi + 1) as Eadd by (apply u64_add_small; lia).
  split; cbn [frontier waiting best advanced_to].
  - by rewrite <- app_assoc, Hs, Er.
  - rewrite Eadd. split; [|done]. apply tiles_app. exists (frontier t). by cbn.
  - intros r [H'|H']%elem_of_app; [auto|]. by apply list_elem_of_singleton in H' as ->.
  - intros k v. rewrite lookup_delete. case_decide as Ek.
    + split; [done|]. intros (hi' & -> & Hin' & _). exfalso. subst k.
      destruct (tiles_elem _ _ _ _ _ Hf2 Hin'). lia.
    + rewrite Hw, Er. split; intros (hi' & -> & Hin' & Hc'); exists hi'; split_and!; try done.
      * apply elem_of_cons in Hin' as [[= -> _]|?]; done.
      * by right.
  - by rewrite list.last_snoc.
  - rewrite Hb. unfold best_of. by rewrite map_app, fold_left_app.
Qed.

Lemma drain_spec fuel cs pfx rest t moved :
  drained cs pfx rest t -> (size (waiting t) <= fuel)%nat ->
  exists new rest',
    drained cs (pfx ++ new) rest' (fst (drain fuel t moved))
    /\ maximal cs rest'
    /\ snd (drain fuel t moved) = moved || negb (bool_decide (new = [])).
Proof.
  revert pfx rest t moved. induction fuel as [|f IH]; intros pfx rest t moved HD Hf.
  - exists [], rest. rewrite app_nil_r, orb_false_r. split_and!; [done| |done].
    intros [k hi] Hh Hc. destruct rest as [|r rest]; [done|]. injection Hh as ->.
    assert (is_Some (waiting t !! k)) as [v Hv].
    { eexists. apply (dr_wait _ _ _ _ HD). exists hi. split_and!; [done|left|done]. }
    assert (waiting t = ∅) as E by (apply map_size_empty_iff; lia).
    by rewrite E, lookup_empty in Hv.
  - cbn [drain]. destruct (waiting t !! frontier t) as [[end_ l]|] eqn:El.
    + destruct (drained_step _ _ _ _ _ _ HD El) as (rest' & -> & -> & HD').
      destruct (IH _ _ _ true HD') as (new & rest'' & H1 & H2 & H3).
      { cbn. rewrite map_size_delete, El. lia. }
      exists ((frontier t, end_) :: new), rest''. rewrite <- app_assoc in H1. cbn in H1.
      split_and!; [done|done|]. rewrite H3. by destruct moved.
    + exists [], rest. rewrite app_nil_r, orb_false_r. split_and!; [done| |done].
      intros [k hi] Hh Hc. destruct rest as [|r rest]; [done|]. injection Hh as ->.
      assert (k = frontier t) as -> by (by destruct (dr_front _ _ _ _ HD) as [_ [-> _]]).
      assert (is_Some (waiting t !! frontier t)) as [v Hv]; [|congruence].
      eexists. apply (dr_wait _ _ _ _ HD). exists hi. split_and!; [done|left|done].
Qed.

Lemma drained_insert cs pfx rest t r :
  drained cs pfx rest t -> maximal cs rest -> r ∈ rs -> r ∉ cs ->
  drained (r :: cs) pfx rest
    (mkPrefixTracker (frontier t) (<[fst r := (snd r, lb r)]> (waiting t)) (best t) (advanced_to t)).
Proof.
  intros [Hs Hf Hd Hw Ha Hb] Hmax Hr Hc. destruct r as [lo hi]. cbn [fst snd].
  assert ((lo, hi) ∈ rest) as Hrest.
  { rewrite Hs in Hr. apply elem_of_app in Hr as [H|H]; [|done]. by destruct Hc; apply Hd. }
  split; cbn [frontier waiting best advanced_to]; try done.
  - intros r H. right. auto.
  - intros k v. rewrite lookup_insert. case_decide as Ek.
    + subst k. split.
      * intros [= <-]. exists hi. split_and!; [done|done|left].
      * intros (hi' & -> & Hin & _). destruct Hf as [_ Hf].
        by rewrite (tiles_key_unique _ _ _ _ _ _ Hf Hrest Hin).
    + rewrite Hw. split; intros (hi' & -> & Hin & Hc'); exists hi'; split_and!; try done.
      * by right.
      * apply elem_of_cons in Hc' as [[= -> _]|?]; done.
Qed.

(** Record the ranges [cs] (newest first) one after the other. *)
Fixpoint record_all (cs : list (Z * Z)) : PrefixTracker :=
  match cs with
  | [] => tracker_new start
  | r :: cs => fst (tracker_record (record_all cs) (fst r) (snd r) (lb r))
  end.

Lemma record_all_drained cs :
  NoDup cs -> (forall r, r ∈ cs -> r ∈ rs) ->
  exists pfx rest, drained cs pfx rest (record_all cs) /\ maximal cs rest.
Proof.
  induction cs as [|r cs IH]; intros Hnd Hin.
  - exists [], rs. split; [|by intros ? _ ?%not_elem_of_nil].
    split; cbn; try done.
    intros k v. rewrite lookup_empty. split; [done|]. by intros (? & _ & _ & ?%not_elem_of_nil).
  - apply NoDup_cons in Hnd as [Hni Hnd].
    destruct IH as (pfx & rest & HD & Hmax); [done|intros; apply Hin; by right|].
    pose proof (drained_insert _ _ _ _ r HD Hmax (Hin r ltac:(left)) Hni) as HD'.
    destruct (drain_spec _ _ _ _ _ false HD' ltac:(reflexivity)) as (new & rest' & H1 & H2 & _).
    exists (pfx ++ new), rest'. cbn [record_all]. unfold tracker_record.
    destruct (drain _ _ _) as [t' m]. cbn in *. done.
Qed.
End tracker.

(** The abstract tracker: the longest prefix of the plan made of committed ranges. *)
Fixpoint committed_prefix (cs rs : list (Z * Z)) : list (Z * Z) :=
  match rs with
  | [] => []
  | r :: rs => if bool_decide (r ∈ cs) then r :: committed_prefix cs rs else []
  end.

Lemma committed_prefix_unique cs pfx rest :
  (forall r, r ∈ pfx -> r ∈ cs) -> maximal cs rest -> committed_prefix cs (pfx ++ rest) = pfx.
Proof.
  intros Hin Hmax. induction pfx as [|r pfx IH]; cbn.
  - destruct rest as [|r rest]; [done|]. cbn. rewrite bool_decide_eq_false_2; [done|].
    by apply Hmax.
  - rewrite bool_decide_eq_true_2 by (apply Hin; left). f_equal. apply IH.
    intros; apply Hin; by right.
Qed.

Lemma committed_prefix_in cs rs r : r ∈ committed_prefix cs rs -> r ∈ cs.
Proof.
  induction rs as [|r' rs IH]; cbn; [by intros ?%not_elem_of_nil|].
  case_bool_decide; [|by intros ?%not_elem_of_nil]. intros [->|?]%elem_of_cons; auto.
Qed.

Lemma committed_prefix_split cs rs : exists rest, rs = committed_prefix cs rs ++ rest.
Proof.
  induction rs as [|r rs [rest IH]]; cbn; [by exists []|].
  case_bool_decide; [exists rest; cbn; by f_equal|by exists (r :: rs)].
Qed.

(** Recording one more range, in terms of the abstract tracker. *)
Lemma tracker_record_spec start stop rs lb r cs :
  tiles start rs stop -> 0 <= start -> stop < U64 ->
  NoDup (r :: cs) -> (forall x, x ∈ r :: cs -> x ∈ rs) ->
  let '(t, cp) := tracker_record (record_all start lb cs) (fst r) (snd r) (lb r) in
  let p := committed_prefix (r :: cs) rs in
  advanced_to t = snd <$> last p
  /\ best t = best_of lb p
  /\ (exists b, tiles start p b /\ frontier t = b)
  /\ cp = if bool_decide (p = committed_prefix cs rs) then None
          else option_map (fun h => (h, best_hash t)) (snd <$> last p).
Proof.
  intros Ht H0 Hs Hnd Hin. assert (NoDup (r :: cs)) as [Hni Hnd']%NoDup_cons by done.
  destruct (record_all_drained start stop rs lb Ht H0 Hs cs Hnd') as (pfx & rest & HD & Hmax).
  { intros; apply Hin; by right. }
  pose proof (drained_insert _ _ _ _ _ _ _ _ r HD Hmax (Hin r ltac:(left)) Hni) as HD'.
  destruct (drain_spec _ _ _ _ H0 Hs _ _ _ _ _ false HD' ltac:(reflexivity))
    as (new & rest' & [Es [Hf1 Hf2] Hd Hw Ha Hb] & Hm' & Em).
  unfold tracker_record. destruct (drain _ _ _) as [t' m] eqn:Ed. cbn [fst snd] in *.
  assert (committed_prefix (r :: cs) rs = pfx ++ new) as ->.
  { rewrite Es at 1. by apply committed_prefix_unique. }
  assert (committed_prefix cs rs = pfx) as ->.
  { rewrite (dr_split _ _ _ _ _ _ _ _ HD) at 1. apply committed_prefix_unique; [|done].
    apply (dr_done _ _ _ _ _ _ _ _ HD). }
  split_and!; [done|done|eauto|]. rewrite Ha, Em. cbn [orb].
  destruct new as [|x new].
  - rewrite app_nil_r. by rewrite !bool_decide_eq_true_2.
  - rewrite bool_decide_eq_false_2 by done. rewrite bool_decide_eq_false_2; [done|].
    intros E. apply (f_equal length) in E. rewrite length_app in E. cbn in E. lia.
Qed.

(** C37: whatever the order in which concurrent fetches commit, the tracker stands exactly at the end
    of the longest prefix of the plan whose ranges are all committed, and [record] hands out a
    cursor checkpoint exactly when that prefix grew: the cursor never passes a gap and never lags
    a closed one. *)
Theorem tracker_follows_committed_prefix (start stop : Z) (rs : list (Z * Z))
  (lb : Z * Z -> option (Z * bytes)) (r : Z * Z) (cs : list (Z * Z)) :
  tiles start rs stop -> 0 <= start -> stop < U64 ->
  NoDup (r :: cs) -> (forall x, x ∈ r :: cs -> x ∈ rs) ->
  let '(t, cp) := tracker_record (record_all start lb cs) (fst r) (snd r) (lb r) in
  let p := committed_prefix (r :: cs) rs in
  advanced_to t = snd <$> last p
  /\ cp = if bool_decide (p = committed_prefix cs rs) then None
          else option_map (fun h => (h, best_hash t)) (snd <$> last p).
Proof.
  intros Ht H0 Hs Hnd Hin. pose proof (tracker_record_spec _ _ _ lb _ _ Ht H0 Hs Hnd Hin) as H.
  destruct (tracker_record _ _ _ _) as [t cp]. destruct H as (Ha & _ & _ & Hc). by split.
Qed.

Lemma tracker_follows_committed_prefix_witness :
  let lb := fun r : Z * Z => Some (snd r, [byte_of (snd r)]) in
  let '(t, cp) := tracker_record (record_all 1 lb [(11, 20)]) 1 10 (lb (1, 10)) in
  let p := committed_prefix [(1, 10); (11, 20)] [(1, 10); (11, 20); (21, 25)] in
  advanced_to t = snd <$> last p
  /\ cp = if bool_decide (p = committed_prefix [(11, 20)] [(1, 10); (11, 20); (21, 25)]) then None
          else option_map (fun h => (h, best_hash t)) (snd <$> last p).
Proof.
  intros lb.
  apply (tracker_follows_committed_prefix 1 26 [(1, 10); (11, 20); (21, 25)] lb (1, 10) [(11, 20)]).
  - cbn. lia.
  - lia.
  - reflexivity.
  - apply (bool_decide_unpack _). vm_compute. exact I.
  - intros x Hx. repeat (apply elem_of_cons in Hx as [->|Hx]; [set_solver|]). by apply not_elem_of_nil in Hx.
Defined.

Lemma update_best_ge b l : forall h x, l = Some (h, x) ->
  exists h' y, update_best b l = Some (h', y) /\ h <= h'.
Proof.
  intros h x ->. cbn. destruct b as [[bh y]|]; [|eauto with lia].
  destruct (Z.leb_spec bh h); eauto with lia.
Qed.

Lemma best_of_snoc lb pfx r : best_of lb (pfx ++ [r]) = update_best (best_of lb pfx) (lb r).
Proof. unfold best_of. by rewrite map_app, fold_left_app. Qed.

(** The hash stamped on the cursor belongs to the highest matched block of the committed prefix,
    and that block is never above the cursor height (when each fetch reports a block of its own
    range). *)
Theorem cursor_hash_is_highest_below_cursor (start stop : Z) (pfx : list (Z * Z))
  (lb : Z * Z -> option (Z * bytes)) :
  tiles start pfx stop ->
  (forall lo hi h x, lb (lo, hi) = Some (h, x) -> lo <= h <= hi) ->
  match best_of lb pfx with
  | None => forall r, r ∈ pfx -> lb r = None
  | Some (h, x) =>
      h < stop /\ (exists r, r ∈ pfx /\ lb r = Some (h, x))
      /\ forall r h' x', r ∈ pfx -> lb r = Some (h', x') -> h' <= h
  end.
Proof.
  intros Ht Hlb. revert stop Ht. induction pfx as [|[lo hi] pfx IH] using rev_ind; intros stop Ht.
  { by intros r ?%not_elem_of_nil. }
  apply tiles_app in Ht as (b & Hp & Hr). cbn in Hr. destruct Hr as (-> & Hle & <-).
  specialize (IH _ Hp). rewrite best_of_snoc.
  destruct (lb (b, hi)) as [[h x]|] eqn:El.
  - pose proof (Hlb _ _ _ _ El) as Hh. destruct (best_of lb pfx) as [[bh y]|]; cbn.
    + destruct IH as (Hbh & _ & Hmax). destruct (Z.leb_spec bh h); [|lia]. split_and!; [lia| |].
      * exists (b, hi). split; [|done]. apply elem_of_app. right. by left.
      * intros r h' x' [Hin|Hin]%elem_of_app E; [specialize (Hmax _ _ _ Hin E); lia|].
        apply list_elem_of_singleton in Hin as ->. rewrite El in E. injection E as <- <-. lia.
    + split_and!; [lia| |].
      * exists (b, hi). split; [|done]. apply elem_of_app. right. by left.
      * intros r h' x' [Hin|Hin]%elem_of_app E; [by rewrite (IH _ Hin) in E|].
        apply list_elem_of_singleton in Hin as ->. rewrite El in E. injection E as <- <-. lia.
  - cbn. destruct (best_of lb pfx) as [[bh y]|].
    + destruct IH as (Hbh & (r0 & Hr0 & Er0) & Hmax). split_and!; [lia| |].
      * exists r0. split; [|done]. apply elem_of_app. by left.
      * intros r h' x' [Hin|Hin]%elem_of_app E; [by eapply Hmax|].
        apply list_elem_of_singleton in Hin as ->. congruence.
    + intros r [Hin|Hin]%elem_of_app; [auto|]. by apply list_elem_of_singleton in Hin as ->.
Qed.

Definition sample_last (r : Z * Z) : option (Z * bytes) :=
  if (fst r <=? 7) && (7 <=? snd r) then Some (7, [byte_of 7]) else None.

Lemma sample_last_in_range lo hi h x : sample_last (lo, hi) = Some (h, x) -> lo <= h <= hi.
Proof.
  unfold sample_last. cbn. destruct (Z.leb_spec lo 7), (Z.leb_spec 7 hi); cbn; intros [=]; lia.
Qed.

Lemma cursor_hash_is_highest_below_cursor_witness :
  match best_of sample_last [(1, 10); (11, 20)] with
  | None => forall r, r ∈ [(1, 10); (11, 20)] -> sample_last r = None
  | Some (h, x) =>
      h < 21 /\ (exists r, r ∈ [(1, 10); (11, 20)] /\ sample_last r = Some (h, x))
      /\ forall r h' x', r ∈ [(1, 10); (11, 20)] -> sample_last r = Some (h', x') -> h' <= h
  end.
Proof.
  exact (cursor_hash_is_highest_below_cursor 1 21 [(1, 10); (11, 20)] sample_last
           ltac:(cbn; lia) sample_last_in_range).
Defined.
