(* ===== verification/Pipeline.v ===== *)
(** The fetch-to-write pipeline of the indexer ([bins/indexer-cli/src/plan.rs], [run_pipeline] and its
    two halves): concurrent fetches that complete in any order, one writer that commits each range
    and moves the cursor over the contiguous prefix. *)
From S2P Require Import Prelude Model Btree Text Encode Store Repos Queue UnitOfWork Services ServicesFacts Ranges Plan.

(** * The two halves *)

(** What the fetch stream yields: the outcome of one [fetch_range], and whether shutdown was
    requested or the quota was used up when it was taken. *)
Definition Completion : Type := bool * result DomainError FetchedRange.

(** The producer: what it sends to the writer, and its result ([true]: stopped early). *)
Fixpoint fetch_producer (cs : list Completion) : list FetchedRange * result DomainError bool :=
  match cs with
  | [] => ([], Ok false)
  | (stop, res) :: cs =>
      if stop then ([], Ok true)
      else match res with
           | Err e => ([], Err e)
           | Ok f => let '(sent, r) := fetch_producer cs in (f :: sent, r)
           end
  end.

(** One message of the consumer: commit the range, record it, move the cursor. *)
Definition consume_one (chain : Z) (st : PrefixTracker * Z) (f : FetchedRange) :
    M World DomainError (PrefixTracker * Z) :=
  let '(prefix, records) := st in
  do out <- commit_range chain f 0;
  let '(prefix, checkpoint) := tracker_record prefix (fr_from f) (fr_to f) (fr_last_block f) in
  do _ <- match checkpoint with
          | Some (height, hash) => cursor_advance chain height hash
          | None => mret_ tt
          end;
  mret_ (prefix, records + io_records out).

Definition commit_consumer (chain next : Z) (msgs : list FetchedRange) :
    M World DomainError (option Z * Z) :=
  do st <- mfold (consume_one chain) (tracker_new next, 0) msgs;
  mret_ (advanced_to st.1, st.2).

Record PipelineOutcome := mkPipelineOutcome {
  po_advanced_to : option Z;
  po_records : Z;
  po_shutdown : bool
}.

(** [try_join!] of the two: a fetch error drops the writer after it took [k] of the messages (a
    commit under way at that point is one whose last statement failed). *)
Definition run_pipeline (chain next : Z) (cs : list Completion) (k : nat) :
    M World DomainError PipelineOutcome :=
  let '(sent, pr) := fetch_producer cs in
  match pr with
  | Err e => do _ <- commit_consumer chain next (take k sent); mfail e
  | Ok cancelled =>
      do ar <- commit_consumer chain next sent;
      mret_ (mkPipelineOutcome ar.1 ar.2 cancelled)
  end.

(** * The cursor never passes a gap *)

Definition range_of (f : FetchedRange) : Z * Z := (fr_from f, fr_to f).

(** The range is in the store: its records, its block metas and, when it has records, its decode
    item. *)
Definition stored (chain : Z) (f : FetchedRange) (d : Db) : Prop :=
  (forall r, r ∈ fr_records f -> is_Some (db_raw d !! raw_key r))
  /\ (forall b, b ∈ block_metas (fr_aux f) -> is_Some (db_blocks d !! block_key b))
  /\ (fr_records f <> [] ->
      item_key (mkWorkItem chain (fr_from f) (fr_to f) Backfill 0) ∈ dedup_key <$> db_queue d).

(** Nothing disappears. *)
Definition keeps (d d' : Db) : Prop :=
  (forall k, is_Some (db_raw d !! k) -> is_Some (db_raw d' !! k))
  /\ (forall k, is_Some (db_blocks d !! k) -> is_Some (db_blocks d' !! k))
  /\ (forall k, k ∈ dedup_key <$> db_queue d -> k ∈ dedup_key <$> db_queue d').

Lemma keeps_refl d : keeps d d.
Proof. by repeat split. Qed.

Lemma keeps_trans d1 d2 d3 : keeps d1 d2 -> keeps d2 d3 -> keeps d1 d3.
Proof. intros (A & B & C) (A' & B' & C'). repeat split; auto. Qed.

Lemma stored_keeps chain f d d' : keeps d d' -> stored chain f d -> stored chain f d'.
Proof. intros (A & B & C) (A' & B' & C'). repeat split; auto. Qed.

Lemma upsert_all_some {K V} `{Countable K} (m : gmap K V) kvs k :
  is_Some (m !! k) \/ k ∈ kvs.*1 -> is_Some (upsert_all m kvs !! k).
Proof.
  rewrite upsert_all_lookup. destruct (list_to_map (reverse kvs) !! k) eqn:E; [eauto|].
  intros [?|Hin]; [done|]. apply not_elem_of_list_to_map in E. destruct E.
  by rewrite fmap_reverse, elem_of_reverse.
Qed.

Lemma push_rows_keeps n i q k : k ∈ dedup_key <$> q \/ k = item_key i -> k ∈ dedup_key <$> push_rows n i q.
Proof.
  unfold push_rows. case_bool_decide as Hin; intros [Hk| ->]; try done.
  - rewrite fmap_app. apply elem_of_app. by left.
  - rewrite fmap_app. apply elem_of_app. right. by apply list_elem_of_singleton.
Qed.

Lemma ingested_keeps b n d d' : ingested b n d d' -> keeps d d'.
Proof.
  intros [R B _ Q _]. repeat split.
  - intros k Hk. rewrite R. apply lookup_union_is_Some. by left.
  - intros k Hk. rewrite B. apply upsert_all_some. by left.
  - intros k Hk. rewrite Q. destruct (ib_enqueue b); [|done]. apply push_rows_keeps. by left.
Qed.

Lemma raw_written rs r :
  r ∈ rs -> is_Some ((list_to_map (raw_kv <$> rs) : gmap (Z * Z * Z) RawRow) !! raw_key r).
Proof.
  intros Hr. destruct (list_to_map _ !! _) eqn:E; [by eexists|].
  apply not_elem_of_list_to_map in E. destruct E. rewrite <- list_fmap_compose.
  apply list_elem_of_fmap. by exists r.
Qed.

Lemma ingested_stored chain f n d d' : ingested (batch_of chain f 0 false) n d d' -> stored chain f d'.
Proof.
  intros [R B _ Q _]. cbn in *. repeat split.
  - intros r Hr. rewrite R. apply lookup_union_is_Some. right. by apply (raw_written _ _ Hr).
  - intros b Hb. rewrite B. apply upsert_all_some. right.
    rewrite <- list_fmap_compose. apply list_elem_of_fmap. by exists b.
  - intros Hne. rewrite Q. destruct (fr_records f); [done|]. apply push_rows_keeps. by right.
Qed.

Section consumer.
(** The plan of the window, and the messages the writer takes: fetched ranges of the plan, each at
    most once, in any order. *)
Context (chain next stop : Z) (rs : list (Z * Z)) (all : list FetchedRange).
Context (Htiles : tiles next rs stop) (Hnext : 0 <= next) (Hstop : stop < U64).
Context (Hnd : NoDup (range_of <$> all)) (Hplan : forall f, f ∈ all -> range_of f ∈ rs).

Definition reported (rg : Z * Z) : option (Z * bytes) :=
  match list_find (fun f => range_of f = rg) all with
  | Some (_, f) => fr_last_block f
  | None => None
  end.

Lemma reported_of f : f ∈ all -> reported (range_of f) = fr_last_block f.
Proof.
  intros Hf. unfold reported.
  destruct (list_find (fun g => range_of g = range_of f) all) as [[i g]|] eqn:E.
  - apply list_find_Some in E as (Hi & Hg & _).
    by rewrite (NoDup_fmap_same range_of all g f Hnd (list_elem_of_lookup_2 _ _ _ Hi) Hf Hg).
  - apply list_find_None in E. rewrite Forall_forall in E. by destruct (E f Hf).
Qed.

(** Every block up to [h] belongs to a range whose data is in the store. *)
Definition covered (d : Db) (h : Z) : Prop :=
  next <= h < stop
  /\ forall b, next <= b <= h -> exists f, f ∈ all /\ fr_from f <= b <= fr_to f /\ stored chain f d.

Definition cursor_safe (d0 d : Db) : Prop :=
  db_cursors d !! as_i64 chain = db_cursors d0 !! as_i64 chain
  \/ exists h hash, db_cursors d !! as_i64 chain = Some (as_i64 h, hash) /\ covered d h.

Lemma covered_keeps d d' h : keeps d d' -> covered d h -> covered d' h.
Proof.
  intros Hk [Hh Hc]. split; [done|]. intros b Hb. destruct (Hc b Hb) as (f & ? & ? & ?).
  eauto using stored_keeps.
Qed.

Lemma cursor_safe_keeps d0 d d' :
  keeps d d' -> db_cursors d' !! as_i64 chain = db_cursors d !! as_i64 chain ->
  cursor_safe d0 d -> cursor_safe d0 d'.
Proof.
  intros Hk E [H|(h & hash & H & Hc)]; [left; congruence|right].
  exists h, hash. split; [congruence|by eapply covered_keeps].
Qed.

(** The prefix of the recorded ranges is covered. *)
Lemma prefix_covered done d p b h :
  (forall f, f ∈ done -> f ∈ all /\ stored chain f d) ->
  p = committed_prefix (range_of <$> done) rs -> tiles next p b -> snd <$> last p = Some h ->
  covered d h.
Proof.
  intros Hd -> Ht Hl. set (p := committed_prefix (range_of <$> done) rs) in *.
  destruct (committed_prefix_split (range_of <$> done) rs) as [rest Hrs]. fold p in Hrs.
  apply fmap_Some in Hl as ([lo hi] & Hl & ->). apply last_Some in Hl as [p' Hp]. cbn.
  assert (tiles next p (hi + 1)) as Htp.
  { rewrite Hp in Ht |- *. apply tiles_app in Ht as (c & Ht1 & Ht2). apply tiles_app. exists c.
    split; [done|]. cbn in *. tauto. }
  assert ((lo, hi) ∈ rs) as Hin.
  { rewrite Hrs, Hp. apply elem_of_app. left. apply elem_of_app. right. left. }
  destruct (tiles_elem _ _ _ _ _ Htiles Hin). split; [lia|].
  intros x Hx. destruct (tiles_cover _ _ _ x Htp) as (lo' & hi' & Hin' & Hx'); [lia|].
  apply committed_prefix_in, list_elem_of_fmap in Hin' as (f & Ef & Hf). injection Ef as -> ->.
  destruct (Hd f Hf). eauto.
Qed.

Lemma commit_range_run f epoch w r w' :
  commit_range chain f epoch w = (r, w') ->
  (forall o, r = Ok o -> ingested (batch_of chain f epoch false) (w_seq w) (w_db w) (w_db w'))
  /\ (w_db w' = w_db w \/ ingested (batch_of chain f epoch false) (w_seq w) (w_db w) (w_db w')).
Proof.
  unfold commit_range, commit, mbind_.
  destruct (commit_ingest (batch_of chain f epoch false) w) as [[[]|e] w1] eqn:E;
    apply commit_ingest_cases in E; intros [= <- <-]; split; auto. done.
Qed.

Lemma cursor_advance_run h hash w r w' :
  cursor_advance chain h hash w = (r, w') ->
  w_db w' = cursor_effect chain h hash (w_db w) \/ (w_db w' = w_db w /\ exists e, r = Err e).
Proof.
  intros H. pose proof (updates_map_err domain_of_db _ _ (advance_updates chain h hash)) as Hu.
  destruct r as [[]|e].
  - left. by apply (updates_in_tx _ _ _ Hu) in H as (-> & _).
  - apply (in_tx_all_or_nothing _ _ _ _ _ _ Hu) in H as [->| ->]; eauto.
Qed.

(** One message, whatever its outcome. *)
Lemma consume_one_run d0 done n f w r w' :
  f ∈ all -> f ∉ done -> (forall g, g ∈ done -> g ∈ all /\ stored chain g (w_db w)) ->
  NoDup (range_of <$> f :: done) -> cursor_safe d0 (w_db w) ->
  consume_one chain (record_all next reported (range_of <$> done), n) f w = (r, w') ->
  cursor_safe d0 (w_db w') /\ keeps (w_db w) (w_db w')
  /\ forall st, r = Ok st ->
       st.1 = record_all next reported (range_of <$> f :: done) /\ stored chain f (w_db w').
Proof.
  intros Hf Hni Hdone Hnd' Hsafe H. unfold consume_one, mbind_ in H.
  destruct (commit_range chain f 0 w) as [rc w1] eqn:Ec.
  apply commit_range_run in Ec as [Hok Hany].
  assert (keeps (w_db w) (w_db w1)) as Hk1.
  { destruct Hany as [->|Hi]; [apply keeps_refl|by eapply ingested_keeps]. }
  assert (cursor_safe d0 (w_db w1)) as Hs1.
  { apply (cursor_safe_keeps d0 (w_db w)); [done| |done].
    destruct Hany as [->|[_ _ _ _ Hcur]]; [done|]. cbn in Hcur. by rewrite Hcur. }
  destruct rc as [o|e]; [|by injection H as <- <-].
  assert (stored chain f (w_db w1)) as Hst by (eapply ingested_stored, Hok; done).
  pose proof (tracker_record_spec next stop rs reported (range_of f) (fmap (M:=list) range_of done)
    Htiles Hnext Hstop Hnd') as Hsp.
  rewrite (reported_of f Hf) in Hsp.
  change (fst (range_of f)) with (fr_from f) in Hsp. change (snd (range_of f)) with (fr_to f) in Hsp.
  assert (record_all next reported (range_of <$> f :: done)
    = fst (tracker_record (record_all next reported (range_of <$> done)) (fr_from f) (fr_to f) (fr_last_block f))) as Hra.
  { by rewrite <- (reported_of f Hf). }
  destruct (tracker_record _ _ _ _) as [t cp].
  destruct Hsp as (Hadv & _ & (b & Htp & _) & Hcp).
  { intros x [->|Hx]%elem_of_cons; [by apply Hplan|].
    apply list_elem_of_fmap in Hx as (g & -> & Hg). by apply Hplan, Hdone. }
  destruct cp as [[h hash]|].
  - assert (covered (w_db w1) h) as Hcov.
    { eapply (prefix_covered (f :: done)); [|done|exact Htp|].
      - intros g [->|Hg]%elem_of_cons; [done|]. destruct (Hdone g Hg). eauto using stored_keeps.
      - case_bool_decide; [done|]. rewrite <- Hadv in Hcp. destruct (advanced_to t); [|done].
        injection Hcp as -> _. exact (eq_sym Hadv). }
    destruct (cursor_advance chain h hash w1) as [ra w2] eqn:Ea.
    assert (w' = w2) as -> by (destruct ra; by injection H as <- <-).
    apply cursor_advance_run in Ea.
    assert (keeps (w_db w1) (w_db w2)) as Hk2.
    { destruct Ea as [->|[-> _]]; [|apply keeps_refl]. by repeat split. }
    split_and!; [|by eapply keeps_trans|].
    + destruct Ea as [E|[E _]]; [|by rewrite E]. right. exists h, hash. rewrite E.
      split; [apply lookup_insert_eq|]. rewrite <- E. by eapply covered_keeps.
    + intros st Hst'. destruct ra; [|by subst r]. injection H as <-. injection Hst' as <-.
      split; [done|by eapply stored_keeps].
  - injection H as <- <-. split_and!; [done|done|]. intros st [= <-]. done.
Qed.

Lemma consumer_run d0 done todo n w r w' :
  (forall g, g ∈ done -> g ∈ all /\ stored chain g (w_db w)) -> (forall g, g ∈ todo -> g ∈ all) ->
  NoDup (range_of <$> reverse todo ++ done) -> cursor_safe d0 (w_db w) ->
  mfold (consume_one chain) (record_all next reported (range_of <$> done), n) todo w = (r, w') ->
  cursor_safe d0 (w_db w')
  /\ forall st, r = Ok st -> st.1 = record_all next reported (range_of <$> reverse todo ++ done)
       /\ forall g, g ∈ reverse todo ++ done -> stored chain g (w_db w').
Proof.
  revert done n w. induction todo as [|f todo IH]; intros done n w Hd Ht Hn Hs H.
  { injection H as <- <-. split; [done|]. intros st [= <-]. split; [done|]. intros g Hg. by apply Hd. }
  rewrite reverse_cons, <- app_assoc in Hn |- *. cbn [app] in Hn |- *.
  assert (NoDup (range_of <$> f :: done)) as Hnf.
  { rewrite fmap_app in Hn. by apply NoDup_app in Hn as (_ & _ & ?). }
  cbn [mfold] in H. unfold mbind_ in H. destruct (consume_one _ _ f w) as [r1 w1] eqn:E.
  apply (consume_one_run d0) in E as (Hs1 & Hk1 & Hok); try done.
  - destruct r1 as [st|e]; [|by injection H as <- <-].
    destruct (Hok _ eq_refl) as [Est Hf]. destruct st as [t m]. cbn in Est. subst t.
    apply (IH (f :: done)) in H; [done| |intros; apply Ht; by right|done|done].
    intros g [->|Hg]%elem_of_cons; [split; [apply Ht; left|done]|].
    destruct (Hd g Hg). eauto using stored_keeps.
  - apply Ht. left.
  - intros Hin. apply NoDup_cons in Hnf as [Hni _]. apply Hni. apply list_elem_of_fmap. eauto.
Qed.

End consumer.

Lemma advanced_record_all next stop rs lb cs :
  tiles next rs stop -> 0 <= next -> stop < U64 -> NoDup cs -> (forall x, x ∈ cs -> x ∈ rs) ->
  advanced_to (record_all next lb cs) = snd <$> last (committed_prefix cs rs).
Proof.
  intros Ht Hn Hs Hnd Hin. destruct cs as [|r cs].
  - cbn. by destruct rs as [|x rs].
  - pose proof (tracker_record_spec next stop rs lb r cs Ht Hn Hs Hnd Hin) as H. cbn.
    destruct (tracker_record _ _ _ _). apply H.
Qed.

Lemma committed_prefix_all cs rs : (forall r, r ∈ rs -> r ∈ cs) -> committed_prefix cs rs = rs.
Proof.
  induction rs as [|r rs IH]; [done|]. intros H. cbn. rewrite bool_decide_true by (apply H; left).
  f_equal. apply IH. intros; apply H; by right.
Qed.

Lemma tiles_last a rs b : tiles a rs b -> rs <> [] -> snd <$> last rs = Some (b - 1).
Proof.
  intros Ht Hne. destruct rs as [|[lo hi] rs _] using rev_ind; [done|].
  apply tiles_app in Ht as (c & _ & (-> & _ & <-)). rewrite last_snoc. cbn. f_equal. lia.
Qed.

Lemma consumer_cursor (chain next target step : Z) (rs : list (Z * Z))
    (msgs : list FetchedRange) (w w' : World) (r : result DomainError (option Z * Z)) :
  1 <= step -> 0 <= next <= target -> target + step < U64 ->
  plan_ranges next target step = Some rs ->
  NoDup (range_of <$> msgs) -> (forall f, f ∈ msgs -> range_of f ∈ rs) ->
  commit_consumer chain next msgs w = (r, w') ->
  cursor_safe chain next (target + 1) msgs (w_db w) (w_db w')
  /\ (forall adv n, r = Ok (Some adv, n) -> covered chain next (target + 1) msgs (w_db w') adv)
  /\ forall adv n, r = Ok (adv, n) -> (forall rg, rg ∈ rs -> rg ∈ range_of <$> msgs) -> adv = Some target.
Proof.
  intros Hst Hn Hb Hp Hnd Hin H. destruct (range_chunks_spec next target step) as (rs' & Hp' & Ht & _);
    [lia..|]. unfold plan_ranges in Hp. rewrite Hp' in Hp. injection Hp as ->.
  rewrite Z.max_r in Ht by lia. unfold commit_consumer, mbind_ in H.
  destruct (mfold _ _ msgs w) as [r1 w1] eqn:E.
  apply (consumer_run chain next (target + 1) rs msgs Ht ltac:(lia) ltac:(lia) Hnd Hin (w_db w) [])
    in E as [Hsafe Hok].
  - assert (w' = w1) as -> by (destruct r1; by injection H as <- <-). split; [done|].
    assert (NoDup (range_of <$> reverse msgs)) as Hnd' by (by rewrite reverse_Permutation).
    assert (forall x, x ∈ range_of <$> reverse msgs -> x ∈ rs) as Hin'.
    { intros x (f & -> & Hf)%list_elem_of_fmap. rewrite elem_of_reverse in Hf. by apply Hin. }
    assert (forall adv n, r = Ok (adv, n) -> adv = snd <$> last (committed_prefix (range_of <$> reverse msgs) rs)
      /\ forall g, g ∈ reverse msgs -> stored chain g (w_db w1)) as Hadv.
    { intros adv n ->. destruct r1 as [st|e]; [|done]. destruct (Hok _ eq_refl) as [Est Hst'].
      rewrite app_nil_r in Est, Hst'. injection H as <- _. split; [|done]. rewrite Est.
      apply (advanced_record_all next (target + 1)); [done|lia|lia|done|done]. }
    split; intros adv n E; apply Hadv in E as [E Hst'].
    + destruct (committed_prefix_split (range_of <$> reverse msgs) rs) as [rest Hrs].
      pose proof Ht as Ht'. rewrite Hrs in Ht' at 1. apply tiles_app in Ht' as (b & Htp & _).
      eapply (prefix_covered chain next (target + 1) rs msgs Ht (reverse msgs)); [|done|exact Htp|done].
      intros f Hf. split; [by rewrite elem_of_reverse in Hf|auto].
    + intros Hall. rewrite E, committed_prefix_all.
      * rewrite (tiles_last next rs (target + 1)); [f_equal; lia|done|]. intros ->. cbn in Ht. lia.
      * intros rg Hrg. specialize (Hall rg Hrg). by rewrite reverse_Permutation.
  - by intros g ?%not_elem_of_nil.
  - done.
  - by rewrite app_nil_r, reverse_Permutation.
  - by left.
Qed.


Lemma take_elem {A} n (l : list A) x : x ∈ take n l -> x ∈ l.
Proof. intros Hx. rewrite <- (take_drop n l). apply elem_of_app. by left. Qed.

(** A fetch error or an early stop never moves the cursor past a gap: whatever the completions
    of the fetch stream (each planned range at most once), wherever the writer is dropped and
    whatever fails, the whole drive leaves a safe cursor. *)
Theorem run_pipeline_cursor_safe (chain next target step : Z) (rs : list (Z * Z))
    (cs : list Completion) (k : nat) (w w' : World) (r : result DomainError PipelineOutcome) :
  1 <= step -> 0 <= next <= target -> target + step < U64 ->
  plan_ranges next target step = Some rs ->
  NoDup (range_of <$> (fetch_producer cs).1) ->
  (forall f, f ∈ (fetch_producer cs).1 -> range_of f ∈ rs) ->
  run_pipeline chain next cs k w = (r, w') ->
  exists msgs, cursor_safe chain next (target + 1) msgs (w_db w) (w_db w')
    /\ (forall f, f ∈ msgs -> exists stop, (stop, Ok f) ∈ cs).
Proof.
  intros Hst Hn Hb Hp Hnd Hin H. unfold run_pipeline in H.
  assert (forall f, f ∈ (fetch_producer cs).1 -> exists stop, (stop, Ok f) ∈ cs) as Hsent.
  { clear. induction cs as [|[stop res] cs IH]; intros f; cbn; [by intros ?%not_elem_of_nil|].
    destruct stop; [by intros ?%not_elem_of_nil|]. destruct res as [g|e]; [|by intros ?%not_elem_of_nil].
    destruct (fetch_producer cs) as [sent pr]. intros [->|Hf]%elem_of_cons.
    - exists false. left.
    - destruct (IH f Hf) as [b Hb]. exists b. by right. }
  destruct (fetch_producer cs) as [sent pr]. cbn in Hnd, Hin, Hsent.
  assert (exists m r1, commit_consumer chain next (take m sent) w = (r1, w')) as (m & r1 & Hc).
  { unfold mbind_ in H. destruct pr as [c|e].
    - exists (length sent). rewrite firstn_all. destruct (commit_consumer _ _ sent w) as [[a|e] w1];
        injection H as _ <-; eauto.
    - exists k. destruct (commit_consumer _ _ (take k sent) w) as [[a|e'] w1]; injection H as _ <-; eauto. }
  destruct (consumer_cursor chain next target step rs (take m sent) w w' r1) as (Hs & _ & _); try done.
  - eapply sublist_NoDup; [exact Hnd|]. apply fmap_sublist, sublist_take.
  - intros f Hf. apply Hin. by eapply take_elem.
  - exists (take m sent). split; [done|]. intros f Hf. apply Hsent. by eapply take_elem.
Qed.

(** * Samples *)

Definition sample_fetch (lo hi : Z) : FetchedRange :=
  mkFetchedRange lo hi [sample_rec lo 0] (mkAuxData [mkBlockMeta 1 lo [byte_of lo] [] 0] [])
    (Some (lo, [byte_of lo])).

(** Ranges complete out of order. *)
Definition sample_msgs : list FetchedRange := [sample_fetch 11 20; sample_fetch 1 10; sample_fetch 21 25].


(** The second fetch to complete fails: only the range before it was sent. *)
Definition sample_completions : list Completion :=
  [(false, Ok (sample_fetch 1 10)); (false, Err (ESource "timeout")); (false, Ok (sample_fetch 11 20))].

Lemma run_pipeline_cursor_safe_witness :
  let w' := (run_pipeline 1 1 sample_completions 1 (calm_world empty_db)).2 in
  db_cursors (w_db w') !! 1 = Some (10, [byte_of 1])
  /\ exists msgs, cursor_safe 1 1 (25 + 1) msgs empty_db (w_db w')
       /\ (forall f, f ∈ msgs -> exists stop, (stop, Ok f) ∈ sample_completions).
Proof.
  intros w'. split; [by vm_compute|].
  apply (run_pipeline_cursor_safe 1 1 25 10 [(1, 10); (11, 20); (21, 25)] sample_completions 1
           (calm_world empty_db) w' (Err (ESource "timeout"))); try lia.
  - unfold U64. lia.
  - reflexivity.
  - apply (bool_decide_unpack _). by vm_compute.
  - apply Forall_forall, (bool_decide_unpack _). by vm_compute.
  - by vm_compute.
Defined.
