(* ===== verification/Enrichment.v ===== *)
(** EVM aux rows ([crates/source/src/enrichment.rs]): the schemas of [transactions] and [receipts] and
    the rows built from fetched blocks and receipts.  A block, a transaction and a receipt are the
    fields the code reads of the alloy types. *)
From S2P Require Import Prelude Model Btree Text Retry.

Definition col (name : string) (ty : ColumnType) : ColumnDef := mkColumnDef name ty false.
Definition aux_pk : list string := ["chain_id"; "tx_id"].

Definition aux_schemas : list EventSchema :=
  [ mkEventSchema "transactions" "Transaction" None
      [col "from_addr" CAddress; col "to_addr" CAddress; col "value" (CUInt 256); col "input" CBytes;
       col "gas" (CUInt 256); col "gas_price" (CUInt 256); col "nonce" (CUInt 256)] [] aux_pk;
    mkEventSchema "receipts" "Receipt" None
      [col "status" CBool; col "gas_used" (CUInt 256); col "effective_gas_price" (CUInt 256);
       col "contract_address" CAddress] [] aux_pk ].

Record Tx := mkTx {
  tx_hash : bytes;
  tx_from : bytes;
  tx_value : Z;
  tx_input : bytes;
  tx_gas_limit : Z;
  tx_nonce : Z;
  tx_to : option bytes;
  tx_gas_price : option Z
}.

Record Block := mkBlock {
  blk_number : Z;
  blk_hash : bytes;
  blk_parent_hash : bytes;
  blk_timestamp : Z;
  blk_txns : list Tx
}.

Record Receipt_ := mkReceipt {
  rc_status : bool;
  rc_gas_used : Z;
  rc_effective_gas_price : Z;
  rc_contract_address : option bytes
}.

Definition row (chain_id : Z) (table : string) (height : Z) (block_hash tx_id : bytes) (idx : Z)
    (fields : list (string * EventValue)) : EventRow :=
  mkEventRow chain_id height block_hash None tx_id idx (mkDecodedEvent table fields).

Record TxFields := mkTxFields {
  tf_from : bytes;
  tf_tx_index : Z;
  tf_value : string;
  tf_input : bytes;
  tf_gas : string;
  tf_nonce : string;
  tf_to : option bytes;
  tf_gas_price : option string
}.

Definition opt_field {A} (name : string) (f : A -> EventValue) (o : option A) : list (string * EventValue) :=
  match o with Some x => [(name, f x)] | None => [] end.

Definition transaction_row (chain_id height : Z) (block_hash tx_id : bytes) (f : TxFields) : EventRow :=
  row chain_id "transactions" height block_hash tx_id (tf_tx_index f)
    ([("from_addr", VAddress (tf_from f)); ("value", VUint (tf_value f)); ("input", VBytes (tf_input f));
      ("gas", VUint (tf_gas f)); ("nonce", VUint (tf_nonce f))]
     ++ opt_field "to_addr" VAddress (tf_to f) ++ opt_field "gas_price" VUint (tf_gas_price f)).

Record ReceiptFields := mkReceiptFields {
  rf_status : bool;
  rf_gas_used : string;
  rf_effective_gas_price : string;
  rf_contract_address : option bytes
}.

Definition receipt_row (chain_id height : Z) (block_hash tx_id : bytes) (f : ReceiptFields) : EventRow :=
  row chain_id "receipts" height block_hash tx_id 0
    ([("status", VBool (rf_status f)); ("gas_used", VUint (rf_gas_used f));
      ("effective_gas_price", VUint (rf_effective_gas_price f))]
     ++ opt_field "contract_address" VAddress (rf_contract_address f)).

Definition tx_fields (tx : Tx) (tx_index : Z) : TxFields :=
  mkTxFields (tx_from tx) tx_index (show (tx_value tx)) (tx_input tx) (show (tx_gas_limit tx))
    (show (tx_nonce tx)) (tx_to tx) (show <$> tx_gas_price tx).

(** The matched transactions of a block, by position. *)
Fixpoint block_txs (chain_id : Z) (blk : Block) (tx_ids : list bytes) (i : Z) (txs : list Tx) :
    list EventRow :=
  match txs with
  | [] => []
  | tx :: txs =>
      (if bool_decide (tx_hash tx ∈ tx_ids)
       then [transaction_row chain_id (blk_number blk) (blk_hash blk) (tx_hash tx) (tx_fields tx i)]
       else [])
      ++ block_txs chain_id blk tx_ids (i + 1) txs
  end.

(** [header.timestamp as i64]. *)
Definition meta_of (chain_id : Z) (blk : Block) : BlockMeta :=
  mkBlockMeta chain_id (blk_number blk) (blk_hash blk) (blk_parent_hash blk) (as_i64 (blk_timestamp blk)).

Fixpoint block_aux (chain_id : Z) (blocks : list (Z * option Block)) (tx_ids : list bytes) (aux : AuxData) :
    result DomainError AuxData :=
  match blocks with
  | [] => Ok aux
  | (h, None) :: _ => Err (domain_of_source (Malformed ("block " +:+ show h +:+ " not found")))
  | (h, Some blk) :: blocks =>
      block_aux chain_id blocks tx_ids
        (mkAuxData (block_metas aux ++ [meta_of chain_id blk])
           (enrichment aux ++ block_txs chain_id blk tx_ids 0 (blk_txns blk)))
  end.

Definition receipt_of (chain_id : Z) (tx_loc : bytes -> option (Z * bytes)) (idr : bytes * option Receipt_) :
    option EventRow :=
  let '(txid, o) := idr in
  rcpt ← o;
  let '(height, bhash) := default (0, []) (tx_loc txid) in
  Some (receipt_row chain_id height bhash txid
          (mkReceiptFields (rc_status rcpt) (show (rc_gas_used rcpt)) (show (rc_effective_gas_price rcpt))
             (rc_contract_address rcpt))).

Definition receipt_aux (chain_id : Z) (receipts : list (bytes * option Receipt_))
    (tx_loc : bytes -> option (Z * bytes)) (aux : AuxData) : AuxData :=
  mkAuxData (block_metas aux) (enrichment aux ++ omap (receipt_of chain_id tx_loc) receipts).
