(* ===== verification/SchemaFacts.v ===== *)
(** Theorems about migrations: they only add, they converge after any interruption, they reach the
    desired schema, and they succeed on a fresh database. *)
From S2P Require Import Prelude Model Text Schema Enrichment.

(** * Statements only add, and settle *)

(** Nothing is lost from a catalog. *)
Record grows (c c' : Catalog) : Prop := mkGrows {
  gr_tables : forall t d, ct_tables c !! t = Some d -> exists d', ct_tables c' !! t = Some d'
    /\ td_pk d' = td_pk d /\ td_cols d `prefix_of` td_cols d';
  gr_indexes : ct_indexes c ⊆ ct_indexes c';
  gr_fk : ct_fk c = true -> ct_fk c' = true
}.

#[export] Instance grows_preorder : PreOrder grows.
Proof.
  split.
  - intros c. split; [|done|done]. intros t d H. exists d. eauto.
  - intros c1 c2 c3 [T1 I1 F1] [T2 I2 F2]. split; [|set_solver|auto].
    intros t d H. apply T1 in H as (d1 & H & P1 & C1). apply T2 in H as (d2 & H & P2 & C2).
    exists d2. split_and!; [done|congruence|by etrans].
Qed.

Lemma relations_elem c n : n ∈ relations c <-> is_Some (ct_tables c !! n) \/ n ∈ ct_indexes c.
Proof. unfold relations. by rewrite elem_of_union, elem_of_dom. Qed.

Lemma relations_grow c c' n : grows c c' -> n ∈ relations c -> n ∈ relations c'.
Proof.
  intros [T I _]. rewrite !relations_elem. intros [[d Hd]|Hn]; [left|right; set_solver].
  apply T in Hd as (? & ? & _). eauto.
Qed.

(** The guard of a statement holds: running it changes nothing. *)
Definition settled (d : Ddl) (c : Catalog) : Prop :=
  match d with
  | CreateTable table _ cols pk =>
      is_Some (quoted_cols cols) /\ is_Some (mapM pg_quoted pk) /\ exists n, pg_ident table = Some n /\ n ∈ relations c
  | AddColumn table col _ => exists n x t, pg_ident table = Some n /\ pg_quoted col = Some x
      /\ ct_tables c !! n = Some t /\ x ∈ (td_cols t).*1
  | CreateIndex table col => is_Some (index_reads col) /\ exists n i, pg_ident table = Some n
      /\ pg_ident (index_name table col) = Some i /\ is_Some (ct_tables c !! n) /\ i ∈ relations c
  | ReceiptsFk => ct_fk c = true
  end.

Lemma settled_exec d c : settled d c -> exec d c = Some c.
Proof.
  destruct d as [table hi cols pks|table col ty|table col|]; cbn.
  - intros ([x ->] & [y ->] & n & -> & Hn). cbn. by rewrite bool_decide_true.
  - intros (n & x & t & -> & -> & Ht & Hc). cbn. rewrite Ht. cbn. by rewrite bool_decide_true.
  - intros ([x Hx] & n & i & -> & -> & [t Ht] & Hi). cbn. rewrite Hx. cbn. rewrite Ht. cbn.
    by rewrite bool_decide_true.
  - by intros ->.
Qed.

Lemma prefix_elem (l k : list (string * string)) x : l `prefix_of` k -> x ∈ l.*1 -> x ∈ k.*1.
Proof. intros [r ->]. rewrite fmap_app, elem_of_app. by left. Qed.

Lemma settled_grows d c c' : grows c c' -> settled d c -> settled d c'.
Proof.
  intros Hg. pose proof Hg as [T I F]. destruct d as [table hi cols pks|table col ty|table col|]; cbn.
  - intros (? & ? & n & ? & ?). eauto 6 using relations_grow.
  - intros (n & x & t & ? & ? & H & Hc). apply T in H as (t' & H & _ & Hp). exists n, x, t'. eauto using prefix_elem.
  - intros (? & n & i & ? & ? & [t H] & Hn). apply T in H as (? & ? & _). split; [done|]. exists n, i. eauto 6 using relations_grow.
  - auto.
Qed.

Lemma new_table_grows name def c : ct_tables c !! name = None -> grows c (new_table name def c).
Proof.
  intros E. split; cbn; [|set_solver|done]. intros t d Ht. exists d. rewrite lookup_insert_ne by congruence. eauto.
Qed.

(** A statement that ran is settled, and only added. *)
Lemma exec_spec d c c' : exec d c = Some c' -> settled d c' /\ grows c c'.
Proof.
  destruct d as [table hi cols pks|table col ty|table col|]; cbn [exec settled]; intros H.
  - destruct (pg_ident table) as [n|]; [|done]. cbn in H. destruct (quoted_cols cols) as [qs|]; [|done]. cbn in H.
    destruct (mapM pg_quoted pks) as [pk|]; [|done]. cbn in H. case_bool_decide as Hn.
    { injection H as <-. split; [|done]. eauto 7. }
    destruct (_ && _); [|done]. injection H as <-. split.
    + split_and!; [eauto..|]. exists n. split; [done|]. apply relations_elem. left. cbn. rewrite lookup_insert_eq. eauto.
    + apply new_table_grows. apply eq_None_not_Some. intros ?. apply Hn, relations_elem. by left.
  - destruct (pg_ident table) as [n|]; [|done]. cbn in H. destruct (pg_quoted col) as [x|]; [|done]. cbn in H.
    destruct (ct_tables c !! n) as [t|] eqn:E; [|done]. cbn in H.
    case_bool_decide as Hc; [injection H as <-; split; [eauto 8|done]|]. case_bool_decide; [done|]. injection H as <-. split.
    + exists n, x, (mkTableDef (td_cols t ++ [(x, ty)]) (td_pk t)). cbn. rewrite lookup_insert_eq. split_and!; [done..|].
      rewrite fmap_app. apply elem_of_app. right. left.
    + split; [|done|done]. cbn. intros t' d Ht. destruct (decide (t' = n)) as [->|Hne].
      * rewrite E in Ht. injection Ht as <-. rewrite lookup_insert_eq. eexists. split_and!; [done|done|].
        by apply prefix_app_r.
      * exists d. rewrite lookup_insert_ne by done. eauto.
  - destruct (pg_ident table) as [n|]; [|done]. cbn in H. destruct (pg_ident (index_name _ _)) as [i|]; [|done]. cbn in H.
    destruct (index_reads col) as [xs|]; [|done]. cbn in H.
    destruct (ct_tables c !! n) as [t|] eqn:E; [|done]. cbn in H.
    case_bool_decide as Hc; [injection H as <-; split; [eauto 9|done]|].
    case_bool_decide; [|done]. injection H as <-. split; [|split; [|cbn; set_solver|done]; cbn; eauto].
    split; [eauto|]. exists n, i. split_and!; [done..|cbn; eauto|]. apply relations_elem. right. cbn. set_solver.
  - destruct (ct_fk c) eqn:Ef; [injection H as <-; split; [done|done]|].
    destruct (ct_tables c !! RECEIPTS_TABLE); [|done]. cbn in H.
    destruct (ct_tables c !! "transactions"); [|done]. cbn in H.
    case_bool_decide; [|done]. injection H as <-. split; [done|]. split; [|done|done]. cbn. eauto.
Qed.

Lemma exec_all_cons d ds c :
  exec_all (d :: ds) c = match exec d c with
                         | Some c' => exec_all ds c'
                         | None => (Err (domain_of_migrate (MSqlx "statement failed")), c)
                         end.
Proof. cbn. unfold mbind_. by destruct (exec d c). Qed.

Lemma exec_all_app ds1 ds2 c c1 :
  exec_all ds1 c = (Ok tt, c1) -> exec_all (ds1 ++ ds2) c = exec_all ds2 c1.
Proof.
  revert c. induction ds1 as [|d ds1 IH]; intros c; [by intros [= ->]|].
  cbn [app]. rewrite !exec_all_cons. destruct (exec d c); [apply IH|done].
Qed.

Lemma exec_all_settled ds c c' :
  exec_all ds c = (Ok tt, c') -> Forall (fun d => settled d c') ds /\ grows c c'.
Proof.
  revert c. induction ds as [|d ds IH]; intros c; [by intros [= ->]|].
  rewrite exec_all_cons. destruct (exec d c) as [c1|] eqn:E; [|done].
  intros H. apply IH in H as [Hf Hg]. apply exec_spec in E as [Hs Hg1]. split; [|by etrans].
  constructor; [|done]. by eapply settled_grows.
Qed.

Lemma exec_all_noop ds c : Forall (fun d => settled d c) ds -> exec_all ds c = (Ok tt, c).
Proof.
  induction 1 as [|d ds Hd _ IH]; [done|]. rewrite exec_all_cons, settled_exec by done. done.
Qed.

(** C34: a migration converges after an interruption at any statement: running the whole plan again on
    what a first attempt left gives the result of one uninterrupted run, and a completed migration
    run again changes nothing. *)
Theorem migration_resumes (c c1 : Catalog) (desired : list EventSchema) (k : nat) :
  let stmts := sp_statements (plan c desired) in
  exec_all (take k stmts) c = (Ok tt, c1) ->
  apply_plan (plan c1 desired) false c1 = apply_plan (plan c desired) false c.
Proof.
  intros stmts H. unfold apply_plan. cbn [sp_destructive plan andb]. cbn [sp_statements plan].
  change (concat (table_statements <$> desired)) with stmts.
  rewrite <- (take_drop k stmts). rewrite (exec_all_app _ _ c c1) by done.
  apply exec_all_settled in H as [Hf _]. by rewrite (exec_all_app _ _ c1 c1) by by apply exec_all_noop.
Qed.

(** The table of a schema is there under its own name once its statements have run: the name is one Postgres
    keeps as it is, and a column or an index was asked for. *)
Definition makes_table (s : EventSchema) : Prop :=
  pg_ident (es_table s) = Some (es_table s) /\ (es_columns s <> [] \/ create_indexes s <> []).

#[export] Instance makes_table_dec s : Decision (makes_table s).
Proof. unfold makes_table. destruct (es_columns s), (create_indexes s); apply _. Defined.

Lemma create_indexes_elem s d : d ∈ create_indexes s -> exists col, d = CreateIndex (es_table s) col.
Proof.
  unfold create_indexes. intros [Hin|Hin]%elem_of_app.
  - destruct (_ && _); [by apply not_elem_of_nil in Hin|]. apply list_elem_of_singleton in Hin as ->. eauto.
  - apply list_elem_of_omap in Hin as (pos & _ & Hcol). destruct (es_columns s !! pos); [|done]. injection Hcol as <-. eauto.
Qed.

Lemma plan_settled (c c' : Catalog) (desired : list EventSchema) :
  apply_plan (plan c desired) false c = (Ok tt, c') ->
  grows c c' /\ forall s d, s ∈ desired -> d ∈ table_statements s -> settled d c'.
Proof.
  intros H. unfold apply_plan in H. cbn [sp_destructive plan andb sp_statements] in H.
  apply exec_all_settled in H as [Hf Hg]. rewrite Forall_forall in Hf. split; [done|].
  intros s d Hin Hd. apply Hf, list_elem_of_In, in_concat. exists (table_statements s).
  split; [|by apply list_elem_of_In]. apply list_elem_of_In, list_elem_of_fmap. eauto.
Qed.

Lemma migrated_column (c c' : Catalog) (desired : list EventSchema) s col :
  apply_plan (plan c desired) false c = (Ok tt, c') -> s ∈ desired -> col ∈ es_columns s ->
  exists n x t, pg_ident (es_table s) = Some n /\ pg_quoted (c_name col) = Some x
    /\ ct_tables c' !! n = Some t /\ x ∈ (td_cols t).*1.
Proof.
  intros [_ Hs]%plan_settled Hin Hc. apply (Hs s (AddColumn (es_table s) (c_name col) (pg_type (c_ty col))) Hin).
  unfold table_statements. apply elem_of_app. right. apply elem_of_app. left. apply list_elem_of_fmap. eauto.
Qed.

Lemma migrated_schema (c c' : Catalog) (desired : list EventSchema) s :
  apply_plan (plan c desired) false c = (Ok tt, c') -> s ∈ desired -> makes_table s ->
  is_Some (ct_tables c' !! es_table s).
Proof.
  intros H Hin [Hn Hor]. destruct (es_columns s) as [|col cols] eqn:Ec.
  - destruct (create_indexes s) as [|d ds] eqn:Ei; [by destruct Hor|].
    destruct (create_indexes_elem s d) as [col ->]; [rewrite Ei; left|].
    destruct (proj2 (plan_settled _ _ _ H) s (CreateIndex (es_table s) col) Hin) as (_ & n & i & E & _ & Ht & _).
    { unfold table_statements. rewrite !elem_of_app. right. right. left. rewrite Ei. left. }
    congruence.
  - destruct (migrated_column _ _ _ s col H Hin) as (n & x & t & E & _ & Ht & _); [rewrite Ec; left|].
    rewrite Hn in E. injection E as <-. eauto.
Qed.

Lemma in_sync_made c desired : (forall s, s ∈ desired -> is_Some (ct_tables c !! es_table s)) -> is_in_sync c desired = true.
Proof. intros H. apply forallb_forall. intros s Hin%list_elem_of_In. by apply bool_decide_eq_true, H. Qed.

(** What a migration that returned has made. *)
Lemma migration_made (c c' : Catalog) (desired : list EventSchema) :
  Forall makes_table desired ->
  Forall (fun s => Forall (fun col => pg_quoted (c_name col) = Some (c_name col)) (es_columns s)) desired ->
  apply_plan (plan c desired) false c = (Ok tt, c') ->
  forall s, s ∈ desired -> exists t, ct_tables c' !! es_table s = Some t
    /\ forall col, col ∈ es_columns s -> c_name col ∈ (td_cols t).*1.
Proof.
  intros Hm Hq H s Hin. rewrite Forall_forall in Hm, Hq. destruct (migrated_schema _ _ _ _ H Hin (Hm s Hin)) as [t Ht].
  exists t. split; [done|]. intros col Hc. destruct (migrated_column _ _ _ _ _ H Hin Hc) as (n & x & t' & E & Ex & Ht' & Hx).
  destruct (Hm s Hin) as [E' _]. specialize (Hq s Hin). rewrite Forall_forall in Hq. rewrite (Hq col Hc) in Ex. congruence.
Qed.

(** A migration that returns reaches the desired schema without losing anything: every desired
    table is there with every one of its columns, every table and column that existed before still
    is, and the preflight check passes.  The names are ones Postgres keeps as they are, and the schemas have columns
    or indexes. *)
Theorem migration_reaches_schema (c c' : Catalog) (desired : list EventSchema) :
  Forall makes_table desired ->
  Forall (fun s => Forall (fun col => pg_quoted (c_name col) = Some (c_name col)) (es_columns s)) desired ->
  apply_plan (plan c desired) false c = (Ok tt, c') ->
  grows c c' /\ is_in_sync c' desired = true
  /\ forall s col, s ∈ desired -> col ∈ es_columns s ->
       exists t, ct_tables c' !! es_table s = Some t /\ c_name col ∈ (td_cols t).*1.
Proof.
  intros Hm Hq H. pose proof (migration_made _ _ _ Hm Hq H) as Hs. split_and!; [by apply plan_settled in H as [? _]| |].
  - apply in_sync_made. intros s Hin. destruct (Hs s Hin) as (t & ? & _). eauto.
  - intros s col Hin Hc. destruct (Hs s Hin) as (t & ? & ?). eauto.
Qed.

(** * A fresh database *)

Definition names (s : EventSchema) : list string := (all_cols (table_has_idx (es_table s)) (typed_cols s)).*1.

(** A schema whose table Postgres accepts: names it keeps as they are (an unreserved identifier for the table,
    at most 63 bytes), no column twice (a decoded column may not take a meta column's name or a system
    column's), the key and the indexed columns among them, index names that are identifiers. *)
Definition schema_ok (s : EventSchema) : Prop :=
  (pg_ident (es_table s) = Some (es_table s) /\ contains (es_table s) "_pkey" = false)
  /\ Forall (fun x => pg_quoted x = Some x) (c_name <$> es_columns s)
  /\ (NoDup (names s) /\ Forall (fun x => x ∉ SYSTEM_COLUMNS) (names s))
  /\ (NoDup (pk s) /\ Forall (fun c => c ∈ names s) (pk s) /\ mapM pg_quoted (pk s) = Some (pk s))
  /\ (es_indexed_positions s = [] \/ table_has_idx (es_table s) = true)
  /\ Forall (fun d => match d with CreateIndex t col => is_Some (pg_ident (index_name t col)) | _ => True end)
       (create_indexes s).

#[export] Instance schema_ok_dec s : Decision (schema_ok s).
Proof.
  unfold schema_ok. repeat apply and_dec; try apply _. apply Forall_dec. intros []; apply _.
Defined.

(** The names of the indexes of a schema. *)
Definition index_names (s : EventSchema) : list string :=
  omap (fun d => match d with CreateIndex t col => pg_ident (index_name t col) | _ => None end) (create_indexes s).

(** Relations share a name space: no table is named like an index. *)
Definition names_apart (ss : list EventSchema) : Prop :=
  Forall (fun s => Forall (fun s' => es_table s ∉ index_names s') ss) ss.

#[export] Instance names_apart_dec ss : Decision (names_apart ss).
Proof. unfold names_apart. apply _. Defined.

(** While the tables [ts] are being made: none of their names is taken by an index, each that is there has the meta
    columns, and [transactions] its key. *)
Definition cat_ok (ts : list string) (c : Catalog) : Prop := forall t, t ∈ ts -> t ∉ ct_indexes c
  /\ forall d, ct_tables c !! t = Some d ->
       Forall (fun x => x ∈ (td_cols d).*1) (all_cols (table_has_idx t) []).*1
       /\ (t = "transactions" -> td_pk d = ["chain_id"; "tx_id"]).

Lemma contains_l_app a p b : contains_l (a ++ p ++ b) p = true.
Proof.
  induction a as [|x a IH]; cbn [app].
  - destruct (p ++ b) eqn:E; cbn; rewrite <- ?E; apply orb_true_iff; left; apply prefix_of_spec; rewrite <- ?E; eauto.
  - cbn. by rewrite IH, orb_true_r.
Qed.

Lemma pkey_contains taken t : contains (pkey_name taken t) "_pkey" = true.
Proof.
  assert (forall i, contains (candidate t "_pkey" i) "_pkey" = true) as Hc.
  { intros i. unfold contains, candidate. rewrite !to_list_app. apply contains_l_app. }
  unfold pkey_name, free_name. destruct (filter _ _) as [|x l] eqn:E; cbn; [apply Hc|].
  assert (x ∈ filter (fun n => n ∉ taken) (candidate t "_pkey" <$> seqZ 0 (Z.of_nat (size taken) + 1))) as Hx by (rewrite E; left).
  apply list_elem_of_filter in Hx as [_ (i & -> & _)%list_elem_of_fmap]. apply Hc.
Qed.

Lemma quoted_cols_id cols :
  Forall (fun x => pg_quoted x = Some x) cols.*1 -> quoted_cols cols = Some cols.
Proof.
  unfold quoted_cols. induction cols as [|[n ty] cols IH]; intros H; [done|]. cbn in H. apply Forall_cons in H as [H1 H].
  cbn. rewrite H1. cbn. by rewrite IH.
Qed.

Lemma exec_all_ok (P : Catalog -> Prop) ds c :
  (forall d c, d ∈ ds -> P c -> exists c', exec d c = Some c' /\ P c') -> P c ->
  exists c', exec_all ds c = (Ok tt, c') /\ P c'.
Proof.
  revert c. induction ds as [|d ds IH]; intros c Hd Hc; [by exists c|].
  destruct (Hd d c) as (c1 & E & H1); [left|done|]. rewrite exec_all_cons, E.
  apply IH; [|done]. intros; apply Hd; [by right|done].
Qed.

Lemma all_cols_base hi cols x : x ∈ (all_cols hi []).*1 -> x ∈ (all_cols hi cols).*1.
Proof.
  unfold all_cols. rewrite app_nil_r, app_assoc, (fmap_app _ _ cols), (elem_of_app _ cols.*1). by left.
Qed.

Section making.
Context (ts : list string).
Abbreviation ok := (cat_ok ts).

Lemma cat_ok_tables c c' : ct_tables c' = ct_tables c -> (forall t, t ∈ ts -> t ∈ ct_indexes c' -> t ∈ ct_indexes c) ->
  ok c -> ok c'.
Proof. intros E Hi Hc t Ht. destruct (Hc t Ht) as [H1 H2]. rewrite E. split; [|done]. intros Hx. by apply H1, Hi. Qed.

Lemma create_ok s c :
  schema_ok s -> ok c -> es_table s ∈ ts -> Forall (fun t => contains t "_pkey" = false) ts ->
  (es_table s = "transactions" -> pk s = ["chain_id"; "tx_id"]) ->
  exists c', exec (create_table s) c = Some c' /\ ok c' /\ is_Some (ct_tables c' !! es_table s).
Proof.
  intros ([Hid _] & Hq & [Hn Hsys] & (Hpn & Hpc & Hpq) & _) Hc Hin Hpk Htx. cbn. rewrite Hid. cbn.
  rewrite quoted_cols_id by (unfold typed_cols; rewrite <- list_fmap_compose; exact Hq). cbn. rewrite Hpq. cbn.
  case_bool_decide as Hr.
  { exists c. split_and!; [done..|]. apply relations_elem in Hr as [?|Hr]; [done|]. by destruct (Hc _ Hin). }
  rewrite !bool_decide_true by done. cbn [andb]. eexists. split; [done|]. cbn. rewrite lookup_insert_eq. split; [|eauto].
  intros t Ht. destruct (Hc t Ht) as [H1 H2]. split.
  - cbn. rewrite elem_of_union, elem_of_singleton. intros [->|?]; [|done].
    rewrite Forall_forall in Hpk. specialize (Hpk _ Ht). cbn in Hpk. by rewrite pkey_contains in Hpk.
  - cbn. intros d. destruct (decide (t = es_table s)) as [->|Hne]; [|rewrite lookup_insert_ne by done; apply H2].
    rewrite lookup_insert_eq. intros [= <-]. split; [|done]. apply Forall_forall. intros x Hx. by apply all_cols_base.
Qed.

Lemma add_column_ok t col ty c :
  pg_ident t = Some t -> pg_quoted col = Some col -> col ∉ SYSTEM_COLUMNS -> ok c /\ is_Some (ct_tables c !! t) ->
  exists c', exec (AddColumn t col ty) c = Some c' /\ ok c' /\ is_Some (ct_tables c' !! t).
Proof.
  intros Hid Hq Hsys [Hc [d Hd]]. cbn [exec]. rewrite Hid, Hq. cbn [mbind option_bind]. rewrite Hd. cbn [mbind option_bind].
  case_bool_decide; [exists c; eauto|]. rewrite bool_decide_false by done. eexists. split; [done|]. cbn.
  rewrite lookup_insert_eq. split; [|eauto]. intros t' Ht'. destruct (Hc t' Ht') as [H1 H2]. split; [done|]. cbn.
  intros d'. destruct (decide (t' = t)) as [->|Hne]; [|rewrite lookup_insert_ne by done; apply H2].
  rewrite lookup_insert_eq. intros [= <-]. destruct (H2 _ Hd) as [H3 H4]. split; [|done].
  eapply Forall_impl; [exact H3|]. intros x Hx. cbn in *. rewrite fmap_app. apply elem_of_app. by left.
Qed.

Lemma index_ok t col i d c :
  pg_ident t = Some t -> pg_ident (index_name t col) = Some i -> index_reads col = Some (index_cols col) -> i ∉ ts -> ok c ->
  ct_tables c !! t = Some d -> Forall (fun x => x ∈ (td_cols d).*1) (index_cols col) ->
  exists c', exec (CreateIndex t col) c = Some c' /\ ok c' /\ ct_tables c' = ct_tables c.
Proof.
  intros Hid Hix Hcols Hi Hc Hd Hf. cbn [exec]. rewrite Hid, Hix, Hcols. cbn [mbind option_bind]. rewrite Hd.
  cbn [mbind option_bind]. case_bool_decide; [eauto|]. rewrite bool_decide_true by done. eexists. split; [done|].
  split; [|done]. eapply cat_ok_tables; [|intros t' Ht'|exact Hc]; [done|]. cbn. rewrite elem_of_union, elem_of_singleton.
  by intros [->|?].
Qed.

Lemma meta_in t d x :
  Forall (fun x => x ∈ (td_cols d).*1) (all_cols (table_has_idx t) []).*1 ->
  x ∈ meta_ddl.*1 \/ x = "idx" /\ table_has_idx t = true -> x ∈ (td_cols d).*1.
Proof.
  rewrite Forall_forall. intros H [Hx|[-> E]]; apply H; unfold all_cols; rewrite fmap_app; apply elem_of_app.
  - by left.
  - right. rewrite E. left.
Qed.

(** The columns an index of the schema needs. *)
Lemma index_needs s d i :
  schema_ok s -> Forall (fun x => x ∈ (td_cols d).*1) (all_cols (table_has_idx (es_table s)) []).*1 ->
  (forall col, col ∈ es_columns s -> c_name col ∈ (td_cols d).*1) -> i ∈ create_indexes s ->
  exists col, i = CreateIndex (es_table s) col /\ index_reads col = Some (index_cols col)
    /\ Forall (fun x => x ∈ (td_cols d).*1) (index_cols col).
Proof.
  intros (_ & Hq & _ & _ & Hi & _) Hm Hcols [Hin|Hin]%elem_of_app.
  - destruct (_ && _); [by apply not_elem_of_nil in Hin|]. apply list_elem_of_singleton in Hin as ->.
    eexists. split_and!; [done|done|]. repeat constructor; apply (meta_in _ _ _ Hm); left; cbn; set_solver.
  - apply list_elem_of_omap in Hin as (pos & Hpos & Hcol).
    destruct (es_columns s !! pos) as [col|] eqn:Ep; [|done]. injection Hcol as <-.
    apply list_elem_of_lookup_2 in Ep. eexists. split; [done|]. split.
    { cbn. rewrite Forall_forall in Hq. by rewrite (Hq (c_name col)) by (by apply list_elem_of_fmap_2). }
    destruct Hi as [Hi|Hi]; [rewrite Hi in Hpos; by apply not_elem_of_nil in Hpos|].
    repeat constructor; [apply (meta_in _ _ _ Hm); left; cbn; set_solver|by apply Hcols|
      apply (meta_in _ _ _ Hm); left; cbn; set_solver|apply (meta_in _ _ _ Hm); by right].
Qed.

Lemma indexes_ok s c d :
  schema_ok s -> ok c -> es_table s ∈ ts -> (forall i, i ∈ index_names s -> i ∉ ts) -> ct_tables c !! es_table s = Some d ->
  (forall col, col ∈ es_columns s -> c_name col ∈ (td_cols d).*1) ->
  exists c', exec_all (create_indexes s) c = (Ok tt, c') /\ ok c' /\ ct_tables c' = ct_tables c.
Proof.
  intros Hs Hc Hin Hni Hd Hcols. destruct (Hc _ Hin) as [_ Hm]. destruct (Hm d Hd) as [Hmeta _].
  apply (exec_all_ok (fun c' => ok c' /\ ct_tables c' = ct_tables c)); [|done].
  intros i c1 Hi [Hc1 E]. destruct (index_needs s d i Hs Hmeta Hcols Hi) as (col & -> & Hr & Hf).
  pose proof Hs as ([Hid _] & _ & _ & _ & _ & Hx). rewrite Forall_forall in Hx. destruct (Hx _ Hi) as [n Hn].
  rewrite <- E in Hd |- *. eapply (index_ok _ _ n); [done..| |done|exact Hd|done].
  apply Hni. apply list_elem_of_omap. eauto.
Qed.

Lemma schema_migrates s c :
  schema_ok s -> ok c -> es_table s ∈ ts -> Forall (fun t => contains t "_pkey" = false) ts ->
  (forall i, i ∈ index_names s -> i ∉ ts) ->
  (es_table s = "transactions" -> pk s = ["chain_id"; "tx_id"]) ->
  (es_table s = RECEIPTS_TABLE -> "transactions" ∈ ts /\ is_Some (ct_tables c !! "transactions")) ->
  exists c', exec_all (table_statements s) c = (Ok tt, c') /\ ok c' /\ is_Some (ct_tables c' !! es_table s).
Proof.
  intros Hs Hc Hin Hpk Hni Htx Hrc. unfold table_statements. cbn [app]. rewrite exec_all_cons.
  destruct (create_ok s c Hs Hc Hin Hpk Htx) as (c1 & E1 & Hc1 & Ht1). rewrite E1.
  pose proof Hs as ([Hid _] & Hq & [_ Hsys] & _). rewrite Forall_forall in Hq, Hsys.
  destruct (exec_all_ok (fun c => ok c /\ is_Some (ct_tables c !! es_table s)) (add_columns s) c1)
    as (c2 & E2 & Hc2 & [d Hd2]); [|done|].
  { intros x c' (col & -> & Hcol)%list_elem_of_fmap. apply add_column_ok; [done|by apply Hq, list_elem_of_fmap_2|].
    apply Hsys. unfold names, all_cols, typed_cols. rewrite !fmap_app, !elem_of_app, <- list_fmap_compose. right. right.
    by apply (list_elem_of_fmap_2 c_name). }
  rewrite (exec_all_app _ _ _ _ E2). pose proof (exec_all_settled _ _ _ E2) as [Hf Hg2].
  destruct (indexes_ok s c2 d Hs Hc2 Hin Hni Hd2) as (c3 & E3 & Hc3 & T3).
  { intros col Hcol. rewrite Forall_forall in Hf.
    destruct (Hf (AddColumn (es_table s) (c_name col) (pg_type (c_ty col)))) as (n & x & t & En & Ex & Ht & Hx).
    - apply list_elem_of_fmap. eauto.
    - rewrite (Hq (c_name col)) in Ex by (by apply list_elem_of_fmap_2). congruence. }
  rewrite (exec_all_app _ _ _ _ E3). unfold foreign_keys.
  destruct (String.eqb_spec (es_table s) RECEIPTS_TABLE) as [Er|_].
  - destruct (Hrc Er) as [Htin [p Hp]]. apply exec_spec in E1 as [_ Hg1].
    destruct (gr_tables _ _ Hg1 _ _ Hp) as (p1 & Hp1 & _). destruct (gr_tables _ _ Hg2 _ _ Hp1) as (p2 & Hp2 & _).
    destruct (Hc2 _ Htin) as [_ Hm2]. destruct (Hm2 _ Hp2) as [_ Hpk2].
    assert (exec ReceiptsFk c3 = Some (mkCatalog (ct_tables c3) (ct_indexes c3) true)) as Efk.
    { rewrite <- Er in *. cbn. rewrite <- Er, T3, Hd2, Hp2. cbn. rewrite bool_decide_true by (by apply Hpk2).
      destruct (ct_fk c3) eqn:Ef; [|done]. rewrite <- T3, <- Ef. by destruct c3. }
    rewrite exec_all_cons, Efk. eexists. split; [done|]. split; [exact Hc3|]. cbn. rewrite T3. eauto.
  - exists c3. rewrite T3. eauto.
Qed.

Lemma schemas_migrate ss c :
  Forall schema_ok ss -> Forall (fun s => es_table s ∉ ["transactions"; RECEIPTS_TABLE]) ss ->
  Forall (fun s => es_table s ∈ ts /\ forall i, i ∈ index_names s -> i ∉ ts) ss ->
  Forall (fun t => contains t "_pkey" = false) ts -> ok c ->
  exists c', exec_all (concat (table_statements <$> ss)) c = (Ok tt, c') /\ ok c'.
Proof.
  intros Hs Ht Hin Hpk. revert c. induction Hs as [|s ss H1 _ IH]; intros c Hc; [by exists c|].
  apply Forall_cons in Ht as [Hn Ht]. apply Forall_cons in Hin as [[Hi1 Hi2] Hin]. rewrite fmap_cons. cbn [concat].
  destruct (schema_migrates s c H1 Hc Hi1 Hpk Hi2) as (c1 & E & Hc1 & _).
  - intros E. exfalso. apply Hn. rewrite E. left.
  - intros E. exfalso. apply Hn. rewrite E. right. left.
  - rewrite (exec_all_app _ _ _ _ E). by apply IH.
Qed.
End making.

Definition empty_catalog : Catalog := mkCatalog ∅ ∅ false.

(** What one chain's decoder asks for: its event and call tables, then the aux tables. *)
Definition chain_schemas (ss : list EventSchema) : list EventSchema := ss ++ aux_schemas.

Lemma aux_migrate ts c :
  cat_ok ts c -> "transactions" ∈ ts -> RECEIPTS_TABLE ∈ ts -> Forall (fun t => contains t "_pkey" = false) ts ->
  exists c', exec_all (concat (table_statements <$> aux_schemas)) c = (Ok tt, c') /\ cat_ok ts c'.
Proof.
  intros Hc Htx Hrc Hpk. unfold aux_schemas. rewrite !fmap_cons. cbn [concat fmap list_fmap].
  set (tx := mkEventSchema "transactions" _ _ _ _ _). set (rc := mkEventSchema "receipts" _ _ _ _ _).
  assert (forall i, i ∈ index_names tx ++ index_names rc -> i ∉ ts) as Hni by (by intros i ?%not_elem_of_nil).
  destruct (schema_migrates ts tx c) as (c2 & E2 & Hc2 & Ht2);
    [by apply (bool_decide_unpack _)|done|done|done|by intros i ?%not_elem_of_nil|done|done|].
  rewrite (exec_all_app _ _ _ _ E2).
  destruct (schema_migrates ts rc c2) as (c3 & E3 & Hc3 & _);
    [by apply (bool_decide_unpack _)|done|done|done|by intros i ?%not_elem_of_nil|done|done|].
  rewrite app_nil_r. by exists c3.
Qed.

Lemma chains_migrate ts chains c :
  Forall (fun ss => Forall schema_ok ss /\ Forall (fun s => es_table s ∉ ["transactions"; RECEIPTS_TABLE]) ss
    /\ Forall (fun s => es_table s ∈ ts /\ forall i, i ∈ index_names s -> i ∉ ts) ss) chains ->
  (chains <> [] -> "transactions" ∈ ts /\ RECEIPTS_TABLE ∈ ts) -> Forall (fun t => contains t "_pkey" = false) ts ->
  cat_ok ts c -> exists c', exec_all (concat (table_statements <$> concat (chain_schemas <$> chains))) c = (Ok tt, c').
Proof.
  intros H Haux Hpk. revert c. induction H as [|ss chains (Hs & Ht & Hin) _ IH]; intros c Hc; [by exists c|].
  destruct (Haux ltac:(done)) as [H1 H2]. rewrite fmap_cons. cbn [concat]. unfold chain_schemas at 1.
  rewrite !fmap_app, !concat_app, <- (app_assoc (concat (table_statements <$> ss))).
  destruct (schemas_migrate ts ss c Hs Ht Hin Hpk Hc) as (c1 & E1 & Hc1). rewrite (exec_all_app _ _ _ _ E1).
  destruct (aux_migrate ts c1 Hc1 H1 H2 Hpk) as (c2 & E2 & Hc2). rewrite (exec_all_app _ _ _ _ E2). apply IH; [|done]. auto.
Qed.

Lemma aux_elem ss s : s ∈ concat (chain_schemas <$> ss) -> s ∈ aux_schemas \/ exists l, l ∈ ss /\ s ∈ l.
Proof.
  intros (l & Hl & Hs)%list_elem_of_In%in_concat. apply list_elem_of_In in Hl, Hs.
  apply list_elem_of_fmap in Hl as (k & -> & Hk). apply elem_of_app in Hs as [?|?]; eauto.
Qed.


(** * Samples *)

Definition transfer_event : AbiEvent :=
  mkAbiEvent "Transfer" [mkParam "from" "address" true; mkParam "to" "address" true; mkParam "value" "uint256" false].
Definition transfer_schema : EventSchema :=
  schema_for transfer_event [byte_of 221; byte_of 242] "evt_erc20_transfer".

Example transfer_columns :
  (fun c => (c_name c, c_ty c)) <$> es_columns transfer_schema
  = [("from", CAddress); ("to", CAddress); ("value", CUInt 256)]
  /\ es_topic0 transfer_schema = Some "0xddf2" /\ es_indexed_positions transfer_schema = [0; 1]%nat
  /\ render <$> create_indexes (mkEventSchema "t" "E" None [mkColumnDef "a_b" CBool false] [0%nat] event_pk)
     = ["CREATE INDEX IF NOT EXISTS t_tx ON t (chain_id, tx_id)";
        "CREATE INDEX IF NOT EXISTS t_a_b ON t (chain_id, " +:+ quoted "a_b" +:+ ", height) INCLUDE (idx)"].
Proof. by vm_compute. Qed.

Definition desired : list EventSchema := [transfer_schema] ++ aux_schemas.

Lemma migration_resumes_witness :
  let c1 := (exec_all (take 3 (sp_statements (plan empty_catalog desired))) empty_catalog).2 in
  apply_plan (plan c1 desired) false c1 = apply_plan (plan empty_catalog desired) false empty_catalog.
Proof. intros c1. apply (migration_resumes empty_catalog c1 desired 3). by vm_compute. Defined.

Lemma migration_reaches_schema_witness :
  let c' := (apply_plan (plan empty_catalog desired) false empty_catalog).2 in
  grows empty_catalog c' /\ is_in_sync c' desired = true
  /\ forall s col, s ∈ desired -> col ∈ es_columns s ->
       exists t, ct_tables c' !! es_table s = Some t /\ c_name col ∈ (td_cols t).*1.
Proof.
  intros c'. apply (migration_reaches_schema empty_catalog c' desired).
  - apply (bool_decide_unpack _). by vm_compute.
  - apply (bool_decide_unpack _). by vm_compute.
  - by vm_compute.
Defined.

(** A database with the fixed table [blocks] and an index. *)
Definition other_catalog : Catalog := mkCatalog {["blocks" := mkTableDef meta_ddl []]} {["raw_records_tx"]} false.


(** Limits of the schema layer.  The preflight check passes on a database whose table lacks
    the desired columns; an event with a parameter named like a meta column ([height]) cannot be
    migrated, since its table would have the column twice; a table override that is a reserved word, or the name of
    another table's index, makes the migration fail; and one with upper-case letters is created under another name,
    so that the preflight check never passes. *)
Theorem preflight_and_name_limits :
  is_in_sync (mkCatalog {["evt_erc20_transfer" := mkTableDef meta_ddl []]} ∅ false) [transfer_schema] = true
  /\ (let s := schema_for (mkAbiEvent "Sync" [mkParam "height" "uint64" false]) [] "evt_x_sync" in
      (apply_plan (plan empty_catalog [s]) false empty_catalog).1 = Err (ESchema "database error: statement failed"))
  /\ (let fails ts := (apply_plan (plan empty_catalog (schema_for transfer_event [] <$> ts)) false empty_catalog).1
        = Err (ESchema "database error: statement failed") in
      fails ["order"] /\ fails ["my-table"] /\ fails ["t"; "t_tx"])
  /\ (let s := schema_for transfer_event [] "Transfers" in
      let run := apply_plan (plan empty_catalog [s]) false empty_catalog in
      run.1 = Ok tt /\ is_in_sync run.2 [s] = false).
Proof. by vm_compute. Qed.
