(* ===== verification/Abi.v ===== *)
(** ABI decoding ([crates/abi]) and the EVM decoder ([crates/source/src/decoder.rs]): the topic and
    call indexes built from the configured contracts, and the decoding of a record or of calldata
    into a row of its table.  The ABI library is a parameter: parsing, selectors and the decoding of
    bytes into Solidity values. *)
From S2P Require Import Prelude Model Text Schema Enrichment Services Retry.

(** * Values ([decode.rs]) *)

(** [alloy_dyn_abi::DynSolValue]. *)
Inductive DynSolValue : Type :=
| SBool (b : bool)
| SInt (z bits : Z)
| SUint (z bits : Z)
| SFixedBytes (word : bytes) (size : nat)
| SAddress (a : bytes)
| SFunction (f : bytes)
| SBytes (b : bytes)
| SString (s : string)
| SArray (xs : list DynSolValue)
| SFixedArray (xs : list DynSolValue)
| STuple (xs : list DynSolValue).

(** [serde_json::Value]; a number is its text. *)
Inductive Json : Type :=
| JNull
| JBool (b : bool)
| JNumber (text : string)
| JString (s : string)
| JArray (xs : list Json)
| JObject (fields : list (string * Json)).

Inductive DecodeError : Type :=
| DAbi (msg : string)
| DDecode (msg : string).

Definition decode_error_text (e : DecodeError) : string :=
  match e with DAbi m => "abi error: " +:+ m | DDecode m => "decode failed: " +:+ m end.

Definition domain_of_decode (e : DecodeError) : DomainError := EDecode (decode_error_text e).

Fixpoint to_json (v : DynSolValue) : Json :=
  match v with
  | SAddress a => JString ("0x" +:+ hex_encode a)
  | SBool b => JBool b
  | SUint u _ => JString (show u)
  | SInt i _ => JString (show i)
  | SBytes b => JString ("0x" +:+ hex_encode b)
  | SFixedBytes w size => JString ("0x" +:+ hex_encode (take size w))
  | SString s => JString s
  | SArray xs | SFixedArray xs | STuple xs => JArray (List.map to_json xs)
  | SFunction _ => JNull
  end.

Definition to_hash (v : DynSolValue) : bytes :=
  match v with SFixedBytes w _ => w | _ => [] end.

(** [topic0_hash]. *)
Definition topic0_hash (topic0_hex : string) : outcome (option bytes) := hex_decode topic0_hex.

(** A contract to index. *)
Record ContractSpec := mkContractSpec {
  sp_abi_json : string;
  sp_events : list string;
  sp_functions : list string;
  sp_address : bytes;
  sp_table_prefix : string;
  sp_table_override : option string
}.

Record JsonAbi := mkJsonAbi { ja_events : list AbiEvent; ja_functions : list AbiFunction }.

Record Entry := mkEntry { en_event : AbiEvent; en_schema : EventSchema }.
Record CallEntry := mkCallEntry { ce_function : AbiFunction; ce_schema : EventSchema }.

Record AbiIndex := mkAbiIndex {
  by_topic0 : gmap bytes Entry;
  by_call : gmap (bytes * bytes) CallEntry
}.

Section abi.
(** The ABI library and the JSON printer. *)
Context (parse_abi : string -> result string JsonAbi).
Context (event_selector : AbiEvent -> bytes) (function_selector : AbiFunction -> bytes).
Context (decode_log_parts : AbiEvent -> list bytes -> bytes -> result string (list DynSolValue * list DynSolValue)).
Context (abi_decode_input : AbiFunction -> bytes -> result string (list DynSolValue)).
Context (json_text : Json -> string).

Definition to_value (v : DynSolValue) : EventValue :=
  match v with
  | SAddress a => VAddress a
  | SBool b => VBool b
  | SUint u _ => VUint (show u)
  | SInt i _ => VInt (show i)
  | SBytes b => VBytes b
  | SFixedBytes w size => VBytes (take size w)
  | SString s => VString s
  | other => VJson (json_text (to_json other))
  end.

(** The loop over the inputs: [schema.columns[i]] panics past the end, a missing value is an error. *)
Fixpoint event_fields (cols : list ColumnDef) (inputs : list Param) (indexed body : list DynSolValue) :
    outcome (result DecodeError (list (string * EventValue))) :=
  match inputs with
  | [] => Done (Ok [])
  | input :: inputs =>
      match cols with
      | [] => Panic
      | col :: cols =>
          let next := if ep_indexed input
                      then match indexed with
                           | [] => Err (DDecode "missing indexed value")
                           | v :: indexed =>
                               Ok (if c_indexed_hash col then VHash (to_hash v) else to_value v, (indexed, body))
                           end
                      else match body with
                           | [] => Err (DDecode "missing body value")
                           | v :: body => Ok (to_value v, (indexed, body))
                           end in
          match next with
          | Err e => Done (Err e)
          | Ok (value, (indexed, body)) =>
              match event_fields cols inputs indexed body with
              | Done (Ok fs) => Done (Ok ((c_name col, value) :: fs))
              | r => r
              end
          end
      end
  end.

Definition decode_event (event : AbiEvent) (schema : EventSchema) (raw : RawRecord) :
    outcome (result DecodeError DecodedEvent) :=
  if forallb (fun s => Nat.eqb (length s) 32) (rr_selectors raw) then
    match decode_log_parts event (rr_selectors raw) (rr_data raw) with
    | Err e => Done (Err (DDecode e))
    | Ok (indexed, body) =>
        match event_fields (es_columns schema) (ae_inputs event) indexed body with
        | Done (Ok fields) => Done (Ok (mkDecodedEvent (es_table schema) fields))
        | Done (Err e) => Done (Err e)
        | Panic => Panic
        end
    end
  else Panic.

Fixpoint call_fields (cols : list ColumnDef) (values : list DynSolValue) : outcome (list (string * EventValue)) :=
  match values, cols with
  | [], _ => Done []
  | _ :: _, [] => Panic
  | v :: values, col :: cols =>
      match call_fields cols values with
      | Done fs => Done ((c_name col, to_value v) :: fs)
      | Panic => Panic
      end
  end.

(** [decode.rs: decode_call]; the caller has checked that there are four bytes. *)
Definition decode_calldata (function : AbiFunction) (schema : EventSchema) (input : bytes) :
    outcome (result DecodeError DecodedEvent) :=
  match abi_decode_input function (drop 4 input) with
  | Err e => Done (Err (DDecode e))
  | Ok values =>
      match call_fields (es_columns schema) values with
      | Done fields => Done (Ok (mkDecodedEvent (es_table schema) fields))
      | Panic => Panic
      end
  end.

(** * The index ([lib.rs]) *)

Definition event_table (spec : ContractSpec) (event : AbiEvent) : string :=
  match sp_table_override spec with
  | Some t => t
  | None => "evt_" +:+ sp_table_prefix spec +:+ "_" +:+ str_to_ascii_lowercase (ae_name event)
  end.

Definition call_table (spec : ContractSpec) (f : AbiFunction) : string :=
  "call_" +:+ sp_table_prefix spec +:+ "_" +:+ str_to_ascii_lowercase (af_name f).

Definition add_event (spec : ContractSpec) (m : gmap bytes Entry) (event : AbiEvent) : gmap bytes Entry :=
  if negb (bool_decide (sp_events spec = [])) && negb (bool_decide (ae_name event ∈ sp_events spec)) then m
  else <[event_selector event
         := mkEntry event (schema_for event (event_selector event) (event_table spec event))]> m.

Definition add_function (spec : ContractSpec) (m : gmap (bytes * bytes) CallEntry) (f : AbiFunction) :
    gmap (bytes * bytes) CallEntry :=
  if bool_decide (af_name f ∈ sp_functions spec)
  then <[(sp_address spec, function_selector f)
         := mkCallEntry f (schema_for_function f (call_table spec f))]> m
  else m.

Fixpoint build_from (specs : list ContractSpec) (idx : AbiIndex) : result DecodeError AbiIndex :=
  match specs with
  | [] => Ok idx
  | spec :: specs =>
      let? abi := res_map_err (fun e => DAbi ("parse abi: " +:+ e)) (parse_abi (sp_abi_json spec)) in
      build_from specs
        (mkAbiIndex (fold_left (add_event spec) (ja_events abi) (by_topic0 idx))
           (fold_left (add_function spec) (ja_functions abi) (by_call idx)))
  end.

Definition build (specs : list ContractSpec) : result DecodeError AbiIndex :=
  build_from specs (mkAbiIndex ∅ ∅).

Definition schemas (o : HashOrder) (idx : AbiIndex) : list EventSchema :=
  ho_schemas o (en_schema <$> (map_to_list (by_topic0 idx)).*2).
Definition call_schemas (o : HashOrder) (idx : AbiIndex) : list EventSchema :=
  ho_schemas o (ce_schema <$> (map_to_list (by_call idx)).*2).
Definition call_is_empty (idx : AbiIndex) : bool := bool_decide (by_call idx = ∅).
Definition topic0s (o : HashOrder) (idx : AbiIndex) : list bytes := ho_topics o (map_to_list (by_topic0 idx)).*1.

Definition decode (idx : AbiIndex) (raw : RawRecord) : outcome (result DecodeError (option EventRow)) :=
  match rr_selectors raw with
  | [] => Done (Ok None)
  | sel0 :: _ =>
      if negb (Nat.eqb (length sel0) 32) then Done (Ok None)
      else match by_topic0 idx !! sel0 with
           | None => Done (Ok None)
           | Some entry =>
               match decode_event (en_event entry) (en_schema entry) raw with
               | Panic => Panic
               | Done (Err e) => Done (Err e)
               | Done (Ok event) =>
                   Done (Ok (Some (mkEventRow (rr_chain_id raw) (rr_height raw) (rr_block_hash raw) None
                                     (rr_tx_id raw) (rr_index raw) event)))
               end
           end
  end.

Definition decode_call (idx : AbiIndex) (tx : TxCalldata) : outcome (result DecodeError (option EventRow)) :=
  if (length (tc_input tx) <? 4)%nat then Done (Ok None)
  else match by_call idx !! (tc_to_addr tx, take 4 (tc_input tx)) with
       | None => Done (Ok None)
       | Some entry =>
           match decode_calldata (ce_function entry) (ce_schema entry) (tc_input tx) with
           | Panic => Panic
           | Done (Err e) => Done (Err e)
           | Done (Ok event) =>
               Done (Ok (Some (mkEventRow (tc_chain_id tx) (tc_height tx) (tc_block_hash tx) None
                                 (tc_tx_id tx) (tc_tx_index tx) event)))
           end
       end.

(** * The decoder ([decoder.rs]) *)

Definition port {A} (o : outcome (result DecodeError A)) : result DomainError A :=
  match o with Panic => Err panicked | Done r => res_map_err domain_of_decode r end.

(** [impl Decoder for EvmDecoder]. *)
Definition evm_decoder (idx : AbiIndex) (addresses : list bytes) : Decoder :=
  mkDecoder (fun r => port (decode idx r)) (fun tx => port (decode_call idx tx)) (negb (call_is_empty idx))
    (fun o => schemas o idx ++ call_schemas o idx ++ aux_schemas) (fun o => mkRecordFilter addresses (topic0s o idx)).

End abi.
