(* ===== verification/AbiFacts.v ===== *)
(** Theorems about ABI decoding: a record that passes the filter is decoded or reported, never skipped,
    and its row has exactly the columns of its table, with values of their types. *)
From S2P Require Import Prelude Model Btree Text Encode Store Repos Schema Enrichment Services Retry SchemaFacts Abi.

(** * Types *)

(** A value of a Solidity type, by its canonical name. *)
Definition sol_typed (ty : string) (v : DynSolValue) : Prop :=
  match v with
  | SBool _ => ty = "bool"
  | SInt _ bits => ty = "int" +:+ show bits /\ 8 <= bits <= 256
  | SUint _ bits => ty = "uint" +:+ show bits /\ 8 <= bits <= 256
  | SFixedBytes _ n => ty = "bytes" +:+ show (Z.of_nat n) /\ (1 <= n <= 32)%nat
  | SAddress _ => ty = "address"
  | SFunction _ => ty = "function"
  | SBytes _ => ty = "bytes"
  | SString _ => ty = "string"
  | SArray _ | SFixedArray _ => exists t, ty = t +:+ "]"
  | STuple _ => ty = "tuple"
  end.

(** A topic holds a value of a value type, the hash of one of a reference type. *)
Definition topic_typed (ty : string) (v : DynSolValue) : Prop :=
  if is_dynamic ty || String.eqb ty "tuple" then exists w, v = SFixedBytes w 32 else sol_typed ty v.

(** What the ABI library promises of a decoded log: one value per parameter, of its type. *)
Class LogDecoder (dlp : AbiEvent -> list bytes -> bytes -> result string (list DynSolValue * list DynSolValue)) : Prop :=
  log_values : forall ev topics data ix body, dlp ev topics data = Ok (ix, body) ->
    Forall2 topic_typed (ep_ty <$> filter (fun p => ep_indexed p = true) (ae_inputs ev)) ix
    /\ Forall2 sol_typed (ep_ty <$> filter (fun p => ep_indexed p = false) (ae_inputs ev)) body.

(** Parameters of the types the schema builder accounts for. *)
Definition plain_param (p : Param) : Prop :=
  ep_ty p <> "function" /\ ~ (ep_indexed p = true /\ ep_ty p = "tuple").

#[export] Instance plain_param_dec p : Decision (plain_param p).
Proof. unfold plain_param. apply _. Defined.

Lemma sized_types :
  Forall (fun n => column_type_for ("bytes" +:+ show n) = CBytes) (seqZ 1 32)
  /\ Forall (fun n => pg_type (column_type_for ("uint" +:+ show n)) = "numeric(78,0)") (seqZ 8 249)
  /\ Forall (fun n => pg_type (column_type_for ("int" +:+ show n)) = "numeric(78,0)") (seqZ 8 249).
Proof. split_and!; apply (bool_decide_unpack _); by vm_compute. Qed.

Lemma ends_with_bracket t : ends_with "]" (t +:+ "]") = true.
Proof. unfold ends_with. rewrite to_list_app. cbn. rewrite last_snoc. by rewrite Ascii.eqb_refl. Qed.

Section typed.
Context (json_text : Json -> string).

Lemma to_value_typed ty v :
  sol_typed ty v -> ty <> "function" -> bound_type (to_value json_text v) = pg_type (column_type_for ty).
Proof.
  destruct sized_types as (Hb & Hu & Hi). rewrite Forall_forall in Hb, Hu, Hi.
  destruct v as [b|z bits|z bits|w n|a|f|b|s|xs|xs|xs]; cbn [sol_typed]; intros H Hf; try (by subst ty).
  - destruct H as [-> H]. cbn. rewrite Hi; [done|]. apply elem_of_seqZ. lia.
  - destruct H as [-> H]. cbn. rewrite Hu; [done|]. apply elem_of_seqZ. lia.
  - destruct H as [-> H]. cbn. rewrite Hb; [done|]. apply elem_of_seqZ. lia.
  - destruct H as [t ->]. cbn [to_value bound_type]. unfold column_type_for. by rewrite ends_with_bracket.
  - destruct H as [t ->]. cbn [to_value bound_type]. unfold column_type_for. by rewrite ends_with_bracket.
Qed.

(** The columns of the inputs from position [k] on. *)
Definition columns_from (k : nat) (inputs : list Param) : list ColumnDef :=
  imap (fun i p => event_column (k + i) p) inputs.

Lemma columns_from_cons k p inputs : columns_from k (p :: inputs) = event_column k p :: columns_from (S k) inputs.
Proof.
  unfold columns_from. rewrite imap_cons. f_equal; [f_equal; lia|]. apply imap_ext. intros i x _. cbn. f_equal. lia.
Qed.

Lemma topic_value_typed k p v :
  plain_param p -> ep_indexed p = true -> topic_typed (ep_ty p) v ->
  bound_type (if c_indexed_hash (event_column k p) then VHash (to_hash v) else to_value json_text v)
  = pg_type (c_ty (event_column k p)).
Proof.
  intros [Hf Ht] Hi Hv. unfold event_column. rewrite Hi. cbn [andb]. unfold topic_typed in Hv.
  destruct (is_dynamic (ep_ty p)); [done|]. cbn in Hv |- *.
  destruct (String.eqb_spec (ep_ty p) "tuple"); [by destruct Ht|]. by apply to_value_typed.
Qed.

(** One field per column, of its name, and of its type when the parameters are plain. *)
Lemma event_fields_typed k inputs ix body :
  Forall2 topic_typed (ep_ty <$> filter (fun p => ep_indexed p = true) inputs) ix ->
  Forall2 sol_typed (ep_ty <$> filter (fun p => ep_indexed p = false) inputs) body ->
  exists fs, event_fields json_text (columns_from k inputs) inputs ix body = Done (Ok fs)
    /\ fs.*1 = c_name <$> columns_from k inputs
    /\ (Forall plain_param inputs ->
        Forall2 (fun f c => bound_type f.2 = pg_type (c_ty c)) fs (columns_from k inputs)).
Proof.
  revert k ix body. induction inputs as [|p inputs IH]; intros k ix body Hi Hb.
  { exists []. cbn. split_and!; [done|done|by constructor]. }
  rewrite columns_from_cons. cbn [event_fields]. rewrite filter_cons in Hi, Hb.
  destruct (ep_indexed p) eqn:Ep; cbn in Hi, Hb.
  - inversion Hi as [|t v ts ix' Hv Hi']; subst. destruct (IH (S k) ix' body Hi' Hb) as (fs & -> & Hn & Ht).
    eexists. split; [done|]. cbn. rewrite Hn. split; [done|]. intros [Hp Hps]%Forall_cons.
    constructor; [by apply topic_value_typed|auto].
  - inversion Hb as [|t v ts body' Hv Hb']; subst. destruct (IH (S k) ix body' Hi Hb') as (fs & -> & Hn & Ht).
    eexists. split; [done|]. cbn. rewrite Hn. split; [done|]. intros [Hp Hps]%Forall_cons.
    constructor; [|auto]. cbn. unfold event_column. rewrite Ep. cbn. apply to_value_typed; [done|]. by destruct Hp.
Qed.
End typed.

(** * The index *)

Section index.
Context (parse_abi : string -> result string JsonAbi).
Context (event_selector : AbiEvent -> bytes) (function_selector : AbiFunction -> bytes).

(** Every entry is keyed by its event's selector and carries that event's schema. *)
Definition entries_ok (idx : AbiIndex) : Prop := forall k e, by_topic0 idx !! k = Some e ->
  k = event_selector (en_event e) /\ exists t, en_schema e = schema_for (en_event e) k t.

Lemma add_events_ok spec evs m :
  (forall k e, m !! k = Some e -> k = event_selector (en_event e) /\ exists t, en_schema e = schema_for (en_event e) k t) ->
  forall k e, fold_left (add_event event_selector spec) evs m !! k = Some e ->
    k = event_selector (en_event e) /\ exists t, en_schema e = schema_for (en_event e) k t.
Proof.
  revert m. induction evs as [|ev evs IH]; intros m Hm; [done|]. cbn. apply IH. intros k e.
  unfold add_event. destruct (_ && _); [apply Hm|].
  destruct (decide (k = event_selector ev)) as [->|Hne].
  - rewrite lookup_insert_eq. intros [= <-]. cbn. eauto.
  - rewrite lookup_insert_ne by done. apply Hm.
Qed.

Lemma build_entries_ok specs idx : build parse_abi event_selector function_selector specs = Ok idx -> entries_ok idx.
Proof.
  unfold build. assert (entries_ok (mkAbiIndex ∅ ∅)) as H0.
  { intros k e H. cbn in H. by rewrite lookup_empty in H. }
  revert H0. generalize (mkAbiIndex ∅ ∅). induction specs as [|spec specs IH]; intros i0 H0; cbn.
  { by intros [= <-]. }
  destruct (parse_abi _) as [abi|e]; [|done]. cbn. apply IH. unfold entries_ok. cbn. by apply add_events_ok.
Qed.

(** Every entry is of an event of one of the ABIs that its contract selects. *)
Lemma build_events specs idx k e :
  build parse_abi event_selector function_selector specs = Ok idx -> by_topic0 idx !! k = Some e ->
  exists spec abi, spec ∈ specs /\ parse_abi (sp_abi_json spec) = Ok abi /\ en_event e ∈ ja_events abi
    /\ (sp_events spec = [] \/ ae_name (en_event e) ∈ sp_events spec).
Proof.
  unfold build. assert (forall e0 : Entry, by_topic0 (mkAbiIndex ∅ ∅) !! k = Some e0 -> False) as H0.
  { intros e0 H. cbn in H. by rewrite lookup_empty in H. }
  assert (forall idx0, build_from parse_abi event_selector function_selector specs idx0 = Ok idx -> by_topic0 idx !! k = Some e ->
    by_topic0 idx0 !! k = Some e \/ exists spec abi, spec ∈ specs /\ parse_abi (sp_abi_json spec) = Ok abi
      /\ en_event e ∈ ja_events abi /\ (sp_events spec = [] \/ ae_name (en_event e) ∈ sp_events spec)) as H.
  { clear H0. induction specs as [|spec specs IH]; intros idx0; cbn; [intros [= <-]; by left|].
    destruct (parse_abi _) as [abi|] eqn:Ea; [|done]. cbn. intros Hb Hk.
    destruct (IH _ Hb Hk) as [Hm|(spec' & abi' & ? & ?)]; [|right; exists spec', abi'; split; [by right|done]].
    cbn in Hm. clear IH Hb Hk. assert (forall evs, (forall ev, ev ∈ evs -> ev ∈ ja_events abi) -> forall m,
      fold_left (add_event event_selector spec) evs m !! k = Some e -> m !! k = Some e \/ en_event e ∈ evs
        /\ (sp_events spec = [] \/ ae_name (en_event e) ∈ sp_events spec)) as Hf.
    { clear. induction evs as [|ev evs IH]; intros Hevs m; cbn; [by left|]. intros H.
      destruct (IH ltac:(intros; apply Hevs; by right) _ H) as [Hm|[? ?]]; [|right; split; [by right|done]].
      unfold add_event in Hm. repeat case_bool_decide; cbn in Hm; try (by left);
        (destruct (decide (k = event_selector ev)) as [->|Hne];
         [rewrite lookup_insert_eq in Hm; injection Hm as <-; right; split; [left|by auto]
         |rewrite lookup_insert_ne in Hm by done; by left]). }
    destruct (Hf (ja_events abi) ltac:(done) _ Hm) as [?|[? ?]]; [by left|]. right. exists spec, abi. split; [left|done]. }
  intros Hb Hk. destruct (H _ Hb Hk) as [He|?]; [|done]. by destruct (H0 _ He).
Qed.
End index.


(** * Samples: an ABI library that knows one event *)

#[export] Instance Param_eq : EqDecision Param.
Proof. solve_decision. Defined.

Definition sample_parse (_ : string) : result string JsonAbi := Ok (mkJsonAbi [transfer_event] []).
Definition sample_selector (_ : AbiEvent) : bytes := repeat (byte_of 221) 32.
Definition sample_fn_selector (_ : AbiFunction) : bytes := repeat (byte_of 9) 4.
Definition sample_dlp (ev : AbiEvent) (_ : list bytes) (_ : bytes) :
    result string (list DynSolValue * list DynSolValue) :=
  if bool_decide (ae_inputs ev = ae_inputs transfer_event)
  then Ok ([SAddress [byte_of 1]; SAddress [byte_of 2]], [SUint 100 256])
  else Err "type mismatch".

#[export] Instance sample_dlp_ok : LogDecoder sample_dlp.
Proof.
  intros ev topics data ix body H. unfold sample_dlp in H. case_bool_decide as E; [|done].
  injection H as <- <-. rewrite E. split; vm_compute; repeat constructor; try done; lia.
Qed.

Definition contract (prefix : string) : ContractSpec :=
  mkContractSpec EmptyString [] [] (repeat (byte_of 3) 20) prefix None.
Definition transfer_raw : RawRecord :=
  mkRawRecord 1 10 [] 4 (repeat (byte_of 3) 20) (repeat (repeat (byte_of 221) 32) 3) [] [byte_of 6] 0 None.
Definition sample_index : AbiIndex :=
  match build sample_parse sample_selector sample_fn_selector [contract "token"] with
  | Ok i => i
  | Err _ => mkAbiIndex ∅ ∅
  end.


(** Limits of the schema builder and of the index.  An indexed struct is a hash, bound as [bytea],
    in a column declared [jsonb]; a function-typed parameter is bound as [jsonb] in a [bytea]
    column; and two contracts with the same event share one index entry, so the rows of both go to
    the table of the contract configured last. *)
Theorem abi_index_limits (w f : bytes) (json_text : Json -> string) :
  (let p := mkParam "order" "tuple" true in
   topic_typed (ep_ty p) (SFixedBytes w 32)
   /\ bound_type (to_value json_text (SFixedBytes w 32)) = "bytea" /\ pg_type (c_ty (event_column 0 p)) = "jsonb")
  /\ (let p := mkParam "cb" "function" false in
      sol_typed (ep_ty p) (SFunction f)
      /\ bound_type (to_value json_text (SFunction f)) = "jsonb" /\ pg_type (c_ty (event_column 0 p)) = "bytea")
  /\ (exists idx, build sample_parse sample_selector sample_fn_selector [contract "a"; contract "b"] = Ok idx
      /\ es_table <$> schemas keep_order idx = ["evt_b_transfer"]).
Proof.
  split; [|split].
  - split; [cbn; eauto|done].
  - done.
  - eexists. split; [by vm_compute|by vm_compute].
Qed.
