(* ===== verification/Api.v ===== *)
(** The GraphQL layer ([crates/api/src/graphql]): argument lowering, the row and connection resolvers
    and the scalar mapping.  Parsing and validating GraphQL documents is the library's; arguments
    arrive here with their declared types. *)
From S2P Require Import Prelude Model Text Schema Store Query QueryFacts Cache Abi.

Definition BIG_INT : string := "BigInt".
Definition JSON_SCALAR : string := "JSON".

(** * Scalars ([scalars.rs]) *)

(** A named type and whether it is non-null. *)
Record TypeRef := mkTypeRef { tr_name : string; tr_non_null : bool }.

Definition type_ref (ty : ColumnType) (nn : bool) : TypeRef :=
  mkTypeRef (match ty with
             | CBool => "Boolean"
             | CUInt _ | CInt _ | CInt64 => BIG_INT
             | CJson => JSON_SCALAR
             | _ => "String"
             end) nn.

Inductive GqlValue : Type :=
| GBoolean (b : bool)
| GString (s : string)
| GJson (v : Json).

(** [json_text] is [serde_json]'s printer. *)
Definition to_gql (json_text : Json -> string) (ty : ColumnType) (v : Json) : GqlValue :=
  match ty with
  | CBool => GBoolean (match v with JBool b => b | _ => false end)
  | CJson => GJson v
  | _ => GString (match v with JString s => s | other => json_text other end)
  end.

(** * Rows ([row.rs]) *)

(** [parent.get(&key)]: the last of equal keys is the one kept. *)
Definition json_get (key : string) (v : Json) : option Json :=
  match v with
  | JObject fields => snd <$> (snd <$> list_find (fun kv : string * Json => kv.1 = key) (reverse fields))
  | _ => None
  end.

Definition json_field (json_text : Json -> string) (key : string) (ty : ColumnType) (parent : Json) : option GqlValue :=
  match json_get key parent with
  | None | Some JNull => None
  | Some v => Some (to_gql json_text ty v)
  end.

Definition nested_field (key : string) (parent : Json) : option Json :=
  match json_get key parent with
  | Some (JObject o) => Some (JObject o)
  | _ => None
  end.

(** The fields of a table's object: scalars with their types, and the nested objects. *)
Definition row_object (s : EventSchema) (is_event : bool) (has_type : string -> bool) :
    list (string * TypeRef) :=
  [("chain_id", type_ref CInt64 true); ("height", type_ref CInt64 true); ("block_hash", type_ref CBytes true);
   ("block_time", type_ref CTimestamp false); ("tx_id", type_ref CBytes true)]
  ++ (if table_has_idx (es_table s) then [("idx", type_ref CInt64 true)] else [])
  ++ ((fun c => (c_name c, type_ref (c_ty c) false)) <$> es_columns s)
  ++ (if is_event then
        (if has_type "transactions" then [("transaction", mkTypeRef "transactions" false)] else [])
        ++ (if has_type "receipts" then [("receipt", mkTypeRef "receipts" false)] else [])
      else []).

(** * Inputs ([inputs.rs]) *)

Definition parse_op (s : string) : FilterOp :=
  if String.eqb s "NE" then OpNe
  else if String.eqb s "GT" then OpGt
  else if String.eqb s "GTE" then OpGte
  else if String.eqb s "LT" then OpLt
  else if String.eqb s "LTE" then OpLte
  else OpEq.

(** * Query fields ([query.rs]) *)

Record WhereArg := mkWhereArg { wa_column : string; wa_op : option string; wa_value : string }.

Record Args := mkArgs {
  ar_first : option Z;
  ar_after : option string;
  ar_chain_id : option Z;
  ar_from_height : option Z;
  ar_to_height : option Z;
  ar_order_by : option string;
  ar_where : list WhereArg
}.

Definition eq_filter (column : string) (op : FilterOp) (value : Z) : Filter := mkFilter column op (show value).

(** [v.max(1) as u32]. *)
Definition first_arg (first : option Z) : Z := Z.max 1 (default 100 first) mod U32.

Definition filters_of (a : Args) : list Filter :=
  option_list (eq_filter "chain_id" OpEq <$> ar_chain_id a)
  ++ option_list (eq_filter "height" OpGte <$> ar_from_height a)
  ++ option_list (eq_filter "height" OpLte <$> ar_to_height a)
  ++ ((fun w => mkFilter (wa_column w) (match wa_op w with Some o => parse_op o | None => OpEq end) (wa_value w))
        <$> ar_where a).

(** [sel_tx] and [sel_receipt]: the selection has [nodes.transaction], [nodes.receipt]. *)
Definition spec_of (table : string) (is_event sel_tx sel_receipt : bool) (a : Args) : QuerySpec :=
  mkQuerySpec table (filters_of a) [] (first_arg (ar_first a)) (ar_after a) (is_event && sel_tx)
    (is_event && sel_receipt) (match ar_order_by a with Some o => String.eqb o "DESC" | None => false end).

(** * Connections ([connection.rs]) *)

Record ConnData := mkConnData {
  cn_rows : list Json;
  cn_end_cursor : option string;
  cn_has_next : bool;
  cn_spec : QuerySpec
}.

Definition conn_name (table : string) : string := table +:+ "_connection".

Section resolve.
Context (reader : QueryRepo) (parse_json : string -> option Json).

(** The resolver of a query field. *)
Definition query_field (now : Z) (table : string) (is_event sel_tx sel_receipt : bool) (a : Args) :
    result DomainError ConnData :=
  let spec := spec_of table is_event sel_tx sel_receipt a in
  let? page := rq_query reader now spec in
  Ok (mkConnData ((fun s => default JNull (parse_json s)) <$> p_items page) (p_end_cursor page) (p_has_next page) spec).

Definition total_count (now : Z) (c : ConnData) : result DomainError string :=
  let? n := rq_count reader now (cn_spec c) in Ok (show n).
End resolve.

(** The tables with a query field, and their types ([build_schema]). *)
Definition query_fields (schemas : list EventSchema) : list (string * bool) :=
  omap (fun s => if table_has_idx (es_table s) then Some (es_table s, bool_decide (is_Some (es_topic0 s))) else None) schemas.

(** * Theorems *)

Lemma parse_i64_show z : is_i64 z -> parse_i64 (show z) = Some z.
Proof.
  intros H. unfold parse_i64, show. rewrite to_list_of_list. unfold is_i64, I63 in *. apply parse_int_show; lia.
Qed.

(** A shortcut argument compiles to the predicate it names. *)
Lemma shortcut_filter tables table column op z :
  meta_col_type column = Some CInt64 -> is_i64 z ->
  build_filter tables table (eq_filter column op z) = Ok (mkCond column op EmptyString (BInt z)).
Proof.
  intros Hm Hz. unfold build_filter, col_type. cbn [f_column eq_filter f_value f_op]. rewrite Hm. cbn.
  by rewrite parse_i64_show.
Qed.

(** A client of the field that follows [endCursor] while [hasNext]: the connections it gets ([None] when
    the fuel runs out). Its requests are made at the instants [clock]. *)
Definition with_after_arg (a : Args) (after : option string) : Args :=
  mkArgs (ar_first a) after (ar_chain_id a) (ar_from_height a) (ar_to_height a) (ar_order_by a) (ar_where a).

Section following.
Context (reader : QueryRepo) (parse_json : string -> option Json) (clock : nat -> Z).
Context (table : string) (is_event sel_tx sel_receipt : bool).

Fixpoint follow_field (fuel : nat) (a : Args) : result DomainError (option (list ConnData)) :=
  match fuel with
  | O => Ok None
  | S fuel' =>
      let? conn := query_field reader parse_json (clock fuel) table is_event sel_tx sel_receipt a in
      if cn_has_next conn then
        let? rest := follow_field fuel' (with_after_arg a (cn_end_cursor conn)) in
        Ok (cons conn <$> rest)
      else Ok (Some [conn])
  end.
End following.

Section complete.
Context (tables : gmap string (list (string * ColumnType))) (pg : Postgres).
Context (project : list (string * ColumnType) -> list Nested -> TypedRow -> string).
Context (parse_json : string -> option Json) (clock : nat -> Z).
Context (rows_at : Z -> string -> list TypedRow) (rows : list TypedRow).
Context (table : string) (is_event sel_tx sel_receipt : bool).
Context (Hrows : forall t, rows_at t table = rows).

Abbreviation reader := (pg_repo tables pg project rows_at).
Abbreviation node_of := (fun s : string => default JNull (parse_json s)).
Abbreviation spec := (spec_of table is_event sel_tx sel_receipt).

Lemma query_length rs s p :
  query tables pg project rs s = Ok p -> Z.of_nat (length (p_items p)) <= clamp_first (q_first s).
Proof.
  unfold query. destruct (query_select tables s) as [sel|]; [|done]. cbn [res_bind].
  destruct (pg_answer pg (se_conds sel)) as [[]|]; [|done]. intros [= <-]. cbn [p_items].
  rewrite length_fmap, length_take. unfold clamp_first. lia.
Qed.

(** The connections of the field are the pages of the repository. *)
Lemma follow_field_pages n fuel a items :
  count tables pg rows (spec a) = Ok n ->
  all_pages tables pg project fuel rows (spec a) = Ok (Some items) ->
  exists conns, follow_field reader parse_json clock table is_event sel_tx sel_receipt fuel a = Ok (Some conns)
    /\ concat (cn_rows <$> conns) = node_of <$> items
    /\ Forall (fun c => (forall t, total_count reader t c = Ok (show n))
                        /\ Z.of_nat (length (cn_rows c)) <= clamp_first (first_arg (ar_first a))) conns.
Proof.
  revert a items. induction fuel as [|fuel IH]; intros a items Hn; [done|].
  cbn [all_pages follow_field]. unfold query_field. cbn [rq_query pg_repo q_table spec_of]. rewrite Hrows.
  destruct (query tables pg project rows (spec a)) as [p|e] eqn:Eq; cbn [res_bind]; [|done].
  pose proof (query_length _ _ _ Eq) as Hlen. cbn [cn_has_next cn_end_cursor].
  set (conn := mkConnData _ _ _ _).
  assert ((forall t, total_count reader t conn = Ok (show n))
          /\ Z.of_nat (length (cn_rows conn)) <= clamp_first (first_arg (ar_first a))) as Hc.
  { split; [|by cbn; rewrite length_fmap]. intros t. unfold total_count. cbn [rq_count pg_repo].
    subst conn. cbn [cn_spec q_table spec_of]. by rewrite Hrows, Hn. }
  destruct (p_has_next p).
  - change (with_after (spec a) (p_end_cursor p)) with (spec (with_after_arg a (p_end_cursor p))).
    destruct (all_pages _ _ _ _ _ _) as [[rest|]|] eqn:Er; [|done..]. intros [= <-].
    destruct (IH (with_after_arg a (p_end_cursor p)) rest Hn Er) as (conns & -> & Hcs & Hall).
    exists (conn :: conns). split_and!; [done|cbn; by rewrite Hcs, fmap_app|by constructor].
  - intros [= <-]. exists [conn]. split_and!; [done|cbn; by rewrite app_nil_r|constructor; [done|constructor]].
Qed.
End complete.


Definition chain_args : Args := mkArgs (Some 2) None (Some 1) None None (Some "DESC") [].
Definition sample_json (s : string) : option Json := Some (JString s).

