(* ===== verification/GraphqlSchema.v ===== *)
(** The dynamic GraphQL schema ([crates/api/src/graphql/mod.rs], [connection.rs], [inputs.rs]) and the server
    around it ([crates/api/src/server.rs]): the types registered for the configured tables.  A field is its
    name, its type and its arguments; the resolvers are in [Api]. *)
From S2P Require Import Prelude Model Text Schema SchemaFacts Store Query QueryFacts Cache Abi Api.

Definition FILTER_INPUT : string := "FilterInput".
Definition OP_ENUM : string := "Op".
Definition ORDER_ENUM : string := "OrderDir".

(** [dynamic::TypeRef]. *)
Inductive GType : Type :=
| Named (name : string)
| NonNull (t : GType)
| ListOf (t : GType).

Fixpoint base_name (t : GType) : string :=
  match t with Named n => n | NonNull t | ListOf t => base_name t end.

Record FieldDef := mkFieldDef { fd_name : string; fd_type : GType; fd_args : list (string * GType) }.

Inductive TypeDef : Type :=
| TScalar (name : string)
| TEnum (name : string) (items : list string)
| TInput (name : string) (fields : list (string * GType))
| TObject (name : string) (fields : list FieldDef).

Definition type_name (t : TypeDef) : string :=
  match t with TScalar n | TEnum n _ | TInput n _ | TObject n _ => n end.

(** ** Inputs ([inputs.rs]) *)

Definition op_enum : TypeDef := TEnum OP_ENUM ["EQ"; "NE"; "GT"; "GTE"; "LT"; "LTE"].
Definition order_enum : TypeDef := TEnum ORDER_ENUM ["ASC"; "DESC"].
Definition filter_input : TypeDef :=
  TInput FILTER_INPUT [("column", NonNull (Named "String")); ("op", Named OP_ENUM); ("value", NonNull (Named "String"))].

(** ** Objects *)

Definition gtype_of (t : TypeRef) : GType := if tr_non_null t then NonNull (Named (tr_name t)) else Named (tr_name t).

(** A table's object, from its fields in [Api.row_object]. *)
Definition row_type (s : EventSchema) (is_event : bool) (has_type : string -> bool) : TypeDef :=
  TObject (es_table s) ((fun f => mkFieldDef f.1 (gtype_of f.2) []) <$> row_object s is_event has_type).

Definition connection_object (table : string) : TypeDef :=
  TObject (conn_name table)
    [mkFieldDef "nodes" (NonNull (ListOf (NonNull (Named table)))) [];
     mkFieldDef "endCursor" (Named "String") [];
     mkFieldDef "hasNext" (NonNull (Named "Boolean")) [];
     mkFieldDef "totalCount" (Named BIG_INT) []].

Definition query_args : list (string * GType) :=
  [("first", Named "Int"); ("after", Named "String"); ("chainId", Named "Int"); ("fromHeight", Named "Int");
   ("toHeight", Named "Int"); ("orderBy", Named ORDER_ENUM); ("where", ListOf (NonNull (Named FILTER_INPUT)))].

Definition query_field_def (table : string) : FieldDef := mkFieldDef table (Named (conn_name table)) query_args.

(** ** The schema ([mod.rs]) *)

Record GqlSchema := mkGqlSchema { gs_types : list TypeDef; gs_max_complexity : Z; gs_max_depth : Z }.

Definition has_type (schemas : list EventSchema) (t : string) : bool :=
  existsb (fun s => String.eqb (es_table s) t) schemas.

(** What the loop registers for one table. *)
Definition table_types (schemas : list EventSchema) (s : EventSchema) : list TypeDef :=
  let is_event := bool_decide (is_Some (es_topic0 s)) in
  row_type s is_event (has_type schemas) :: (if table_has_idx (es_table s) then [connection_object (es_table s)] else []).

Definition query_object (schemas : list EventSchema) : TypeDef :=
  TObject "Query" (omap (fun s => if table_has_idx (es_table s) then Some (query_field_def (es_table s)) else None) schemas).

Definition build_schema (schemas : list EventSchema) (max_complexity max_depth : Z) : GqlSchema :=
  mkGqlSchema
    ([TScalar BIG_INT; TScalar JSON_SCALAR; op_enum; order_enum; filter_input]
     ++ concat (table_types schemas <$> schemas) ++ [query_object schemas])
    max_complexity max_depth.

(** ** The server ([server.rs]) *)

Record GraphqlApiServer := mkGraphqlApiServer { sv_schemas : list EventSchema; sv_max_complexity : Z; sv_max_depth : Z }.

Definition server_new (schemas : list EventSchema) : GraphqlApiServer := mkGraphqlApiServer schemas 2000 16.

(** The one route.  [get] also answers HEAD requests, without the body; other methods of the path are not allowed. *)
Inductive HttpMethod : Type := HGet | HHead | HPost | HMethod (name : string).
Record Response := mkResponse { rp_status : Z; rp_body : string }.

Section routes.
(** The page of the playground for an endpoint, and the GraphQL service on a request body. *)
Context (playground_source : string -> string) (graphql : GqlSchema -> string -> Response).

Definition playground : string := playground_source "/graphql".

Definition app (schema : GqlSchema) (method : HttpMethod) (path body : string) : Response :=
  if negb (String.eqb path "/graphql") then mkResponse 404 EmptyString
  else match method with
       | HGet => mkResponse 200 playground
       | HHead => mkResponse 200 EmptyString
       | HPost => graphql schema body
       | HMethod _ => mkResponse 405 EmptyString
       end.
End routes.

Section serve.
(** The library's check of a schema, binding the listener, and serving until shutdown. *)
Context (finish : GqlSchema -> result string ()) (bind : string -> result string ()) (axum_serve : GqlSchema -> result string ()).

Definition serve (srv : GraphqlApiServer) (addr : string) : result DomainError () :=
  let schema := build_schema (sv_schemas srv) (sv_max_complexity srv) (sv_max_depth srv) in
  let? _ := res_map_err (fun e => EInvalid ("graphql schema: " +:+ e)) (finish schema) in
  let? _ := res_map_err (fun e => EInvalid ("bind " +:+ addr +:+ ": " +:+ e)) (bind addr) in
  let? _ := res_map_err (fun e => EInvalid ("serve: " +:+ e)) (axum_serve schema) in
  Ok tt.
End serve.

(** * Well-formedness *)

Definition field_names (t : TypeDef) : list string :=
  match t with
  | TScalar _ => []
  | TEnum _ items => items
  | TInput _ fields => fields.*1
  | TObject _ fields => fd_name <$> fields
  end.

(** The types a definition refers to. *)
Definition refs (t : TypeDef) : list string :=
  match t with
  | TScalar _ | TEnum _ _ => []
  | TInput _ fields => base_name <$> fields.*2
  | TObject _ fields => concat ((fun f => base_name (fd_type f) :: (base_name <$> (fd_args f).*2)) <$> fields)
  end.

Definition builtins : list string := ["String"; "Int"; "Boolean"].

(** What the dynamic API asks for: type names and the fields of a type are distinct, and every type a
    field or argument names is registered or built in. *)
Record gql_wf (types : list TypeDef) : Prop := mkGqlWf {
  gw_names : NoDup (type_name <$> types);
  gw_fields : forall t, t ∈ types -> NoDup (field_names t);
  gw_refs : forall t n, t ∈ types -> n ∈ refs t -> n ∈ builtins \/ n ∈ type_name <$> types
}.

(** Schemas whose objects do not clash: distinct safe tables, none with the name of another's connection,
    distinct columns that avoid the meta columns and, on event tables, the nested objects' names. *)
Record servable (schemas : list EventSchema) : Prop := mkServable {
  sb_tables : NoDup (es_table <$> schemas);
  sb_idents : forall s, s ∈ schemas -> is_valid_ident (es_table s) = true;
  sb_conns : forall s1 s2, s1 ∈ schemas -> s2 ∈ schemas -> es_table s1 <> conn_name (es_table s2);
  sb_columns : forall s, s ∈ schemas -> NoDup (names s);
  sb_nested : forall s c, s ∈ schemas -> is_Some (es_topic0 s) -> c ∈ es_columns s -> c_name c ∉ ["transaction"; "receipt"]
}.

(** ** Names *)

(** Safe identifiers have no capitals, the fixed types do. *)
Definition lower (n : string) : bool := forallb ident_byte (to_list n).

Definition fixed : list TypeDef := [TScalar BIG_INT; TScalar JSON_SCALAR; op_enum; order_enum; filter_input].

Lemma ident_lower n : is_valid_ident n = true -> lower n = true.
Proof.
  unfold is_valid_ident, lower. destruct (to_list n) as [|b l]; [done|]. cbv zeta. rewrite !andb_true_iff. by intros [[_ ?] _].
Qed.

Lemma conn_lower n : lower n = true -> lower (conn_name n) = true.
Proof. unfold lower, conn_name. rewrite to_list_app, forallb_app. by intros ->. Qed.

Lemma conn_name_inj a b : conn_name a = conn_name b -> a = b.
Proof.
  unfold conn_name. intros E. apply (f_equal to_list) in E. rewrite !to_list_app in E. apply app_inv_tail in E.
  apply (f_equal of_list) in E. by rewrite !Stdlib.Strings.String.string_of_list_ascii_of_string in E.
Qed.

Section wf.
Context (schemas : list EventSchema) (Hs : servable schemas).

Lemma table_name_elem (l : list EventSchema) n :
  n ∈ concat ((fun s => type_name <$> table_types schemas s) <$> l) <->
  exists s, s ∈ l /\ (n = es_table s \/ n = conn_name (es_table s) /\ table_has_idx (es_table s) = true).
Proof.
  rewrite list_elem_of_In, in_concat. split.
  - intros (k & Hk & Hn). apply list_elem_of_In in Hk, Hn. apply list_elem_of_fmap in Hk as (s & -> & Hin). exists s. split; [done|].
    unfold table_types in Hn. cbn in Hn. destruct (table_has_idx (es_table s)); cbn in Hn; set_solver.
  - intros (s & Hin & Hn). exists (type_name <$> table_types schemas s). split.
    + apply list_elem_of_In, list_elem_of_fmap. eauto.
    + apply list_elem_of_In. unfold table_types. cbn. destruct Hn as [-> | [-> ->]]; cbn; [left|right; left].
Qed.

Lemma table_names_NoDup l :
  (forall s, s ∈ l -> s ∈ schemas) -> NoDup (es_table <$> l) ->
  NoDup (concat ((fun s => type_name <$> table_types schemas s) <$> l)).
Proof.
  induction l as [|s l IH]; intros Hin Hn; [constructor|]. rewrite fmap_cons in Hn. apply NoDup_cons in Hn as [Hni Hn].
  rewrite fmap_cons. cbn [concat]. assert (s ∈ schemas) as Hss by (apply Hin; left).
  apply NoDup_app. split; [|split; [|apply IH; [intros; apply Hin; by right|done]]].
  - unfold table_types. cbn. destruct (table_has_idx _); cbn; [|by apply NoDup_singleton].
    apply NoDup_cons. split; [|by apply NoDup_singleton]. intros E%list_elem_of_singleton. by apply (sb_conns _ Hs s s).
  - intros n Hn1 (s' & Hs' & Hn2)%table_name_elem. assert (s' ∈ schemas) as Hss' by (apply Hin; by right).
    assert (n ∈ concat ((fun s => type_name <$> table_types schemas s) <$> [s])) as Hn1' by (cbn; by rewrite app_nil_r).
    apply table_name_elem in Hn1' as (s0 & ->%list_elem_of_singleton & Hn0).
    assert (es_table s <> es_table s') as Hne by (intros E; apply Hni; rewrite E; apply list_elem_of_fmap; eauto).
    destruct Hn0 as [-> | [-> _]], Hn2 as [E | [E _]].
    + done.
    + by apply (sb_conns _ Hs s s').
    + by apply (sb_conns _ Hs s' s).
    + by apply conn_name_inj in E.
Qed.

Lemma table_name_lower n :
  n ∈ concat ((fun s => type_name <$> table_types schemas s) <$> schemas) -> lower n = true.
Proof.
  intros (s & Hin & Hn)%table_name_elem. pose proof (ident_lower _ (sb_idents _ Hs s Hin)).
  destruct Hn as [-> | [-> _]]; [done|by apply conn_lower].
Qed.

Lemma type_names :
  type_name <$> gs_types (build_schema schemas 0 0)
  = (type_name <$> fixed) ++ concat ((fun s => type_name <$> table_types schemas s) <$> schemas) ++ ["Query"].
Proof.
  cbn [gs_types build_schema]. rewrite !fmap_app. f_equal. f_equal.
  assert (forall l, type_name <$> concat (table_types schemas <$> l) = concat ((fun s => type_name <$> table_types schemas s) <$> l))
    as E; [|apply E].
  induction l as [|s l IH]; [done|]. rewrite !fmap_cons. cbn [concat]. by rewrite fmap_app, IH.
Qed.

Lemma schema_names_NoDup : NoDup (type_name <$> gs_types (build_schema schemas 0 0)).
Proof.
  rewrite type_names. assert (Forall (fun n => lower n = false) (type_name <$> fixed)) as Hf by (by apply (bool_decide_unpack _)).
  rewrite Forall_forall in Hf. apply NoDup_app. split; [by apply (bool_decide_unpack _)|]. split.
  - intros n Hn [H%table_name_lower | ->%list_elem_of_singleton]%elem_of_app; [by rewrite (Hf n Hn) in H|].
    revert Hn. by apply (bool_decide_unpack _).
  - apply NoDup_app. split; [by apply table_names_NoDup; [|apply Hs]|]. split; [|by apply NoDup_singleton].
    intros n H%table_name_lower ->%list_elem_of_singleton. done.
Qed.

(** ** Fields *)

Definition nested_names (is_event tx receipts : bool) : list string :=
  if is_event then (if tx then ["transaction"] else []) ++ (if receipts then ["receipt"] else []) else [].

Lemma row_names s is_event h :
  (row_object s is_event h).*1 = names s ++ nested_names is_event (h "transactions") (h "receipts").
Proof.
  unfold row_object, names, all_cols, typed_cols, nested_names. rewrite !fmap_app, <- !list_fmap_compose, <- !app_assoc.
  f_equal. f_equal; [by destruct (table_has_idx _)|]. f_equal. destruct is_event; [|done]. rewrite fmap_app.
  f_equal; by destruct (h _).
Qed.

Lemma row_fields_NoDup s : s ∈ schemas ->
  NoDup (field_names (row_type s (bool_decide (is_Some (es_topic0 s))) (has_type schemas))).
Proof.
  intros Hin. unfold row_type. cbn [field_names]. rewrite <- list_fmap_compose.
  assert (forall l : list (string * TypeRef), (fd_name ∘ (fun f => mkFieldDef f.1 (gtype_of f.2) [])) <$> l = l.*1) as -> by done.
  rewrite row_names. apply NoDup_app. split; [by apply Hs|split].
  - intros n Hn Hnest. unfold nested_names in Hnest. case_bool_decide as Hev; [|by apply not_elem_of_nil in Hnest].
    assert (n ∈ ["transaction"; "receipt"]) as Hnn
      by (destruct (has_type _ "transactions"), (has_type _ "receipts"); cbn in Hnest; set_solver).
    unfold names, all_cols, typed_cols in Hn. rewrite !fmap_app, !elem_of_app in Hn. destruct Hn as [Hn|[Hn|Hn]].
    + revert Hn Hnn. cbn. set_solver.
    + destruct (table_has_idx _); cbn in Hn; set_solver.
    + rewrite <- list_fmap_compose in Hn. apply list_elem_of_fmap in Hn as (c & -> & Hc). by apply (sb_nested _ Hs s c Hin Hev Hc).
  - unfold nested_names. case_bool_decide; [|constructor].
    destruct (has_type _ "transactions"), (has_type _ "receipts"); apply (bool_decide_unpack _); by vm_compute.
Qed.

Lemma query_fields_NoDup : NoDup (field_names (query_object schemas)).
Proof.
  cbn. eapply (sublist_NoDup _ (es_table <$> schemas)); [apply Hs|]. clear Hs. induction schemas as [|s l IH]; [constructor|].
  cbn. destruct (table_has_idx _); cbn; by constructor.
Qed.

(** ** References *)

Lemma type_elem t : t ∈ gs_types (build_schema schemas 0 0) ->
  t ∈ fixed \/ (exists s, s ∈ schemas /\ t ∈ table_types schemas s) \/ t = query_object schemas.
Proof.
  cbn [gs_types build_schema]. rewrite !elem_of_app. intros [H|[H|H]]; [by left| |right; right; by apply list_elem_of_singleton in H].
  right. left. apply list_elem_of_In, in_concat in H as (l & Hl & Ht). apply list_elem_of_In in Hl, Ht.
  apply list_elem_of_fmap in Hl as (s & -> & ?). eauto.
Qed.

Definition known (n : string) : Prop := n ∈ builtins \/ n ∈ type_name <$> gs_types (build_schema schemas 0 0).

Lemma fixed_known n : n ∈ type_name <$> fixed -> known n.
Proof. intros H. right. rewrite type_names. apply elem_of_app. by left. Qed.

Lemma table_known s : s ∈ schemas -> known (es_table s).
Proof. intros H. right. rewrite type_names, !elem_of_app. right. left. apply table_name_elem. eauto. Qed.

Lemma conn_known s : s ∈ schemas -> table_has_idx (es_table s) = true -> known (conn_name (es_table s)).
Proof. intros H Hi. right. rewrite type_names, !elem_of_app. right. left. apply table_name_elem. eauto. Qed.

Lemma type_ref_known ty nn : known (base_name (gtype_of (type_ref ty nn))).
Proof.
  assert (base_name (gtype_of (type_ref ty nn)) ∈ ["Boolean"; "String"] ++ [BIG_INT; JSON_SCALAR]) as H.
  { unfold gtype_of. destruct nn, ty; cbn; set_solver. }
  apply elem_of_app in H as [H|H]; [left; revert H; unfold builtins; set_solver|apply fixed_known; revert H; cbn; set_solver].
Qed.

Lemma has_type_known t : has_type schemas t = true -> known t.
Proof.
  unfold has_type. rewrite existsb_exists. intros (s & Hin%list_elem_of_In & <-%String.eqb_eq). by apply table_known.
Qed.

Lemma row_refs_known s is_event n : n ∈ refs (row_type s is_event (has_type schemas)) -> known n.
Proof.
  intros Hn. apply list_elem_of_In, in_concat in Hn as (l & Hl & Hn). apply list_elem_of_In in Hl, Hn.
  apply list_elem_of_fmap in Hl as (f & -> & ([k ty] & -> & Hf)%list_elem_of_fmap). cbn in Hn.
  apply list_elem_of_singleton in Hn as ->. unfold row_object in Hf. rewrite !elem_of_app in Hf.
  assert (forall t, known t -> known (base_name (gtype_of (mkTypeRef t false)))) as Hnest by done.
  destruct Hf as [Hf|[Hf|[Hf|Hf]]].
  - rewrite !elem_of_cons, elem_of_nil in Hf. destruct Hf as [E|[E|[E|[E|[E|[]]]]]]; injection E as _ ->; apply type_ref_known.
  - destruct (table_has_idx _); [|by apply not_elem_of_nil in Hf]. apply list_elem_of_singleton in Hf. injection Hf as _ ->. apply type_ref_known.
  - apply list_elem_of_fmap in Hf as (c & E & _). injection E as _ ->. apply type_ref_known.
  - destruct is_event; [|by apply not_elem_of_nil in Hf]. rewrite elem_of_app in Hf.
    destruct Hf as [Hf|Hf]; (destruct (has_type schemas _) eqn:E in Hf; [|by apply not_elem_of_nil in Hf]);
      apply list_elem_of_singleton in Hf; injection Hf as _ ->; by apply Hnest, has_type_known.
Qed.

Lemma conn_refs_known s n : s ∈ schemas -> n ∈ refs (connection_object (es_table s)) -> known n.
Proof.
  intros Hin Hn. cbn in Hn. rewrite !elem_of_cons, elem_of_nil in Hn. destruct Hn as [->|[->|[->|[->|[]]]]].
  - by apply table_known.
  - left. by apply (bool_decide_unpack _).
  - left. by apply (bool_decide_unpack _).
  - apply fixed_known. by apply (bool_decide_unpack _).
Qed.

Lemma query_refs_known n : n ∈ refs (query_object schemas) -> known n.
Proof.
  intros Hn. apply list_elem_of_In, in_concat in Hn as (l & Hl & Hn). apply list_elem_of_In in Hl, Hn.
  apply list_elem_of_fmap in Hl as (f & -> & (s & Hin & Hf)%list_elem_of_omap).
  destruct (table_has_idx (es_table s)) eqn:Ei; [|done]. injection Hf as <-. cbn [fd_type query_field_def base_name fd_args] in Hn.
  apply elem_of_cons in Hn as [->|Hn]; [by apply conn_known|].
  assert (Forall (fun n => n ∈ builtins ++ (type_name <$> fixed)) (base_name <$> query_args.*2)) as Hq by (by apply (bool_decide_unpack _)).
  rewrite Forall_forall in Hq. apply Hq, elem_of_app in Hn as [Hn|Hn]; [by left|by apply fixed_known].
Qed.

Lemma schema_wf : gql_wf (gs_types (build_schema schemas 0 0)).
Proof.
  split; [apply schema_names_NoDup| |].
  - intros t [Hf|[(s & Hin & Ht)| ->]]%type_elem.
    + assert (Forall (fun t => NoDup (field_names t)) fixed) as Hall by (by apply (bool_decide_unpack _)).
      rewrite Forall_forall in Hall. by apply Hall.
    + unfold table_types in Ht. apply elem_of_cons in Ht as [->|Ht]; [by apply row_fields_NoDup|].
      destruct (table_has_idx _); [|by apply not_elem_of_nil in Ht]. apply list_elem_of_singleton in Ht as ->.
      apply (bool_decide_unpack _). by vm_compute.
    + apply query_fields_NoDup.
  - intros t n [Hf|[(s & Hin & Ht)| ->]]%type_elem Hn.
    + assert (Forall (fun t => Forall (fun n => n ∈ builtins ++ (type_name <$> fixed)) (refs t)) fixed) as Hall
        by (by apply (bool_decide_unpack _)).
      rewrite Forall_forall in Hall. specialize (Hall t Hf). rewrite Forall_forall in Hall.
      apply Hall, elem_of_app in Hn as [?|?]; [by left|by apply fixed_known].
    + unfold table_types in Ht. apply elem_of_cons in Ht as [->|Ht]; [by eapply row_refs_known|].
      destruct (table_has_idx _); [|by apply not_elem_of_nil in Ht]. apply list_elem_of_singleton in Ht as ->.
      by eapply conn_refs_known.
    + by apply query_refs_known.
Qed.
End wf.

(** C25: the schema the server builds from servable tables is well formed: no type is registered twice,
    no object has a field twice, every type a field or an argument names is registered or built in
    (the nested transaction and receipt types appear only where their tables are configured), and the
    query type has a field for exactly the tables with a block position, typed as a connection whose
    [nodes] are the rows of that table. *)
Theorem served_schema_wf (schemas : list EventSchema) (max_complexity max_depth : Z) :
  servable schemas ->
  let types := gs_types (build_schema schemas max_complexity max_depth) in
  gql_wf types
  /\ forall t, (exists fields f, TObject "Query" fields ∈ types /\ f ∈ fields /\ fd_name f = t)
       <-> exists s, s ∈ schemas /\ es_table s = t /\ table_has_idx t = true
             /\ TObject (conn_name t) [mkFieldDef "nodes" (NonNull (ListOf (NonNull (Named t)))) [];
                  mkFieldDef "endCursor" (Named "String") []; mkFieldDef "hasNext" (NonNull (Named "Boolean")) [];
                  mkFieldDef "totalCount" (Named BIG_INT) []] ∈ types.
Proof.
  intros Hs types. change types with (gs_types (build_schema schemas 0 0)). clear types. pose proof (schema_wf schemas Hs) as Hwf.
  split; [done|]. intros t. split.
  - intros (fields & f & Hq & Hf & <-).
    assert (TObject "Query" fields = query_object schemas) as [= ->].
    { eapply NoDup_fmap_same; [apply (gw_names _ Hwf)|done| |done].
      cbn [gs_types build_schema]. rewrite !elem_of_app. right. right. left. }
    apply list_elem_of_omap in Hf as (s & Hin & Hf). destruct (table_has_idx (es_table s)) eqn:Ei; [|done]. injection Hf as <-.
    exists s. split_and!; [done..|]. cbn [gs_types build_schema]. rewrite !elem_of_app. right. left.
    apply list_elem_of_In, in_concat. exists (table_types schemas s). split; [apply list_elem_of_In, list_elem_of_fmap; eauto|].
    apply list_elem_of_In. unfold table_types. rewrite Ei. right. left.
  - intros (s & Hin & <- & Hi & _). eexists _, (query_field_def (es_table s)). split; [|split; [|done]].
    + cbn [gs_types build_schema]. rewrite !elem_of_app. right. right. apply list_elem_of_singleton. reflexivity.
    + apply list_elem_of_omap. exists s. split; [done|]. by rewrite Hi.
Qed.

Definition gql_sample : list EventSchema := desired.

Lemma gql_sample_servable : servable gql_sample.
Proof.
  split.
  - by apply (bool_decide_unpack _).
  - apply Forall_forall. by apply (bool_decide_unpack _).
  - intros s1 s2 H1 H2. assert (Forall (fun s1 => Forall (fun s2 => es_table s1 <> conn_name (es_table s2)) gql_sample) gql_sample) as H
      by (by apply (bool_decide_unpack _)). rewrite Forall_forall in H. specialize (H s1 H1). rewrite Forall_forall in H. auto.
  - apply Forall_forall. by apply (bool_decide_unpack _).
  - intros s c Hs _ Hc. assert (Forall (fun s => Forall (fun c => c_name c ∉ ["transaction"; "receipt"]) (es_columns s)) gql_sample) as H
      by (by apply (bool_decide_unpack _)). rewrite Forall_forall in H. specialize (H s Hs). rewrite Forall_forall in H. auto.
Qed.

Lemma served_schema_wf_witness :
  type_name <$> gs_types (build_schema gql_sample 2000 16)
  = ["BigInt"; "JSON"; "Op"; "OrderDir"; "FilterInput"; "evt_erc20_transfer"; "evt_erc20_transfer_connection";
     "transactions"; "transactions_connection"; "receipts"; "Query"]
  /\ gql_wf (gs_types (build_schema gql_sample 2000 16)).
Proof. split; [by vm_compute|]. apply (served_schema_wf gql_sample 2000 16 gql_sample_servable). Defined.

(** An event whose parameter is named [transaction] gets that field twice: the column and the joined
    transaction. *)
Theorem event_column_clashes_with_join :
  let s := schema_for (mkAbiEvent "Paid" [mkParam "transaction" "bytes32" true]) [] "evt_x_paid" in
  schema_ok s /\ ~ NoDup (row_object s true (fun _ => true)).*1.
Proof. split; [apply (bool_decide_unpack _); by vm_compute|]. apply (bool_decide_unpack _). by vm_compute. Qed.
