(* ===== verification/Client.v ===== *)
(** [RpcLogSource] ([crates/source/src/client.rs], [batch.rs], [map.rs]): the EVM adapter over a JSON-RPC
    provider.  The provider and its wire format are alloy's and the node's: a parameter here, with
    the log fields the code reads. *)
From S2P Require Import Prelude Model Btree Text Pricing Retry Ranges Encode Services Enrichment.

(** * Log mapping ([map.rs]) *)

Record Log := mkLog {
  lg_block_number : option Z;
  lg_block_hash : option bytes;
  lg_log_index : option Z;
  lg_transaction_hash : option bytes;
  lg_transaction_index : option Z;
  lg_address : bytes;
  lg_topics : list bytes;
  lg_data : bytes;
  lg_removed : bool
}.

Definition map_log (chain_id : Z) (log : Log) : result SourceError RawRecord :=
  let? height := ok_or (lg_block_number log) (Malformed "log missing block_number") in
  let? block_hash := ok_or (lg_block_hash log) (Malformed "log missing block_hash") in
  let? index := ok_or (lg_log_index log) (Malformed "log missing log_index") in
  let? tx_hash := ok_or (lg_transaction_hash log) (Malformed "log missing tx_hash") in
  Ok (mkRawRecord chain_id height block_hash index (lg_address log) (lg_topics log) (lg_data log) tx_hash
        (default 0 (lg_transaction_index log)) None).

(** An alloy filter without block range: [None] leaves the dimension unconstrained. *)
Record LogFilter := mkLogFilter {
  lf_address : option (list bytes);
  lf_topic0 : option (list bytes)
}.

(** [from_slice] panics on a slice of another length. *)
Definition all_len (n : nat) (l : list bytes) : bool := forallb (fun b => Nat.eqb (length b) n) l.

Definition base_filter (f : RecordFilter) : outcome LogFilter :=
  if all_len 20 (rf_addresses f) && all_len 32 (rf_selectors f) then
    Done (mkLogFilter (match rf_addresses f with [] => None | l => Some l end)
            (match rf_selectors f with [] => None | l => Some l end))
  else Panic.

(** * The client *)

(** The provider: every call may change its state [P] and may fail with an error text. *)
Record Provider (P : Type) := mkProvider {
  pv_block_number : P -> result string Z * P;
  pv_get_logs : LogFilter -> Z -> Z -> P -> result string (list Log) * P;
  pv_get_block : Z -> P -> result string (option Block) * P;
  pv_batch_blocks : list Z -> P -> result string (list (option Block)) * P;
  pv_batch_receipts : list bytes -> P -> result string (list (option Receipt_)) * P;
  pv_subscribe_logs : LogFilter -> P -> result string () * P
}.
Arguments pv_block_number {P}.
Arguments pv_get_logs {P}.
Arguments pv_get_block {P}.
Arguments pv_batch_blocks {P}.
Arguments pv_batch_receipts {P}.
Arguments pv_subscribe_logs {P}.

(** The fields that stay fixed after [connect]. *)
Record RpcLogSource := mkRpcLogSource {
  rs_chain_id : Z;
  rs_plan : PlanProfile;
  rs_cost_model : CostModel;
  rs_aux_concurrency : Z;
  rs_ws : bool
}.

(** What calls change: the provider, the ledger, the log-density average, the retry environment and
    the token-bucket requests taken (newest first; [0] is one request of the rps bucket). *)
Record ClientSt (P : Type) := mkClientSt {
  st_provider : P;
  st_ledger : SpendLedger;
  st_density_milli : Z;
  st_retry : RetryEnv;
  st_waits : list Z
}.
Arguments mkClientSt {P}.
Arguments st_provider {P}.
Arguments st_ledger {P}.
Arguments st_density_milli {P}.
Arguments st_retry {P}.
Arguments st_waits {P}.

Section client.
Context {P : Type} (pv : Provider P) (rs : RpcLogSource).

Abbreviation St := (ClientSt P).

Definition limiter : Limiter := from_plan (rs_plan rs).

(** [limiter.acquire_cu(cu_for(call)); limiter.acquire() (n times); enter(call)]. *)
Definition enter (call : RpcCall) (n : nat) (s : St) : St :=
  mkClientSt (st_provider s) (meter (rs_cost_model rs) (st_ledger s) call) (st_density_milli s) (st_retry s)
    (repeat 0 n ++ reverse (acquire_cu limiter (cu_for (rs_cost_model rs) call)) ++ st_waits s).

Definition on_provider {T} (f : P -> result string T * P) (s : St) : result string T * St :=
  let '(r, p) := f (st_provider s) in
  (r, mkClientSt p (st_ledger s) (st_density_milli s) (st_retry s) (st_waits s)).

(** [with_retry(method, || async { ... })]; the panic of its last line is never reached. *)
Definition retrying {T} (op : St -> result string T * St) : M St SourceError T := fun s =>
  let '(o, s', env) := with_retry op s (st_retry s) in
  let s' := mkClientSt (st_provider s') (st_ledger s') (st_density_milli s') env (st_waits s') in
  match o with
  | Done r => (r, s')
  | Panic => (Err (Transport "unreachable"), s')
  end.

Definition suggested_span (s : St) : Z :=
  let max_blocks := Z.max (max_getlogs_blocks (rs_plan rs)) 1 in
  let cap := max_getlogs_results (rs_plan rs) in
  let d := st_density_milli s in
  if (cap =? 0) || (d =? 0) then max_blocks
  else Z.min (Z.max (u64_smul cap 800 / d) 1) max_blocks.

Definition record_density (blocks logs : Z) (s : St) : St :=
  if blocks =? 0 then s
  else
    let sample := u64_smul logs 1000 / blocks in
    let old := st_density_milli s in
    let new := if old =? 0 then sample else u64_add (u64_mul old 7) sample / 8 in
    mkClientSt (st_provider s) (st_ledger s) new (st_retry s) (st_waits s).

Definition head : M St DomainError Z := fun s =>
  let '(r, s') := on_provider (pv_block_number pv) (enter BlockNumber 1 s) in
  (res_map_err (fun e => domain_of_source (Transport e)) r, s').

Definition get_logs_op (lf : LogFilter) (lo hi : Z) (s : St) : result string (list Log) * St :=
  on_provider (pv_get_logs pv lf lo hi) (enter (GetLogs (u64_add (u64_sub hi lo) 1) 0) 1 s).

(** [while let Some((lo, hi)) = pending.pop()]: the top of the stack is the head of the list.
    [None] when the fuel runs out. *)
Fixpoint fetch_loop (fuel : nat) (lf : LogFilter) (pending : list (Z * Z)) (logs : list Log) :
    M St DomainError (option (list Log)) := fun s =>
  match fuel with
  | O => (Ok None, s)
  | S fuel =>
      match pending with
      | [] => (Ok (Some logs), s)
      | (lo, hi) :: pending =>
          let cap := max_getlogs_results (rs_plan rs) in
          let split s := let '(l, r) := split_range lo hi in
                         fetch_loop fuel lf (l :: r :: pending) logs s in
          match retrying (get_logs_op lf lo hi) s with
          | (Ok page, s) =>
              if (lo <? hi) && (0 <? cap) && (cap <=? Z.of_nat (length page)) then split s
              else fetch_loop fuel lf pending (logs ++ page)
                     (record_density (u64_add (u64_sub hi lo) 1) (Z.of_nat (length page)) s)
          | (Err e, s) =>
              match e with
              | Transport msg =>
                  if (lo <? hi) && is_range_cap_error msg then split s
                  else (Err (domain_of_source e), s)
              | _ => (Err (domain_of_source e), s)
              end
          end
      end
  end.

(** Every round pops a range and pushes at most its two halves. *)
Definition pending_fuel (pending : list (Z * Z)) : nat :=
  S (foldr (fun r n => Z.to_nat (2 * (snd r - fst r) + 1) + n)%nat O pending).

Definition fetch_records (filter : RecordFilter) (from to : Z) : M St DomainError (list RawRecord) := fun s =>
  match base_filter filter with
  | Panic => (Err panicked, s)
  | Done lf =>
      match range_chunks from to (suggested_span s) with
      | None => (Err out_of_fuel, s)
      | Some pending =>
          match fetch_loop (pending_fuel pending) lf pending [] s with
          | (Ok (Some logs), s) => (res_map_err domain_of_source (res_map (map_log (rs_chain_id rs)) logs), s)
          | (Ok None, s) => (Err out_of_fuel, s)
          | (Err e, s) => (Err e, s)
          end
      end
  end.

(** * Batched fetches ([batch.rs]) *)

Definition max_batch_size : nat := Z.to_nat (Z.max (max_batch (rs_plan rs)) 1).

Section batched.
Context {I R : Type} (call : Z -> RpcCall) (batch : list I -> P -> result string (list R) * P).
(** The order in which the chunks in flight complete. *)
Context (order : list (list I) -> list (list I)).

(** One round trip for a chunk, retried as a unit; results are paired with their items. *)
Definition batch_chunk (chunk : list I) : M St SourceError (list (I * R)) :=
  retrying (fun s =>
    let '(r, s') := on_provider (batch chunk) (enter (call (Z.of_nat (length chunk))) (length chunk) s) in
    (match r with Ok rs => Ok (zip chunk rs) | Err e => Err e end, s')).

Definition batched (items : list I) : M St SourceError (list (I * R)) :=
  mfold (fun acc chunk => do rs <- batch_chunk chunk; mret_ (acc ++ rs)) []
    (order (chunks max_batch_size items)).
End batched.

(** [tx_loc.entry(id).or_insert(..)]: the first record of the transaction. *)
Definition tx_loc (records : list RawRecord) (id : bytes) : option (Z * bytes) :=
  (fun r => (rr_height r, rr_block_hash r)) <$> (snd <$> list_find (fun r => rr_tx_id r = id) records).

(** The two batched fetches run concurrently; here one after the other.  [B256::from_slice] panics on
    a transaction id of another length. *)
Definition fetch_aux (order_b : list (list Z) -> list (list Z)) (order_r : list (list bytes) -> list (list bytes))
    (records : list RawRecord) : M St DomainError AuxData :=
  let heights := btree_set Z.compare (rr_height <$> records) in
  let tx_ids := btree_set bytes_cmp (rr_tx_id <$> records) in
  do _ <- (if all_len 32 tx_ids then mret_ tt else mfail panicked);
  do blocks <- mmap_err domain_of_source
                 (batched (fun n => BlockByNumber n true) (pv_batch_blocks pv) order_b heights);
  do receipts <- mmap_err domain_of_source
                   (batched Receipt (pv_batch_receipts pv) order_r tx_ids);
  do aux <- mlift (block_aux (rs_chain_id rs) blocks tx_ids AuxData_default);
  mret_ (receipt_aux (rs_chain_id rs) receipts (tx_loc records) aux).

Definition block_hash (height : Z) : M St DomainError (option bytes) := fun s =>
  let '(r, s') := retrying (fun s => on_provider (pv_get_block pv height) (enter (BlockByNumber 1 false) 1 s)) s in
  (res_map_err domain_of_source (match r with Ok b => Ok (blk_hash <$> b) | Err e => Err e end), s').

Definition caps : ChainCaps := mkChainCaps true (rs_ws rs).

(** Opening the log subscription: metered, not rate limited, not retried. *)
Definition subscribe (filter : RecordFilter) : M St DomainError () := fun s =>
  if negb (rs_ws rs) then (Err (domain_of_source (Unsupported "no ws url configured")), s)
  else match base_filter filter with
       | Panic => (Err panicked, s)
       | Done lf =>
           let s := mkClientSt (st_provider s) (meter (rs_cost_model rs) (st_ledger s) LogSubscription)
                      (st_density_milli s) (st_retry s) (st_waits s) in
           let '(r, s') := on_provider (pv_subscribe_logs pv lf) s in
           (res_map_err (fun e => domain_of_source (Transport ("subscribe: " +:+ e))) r, s')
       end.

(** What the stream makes of a pushed log. *)
Definition tip_log (log : Log) : result DomainError TipLog :=
  res_map_err domain_of_source
    (let? record := map_log (rs_chain_id rs) log in Ok (mkTipLog record (lg_removed log))).

(** The items of the stream for the logs that the socket pushes; it ends when the socket closes. *)
Definition live_stream (pushed : list Log) : list (option (result DomainError TipLog)) :=
  ((fun log => Some (tip_log log)) <$> pushed) ++ [None].

(** [impl ChainSource for RpcLogSource]. *)
Definition rpc_source order_b order_r : ChainSource St :=
  mkChainSource St (rs_chain_id rs) caps head fetch_records (fetch_aux order_b order_r) block_hash subscribe.

End client.
