(* ===== verification/Config.v ===== *)
(** Configuration ([crates/config]) and the adapter registry ([crates/source/src/registry.rs],
    [decoder.rs]): the typed config with its defaults, validation, and what is built from it.  Reading
    and parsing the TOML is the library's. *)
From S2P Require Import Prelude Model Text Pricing Retry Schema Enrichment Services Abi AbiFacts Client.

(** * Model ([model/app.rs], [model/chain.rs]) *)

Definition default_log_level : string := "info".
Definition default_batch_size : Z := 500.
Definition default_max_conns : Z := 16.
Definition default_queue_kind : string := "postgres".
Definition default_poll_ms : Z := 50.
Definition default_poll_idle_ms : Z := 1000.
Definition default_api : string := "graphql".
Definition default_listen : string := "0.0.0.0:8080".
Definition default_expose : string := "finalized".
Definition default_cache_ttl_ms : Z := 1000.
Definition default_range_concurrency : Z := 4.
Definition default_aux_concurrency : Z := 8.
Definition default_tip_interval_secs : Z := 6.

Record IndexerCfg := mkIndexerCfg {
  ix_log_level : string;
  ix_batch_size : Z;
  ix_range_concurrency : Z;
  ix_aux_concurrency : Z;
  ix_tip_interval_secs : Z;
  ix_metrics_listen : option string
}.
Definition IndexerCfg_default : IndexerCfg := 
  mkIndexerCfg default_log_level default_batch_size default_range_concurrency default_aux_concurrency
    default_tip_interval_secs None.

Record DatabaseCfg := mkDatabaseCfg { dc_url : string; dc_max_conns : Z }.

Record QueueCfg := mkQueueCfg { qc_kind : string; qc_poll_ms : Z; qc_poll_idle_ms : Z }.
Definition QueueCfg_default : QueueCfg := mkQueueCfg default_queue_kind default_poll_ms default_poll_idle_ms.

Record QueryCfg := mkQueryCfg { yc_api : string; yc_listen : string; yc_expose : string; yc_cache_ttl_ms : Z }.
Definition QueryCfg_default : QueryCfg := 
  mkQueryCfg default_api default_listen default_expose default_cache_ttl_ms.

Record LimitsCfg := mkLimitsCfg {
  lc_max_rps : option Z;
  lc_max_cu_per_sec : option Z;
  lc_max_batch : option Z;
  lc_max_getlogs_blocks : option Z;
  lc_max_getlogs_results : option Z;
  lc_monthly_quota_cu : option Z
}.

Record SourceCfg := mkSourceCfg {
  sc_kind : string;
  sc_http : string;
  sc_ws : option string;
  sc_limits : option LimitsCfg
}.

Record ContractCfg := mkContractCfg {
  cc_address : string;
  cc_abi : string;
  cc_events : list string;
  cc_functions : list string;
  cc_table : option string;
  cc_start_block : option Z
}.

Record ChainCfg := mkChainCfg {
  ch_id : Z;
  ch_name : string;
  ch_kind : string;
  ch_confirmations : Z;
  ch_source : SourceCfg;
  ch_contracts : list ContractCfg
}.
Definition default_confirmations : Z := 12.
Definition default_kind : string := "evm".

Record Config := mkConfig {
  cf_indexer : IndexerCfg;
  cf_database : DatabaseCfg;
  cf_queue : QueueCfg;
  cf_query : QueryCfg;
  cf_chains : list ChainCfg
}.

(** [iter().min()]. *)
Definition min_opt (o : option Z) (z : Z) : option Z :=
  Some (match o with Some m => Z.min m z | None => z end).

Definition start_block (chain : ChainCfg) : option Z :=
  fold_left min_opt (omap cc_start_block (ch_contracts chain)) None.

(** * Validation ([validate.rs]) *)

Definition validate_contract (id : Z) (c : ContractCfg) : result string () :=
  if negb (starts_with (cc_address c) "0x") || negb (Nat.eqb (String.length (cc_address c)) 42) then
    Err ("chain " +:+ show id +:+ " contract address '" +:+ cc_address c +:+ "' malformed")
  else if String.eqb (cc_abi c) EmptyString then
    Err ("chain " +:+ show id +:+ " contract " +:+ cc_address c +:+ " missing abi path")
  else Ok tt.

Fixpoint validate_chains (seen : list Z) (chains : list ChainCfg) : result string () :=
  match chains with
  | [] => Ok tt
  | chain :: chains =>
      if bool_decide (ch_id chain ∈ seen) then Err ("duplicate chain id " +:+ show (ch_id chain))
      else if String.eqb (sc_http (ch_source chain)) EmptyString then
        Err ("chain " +:+ show (ch_id chain) +:+ " source.http is required")
      else if negb (bool_decide (is_Some (start_block chain))) then
        Err ("chain " +:+ show (ch_id chain)
             +:+ " has no scan start: set start_block on at least one contract")
      else
        let? _ := res_map (validate_contract (ch_id chain)) (ch_contracts chain) in
        validate_chains (ch_id chain :: seen) chains
  end.

Definition validate (cfg : Config) : result string () :=
  if String.eqb (dc_url (cf_database cfg)) EmptyString then Err "database.url is required"
  else if negb (String.eqb (qc_kind (cf_queue cfg)) "postgres") then
    Err ("queue.kind '" +:+ qc_kind (cf_queue cfg) +:+ "' unsupported (only 'postgres')")
  else if negb (bool_decide (yc_expose (cf_query cfg) ∈ ["finalized"; "provisional"])) then
    Err ("query.expose '" +:+ yc_expose (cf_query cfg) +:+ "' invalid")
  else validate_chains [] (cf_chains cfg).

(** [find_chain] of the wiring. *)
Definition find_chain (cfg : Config) (id : Z) : option ChainCfg :=
  snd <$> list_find (fun c => ch_id c = id) (cf_chains cfg).

(** * Building adapters *)

Definition set_if {A} (o : option A) (old : A) : A := default old o.

Definition apply_overrides (plan : PlanProfile) (chain : ChainCfg) : PlanProfile :=
  match sc_limits (ch_source chain) with
  | None => plan
  | Some l =>
      mkPlanProfile (set_if (lc_max_rps l) (max_rps plan))
        (match lc_max_cu_per_sec l with Some v => Some v | None => max_cu_per_sec plan end)
        (set_if (lc_max_batch l) (max_batch plan))
        (set_if (lc_max_getlogs_blocks l) (max_getlogs_blocks plan))
        (set_if (lc_max_getlogs_results l) (max_getlogs_results plan))
        (match lc_monthly_quota_cu l with Some v => Some v | None => monthly_quota plan end)
  end.

(** [Path::file_stem]: the last component of a path (trailing separators apart), less its last dot
    and what follows it, unless that dot is its first byte. *)
Fixpoint trim_slashes (l : bytes) : bytes :=
  match l with
  | b :: l' => if Ascii.eqb b "/" then trim_slashes l' else l
  | [] => []
  end.

Definition file_stem (path : string) : option bytes :=
  let rev := trim_slashes (reverse (to_list path)) in
  let name := match split_once "/" rev with Some (n, _) => n | None => rev end in
  if bool_decide (name = []) || bool_decide (name = to_list "..") then None
  else match split_once "." name with
       | Some (_, []) | None => Some (reverse name)
       | Some (_, stem) => Some (reverse stem)
       end.

(** One underscore per character that is not an ASCII letter or digit (a continuation byte belongs
    to the character before it). *)
Definition prefix_char (b : byte) : option byte :=
  if (128 <=? byte_val b) && (byte_val b <? 192) then None
  else Some (if is_ascii_alphanumeric b then to_ascii_lowercase b else underscore).

Definition table_prefix (abi_path : string) : string :=
  of_list (omap prefix_char (default (to_list "evt") (file_stem abi_path))).

Definition parse_addr (s : string) : outcome (result SourceError bytes) :=
  match hex_decode s with
  | Panic => Panic
  | Done (Some b) => Done (if Nat.eqb (length b) 20 then Ok b else Err (Malformed ("bad address " +:+ s)))
  | Done None => Done (Err (Malformed ("bad address " +:+ s)))
  end.

Section build.
Context (parse_abi : string -> result string JsonAbi).
Context (event_selector : AbiEvent -> bytes) (function_selector : AbiFunction -> bytes).
Context (decode_log_parts : AbiEvent -> list bytes -> bytes -> result string (list DynSolValue * list DynSolValue)).
Context (abi_decode_input : AbiFunction -> bytes -> result string (list DynSolValue)).
Context (json_text : Json -> string).
(** [fs::read_to_string] of an ABI file, with the error text of the code. *)
Context (read_abi : string -> result string string).
(** Parsing the HTTP endpoint's URL and opening the websocket. *)
Context (parse_url : string -> result string ()) (connect_ws : string -> result string ()).

Fixpoint contract_specs (cs : list ContractCfg) : outcome (result SourceError (list ContractSpec)) :=
  match cs with
  | [] => Done (Ok [])
  | c :: cs =>
      match read_abi (cc_abi c) with
      | Err e => Done (Err (Malformed e))
      | Ok abi_json =>
          match parse_addr (cc_address c) with
          | Panic => Panic
          | Done (Err e) => Done (Err e)
          | Done (Ok address) =>
              match contract_specs cs with
              | Done (Ok specs) =>
                  Done (Ok (mkContractSpec abi_json (cc_events c) (cc_functions c) address
                              (table_prefix (cc_abi c)) (cc_table c) :: specs))
              | r => r
              end
          end
      end
  end.

Definition build_evm_decoder (cfg : ChainCfg) : outcome (result SourceError Decoder) :=
  match contract_specs (ch_contracts cfg) with
  | Panic => Panic
  | Done (Err e) => Done (Err e)
  | Done (Ok specs) =>
      Done (let? idx := res_map_err (fun e => Malformed (decode_error_text e))
                          (build parse_abi event_selector function_selector specs) in
            Ok (evm_decoder decode_log_parts abi_decode_input json_text idx (sp_address <$> specs)))
  end.

Definition build_decoder (cfg : ChainCfg) : outcome (result SourceError Decoder) :=
  if String.eqb (ch_kind cfg) "evm" then build_evm_decoder cfg else Done (Err (UnknownKind (ch_kind cfg))).

(** [RpcLogSource::connect]: the fixed part of the source, once the endpoints accept. *)
Definition connect_rpc (chain_id : Z) (http_url : string) (ws_url : option string) (plan : PlanProfile)
    (cost_model : CostModel) (aux_concurrency : Z) : result SourceError RpcLogSource :=
  let? _ := res_map_err (fun e => Transport ("bad url: " +:+ e)) (parse_url http_url) in
  let? ws := (match ws_url with
              | Some u =>
                  if String.eqb u EmptyString then Ok false
                  else let? _ := res_map_err (fun e => Transport ("ws connect: " +:+ e)) (connect_ws u) in Ok true
              | None => Ok false
              end) in
  Ok (mkRpcLogSource chain_id plan cost_model (Z.max aux_concurrency 1) ws).

Definition build_evm (cfg : ChainCfg) (aux_concurrency : Z) :
    outcome (result SourceError (RpcLogSource * SpendLedger * Decoder)) :=
  match build_evm_decoder cfg with
  | Panic => Panic
  | Done (Err e) => Done (Err e)
  | Done (Ok decoder) =>
      Done (let? cost_model := ok_or (for_kind (sc_kind (ch_source cfg))) (UnknownKind (sc_kind (ch_source cfg))) in
            let plan := apply_overrides PlanProfile_default cfg in
            let ledger := ledger_new (monthly_quota plan) (rate cost_model) in
            let? rpc := connect_rpc (ch_id cfg) (sc_http (ch_source cfg)) (sc_ws (ch_source cfg)) plan cost_model aux_concurrency in
            Ok (rpc, ledger, decoder))
  end.

Definition build_chain (cfg : ChainCfg) (aux_concurrency : Z) :
    outcome (result SourceError (RpcLogSource * SpendLedger * Decoder)) :=
  if String.eqb (ch_kind cfg) "evm" then build_evm cfg aux_concurrency else Done (Err (UnknownKind (ch_kind cfg))).
End build.

(** * Theorems *)

Lemma fold_min_spec l o :
  match fold_left min_opt l o with
  | None => l = [] /\ o = None
  | Some m => (m ∈ l \/ o = Some m) /\ (forall x, x ∈ l -> m <= x) /\ (forall y, o = Some y -> m <= y)
  end.
Proof.
  revert o. induction l as [|x l IH]; intros o; cbn.
  { destruct o as [m|]; [|done]. split_and!; [by right|by intros ? ?%not_elem_of_nil|]. intros y [= ->]. lia. }
  specialize (IH (min_opt o x)). destruct (fold_left min_opt l (min_opt o x)) as [m|].
  - destruct IH as (H1 & H2 & H3). specialize (H3 _ eq_refl). split_and!.
    + destruct H1 as [H1|H1]; [left; by right|]. unfold min_opt in H1. injection H1 as <-.
      destruct o as [y|]; [|left; left]. destruct (Z.min_spec y x) as [[_ ->]|[_ ->]]; [by right|left; left].
    + intros y [->|Hy]%elem_of_cons; [|auto]. destruct o; lia.
    + intros y ->. lia.
  - destruct IH as [_ IH]. by destruct o.
Qed.

Lemma res_map_unit {E A} (f : A -> result E ()) l out x : res_map f l = Ok out -> x ∈ l -> f x = Ok tt.
Proof.
  revert out. induction l as [|y l IH]; cbn; intros out H Hx; [by apply not_elem_of_nil in Hx|].
  destruct (f y) as [[]|e] eqn:E1; [|done]. cbn in H. destruct (res_map f l) as [out'|]; [|done].
  apply elem_of_cons in Hx as [->|Hx]; [done|by eapply IH].
Qed.

Lemma validate_chains_spec seen chains :
  validate_chains seen chains = Ok tt ->
  NoDup (ch_id <$> chains) /\ (forall c, c ∈ chains -> ch_id c ∉ seen)
  /\ forall c, c ∈ chains -> is_Some (start_block c)
       /\ forall k, k ∈ ch_contracts c -> validate_contract (ch_id c) k = Ok tt.
Proof.
  revert seen. induction chains as [|c chains IH]; intros seen; cbn.
  { intros _. split_and!; [constructor|by intros ? ?%not_elem_of_nil|by intros ? ?%not_elem_of_nil]. }
  case_bool_decide as Hs; [done|]. destruct (String.eqb _ _); [done|]. case_bool_decide as Hb; [|done]. cbn.
  destruct (res_map _ _) as [out|] eqn:Er; [|done]. cbn. intros H. apply IH in H as (Hn & Hd & Hall). split_and!.
  - constructor; [|done]. intros (c' & E & Hc)%list_elem_of_fmap. apply (Hd c' Hc). rewrite <- E. left.
  - intros c' [->|Hc]%elem_of_cons; [done|]. intros Hi. apply (Hd c' Hc). by right.
  - intros c' [->|Hc]%elem_of_cons; [|auto]. split; [done|]. intros k Hk. by eapply res_map_unit.
Qed.

(** A validated configuration can be run: chain ids are distinct, so every chain is the one found
    under its id; every chain has a start block, the least of its contracts' (so the supervisor's
    [expect] cannot fail); every contract has an ABI path and a 42-byte address with the prefix. *)
Theorem validated_config_runs (cfg : Config) :
  validate cfg = Ok tt ->
  NoDup (ch_id <$> cf_chains cfg)
  /\ forall c, c ∈ cf_chains cfg ->
       find_chain cfg (ch_id c) = Some c
       /\ (exists b, start_block c = Some b /\ (exists k, k ∈ ch_contracts c /\ cc_start_block k = Some b)
             /\ forall k b', k ∈ ch_contracts c -> cc_start_block k = Some b' -> b <= b')
       /\ forall k, k ∈ ch_contracts c -> cc_abi k <> EmptyString /\ String.length (cc_address k) = 42%nat
             /\ starts_with (cc_address k) "0x" = true.
Proof.
  unfold validate. destruct (String.eqb _ _); [done|]. destruct (negb _); [done|]. destruct (negb _); [done|].
  intros (Hn & _ & Hall)%validate_chains_spec. split; [done|]. intros c Hc. destruct (Hall c Hc) as [[b Hb] Hk].
  split_and!.
  - unfold find_chain. destruct (list_find _ _) as [[i c']|] eqn:E.
    + apply list_find_Some in E as (Hi & Hid & _). cbn. f_equal.
      eapply NoDup_fmap_same; [exact Hn| |done|done]. by eapply list_elem_of_lookup_2.
    + apply list_find_None in E. rewrite Forall_forall in E. by destruct (E c Hc).
  - exists b. unfold start_block in Hb. pose proof (fold_min_spec (omap cc_start_block (ch_contracts c)) None) as Hm.
    unfold start_block. rewrite Hb in Hm |- *. destruct Hm as ([Hm|Hm] & Hle & _); [|done]. split; [done|]. split.
    + apply list_elem_of_omap in Hm as (k & Hk1 & Hk2). eauto.
    + intros k b' Hk1 Hk2. apply Hle, list_elem_of_omap. eauto.
  - intros k Hin. specialize (Hk k Hin). unfold validate_contract in Hk.
    destruct (starts_with (cc_address k) "0x"); [|done]. cbn in Hk.
    destruct (Nat.eqb_spec (String.length (cc_address k)) 42); [|done]. cbn in Hk.
    destruct (String.eqb_spec (cc_abi k) EmptyString); [done|]. done.
Qed.

Definition sample_chain : ChainCfg :=
  mkChainCfg 1 EmptyString "evm" 12 (mkSourceCfg "alchemy" "https://x" None None)
    [mkContractCfg "0xA0b86991c6218b36c1d19D4a2e9Eb0cE3606eB48" "abis/erc20.json" ["Transfer"] [] None (Some 19000000);
     mkContractCfg "0xA0b86991c6218b36c1d19D4a2e9Eb0cE3606eB49" "abis/weth-9.json" [] [] None (Some 18000000)].
Definition sample_cfg : Config :=
  mkConfig IndexerCfg_default (mkDatabaseCfg "postgres://localhost/idx" 16) QueueCfg_default QueryCfg_default [sample_chain].

Example sample_prefixes : table_prefix <$> (cc_abi <$> ch_contracts sample_chain) = ["erc20"; "weth_9"].
Proof. by vm_compute. Qed.

Lemma validated_config_runs_witness :
  start_block sample_chain = Some 18000000 /\ find_chain sample_cfg 1 = Some sample_chain.
Proof.
  split; [by vm_compute|].
  refine (proj1 (proj2 (validated_config_runs sample_cfg ltac:(by vm_compute)) sample_chain _)). left.
Defined.

(** * The filter of a built decoder *)

Section filter.
Context (parse_abi : string -> result string JsonAbi).
Context (event_selector : AbiEvent -> bytes) (function_selector : AbiFunction -> bytes).
Context (Hsel : forall ev, length (event_selector ev) = 32%nat).

Lemma contract_addresses read_abi cs specs :
  contract_specs read_abi cs = Done (Ok specs) -> Forall (fun a => length a = 20%nat) (sp_address <$> specs).
Proof.
  revert specs. induction cs as [|c cs IH]; intros specs; cbn; [intros [= <-]; constructor|].
  destruct (read_abi _); [|done]. unfold parse_addr. destruct (hex_decode _) as [[b|]|]; [|done|done].
  destruct (Nat.eqb_spec (length b) 20) as [Hl|]; [|done].
  destruct (contract_specs read_abi cs) as [[sps|]|]; [|done|done]. intros [= <-]. cbn. constructor; auto.
Qed.

Lemma build_topics specs idx :
  build parse_abi event_selector function_selector specs = Ok idx -> forall o, Shuffles o ->
  Forall (fun t => length t = 32%nat) (topic0s o idx).
Proof.
  unfold build. assert (forall k e, by_topic0 (mkAbiIndex ∅ ∅) !! k = Some e -> length k = 32%nat) as H0.
  { intros k e H. cbn in H. by rewrite lookup_empty in H. }
  revert H0. generalize (mkAbiIndex ∅ ∅). induction specs as [|spec specs IH]; intros i0 H0; cbn.
  - intros [= <-] o Ho. apply Forall_forall. intros t. unfold topic0s. rewrite sh_topics. intros ([k e] & -> & Hk)%list_elem_of_fmap.
    apply elem_of_map_to_list in Hk. by eapply H0.
  - destruct (parse_abi _) as [abi|]; [|done]. cbn. apply IH. cbn. generalize (by_topic0 i0), H0.
    induction (ja_events abi) as [|ev evs IHe]; intros m Hm; [done|]. cbn. apply IHe. intros k e.
    unfold add_event. destruct (_ && _); [apply Hm|].
    destruct (decide (k = event_selector ev)) as [->|Hne]; [intros _; apply Hsel|].
    rewrite lookup_insert_ne by done. apply Hm.
Qed.
End filter.

Lemma all_len_Forall n l : Forall (fun b => length b = n) l -> all_len n l = true.
Proof.
  intros H. apply forallb_forall. intros b Hb%list_elem_of_In. rewrite Forall_forall in H. by apply Nat.eqb_eq, H.
Qed.

(** The filter of a decoder built from configuration is one the RPC client accepts: addresses are
    20 bytes and topics 32, so turning it into the node's filter never panics. *)
Theorem built_filter_accepted (parse_abi : string -> result string JsonAbi)
    (event_selector : AbiEvent -> bytes) (function_selector : AbiFunction -> bytes)
    (dlp : AbiEvent -> list bytes -> bytes -> result string (list DynSolValue * list DynSolValue))
    (adi : AbiFunction -> bytes -> result string (list DynSolValue)) (json_text : Json -> string)
    (read_abi : string -> result string string) (cfg : ChainCfg) (dec : Decoder) (o : HashOrder) :
  Shuffles o -> (forall ev, length (event_selector ev) = 32%nat) ->
  build_decoder parse_abi event_selector function_selector dlp adi json_text read_abi cfg = Done (Ok dec) ->
  exists lf, base_filter (dec_record_filter dec o) = Done lf.
Proof.
  intros Ho Hsel H. unfold build_decoder in H. destruct (String.eqb _ _); [|done]. unfold build_evm_decoder in H.
  destruct (contract_specs read_abi (ch_contracts cfg)) as [[specs|]|] eqn:Es; [|done|done].
  destruct (build parse_abi event_selector function_selector specs) as [idx|] eqn:Eb; [|done].
  cbn in H. injection H as <-. unfold base_filter. cbn [dec_record_filter evm_decoder rf_addresses rf_selectors].
  rewrite (all_len_Forall 20) by (by eapply contract_addresses).
  rewrite (all_len_Forall 32) by (by eapply (build_topics parse_abi event_selector function_selector)). eauto.
Qed.

Lemma built_filter_accepted_witness :
  match build_decoder sample_parse sample_selector sample_fn_selector sample_dlp (fun _ _ => Err EmptyString)
          (fun _ => EmptyString) (fun _ => Ok EmptyString) sample_chain with
  | Done (Ok dec) => exists lf, base_filter (dec_record_filter dec flip_order) = Done lf
  | _ => False
  end.
Proof.
  destruct (build_decoder _ _ _ _ _ _ _ sample_chain) as [[dec|e]|] eqn:E.
  - apply (built_filter_accepted sample_parse sample_selector sample_fn_selector sample_dlp (fun _ _ => Err EmptyString)
             (fun _ => EmptyString) (fun _ => Ok EmptyString) sample_chain dec flip_order); [exact flip_shuffles| |exact E].
    intros ev. reflexivity.
  - vm_compute in E. discriminate.
  - vm_compute in E. discriminate.
Defined.
