(* ===== verification/ClientFacts.v ===== *)
(** Theorems about the EVM client: a fetched range is the complete, ordered log of its blocks
    whatever pages, splits and retries it took; fetching ends; aux data is closed under the
    receipts' foreign key. *)
From S2P Require Import Prelude Model Btree Text Pricing Retry Ranges Encode Services Enrichment Client.

(** * What the node promises *)

(** The logs of the blocks [lo..=hi] that match the filter, in chain order. *)
Definition logs_in (block_logs : Z -> list Log) (lo hi : Z) : list Log :=
  concat (block_logs <$> seqZ lo (hi - lo + 1)).

(** The chain of the node settles: blocks may be replaced, but never those up to [settled p], and no call
    lowers that. *)
Class RisingProvider {P} (pv : Provider P) (settled : P -> Z) : Prop := {
  rp_number : grows settled (pv_block_number pv);
  rp_logs : forall lf lo hi, grows settled (pv_get_logs pv lf lo hi);
  rp_block : forall h, grows settled (pv_get_block pv h);
  rp_blocks : forall hs, grows settled (pv_batch_blocks pv hs);
  rp_receipts : forall ids, grows settled (pv_batch_receipts pv ids);
  rp_subscribe : forall lf, grows settled (pv_subscribe_logs pv lf)
}.

(** A provider answers from the settled chain up to there: a page below the result cap is complete; a page
    at the cap may be truncated, unless it is that of a single block. *)
Class HonestProvider {P} (pv : Provider P) (cap : Z) (lf : LogFilter) (block_logs : Z -> list Log)
    (settled : P -> Z) : Prop :=
  honest_page : forall lo hi p page p', hi <= settled p ->
    pv_get_logs pv lf lo hi p = (Ok page, p') ->
    lo = hi \/ cap = 0 \/ Z.of_nat (length page) < cap -> page = logs_in block_logs lo hi.

(** A provider that answers: with a page, or, for a range of more than one block, with an error that says
    the range is too much. *)
Class ResponsiveProvider {P} (pv : Provider P) (lf : LogFilter) : Prop :=
  always_answers : forall lo hi p, exists r p', pv_get_logs pv lf lo hi p = (r, p')
    /\ match r with Ok _ => True | Err e => lo < hi /\ is_range_cap_error e = true end.

Lemma logs_in_split bl lo mid hi :
  lo <= mid + 1 -> mid <= hi -> logs_in bl lo hi = logs_in bl lo mid ++ logs_in bl (mid + 1) hi.
Proof.
  intros H1 H2. unfold logs_in. rewrite <- concat_app, <- fmap_app. do 2 f_equal.
  replace (hi - lo + 1) with ((mid - lo + 1) + (hi - (mid + 1) + 1)) by lia.
  rewrite seqZ_app by lia. do 2 f_equal. lia.
Qed.

Lemma logs_in_empty bl lo : logs_in bl lo (lo - 1) = [].
Proof. unfold logs_in. by replace (lo - 1 - lo + 1) with 0 by lia. Qed.

Definition logs_over (bl : Z -> list Log) (rs : list (Z * Z)) : list Log :=
  concat ((fun r => logs_in bl (fst r) (snd r)) <$> rs).

Lemma logs_over_tiles bl a rs b : tiles a rs b -> logs_over bl rs = logs_in bl a (b - 1).
Proof.
  revert a. induction rs as [|[lo hi] rs IH]; intros a; cbn.
  - intros <-. by rewrite logs_in_empty.
  - intros (-> & Hle & Ht). pose proof (tiles_le _ _ _ Ht). unfold logs_over in *. cbn.
    rewrite (IH _ Ht), <- logs_in_split by lia. done.
Qed.

(** * One retried call *)

Lemma retry_loop_ok {W T} (lvl : W -> Z) (op : W -> result string T * W) n attempt delay s env r s' env' :
  grows lvl op -> retry_loop op n attempt delay s env = (r, s', env') ->
  lvl s <= lvl s' /\ forall v, r = Done (Ok v) -> exists s1, lvl s <= lvl s1 /\ op s1 = (Ok v, s').
Proof.
  intros Hop. revert attempt delay s env. induction n as [|n IH]; intros attempt delay s env; [intros [= <- <- _]; split; [lia|done]|].
  cbn. destruct (op s) as [[x|e] s1] eqn:E; pose proof (Hop _ _ _ E) as Hg.
  { intros [= <- <- _]. split; [done|]. intros v [= <-]. exists s. split; [lia|done]. }
  destruct (_ || _); [intros [= <- <- _]; by split|]. destruct (jitter_below _ _). intros H%IH. destruct H as [Hg' Hv].
  split; [lia|]. intros v Ev. destruct (Hv v Ev) as (s2 & ? & ?). exists s2. split; [lia|done].
Qed.

Section levels.
Context {P : Type} (pv : Provider P) (rs : RpcLogSource) (settled : P -> Z) {Hrise : RisingProvider pv settled}.
Definition level (s : ClientSt P) : Z := settled (st_provider s).

Lemma on_provider_grows {T} (f : P -> result string T * P) : grows settled f -> grows level (on_provider f).
Proof.
  intros Hf s r s'. unfold on_provider. destruct (f (st_provider s)) as [x p] eqn:E. intros [= _ <-]. by eapply Hf.
Qed.

Lemma entered_grows {T} (f : P -> result string T * P) call n :
  grows settled f -> grows level (fun s => on_provider f (enter rs call n s)).
Proof. intros Hf s r s' H. apply (on_provider_grows f Hf) in H. done. Qed.

Lemma retrying_ok {T} (op : ClientSt P -> result string T * ClientSt P) s r s' :
  grows level op -> retrying op s = (r, s') ->
  level s <= level s' /\ forall v, r = Ok v -> exists s1 s2, level s <= level s1 /\ op s1 = (Ok v, s2).
Proof.
  intros Hop. unfold retrying. destruct (with_retry _ _ _) as [[o s1] env] eqn:E.
  apply (retry_loop_ok level) in E as [Hg Hv]; [|done]. destruct o as [x|]; intros [= <- <-]; (split; [exact Hg|]); [|done].
  intros v ->. destruct (Hv v eq_refl) as (s2 & ? & ?). eauto.
Qed.

Lemma retrying_grows {T} (op : ClientSt P -> result string T * ClientSt P) : grows level op -> grows level (retrying op).
Proof. intros Hop s r s' H. by apply retrying_ok in H as [? _]. Qed.

Lemma get_logs_grows lf lo hi : grows level (get_logs_op pv rs lf lo hi).
Proof. apply entered_grows, rp_logs. Qed.

Lemma density_level blocks logs (s : ClientSt P) : level (record_density blocks logs s) = level s.
Proof. unfold record_density. by destruct (_ =? _). Qed.

Lemma fetch_loop_grows fuel lf pending logs : grows level (fetch_loop pv rs fuel lf pending logs).
Proof.
  revert pending logs. induction fuel as [|fuel IH]; intros pending logs s r s'; cbn; [intros [= _ <-]; lia|].
  destruct pending as [|[lo hi] pending]; [intros [= _ <-]; lia|].
  destruct (retrying _ s) as [[page|e] s1] eqn:E; apply (retrying_grows _ (get_logs_grows lf lo hi)) in E.
  - destruct (_ && _); [destruct (split_range lo hi)|]; intros H%IH; rewrite ?density_level in H; lia.
  - destruct e; try (intros [= _ <-]; lia). destruct (_ && _); [|intros [= _ <-]; lia].
    destruct (split_range lo hi). intros H%IH. lia.
Qed.

Lemma fetch_records_grows filter from to : grows level (fetch_records pv rs filter from to).
Proof.
  intros s r s'. unfold fetch_records. destruct (base_filter filter); [|intros [= _ <-]; lia].
  destruct (range_chunks _ _ _); [|intros [= _ <-]; lia].
  destruct (fetch_loop _ _ _ _ _ _ s) as [[[logs|]|e] s1] eqn:E; apply fetch_loop_grows in E; intros [= _ <-]; lia.
Qed.

Lemma batched_grows {I R} call (batch : list I -> P -> result string (list R) * P) order items :
  (forall c, grows settled (batch c)) -> grows level (batched rs call batch order items).
Proof.
  intros Hb. apply grows_mfold. intros acc c. apply grows_bind; [|auto with t0]. apply retrying_grows.
  intros s r s'. destruct (on_provider _ _) as [x s1] eqn:E. intros [= _ <-].
  by apply (entered_grows (batch c) _ _ (Hb c)) in E.
Qed.

Lemma fetch_aux_grows order_b order_r records : grows level (fetch_aux pv rs order_b order_r records).
Proof.
  unfold fetch_aux. apply grows_bind; [destruct (all_len _ _); auto with t0|]. intros _.
  apply grows_bind; [apply grows_map_err, batched_grows, rp_blocks|]. intros bl.
  apply grows_bind; [apply grows_map_err, batched_grows, rp_receipts|]. intros rc.
  apply grows_bind; auto with t0.
Qed.

Lemma head_grows : grows level (head pv rs).
Proof.
  intros s r s'. unfold head. destruct (on_provider _ _) as [x s1] eqn:E. intros [= _ <-].
  by apply (entered_grows _ _ _ rp_number) in E.
Qed.

Lemma block_hash_grows h : grows level (block_hash pv rs h).
Proof.
  intros s r s'. unfold block_hash. destruct (retrying _ s) as [x s1] eqn:E. intros [= _ <-].
  by apply (retrying_grows _ (entered_grows _ _ _ (rp_block h))) in E.
Qed.

Lemma subscribe_grows filter : grows level (subscribe pv rs filter).
Proof.
  intros s r s'. unfold subscribe. destruct (negb _); [intros [= _ <-]; lia|]. destruct (base_filter filter) as [lf|]; [|intros [= _ <-]; lia].
  destruct (on_provider _ _) as [x s1] eqn:E. intros [= _ <-]. by apply (on_provider_grows _ (rp_subscribe lf)) in E.
Qed.
End levels.

Section fetch.
Context {P : Type} (pv : Provider P) (rs : RpcLogSource) (lf : LogFilter).
Context (settled : P -> Z) {Hrise : RisingProvider pv settled}.
Abbreviation cap := (max_getlogs_results (rs_plan rs)).

Lemma get_logs_page lo hi (s : ClientSt P) page s' :
  retrying (get_logs_op pv rs lf lo hi) s = (Ok page, s') ->
  exists p p', level settled s <= settled p /\ pv_get_logs pv lf lo hi p = (Ok page, p').
Proof.
  intros H. apply (retrying_ok settled) in H as [_ Hv]; [|by apply get_logs_grows].
  destruct (Hv page eq_refl) as (s1 & s2 & Hl & H2). unfold get_logs_op, on_provider in H2.
  destruct (pv_get_logs pv lf lo hi _) as [r p] eqn:E2. injection H2 as -> _. eauto.
Qed.

Definition valid (r : Z * Z) : Prop := 0 <= fst r <= snd r /\ snd r < U64.

Lemma valid_split lo hi l r :
  valid (lo, hi) -> lo < hi -> split_range lo hi = (l, r) ->
  valid l /\ valid r
  /\ (forall bl, logs_in bl lo hi = logs_in bl (fst l) (snd l) ++ logs_in bl (fst r) (snd r))
  /\ (Z.to_nat (2 * (snd l - fst l) + 1) + Z.to_nat (2 * (snd r - fst r) + 1)
      < Z.to_nat (2 * (hi - lo) + 1))%nat.
Proof.
  intros [Hv Hv'] Hlt E. cbn in Hv, Hv'. destruct (split_range_spec lo hi) as (mid & E' & H1 & H2 & _); [lia..|].
  rewrite E' in E. injection E as <- <-. unfold valid. cbn.
  split_and!; [lia..|intros bl; apply logs_in_split; lia|lia].
Qed.

Lemma split_within lo hi l r : valid (lo, hi) -> lo < hi -> split_range lo hi = (l, r) -> snd l <= hi /\ snd r <= hi.
Proof.
  intros [Hv Hv'] Hlt E. cbn in Hv, Hv'. destruct (split_range_spec lo hi) as (mid & E' & H1 & H2 & _); [lia..|].
  rewrite E' in E. injection E as <- <-. cbn. lia.
Qed.

(** The loop returns the logs of the pending ranges, in order, after those it has. *)
Lemma fetch_loop_complete bl `{!HonestProvider pv cap lf bl settled} fuel pending logs (s : ClientSt P) out s' :
  0 <= cap -> Forall valid pending -> Forall (fun r => snd r <= level settled s) pending -> fetch_loop pv rs fuel lf pending logs s = (Ok (Some out), s') ->
  out = logs ++ logs_over bl pending.
Proof.
  intros Hcap. revert pending logs s. induction fuel as [|fuel IH]; intros pending logs s Hv Hl; [done|]. cbn.
  destruct pending as [|[lo hi] pending]; [intros [= <- _]; by rewrite app_nil_r|].
  apply Forall_cons in Hv as [Hr Hv]. apply Forall_cons in Hl as [Hlv Hl]. cbn in Hlv.
  assert (forall v, level settled s <= level settled v -> Forall (fun r => snd r <= level settled v) pending) as Hup
    by (intros v Hg; eapply Forall_impl; [exact Hl|]; intros ? ?; cbn in *; lia).
  assert (forall v, level settled s <= level settled v -> lo < hi ->
    (let '(l, r) := split_range lo hi in fetch_loop pv rs fuel lf (l :: r :: pending) logs v)
      = (Ok (Some out), s') -> out = logs ++ logs_over bl ((lo, hi) :: pending)) as Hsplit.
  { intros v Hg Hlt H. destruct (split_range lo hi) as [l r] eqn:Es.
    destruct (valid_split _ _ _ _ Hr Hlt Es) as (Hl1 & Hr' & Hlogs & _). destruct (split_within _ _ _ _ Hr Hlt Es) as [W1 W2].
    apply IH in H; [|by do 2 (constructor; [done|])|constructor; [lia|constructor; [lia|auto]]]. rewrite H. unfold logs_over. cbn.
    by rewrite Hlogs, <- (assoc_L (++) (logs_in bl _ _)). }
  destruct (retrying _ s) as [[page|e] s1] eqn:Er;
    pose proof (retrying_grows settled _ (get_logs_grows pv rs settled lf lo hi) _ _ _ Er) as Hg.
  - destruct (_ && _) eqn:Eo.
    + apply Hsplit; [done|]. rewrite !andb_true_iff in Eo. lia.
    + intros H. apply IH in H; [|done|apply Hup; by rewrite density_level]. rewrite H, <- (assoc_L (++)). f_equal.
      unfold logs_over. cbn. f_equal. apply get_logs_page in Er as (p & p' & Hp & Ep).
      eapply (honest_page (cap := cap)); [|exact Ep|]; [lia|]. destruct Hr as [Hr _]. cbn in Hr.
      rewrite !andb_false_iff in Eo. destruct Eo as [[Eo|Eo]|Eo]; lia.
  - destruct e as [msg| | |]; try done. destruct (_ && _) eqn:Eo; [|done].
    apply Hsplit; [done|]. rewrite andb_true_iff in Eo. lia.
Qed.

Lemma pending_fuel_split lo hi l r pending fuel :
  valid (lo, hi) -> lo < hi -> split_range lo hi = (l, r) ->
  (pending_fuel ((lo, hi) :: pending) <= S fuel)%nat -> (pending_fuel (l :: r :: pending) <= fuel)%nat.
Proof.
  intros Hv Hlt E H. destruct (valid_split _ _ _ _ Hv Hlt E) as (_ & _ & _ & Hf).
  unfold pending_fuel in *. cbn in *. lia.
Qed.

Lemma pending_fuel_drop lo hi pending fuel :
  valid (lo, hi) -> (pending_fuel ((lo, hi) :: pending) <= S fuel)%nat -> (pending_fuel pending <= fuel)%nat.
Proof. intros [Hv _] H. unfold pending_fuel in *. cbn in *. lia. Qed.

(** With its fuel the loop always ends. *)
Lemma fetch_loop_ends fuel pending logs (s : ClientSt P) s' :
  Forall valid pending -> (pending_fuel pending <= fuel)%nat ->
  fetch_loop pv rs fuel lf pending logs s <> (Ok None, s').
Proof.
  revert pending logs s. induction fuel as [|fuel IH]; intros pending logs s Hv Hf; [unfold pending_fuel in Hf; lia|].
  cbn. destruct pending as [|[lo hi] pending]; [done|]. apply Forall_cons in Hv as [Hr Hv].
  assert (forall v, lo < hi ->
    (let '(l, r) := split_range lo hi in fetch_loop pv rs fuel lf (l :: r :: pending) logs v) <> (Ok None, s'))
    as Hsplit.
  { intros v Hlt. destruct (split_range lo hi) as [l r] eqn:Es.
    destruct (valid_split _ _ _ _ Hr Hlt Es) as (Hl & Hr' & _).
    apply IH; [constructor; [done|by constructor]|by apply (pending_fuel_split lo hi)]. }
  destruct (retrying _ s) as [[page|e] s1] eqn:Er.
  - destruct (_ && _) eqn:Eo; [apply Hsplit; rewrite !andb_true_iff in Eo; lia|].
    apply IH; [done|by apply (pending_fuel_drop lo hi)].
  - destruct e as [msg| | |]; try done. destruct (_ && _) eqn:Eo; [|done].
    apply Hsplit. rewrite andb_true_iff in Eo. lia.
Qed.

Lemma fetch_loop_errors fuel pending logs (s : ClientSt P) s' :
  fetch_loop pv rs fuel lf pending logs s <> (Err out_of_fuel, s').
Proof.
  revert pending logs s. induction fuel as [|fuel IH]; intros pending logs s; [done|].
  cbn. destruct pending as [|[lo hi] pending]; [done|].
  destruct (retrying _ s) as [[page|e] s1] eqn:Er.
  - destruct (_ && _); [|apply IH]. destruct (split_range lo hi). apply IH.
  - destruct e as [msg| | |]; try done. destruct (_ && _); [|done]. destruct (split_range lo hi). apply IH.
Qed.

(** When every attempt succeeds or fails with an error of a kind, so does the retried call. *)
Lemma retry_loop_kinds {W T} (Q : string -> Prop) (op : W -> result string T * W) n attempt delay s env :
  (forall v, match (op v).1 with Ok _ => True | Err e => Q e end) -> attempt + Z.of_nat n = 6 -> (0 < n)%nat ->
  exists r s' env', retry_loop op n attempt delay s env = (Done r, s', env')
    /\ match r with Ok _ => True | Err (Transport e) => Q e | Err _ => False end.
Proof.
  intros Hop. revert attempt delay s env. induction n as [|n IH]; intros attempt delay s env Hn Hpos; [lia|].
  cbn. pose proof (Hop s) as Hs. destruct (op s) as [[v|e] s1]; [by repeat eexists|]. cbn in Hs.
  destruct (_ || _) eqn:Eo; [by repeat eexists|]. destruct (jitter_below _ _).
  apply IH; [lia|]. apply orb_false_iff in Eo as [_ Eo]. lia.
Qed.

Lemma retrying_answers `{!ResponsiveProvider pv lf} lo hi (s : ClientSt P) :
  exists r s', retrying (get_logs_op pv rs lf lo hi) s = (r, s')
    /\ match r with Ok _ => True
       | Err (Transport e) => lo < hi /\ is_range_cap_error e = true | Err _ => False end.
Proof.
  unfold retrying, with_retry.
  edestruct (retry_loop_kinds (fun e => lo < hi /\ is_range_cap_error e = true)
    (get_logs_op pv rs lf lo hi) 6 0 250 s (st_retry s)) as (r & s' & env' & -> & Hr); [|lia..|by repeat eexists].
  intros v. unfold get_logs_op, on_provider.
  destruct (always_answers lo hi (st_provider (enter rs (GetLogs (u64_add (u64_sub hi lo) 1) 0) 1 v)))
    as (r & p' & -> & Hr). done.
Qed.

Lemma fetch_loop_answers `{!ResponsiveProvider pv lf} fuel pending logs (s : ClientSt P) :
  Forall valid pending -> (pending_fuel pending <= fuel)%nat ->
  exists out s', fetch_loop pv rs fuel lf pending logs s = (Ok (Some out), s').
Proof.
  revert pending logs s. induction fuel as [|fuel IH]; intros pending logs s Hv Hf; [unfold pending_fuel in Hf; lia|].
  cbn [fetch_loop]. destruct pending as [|[lo hi] pending]; [eauto|]. apply Forall_cons in Hv as [Hr Hv].
  assert (forall v, lo < hi -> exists out s',
    (let '(l, r) := split_range lo hi in fetch_loop pv rs fuel lf (l :: r :: pending) logs v) = (Ok (Some out), s'))
    as Hsplit.
  { intros v Hlt. destruct (split_range lo hi) as [l r] eqn:Es.
    destruct (valid_split _ _ _ _ Hr Hlt Es) as (Hl & Hr' & _).
    apply IH; [constructor; [done|by constructor]|by apply (pending_fuel_split lo hi)]. }
  destruct (retrying_answers lo hi s) as (r & s1 & -> & Ha). destruct r as [page|[e| | |]]; [|..|done|done|done].
  - destruct (_ && _) eqn:Eo; [apply Hsplit; rewrite !andb_true_iff in Eo; lia|].
    apply IH; [done|by apply (pending_fuel_drop lo hi)].
  - destruct Ha as [Hlt ->]. rewrite (proj2 (Z.ltb_lt lo hi) Hlt). by apply Hsplit.
Qed.

Lemma suggested_span_bounds (s : ClientSt P) :
  1 <= suggested_span rs s <= Z.max (max_getlogs_blocks (rs_plan rs)) 1.
Proof. unfold suggested_span. destruct (_ || _); lia. Qed.

(** The seeded sub-spans tile the range. *)
Lemma seed_valid from to (s : ClientSt P) :
  is_u32 (max_getlogs_blocks (rs_plan rs)) -> 0 <= from <= to -> to + U32 < U64 ->
  exists pending, range_chunks from to (suggested_span rs s) = Some pending
    /\ Forall valid pending /\ tiles from pending (to + 1).
Proof.
  intros Hu Hft Hto. pose proof (suggested_span_bounds s) as Hs.
  destruct (range_chunks_spec from to (suggested_span rs s)) as (pending & E & Ht & _);
    [lia|lia|unfold_int; lia|].
  rewrite Z.max_r in Ht by lia. exists pending. split_and!; [done| |done].
  apply Forall_forall. intros [lo hi] Hin. destruct (tiles_elem _ _ _ _ _ Ht Hin).
  unfold valid. cbn. unfold_int. lia.
Qed.

Lemma fetch_loop_settled bl `{!HonestProvider pv cap lf bl settled} fuel pending from to (s : ClientSt P) out s' :
  0 <= cap -> Forall valid pending -> tiles from pending (to + 1) -> to <= settled (st_provider s) ->
  fetch_loop pv rs fuel lf pending [] s = (Ok (Some out), s') -> out = logs_in bl from to.
Proof.
  intros Hcap Hv Ht Hset El. apply (fetch_loop_complete bl) in El; [|done|done|].
  - rewrite El. cbn. rewrite (logs_over_tiles _ _ _ _ Ht). f_equal. lia.
  - apply Forall_forall. intros [lo hi] Hin. destruct (tiles_elem _ _ _ _ _ Ht Hin). unfold level. cbn. lia.
Qed.
End fetch.

Lemma fetch_records_run {P} (pv : Provider P) (rs : RpcLogSource) (filter : RecordFilter) (lf : LogFilter)
    (bl : Z -> list Log) (settled : P -> Z) (from to : Z) (s s' : ClientSt P) (out : list RawRecord) :
  base_filter filter = Done lf -> RisingProvider pv settled ->
  HonestProvider pv (max_getlogs_results (rs_plan rs)) lf bl settled ->
  0 <= max_getlogs_results (rs_plan rs) -> is_u32 (max_getlogs_blocks (rs_plan rs)) ->
  0 <= from <= to -> to + U32 < U64 -> to <= settled (st_provider s) ->
  fetch_records pv rs filter from to s = (Ok out, s') ->
  res_map (map_log (rs_chain_id rs)) (logs_in bl from to) = Ok out.
Proof.
  intros Hf Hri Hh Hcap Hu Hft Hto Hset H. unfold fetch_records in H. rewrite Hf in H.
  destruct (seed_valid rs from to s Hu Hft Hto) as (pending & E & Hv & Ht). rewrite E in H.
  destruct (fetch_loop _ _ _ _ _ _ s) as [[[logs|]|e] s1] eqn:El; [|done|done].
  apply (fetch_loop_settled pv rs lf settled bl _ _ from to) in El as ->; [|done..].
  injection H as H _. destruct (res_map _ _); [|done]. by injection H as ->.
Qed.

(** C14: a fetched range is complete: whatever pages the node truncates, however often the range is
    halved and each call retried, whatever density was learnt before and however the chain above the
    settled blocks changes between the calls, the records returned for a settled range are exactly the
    mapped logs of the blocks [from..=to], each once, in chain order. *)
Theorem fetch_records_complete {P} (pv : Provider P) (rs : RpcLogSource) (filter : RecordFilter) (lf : LogFilter)
    (bl : Z -> list Log) (settled : P -> Z) (from to : Z) (s s' : ClientSt P) (out : list RawRecord) :
  base_filter filter = Done lf -> RisingProvider pv settled ->
  HonestProvider pv (max_getlogs_results (rs_plan rs)) lf bl settled ->
  0 <= max_getlogs_results (rs_plan rs) -> is_u32 (max_getlogs_blocks (rs_plan rs)) ->
  0 <= from <= to -> to + U32 < U64 -> to <= settled (st_provider s) ->
  fetch_records pv rs filter from to s = (Ok out, s') ->
  res_map (map_log (rs_chain_id rs)) (logs_in bl from to) = Ok out.
Proof. apply fetch_records_run. Qed.

(** C15: fetching ends: the halving loop never runs out of the rounds it is given, whatever the provider
    does, for ranges that end at least 2^32 below the end of the 64-bit range. With a provider that
    answers each range with a page or, when it has more than one block, with a range error, and whose
    pages are honest up to the settled blocks, fetching a settled range returns the mapped logs of its
    blocks (or the error of the first log the node sent malformed). *)
Theorem fetch_records_ends {P} (pv : Provider P) (rs : RpcLogSource) (filter : RecordFilter) (lf : LogFilter)
    (from to : Z) (s : ClientSt P) :
  base_filter filter = Done lf -> is_u32 (max_getlogs_blocks (rs_plan rs)) ->
  0 <= from <= to -> to + U32 < U64 ->
  (fetch_records pv rs filter from to s).1 <> Err out_of_fuel
  /\ forall (bl : Z -> list Log) (settled : P -> Z),
       ResponsiveProvider pv lf -> RisingProvider pv settled ->
       HonestProvider pv (max_getlogs_results (rs_plan rs)) lf bl settled ->
       0 <= max_getlogs_results (rs_plan rs) -> to <= settled (st_provider s) ->
       (fetch_records pv rs filter from to s).1
       = res_map_err domain_of_source (res_map (map_log (rs_chain_id rs)) (logs_in bl from to)).
Proof.
  intros Hf Hu Hft Hto. unfold fetch_records. rewrite Hf.
  destruct (seed_valid rs from to s Hu Hft Hto) as (pending & E & Hv & Ht). rewrite E. split.
  - destruct (fetch_loop _ _ _ _ _ _ s) as [[[logs|]|e] s1] eqn:El; cbn.
    + assert (forall l, res_map_err domain_of_source (res_map (map_log (rs_chain_id rs)) l) <> Err out_of_fuel) as H.
      { intros l. by destruct (res_map _ l). }
      apply H.
    + by apply fetch_loop_ends in El.
    + intros [= ->]. revert El. apply fetch_loop_errors.
  - intros bl settled Hr Hri Hh Hcap Hset.
    destruct (fetch_loop_answers pv rs lf (pending_fuel pending) pending [] s Hv ltac:(lia)) as (out & s' & El).
    rewrite El. cbn. by rewrite (fetch_loop_settled pv rs lf settled bl _ _ _ _ _ _ _ Hcap Hv Ht Hset El).
Qed.

(** * Samples: a node that refuses wide ranges and truncates *)

Definition sample_log (h : Z) : Log :=
  mkLog (Some h) (Some [byte_of h]) (Some 0) (Some [byte_of h; byte_of 1]) (Some 0) [byte_of 2] [] [] false.

Definition truncating_provider : Provider unit :=
  mkProvider unit (fun p => (Ok 100, p))
    (fun _ lo hi p => (if 6 <? hi - lo then Err "block range is too large"
                       else Ok (if lo =? hi then logs_in (fun h => [sample_log h]) lo hi
                                else take 3 (logs_in (fun h => [sample_log h]) lo hi)), p))
    (fun _ p => (Ok None, p)) (fun hs p => (Ok (repeat None (length hs)), p))
    (fun ids p => (Ok (repeat None (length ids)), p)) (fun _ p => (Ok tt, p)).

Definition sample_source : RpcLogSource :=
  mkRpcLogSource 1 (mkPlanProfile 25 None 100 2000 3 None) (FreeNodeCost "geth") 1 false.

Definition sample_st : ClientSt unit := mkClientSt tt (ledger_new None (0, 1)) 0 (mkRetryEnv 0 []) [].

Definition any_filter : LogFilter := mkLogFilter None None.

#[export] Instance truncating_rises : RisingProvider truncating_provider (fun _ => 100).
Proof. split; intros; intros p r p' _; lia. Qed.

#[export] Instance truncating_honest : HonestProvider truncating_provider 3 any_filter (fun h => [sample_log h]) (fun _ => 100).
Proof.
  intros lo hi p page p' _. cbn. destruct (6 <? hi - lo); [done|]. intros [= <- <-] H.
  destruct (Z.eqb_spec lo hi) as [|Hne]; [done|].
  destruct H as [?|[?|H]]; [done|done|]. apply take_ge.
  rewrite length_take in H. lia.
Qed.

#[export] Instance truncating_responsive : ResponsiveProvider truncating_provider any_filter.
Proof.
  intros lo hi p. cbn. destruct (Z.ltb_spec 6 (hi - lo)); eexists _, _; (split; [reflexivity|]); [|done].
  split; [lia|reflexivity].
Qed.

Lemma fetch_records_complete_witness :
  let r := fetch_records truncating_provider sample_source (mkRecordFilter [] []) 1 10 sample_st in
  res_map (map_log 1) (logs_in (fun h => [sample_log h]) 1 10)
  = Ok (match r.1 with Ok out => out | Err _ => [] end).
Proof.
  intros r.
  apply (fetch_records_complete truncating_provider sample_source (mkRecordFilter [] []) any_filter
           (fun h => [sample_log h]) (fun _ => 100) 1 10 sample_st r.2).
  - reflexivity.
  - exact truncating_rises.
  - exact truncating_honest.
  - cbn. lia.
  - unfold_int. cbn. lia.
  - lia.
  - unfold_int. lia.
  - lia.
  - vm_compute. reflexivity.
Defined.

Lemma fetch_records_ends_witness :
  (fetch_records truncating_provider sample_source (mkRecordFilter [] []) 1 10 sample_st).1
  = res_map_err domain_of_source (res_map (map_log 1) (logs_in (fun h => [sample_log h]) 1 10)).
Proof.
  apply (fetch_records_ends truncating_provider sample_source (mkRecordFilter [] []) any_filter 1 10 sample_st)
    with (settled := fun _ => 100).
  - reflexivity.
  - unfold_int. cbn. lia.
  - lia.
  - unfold_int. lia.
  - exact truncating_responsive.
  - exact truncating_rises.
  - exact truncating_honest.
  - cbn. lia.
  - lia.
Defined.

(** * Aux data *)

Section batched_facts.
Context {P I R : Type} (rs : RpcLogSource) (call : Z -> RpcCall).
Context (batch : list I -> P -> result string (list R) * P) (order : list (list I) -> list (list I)).
Context (Q : I -> R -> Prop) (settled : P -> Z) (n : Z).
Context (Hgrow : forall chunk, grows settled (batch chunk)).
Context (Hbatch : forall chunk p out p', n <= settled p -> batch chunk p = (Ok out, p') -> Forall2 Q chunk out).
Context (Horder : forall l, order l ≡ₚ l).

Lemma batch_chunk_grows chunk : grows (level settled) (batch_chunk rs call batch chunk).
Proof.
  apply retrying_grows. intros s r s'. destruct (on_provider _ _) as [x s1] eqn:E. intros [= _ <-].
  by apply (entered_grows rs settled (batch chunk) _ _ (Hgrow chunk)) in E.
Qed.

Lemma batch_chunk_spec chunk (s : ClientSt P) out s' :
  n <= level settled s -> batch_chunk rs call batch chunk s = (Ok out, s') ->
  out.*1 = chunk /\ Forall (fun ir => Q ir.1 ir.2) out.
Proof.
  intros Hn H. apply (retrying_ok settled) in H as [_ Hv].
  2:{ intros v r v'. destruct (on_provider _ _) as [x s1] eqn:E. intros [= _ <-].
      by apply (entered_grows rs settled (batch chunk) _ _ (Hgrow chunk)) in E. }
  destruct (Hv out eq_refl) as (s1 & s2 & Hl & H2). unfold on_provider in H2.
  destruct (batch chunk _) as [[rs'|e] p] eqn:Eb; [|done]. injection H2 as <- _.
  apply Hbatch in Eb; [|unfold level in *; cbn; lia]. clear Hv. split.
  - apply fst_zip. by rewrite (Forall2_length _ _ _ Eb).
  - clear -Eb. induction Eb; cbn; by constructor.
Qed.

(** Every item gets exactly one answer, whatever the order of the batches. *)
Lemma batched_spec items (s : ClientSt P) out s' :
  n <= level settled s -> batched rs call batch order items s = (Ok out, s') ->
  out.*1 ≡ₚ items /\ Forall (fun ir => Q ir.1 ir.2) out.
Proof.
  unfold batched. intros Hn H.
  assert (forall cs acc v, n <= level settled v ->
     mfold (fun acc chunk => do r <- batch_chunk rs call batch chunk; mret_ (acc ++ r)) acc cs v
     = (Ok out, s') -> exists rest, out = acc ++ rest /\ rest.*1 = concat cs /\ Forall (fun ir => Q ir.1 ir.2) rest)
    as Hf.
  { clear H Hn. induction cs as [|c cs IH]; intros acc v Hn H; cbn in H.
    - apply mret_Ok in H as [-> ->]. exists []. by rewrite app_nil_r.
    - apply mbind_Ok in H as (acc' & v1 & H1 & H). apply mbind_Ok in H1 as (r & v2 & H1 & [-> ->]%mret_Ok).
      pose proof (batch_chunk_grows c _ _ _ H1) as Hg.
      apply batch_chunk_spec in H1 as [E1 F1]; [|done]. apply IH in H as (rest & -> & E2 & F2); [|lia].
      exists (r ++ rest). rewrite <- app_assoc, fmap_app, E1, E2. split_and!; [done|done|]. by apply Forall_app. }
  apply Hf in H as (rest & -> & E & F); [|done]. cbn. split; [|done]. rewrite E.
  rewrite <- (chunks_concat (max_batch_size rs) items) at 2 by (unfold max_batch_size; lia).
  by rewrite Horder.
Qed.
End batched_facts.

(** The node answers block batches from one chain of blocks as far as it is settled, and receipt batches
    one by one. *)
Class HonestBlocks {P} (pv : Provider P) (chain_block : Z -> Block) (settled : P -> Z) : Prop := {
  block_numbers : forall h, blk_number (chain_block h) = h;
  honest_blocks : forall hs p out p', pv_batch_blocks pv hs p = (Ok out, p') ->
    Forall2 (fun h o => h <= settled p -> forall b, o = Some b -> b = chain_block h) hs out;
  paired_receipts : forall ids p out p', pv_batch_receipts pv ids p = (Ok out, p') ->
    Forall2 (fun _ _ => True) ids out
}.

Lemma block_txs_row chain blk ids i txs tx :
  tx ∈ txs -> tx_hash tx ∈ ids ->
  exists j, transaction_row chain (blk_number blk) (blk_hash blk) (tx_hash tx) (tx_fields tx j)
    ∈ block_txs chain blk ids i txs.
Proof.
  revert i. induction txs as [|t txs IH]; intros i; [by intros ?%not_elem_of_nil|]. cbn.
  intros [->|Hin]%elem_of_cons Hid.
  - exists i. rewrite bool_decide_true by done. left.
  - destruct (IH (i + 1) Hin Hid) as [j Hj]. exists j. apply elem_of_app. by right.
Qed.

Lemma block_txs_table chain blk ids i txs x : x ∈ block_txs chain blk ids i txs -> de_table (er_event x) = "transactions".
Proof.
  revert i. induction txs as [|t txs IH]; intros i; [by intros ?%not_elem_of_nil|]. cbn.
  intros [Hx|Hx]%elem_of_app; [|eauto]. case_bool_decide; [|by apply not_elem_of_nil in Hx].
  by apply list_elem_of_singleton in Hx as ->.
Qed.

(** Every block answered, its meta and its matched transactions are there. *)
Lemma block_aux_spec chain blocks ids aux aux' :
  block_aux chain blocks ids aux = Ok aux' ->
  exists bs, blocks.*2 = Some <$> bs
    /\ block_metas aux' = block_metas aux ++ (meta_of chain <$> bs)
    /\ enrichment aux' = enrichment aux ++ concat ((fun b => block_txs chain b ids 0 (blk_txns b)) <$> bs).
Proof.
  revert aux. induction blocks as [|[h [b|]] blocks IH]; intros aux; cbn; [|intros H|done].
  - intros [= ->]. exists []. by rewrite !app_nil_r.
  - apply IH in H as (bs & E1 & E2 & E3). exists (b :: bs). cbn. rewrite E1, E2, E3. cbn.
    by rewrite <- !app_assoc.
Qed.

Lemma btree_set_bytes l x : x ∈ btree_set bytes_cmp l <-> x ∈ l.
Proof. apply (btree_set_spec bytes_cmp). Qed.

Lemma btree_set_heights l x : x ∈ btree_set Z.compare l <-> x ∈ l.
Proof. apply (btree_set_spec Z.compare). Qed.

(** The blocks of the answered heights, and the ids of the answered receipts. *)
Lemma fetch_aux_run {P} (pv : Provider P) (rs : RpcLogSource) (chain_block : Z -> Block) (settled : P -> Z)
    (order_b : list (list Z) -> list (list Z)) (order_r : list (list bytes) -> list (list bytes))
    (records : list RawRecord) (aux : AuxData) (s s' : ClientSt P) :
  RisingProvider pv settled -> HonestBlocks pv chain_block settled -> (forall l, order_b l ≡ₚ l) -> (forall l, order_r l ≡ₚ l) ->
  (forall r, r ∈ records -> rr_height r <= settled (st_provider s)) ->
  fetch_aux pv rs order_b order_r records s = (Ok aux, s') ->
  let ids := btree_set bytes_cmp (rr_tx_id <$> records) in
  exists bs receipts aux1, aux = receipt_aux (rs_chain_id rs) receipts (tx_loc records) aux1
    /\ bs ≡ₚ chain_block <$> btree_set Z.compare (rr_height <$> records) /\ receipts.*1 ≡ₚ ids
    /\ block_metas aux1 = meta_of (rs_chain_id rs) <$> bs
    /\ enrichment aux1 = concat ((fun b => block_txs (rs_chain_id rs) b ids 0 (blk_txns b)) <$> bs).
Proof.
  intros Hri Hh Hob Hor Hset H. unfold fetch_aux in H.
  destruct (all_len 32 _); [|done]. apply mbind_Ok in H as ([] & s0 & [_ ->]%mret_Ok & H).
  apply mbind_Ok in H as (blocks & s1 & H1%mmap_err_Ok & H).
  apply mbind_Ok in H as (receipts & s2 & H2%mmap_err_Ok & H).
  apply mbind_Ok in H as (aux1 & s3 & H3 & [-> ->]%mret_Ok). injection H3 as H3 <-.
  pose proof (batched_grows rs settled _ _ _ _ rp_blocks _ _ _ H1) as Hg1.
  apply (batched_spec rs _ _ order_b (fun h o => h <= level settled s -> forall b, o = Some b -> b = chain_block h)
    settled (level settled s) rp_blocks) in H1 as [Pb Fb]; [|..|done|done].
  2:{ intros chunk p out p' Hp Hb. eapply Forall2_impl; [by eapply honest_blocks|]. cbn. intros h o Ho Hle. apply Ho. lia. }
  apply (batched_spec rs _ _ order_r (fun _ _ => True) settled (level settled s1) rp_receipts) in H2 as [Pr _];
    [|intros chunk p out p' _; apply paired_receipts|done|done].
  apply block_aux_spec in H3 as (bs & E1 & E2 & E3). cbn in E2, E3.
  assert (bs = chain_block <$> blocks.*1) as Hbs.
  { assert (forall h, h ∈ blocks.*1 -> h <= level settled s) as Hle.
    { intros h. rewrite Pb. intros (r & -> & Hr)%btree_set_heights%list_elem_of_fmap. by apply Hset. }
    clear -E1 Fb Hle. revert bs E1. induction Fb as [|[h o] bl Hq _ IH]; intros bs E1.
    - by destruct bs.
    - destruct bs as [|b bs]; [done|]. cbn in E1. injection E1 as -> E1. cbn. f_equal.
      + apply Hq; [apply Hle; left|done].
      + apply IH; [|done]. intros h' Hh'. apply Hle. by right. }
  exists bs, receipts, aux1. split_and!; [done|by rewrite Hbs, Pb|done|done|done].
Qed.

(** C29: aux data fits the schema: with a node that answers from one chain up to the settled blocks, for settled records the block metas are those
    of the records' blocks, one per height; every record's transaction has its row; and every
    receipt row comes with the transaction row its foreign key needs. *)
Theorem fetch_aux_closed {P} (pv : Provider P) (rs : RpcLogSource) (chain_block : Z -> Block) (settled : P -> Z)
    (order_b : list (list Z) -> list (list Z)) (order_r : list (list bytes) -> list (list bytes))
    (records : list RawRecord) (aux : AuxData) (s s' : ClientSt P) :
  RisingProvider pv settled -> HonestBlocks pv chain_block settled -> (forall l, order_b l ≡ₚ l) -> (forall l, order_r l ≡ₚ l) ->
  (forall r, r ∈ records -> rr_height r <= settled (st_provider s)) ->
  (forall r, r ∈ records -> exists tx, tx ∈ blk_txns (chain_block (rr_height r)) /\ tx_hash tx = rr_tx_id r) ->
  fetch_aux pv rs order_b order_r records s = (Ok aux, s') ->
  (block_metas aux ≡ₚ (fun h => meta_of (rs_chain_id rs) (chain_block h)) <$> btree_set Z.compare (rr_height <$> records))
  /\ NoDup (bm_height <$> block_metas aux)
  /\ (forall r, r ∈ records -> exists x, x ∈ enrichment aux /\ de_table (er_event x) = "transactions"
        /\ er_chain_id x = rs_chain_id rs /\ er_height x = rr_height r /\ er_tx_id x = rr_tx_id r)
  /\ (forall x, x ∈ enrichment aux -> de_table (er_event x) = "receipts" ->
        exists p, p ∈ enrichment aux /\ de_table (er_event p) = "transactions"
          /\ er_chain_id p = er_chain_id x /\ er_tx_id p = er_tx_id x).
Proof.
  intros Hri Hh Hob Hor Hset Htx H.
  apply (fetch_aux_run pv rs chain_block settled) in H as (bs & receipts & aux1 & -> & Hbs' & Pr & E2 & E3); [|done..].
  set (hs := btree_set Z.compare (rr_height <$> records)) in *.
  set (ids := btree_set bytes_cmp (rr_tx_id <$> records)) in *.
  assert (Hrec : forall r, r ∈ records -> exists x, x ∈ enrichment aux1 /\ de_table (er_event x) = "transactions"
        /\ er_chain_id x = rs_chain_id rs /\ er_height x = rr_height r /\ er_tx_id x = rr_tx_id r).
  { intros r Hr. destruct (Htx r Hr) as (tx & Hin & Hid).
    destruct (block_txs_row (rs_chain_id rs) (chain_block (rr_height r)) ids 0 _ tx Hin) as [j Hj].
    { rewrite Hid. apply btree_set_bytes, list_elem_of_fmap. eauto. }
    set (x := transaction_row _ _ _ _ _) in Hj. exists x.
    split_and!; [|done|done|apply block_numbers|exact Hid].
    rewrite E3. apply list_elem_of_In, in_concat.
    exists (block_txs (rs_chain_id rs) (chain_block (rr_height r)) ids 0 (blk_txns (chain_block (rr_height r)))).
    split; [|by apply list_elem_of_In]. apply list_elem_of_In, list_elem_of_fmap.
    exists (chain_block (rr_height r)). split; [done|]. rewrite Hbs'. apply list_elem_of_fmap.
    exists (rr_height r). split; [done|]. apply btree_set_heights, list_elem_of_fmap. eauto. }
  split_and!.
  - cbn. rewrite E2, Hbs'. by rewrite <- list_fmap_compose.
  - cbn. rewrite E2, Hbs', <- !list_fmap_compose.
    rewrite (list_fmap_ext _ (fun h => h) hs) by (intros i h _; apply block_numbers).
    rewrite list_fmap_id. apply (ascending_NoDup Z.compare), btree_set_spec, _.
  - intros r Hr. destruct (Hrec r Hr) as (x & Hx & ?). exists x. split; [|done]. cbn. apply elem_of_app. by left.
  - cbn. intros x [Hx|Hx]%elem_of_app Ht.
    { rewrite E3 in Hx. apply list_elem_of_In, in_concat in Hx as (l & Hl & Hx).
      apply list_elem_of_In, list_elem_of_fmap in Hl as (b & -> & _). apply list_elem_of_In, block_txs_table in Hx. congruence. }
    apply list_elem_of_omap in Hx as ([id o] & Hin & Hx). unfold receipt_of in Hx.
    destruct o as [rc|]; [|done]. cbn in Hx. destruct (default _ _) as [h bh]. injection Hx as <-.
    assert (id ∈ rr_tx_id <$> records) as (r & -> & Hr)%list_elem_of_fmap.
    { apply btree_set_bytes. fold ids. rewrite <- Pr. apply list_elem_of_fmap. by exists (id, Some rc). }
    destruct (Hrec r Hr) as (x & Hx & E & Ec & _ & Eid). exists x. split_and!; [|done|done|done].
    apply elem_of_app. by left.
Qed.

(** * Sample: a node with one transaction per block *)

Definition sample_tx (h : Z) : Tx :=
  mkTx (repeat (byte_of h) 32) [byte_of 7] 5 [] 21000 h (Some [byte_of 2]) None.
Definition sample_block (h : Z) : Block := mkBlock h [byte_of h] [byte_of (h - 1)] (1000 + h) [sample_tx h].

Definition block_provider : Provider unit :=
  mkProvider unit (fun p => (Ok 100, p)) (fun _ _ _ p => (Ok [], p)) (fun h p => (Ok (Some (sample_block h)), p))
    (fun hs p => (Ok ((fun h => Some (sample_block h)) <$> hs), p))
    (fun ids p => (Ok ((fun _ => Some (mkReceipt true 21000 1 None)) <$> ids), p)) (fun _ p => (Ok tt, p)).

#[export] Instance block_provider_rises : RisingProvider block_provider (fun _ => 100).
Proof. split; intros; intros p r p' _; lia. Qed.

#[export] Instance block_provider_honest : HonestBlocks block_provider sample_block (fun _ => 100).
Proof.
  split; [done| |].
  - intros hs p out p' [= <- _]. induction hs; cbn; constructor; [by intros _ b [= ->]|done].
  - intros ids p out p' [= <- _]. induction ids; cbn; by constructor.
Qed.

Definition sample_records : list RawRecord :=
  (fun h => mkRawRecord 1 h [byte_of h] 0 [byte_of 2] [] [] (repeat (byte_of h) 32) 0 None) <$> [5; 3; 5].

Lemma fetch_aux_closed_witness :
  exists aux, (fetch_aux block_provider sample_source id id sample_records sample_st).1 = Ok aux
    /\ length (enrichment aux) = 4%nat
    /\ forall x, x ∈ enrichment aux -> de_table (er_event x) = "receipts" ->
        exists p, p ∈ enrichment aux /\ de_table (er_event p) = "transactions"
          /\ er_chain_id p = er_chain_id x /\ er_tx_id p = er_tx_id x.
Proof.
  eexists. split; [vm_compute; reflexivity|]. split; [vm_compute; reflexivity|].
  eapply (fetch_aux_closed block_provider sample_source sample_block (fun _ => 100) id id sample_records _ sample_st).
  - exact block_provider_rises.
  - exact block_provider_honest.
  - done.
  - done.
  - intros r [->|[->|[->|[]%not_elem_of_nil]%elem_of_cons]%elem_of_cons]%elem_of_cons; cbn; lia.
  - intros r (h & -> & _)%list_elem_of_fmap. exists (sample_tx h). split; [|done]. cbn. left.
  - vm_compute. reflexivity.
Defined.
