(* ===== verification/Ingest.v ===== *)
(** The live indexer of a chain ([bins/indexer-cli]: [tip.rs], [ingest.rs], [supervisor.rs]): the tip
    state machine, one catch-up window, the ingest loop and its supervisor, over any chain source.
    What the environment decides (cancellation, the order in which fetches complete, what a stream
    pushes) is an input of each turn, so a theorem over all inputs covers every schedule. *)
From S2P Require Import Prelude Model Btree Text Encode Store Repos Queue UnitOfWork Services ServicesFacts Ranges Plan Pipeline.

(** * Tip state ([tip.rs]) *)

Definition PENDING_RECHECK_SECS : Z := 2.

(** [sub] says whether there is a live stream; [pending] is a [BTreeSet], kept ascending. *)
Record TipState := mkTipState {
  ws_enabled : bool;
  sub : bool;
  pending : list Z;
  reconcile : bool;
  reorg_at : option Z
}.

Definition tip_new (ws : bool) : TipState := mkTipState ws false [] true None.

Definition ensure_subscribed {St} (src : ChainSource St) (filter : RecordFilter) (t : TipState) (s : St) :
    TipState * St :=
  if negb (ws_enabled t) || sub t then (t, s)
  else match cs_subscribe src filter s with
       | (Ok _, s') => (mkTipState (ws_enabled t) true (pending t) true (reorg_at t), s')
       | (Err _, s') => (t, s')
       end.

Definition must_fetch (t : TipState) (safe : Z) : bool :=
  negb (ws_enabled t) || reconcile t
  || match pending t with lo :: _ => lo <=? safe | [] => false end.

Definition clear_through (target : Z) (t : TipState) : TipState :=
  mkTipState (ws_enabled t) (sub t) (filter (fun h => target < h) (pending t)) (reconcile t) (reorg_at t).

Definition should_poll_head (t : TipState) : bool :=
  negb (ws_enabled t) || reconcile t || negb (bool_decide (pending t = [])).

Definition take_reorg_signal (t : TipState) : option Z * TipState :=
  (reorg_at t, mkTipState (ws_enabled t) (sub t) (pending t) (reconcile t) None).

(** Seconds to sleep. *)
Definition wait (t : TipState) (interval : Z) : Z :=
  match pending t with [] => interval | _ => Z.min interval PENDING_RECHECK_SECS end.

Definition on_ws_event (rec : option (result DomainError TipLog)) (t : TipState) : TipState :=
  match rec with
  | Some (Ok l) =>
      let h := rr_height (tl_record l) in
      if tl_removed l
      then mkTipState (ws_enabled t) (sub t) (pending t) (reconcile t)
             (Some (match reorg_at t with Some cur => Z.min cur h | None => h end))
      else mkTipState (ws_enabled t) (sub t) (btree_set Z.compare (h :: pending t)) (reconcile t) (reorg_at t)
  | Some (Err _) | None => mkTipState (ws_enabled t) false (pending t) (reconcile t) (reorg_at t)
  end.

Definition set_reconcile (b : bool) (t : TipState) : TipState :=
  mkTipState (ws_enabled t) (sub t) (pending t) b (reorg_at t).

(** * The loop ([ingest.rs]) *)

Definition REORG_PROBE_TICKS : Z := 16.

(** What ends the wait of a turn. *)
Inductive Wake : Type :=
| WCancelled
| WEvent (rec : option (result DomainError TipLog))
| WElapsed.

(** What the environment does in one turn of the loop: the token when it starts, the order in which
    the fetches of the window complete, the token when each is taken, how many messages the
    writer took if a fetch fails, and what ends the wait. *)
Record Turn := mkTurn {
  tn_cancelled : bool;
  tn_order : list (Z * Z) -> list (Z * Z);
  tn_cancel_at : list bool;
  tn_taken : nat;
  tn_wake : Wake
}.

Record CaughtUp := mkCaughtUp { cu_next : Z; cu_shutdown : bool; cu_behind : bool }.

(** The variables of the loop. *)
Record Loop := mkLoop { lp_next : Z; lp_tick : Z; lp_state : TipState }.

Section ingest.
Context {St : Type} (src : ChainSource St) (tables : list string) (rfilter : RecordFilter).
(** [ledger.quota_exhausted()]: the source and the loop share the ledger. *)
Context (quota : St -> bool).
Context (confirmations start_block step range_concurrency : Z).

Abbreviation chain := (cs_chain_id src).

(** The completions of [buffer_unordered]: one [fetch_range] per range, in completion order. *)
Fixpoint fetch_stream (cancel : list bool) (ranges : list (Z * Z)) (s : St) : list Completion * St :=
  match ranges with
  | [] => ([], s)
  | (lo, hi) :: ranges =>
      let '(r, s1) := fetch_range src rfilter lo hi s in
      let '(cs, s2) := fetch_stream (drop 1 cancel) ranges s1 in
      ((default false (hd_error cancel) || quota s1, r) :: cs, s2)
  end.

Definition pipeline (tn : Turn) (next target : Z) : M (World * St) DomainError PipelineOutcome := fun ws =>
  match plan_ranges next target step with
  | None => (Err out_of_fuel, ws)
  | Some ranges =>
      let '(cs, s) := fetch_stream (tn_cancel_at tn) (tn_order tn ranges) ws.2 in
      on_db (run_pipeline chain next cs (tn_taken tn)) (ws.1, s)
  end.

Definition catch_up (tn : Turn) (state : TipState) (next safe : Z) :
    M (World * St) DomainError (CaughtUp * TipState) :=
  let fetch := must_fetch state safe in
  let target := fetch_target safe next step range_concurrency fetch in
  if negb fetch then
    do _ <- on_db (cursor_advance chain target []);
    let next := u64_add target 1 in
    mret_ (mkCaughtUp next false (next <=? safe), state)
  else
    do out <- pipeline tn next target;
    let next := match po_advanced_to out with Some adv => u64_add adv 1 | None => next end in
    if po_shutdown out then mret_ (mkCaughtUp next true false, state)
    else mret_ (mkCaughtUp next false (next <=? safe),
                clear_through (u64_ssub next 1) (set_reconcile (next <=? safe) state)).

(** The reorg probe of a turn: [next] and the state after it. *)
Definition probe_reorg (next tick : Z) (state : TipState) : M (World * St) DomainError (Z * TipState) :=
  let '(signal, state) := take_reorg_signal state in
  if bool_decide (is_Some signal) || negb (ws_enabled state) || (tick mod REORG_PROBE_TICKS =? 0) then
    do reindex <- reorg_check tables src confirmations;
    match reindex with
    | Some from => mret_ (from, set_reconcile true state)
    | None => mret_ (next, state)
    end
  else mret_ (next, state).

(** The [select!] at the end of a turn; a stream event needs a stream. *)
Definition wake (tn : Turn) (l : Loop) : option Loop :=
  match tn_wake tn with
  | WCancelled => None
  | WEvent rec =>
      Some (if sub (lp_state l) then mkLoop (lp_next l) (lp_tick l) (on_ws_event rec (lp_state l)) else l)
  | WElapsed => Some l
  end.

(** One turn of the loop: [None] when it breaks out. *)
Definition turn (l : Loop) (tn : Turn) : M (World * St) DomainError (option Loop) := fun ws =>
  if tn_cancelled tn || quota ws.2 then (Ok None, ws)
  else
    let '(state, s) := ensure_subscribed src rfilter (lp_state l) ws.2 in
    let tick := u64_add (lp_tick l) 1 in
    (do ns <- probe_reorg (lp_next l) tick state;
     let next := ns.1 in
     let state := ns.2 in
     if should_poll_head state then
       do head <- on_src (cs_head src);
       let safe := u64_ssub head confirmations in
       if next <=? safe then
         do cu <- catch_up tn state next safe;
         if cu_shutdown cu.1 then mret_ None
         else
           let l := mkLoop (cu_next cu.1) tick cu.2 in
           if cu_behind cu.1 then mret_ (Some l) else mret_ (wake tn l)
       else mret_ (wake tn (mkLoop next tick state))
     else mret_ (wake tn (mkLoop next tick state))) (ws.1, s).

Fixpoint turns (l : Loop) (tns : list Turn) : M (World * St) DomainError (option Loop) :=
  match tns with
  | [] => mret_ (Some l)
  | tn :: tns =>
      do o <- turn l tn;
      match o with
      | None => mret_ None
      | Some l => turns l tns
      end
  end.

(** The loop up to the turns given ([Some] when it is still running). *)
Definition ingest_loop (tns : list Turn) : M (World * St) DomainError (option Loop) :=
  do cursor <- on_db (cursor_get chain);
  let next := match cursor with Some (last, _) => u64_add last 1 | None => Z.max start_block 1 end in
  turns (mkLoop next 0 (tip_new (supports_subscribe (cs_caps src)))) tns.

(** * Supervision ([supervisor.rs]) *)

(** One attempt: the source that is built over the network as the attempts before left it (or why it
    could not be built), the turns of its loop, and whether the token is cancelled during the backoff
    after it. *)
Record Attempt := mkAttempt {
  at_built : St -> result DomainError St;
  at_turns : list Turn;
  at_cancelled : bool
}.

Definition run_chain_once (a : Attempt) : M (World * St) DomainError (option Loop) := fun ws =>
  match at_built a ws.2 with
  | Err e => (Err e, ws)
  | Ok s => ingest_loop (at_turns a) (ws.1, s)
  end.

(** The backoffs slept (seconds, oldest first), and the store and the network when the attempts are over
    or the supervisor has returned. *)
Fixpoint supervised_ingest (backoff : Z) (attempts : list Attempt) (ws : World * St) : list Z * (World * St) :=
  match attempts with
  | [] => ([], ws)
  | a :: attempts =>
      match run_chain_once a ws with
      | (Ok _, ws) => ([], ws)
      | (Err _, ws) =>
          if at_cancelled a then ([], ws)
          else let '(slept, ws) := supervised_ingest (Z.min (backoff * 2) 30) attempts ws in (backoff :: slept, ws)
      end
  end.
End ingest.
