(* ===== verification/IngestFacts.v ===== *)
(** Theorems about the live indexer: the checkpoint of a chain is sound through any number of failures,
    restarts and reorgs of at most [confirmations] blocks, polled or driven by a stream that announces
    every log in time; two runs in which it is not, one with a stream that does not and one after a deeper
    reorg. *)
From S2P Require Import Prelude Model Btree Text Encode Store Repos Queue UnitOfWork Services ServicesFacts Ranges Plan Pipeline Ingest.

(** * What a chain source promises *)

(** The records of the blocks [lo..=hi]. *)
Definition recs_in (recs : Z -> list RawRecord) (lo hi : Z) : list RawRecord :=
  concat (recs <$> seqZ lo (hi - lo + 1)).

(** No call lowers the level. *)
Class Rising {St} (src : ChainSource St) (rfilter : RecordFilter) (lvl : St -> Z) : Prop := {
  ri_head : grows lvl (cs_head src);
  ri_records : forall lo hi, grows lvl (cs_fetch_records src rfilter lo hi);
  ri_aux : forall rs, grows lvl (cs_fetch_aux src rs);
  ri_hash : forall h, grows lvl (cs_block_hash src h);
  ri_subscribe : grows lvl (cs_subscribe src rfilter)
}.

(** A source over a chain that settles: blocks may be replaced, but never those up to [settled s], which
    only grows and reaches [confirmations] below every head the source answers.  Up to there it answers
    from the settled chain, of which [recs] has the matched records and [chain_hash] the hashes; above,
    from whatever the chain is then. *)
Class SettlingChain {St} (src : ChainSource St) (rfilter : RecordFilter) (confirmations : Z)
    (recs : Z -> list RawRecord) (chain_hash : Z -> bytes) (settled : St -> Z) : Prop := {
  sc_rises :: Rising src rfilter settled;
  sc_head : forall s h s', cs_head src s = (Ok h, s') -> 0 <= h < 2 ^ 62 /\ u64_ssub h confirmations <= settled s';
  sc_height : forall b r, r ∈ recs b -> rr_height r = b;
  sc_records : forall lo hi s rs s', 0 <= lo <= hi -> hi < 2 ^ 62 -> hi <= settled s ->
    cs_fetch_records src rfilter lo hi s = (Ok rs, s') -> rs = recs_in recs lo hi;
  sc_aux : forall n rs s aux s', n <= settled s -> (forall r, r ∈ rs -> is_i63 (rr_height r) /\ rr_height r <= n) ->
    cs_fetch_aux src rs s = (Ok aux, s') -> forall b, b ∈ block_metas aux ->
    bm_chain_id b = cs_chain_id src /\ is_i63 (bm_height b) /\ bm_height b <= n /\ bm_hash b = chain_hash (bm_height b);
  sc_hash : forall h s c s', h <= settled s -> cs_block_hash src h s = (Ok (Some c), s') -> c = chain_hash h
}.

(** A source whose streams announce the logs of the blocks above [horizon s], if opened in the state
    [s]; every later head is at least [confirmations] above it. *)
Class Announcing {St} (src : ChainSource St) (rfilter : RecordFilter) (confirmations : Z) (horizon : St -> Z) : Prop := {
  an_rises :: Rising src rfilter horizon;
  an_head : forall s h s', cs_head src s = (Ok h, s') -> horizon s' <= u64_ssub h confirmations
}.

Section rising.
Context {St : Type} (src : ChainSource St) (tables : list string) (rfilter : RecordFilter).
Context (quota : St -> bool) (confirmations start_block step rc : Z) (lvl : St -> Z).
Context {Hrises : Rising src rfilter lvl}.
Abbreviation lvl2 := (fun ws : World * St => lvl ws.2).

Lemma fetch_range_grows lo hi : grows lvl (fetch_range src rfilter lo hi).
Proof.
  unfold fetch_range. apply grows_bind; [apply ri_records|]. intros rs. apply grows_bind; [|auto with t0].
  destruct rs; [auto with t0|apply ri_aux].
Qed.

Lemma fetch_stream_grows cancel ranges s : lvl s <= lvl (fetch_stream src rfilter quota cancel ranges s).2.
Proof.
  revert cancel s. induction ranges as [|[lo hi] ranges IH]; intros cancel s; cbn; [lia|].
  destruct (fetch_range src rfilter lo hi s) as [r s1] eqn:E. apply fetch_range_grows in E.
  specialize (IH (drop 1 cancel) s1). destruct (fetch_stream _ _ _ _ ranges s1) as [cs s2]. cbn in *. lia.
Qed.

Lemma on_db_grows {A} (m : M World DomainError A) : grows lvl2 (on_db m).
Proof. intros [w s] r [w' s']. unfold on_db. cbn. destruct (m w). intros [= _ _ <-]. lia. Qed.

Lemma on_src_grows {A} (m : M St DomainError A) : grows lvl m -> grows lvl2 (on_src m).
Proof. intros Hm [w s] r [w' s']. unfold on_src. cbn. destruct (m s) as [x s1] eqn:E. intros [= _ _ <-]. by eapply Hm. Qed.

Lemma pipeline_grows tn next target : grows lvl2 (pipeline src rfilter quota step tn next target).
Proof.
  intros [w s] r [w' s']. unfold pipeline. destruct (plan_ranges _ _ _) as [rs|]; [|intros [= _ _ <-]; cbn; lia]. cbn [fst snd].
  pose proof (fetch_stream_grows (tn_cancel_at tn) (tn_order tn rs) s) as Hg.
  destruct (fetch_stream _ _ _ _ _ s) as [cs s1]. intros H%on_db_grows. cbn in *. lia.
Qed.

Lemma catch_up_grows tn state next safe : grows lvl2 (catch_up src rfilter quota step rc tn state next safe).
Proof.
  unfold catch_up. destruct (negb _).
  - apply grows_bind; [apply on_db_grows|intros; apply grows_ret].
  - apply grows_bind; [apply pipeline_grows|]. intros out. destruct (po_shutdown out); apply grows_ret.
Qed.

Lemma reorg_check_grows : grows lvl2 (reorg_check tables src confirmations).
Proof.
  unfold reorg_check. destruct (negb _); [apply grows_ret|]. apply grows_bind; [apply on_db_grows|].
  intros [tip|]; [|apply grows_ret]. apply grows_bind; [apply on_db_grows|]. intros [st|]; [|apply grows_ret].
  apply grows_bind; [apply on_src_grows, ri_hash|]. intros [c|]; [|apply grows_ret].
  case_bool_decide; [apply grows_ret|]. apply grows_bind; [apply on_db_grows|intros; apply grows_ret].
Qed.

Lemma probe_reorg_grows next tick state : grows lvl2 (probe_reorg src tables confirmations next tick state).
Proof.
  unfold probe_reorg. destruct (take_reorg_signal state) as [sig st]. destruct (_ || _); [|apply grows_ret].
  apply grows_bind; [apply reorg_check_grows|]. intros [from|]; apply grows_ret.
Qed.

Lemma ensure_grows t s : lvl s <= lvl (ensure_subscribed src rfilter t s).2.
Proof.
  unfold ensure_subscribed. destruct (_ || _); [cbn; lia|]. destruct (cs_subscribe src rfilter s) as [[u|e] s'] eqn:E;
    apply ri_subscribe in E; cbn; lia.
Qed.

Lemma turn_grows l tn : grows lvl2 (turn src tables rfilter quota confirmations step rc l tn).
Proof.
  intros [w s] r [w' s']. unfold turn. cbn [fst snd]. destruct (_ || _); [intros [= _ _ <-]; cbn; lia|].
  pose proof (ensure_grows (lp_state l) s) as Hg. destruct (ensure_subscribed _ _ _ s) as [state s1]. cbn in Hg.
  match goal with |- ?m (w, s1) = _ -> _ => assert (grows lvl2 m) as Hm end; [|intros H%Hm; cbn in H; lia].
  apply grows_bind; [apply probe_reorg_grows|]. intros ns. destruct (should_poll_head _); [|apply grows_ret].
  apply grows_bind; [apply on_src_grows, ri_head|]. intros h. destruct (_ <=? _); [|apply grows_ret].
  apply grows_bind; [apply catch_up_grows|]. intros cu. destruct (cu_shutdown _); [apply grows_ret|].
  destruct (cu_behind _); apply grows_ret.
Qed.
End rising.

Section poll.
Context {St : Type} (src : ChainSource St) (tables : list string) (rfilter : RecordFilter).
Context (quota : St -> bool) (confirmations start_block step rc : Z).
Context (recs : Z -> list RawRecord) (chain_hash : Z -> bytes) (settled : St -> Z).
Context {Hsettles : SettlingChain src rfilter confirmations recs chain_hash settled}.
Context (horizon : St -> Z) {Hann : Announcing src rfilter confirmations horizon}.
Context (Hconf : 0 <= confirmations) (Hstep : 1 <= step) (Hrc : 1 <= rc) (Hwin : step * rc < 2 ^ 62).

Abbreviation chain := (cs_chain_id src).
Abbreviation first := (Z.max start_block 1).

Definition block_in (d : Db) (b : Z) : Prop := forall r, r ∈ recs b -> is_Some (db_raw d !! raw_key r).

(** Every block from the start up to [n] (excluded) has its records in the store. *)
Definition swept (n : Z) (d : Db) : Prop := forall b, first <= b < n -> block_in d b.

(** The stored blocks are of the settled chain, up to [lvl]. *)
Definition blocks_ok (lvl : Z) (d : Db) : Prop := forall h row,
  db_blocks d !! (as_i64 chain, h) = Some row -> is_i63 h /\ h <= lvl /\ b_hash row = chain_hash h.

Lemma blocks_ok_up lvl lvl' d : lvl <= lvl' -> blocks_ok lvl d -> blocks_ok lvl' d.
Proof. intros Hl Hb h row H. destruct (Hb h row H) as (? & ? & ?). split_and!; [done|lia|done]. Qed.

(** The checkpoint is sound: the chain's cursor stands at a block up to which nothing is missing. *)
Definition checkpoint_ok (d : Db) : Prop := forall c hash,
  db_cursors d !! as_i64 chain = Some (c, hash) -> 0 <= c < 2 ^ 62 /\ swept (c + 1) d.

Definition meta_ok (lvl : Z) (b : BlockMeta) : Prop :=
  bm_chain_id b = chain /\ is_i63 (bm_height b) /\ bm_height b <= lvl /\ bm_hash b = chain_hash (bm_height b).

Definition honest_fetch (lvl : Z) (f : FetchedRange) : Prop :=
  fr_records f = recs_in recs (fr_from f) (fr_to f) /\ forall b, b ∈ block_metas (fr_aux f) -> meta_ok lvl b.

Lemma recs_in_elem lo hi r : r ∈ recs_in recs lo hi <-> exists b, lo <= b <= hi /\ r ∈ recs b.
Proof.
  unfold recs_in. rewrite list_elem_of_In, in_concat. split.
  - intros (l & Hl & Hr). apply list_elem_of_In, list_elem_of_fmap in Hl as (b & -> & Hb).
    apply elem_of_seqZ in Hb. exists b. split; [lia|by apply list_elem_of_In].
  - intros (b & Hb & Hr). exists (recs b). split; [|by apply list_elem_of_In].
    apply list_elem_of_In, list_elem_of_fmap. exists b. split; [done|]. apply elem_of_seqZ. lia.
Qed.

Lemma swept_keeps n d d' : keeps d d' -> swept n d -> swept n d'.
Proof. intros (Hk & _) H b Hb r Hr. apply Hk. by apply (H b). Qed.

(** A window covered up to [h] continues what was swept before it. *)
Lemma covered_swept lvl next stop all d d' h :
  (forall f, f ∈ all -> honest_fetch lvl f) -> keeps d d' -> swept next d ->
  covered chain next stop all d' h -> swept (h + 1) d'.
Proof.
  intros Hall Hk Hs [_ Hc] b Hb. destruct (Z.lt_ge_cases b next) as [Hlt|Hge].
  - apply (swept_keeps next d d' Hk Hs). lia.
  - destruct (Hc b ltac:(lia)) as (f & Hf & Hr & (Hst & _)). intros r Hrec. apply Hst.
    destruct (Hall f Hf) as [-> _]. apply recs_in_elem. eauto.
Qed.

(** * Fetching *)

Lemma fetch_range_honest lvl lo hi s f s' :
  0 <= lo <= hi -> hi < 2 ^ 62 -> hi <= lvl <= settled s -> fetch_range src rfilter lo hi s = (Ok f, s') ->
  range_of f = (lo, hi) /\ honest_fetch lvl f.
Proof.
  intros Hlo Hhi Hl H. unfold fetch_range in H. apply mbind_Ok in H as (rs & s1 & H1 & H).
  pose proof (ri_records (lvl := settled) _ _ _ _ _ H1) as Hg. apply sc_records in H1 as ->; [|done|done|lia].
  apply mbind_Ok in H as (aux & s2 & H2 & [-> ->]%mret_Ok). split; [done|]. split; [done|]. cbn.
  destruct (recs_in recs lo hi) as [|r rs] eqn:E.
  { apply mret_Ok in H2 as [-> _]. by intros b ?%not_elem_of_nil. }
  rewrite <- E in H2. eapply (sc_aux lvl); [|..|exact H2]; [lia|]. intros r' (b & Hb & Hr)%recs_in_elem.
  rewrite (sc_height b r' Hr). unfold_int. lia.
Qed.

Lemma fetch_stream_sent lvl cancel ranges s :
  lvl <= settled s -> (forall lo hi, (lo, hi) ∈ ranges -> 0 <= lo <= hi /\ hi < 2 ^ 62 /\ hi <= lvl) ->
  let sent := (fetch_producer (fetch_stream src rfilter quota cancel ranges s).1).1 in
  range_of <$> sent `sublist_of` ranges /\ forall f, f ∈ sent -> honest_fetch lvl f.
Proof.
  revert cancel s. induction ranges as [|[lo hi] ranges IH]; intros cancel s Hl Hr; cbn.
  { split; [constructor|by intros f ?%not_elem_of_nil]. }
  destruct (fetch_range src rfilter lo hi s) as [r s1] eqn:E.
  pose proof (fetch_range_grows src rfilter settled lo hi _ _ _ E) as Hg.
  destruct (IH (drop 1 cancel) s1) as [IH1 IH2]. { lia. } { intros; apply Hr; by right. }
  destruct (fetch_stream _ _ _ _ ranges s1) as [cs s2]. cbn in *.
  destruct (_ || _); [split; [apply sublist_nil_l|by intros f ?%not_elem_of_nil]|].
  destruct r as [f|e]; [|split; [apply sublist_nil_l|by intros f ?%not_elem_of_nil]].
  destruct (fetch_producer cs) as [sent pr]. cbn in *.
  destruct (Hr lo hi) as (Hlo & Hhi & Hlv); [left|]. apply (fetch_range_honest lvl) in E as [Ef Hf]; [|done|done|lia].
  rewrite Ef. split.
  - by constructor.
  - intros g [->|Hg']%elem_of_cons; auto.
Qed.

(** * One window *)

Lemma ingested_blocks_ok lvl f n d d' :
  (forall b, b ∈ block_metas (fr_aux f) -> meta_ok lvl b) ->
  ingested (batch_of chain f 0 false) n d d' -> blocks_ok lvl d -> blocks_ok lvl d'.
Proof.
  intros Hm [_ B _ _ _] Hb h row. rewrite B, upsert_all_lookup.
  destruct (list_to_map _ !! _) eqn:E; [|apply Hb]. intros [= <-].
  apply elem_of_list_to_map_2, elem_of_reverse, list_elem_of_fmap in E as (m & Eb & Hin).
  destruct (Hm m Hin) as (Hc & Hh & Hle & Hhash). unfold block_kv, block_key in Eb. injection Eb as _ Eh ->.
  rewrite as_i64_small in Eh by apply Hh. subst h. done.
Qed.

Lemma consume_one_keeps lvl st f w r w' :
  honest_fetch lvl f -> consume_one chain st f w = (r, w') ->
  keeps (w_db w) (w_db w') /\ (blocks_ok lvl (w_db w) -> blocks_ok lvl (w_db w')).
Proof.
  intros [_ Hm] H. destruct st as [t n]. unfold consume_one, mbind_ in H.
  destruct (commit_range chain f 0 w) as [rcm w1] eqn:Ec. apply commit_range_run in Ec as [_ Hany].
  assert (keeps (w_db w) (w_db w1) /\ (blocks_ok lvl (w_db w) -> blocks_ok lvl (w_db w1))) as [K1 B1].
  { destruct Hany as [->|Hi]; [by split; [apply keeps_refl|]|].
    split; [by eapply ingested_keeps|by eapply ingested_blocks_ok]. }
  destruct rcm as [o|e]; [|by injection H as <- <-]. destruct (tracker_record _ _ _ _) as [t' [[h hash]|]].
  - destruct (cursor_advance chain h hash w1) as [ra w2] eqn:Ea.
    assert (w' = w2) as -> by (destruct ra; by injection H as <- <-).
    apply cursor_advance_run in Ea as [->|[-> _]]; done.
  - by injection H as <- <-.
Qed.

Lemma consumer_keeps lvl next msgs w r w' :
  (forall f, f ∈ msgs -> honest_fetch lvl f) -> commit_consumer chain next msgs w = (r, w') ->
  keeps (w_db w) (w_db w') /\ (blocks_ok lvl (w_db w) -> blocks_ok lvl (w_db w')).
Proof.
  intros Hm H. unfold commit_consumer, mbind_ in H. destruct (mfold _ _ msgs w) as [r1 w1] eqn:E.
  assert (w' = w1) as -> by (destruct r1; by injection H as <- <-).
  apply (mfold_inv (fun v => keeps (w_db w) (w_db v) /\ (blocks_ok lvl (w_db w) -> blocks_ok lvl (w_db v)))) in E;
    [done| |by split; [apply keeps_refl|]].
  intros acc f v r2 v' Hf [K B] H2. apply (consume_one_keeps lvl) in H2 as [K' B']; [|auto].
  split; [by eapply keeps_trans|auto].
Qed.

Lemma covered_mono next stop all all' d h :
  (forall f, f ∈ all -> f ∈ all') -> covered chain next stop all d h -> covered chain next stop all' d h.
Proof. intros Hs [Hh Hc]. split; [done|]. intros b Hb. destruct (Hc b Hb) as (f & ? & ?). eauto. Qed.

Lemma window_sound lvl next target ranges cs k w r w' :
  0 <= next <= target -> target < 2 ^ 62 -> plan_ranges next target step = Some ranges ->
  let sent := (fetch_producer cs).1 in
  NoDup (range_of <$> sent) -> (forall f, f ∈ sent -> range_of f ∈ ranges) ->
  (forall f, f ∈ sent -> honest_fetch lvl f) ->
  run_pipeline chain next cs k w = (r, w') ->
  swept next (w_db w) -> blocks_ok lvl (w_db w) -> checkpoint_ok (w_db w) ->
  blocks_ok lvl (w_db w') /\ checkpoint_ok (w_db w') /\ swept next (w_db w')
  /\ forall out adv, r = Ok out -> po_advanced_to out = Some adv ->
       next <= adv <= target /\ swept (adv + 1) (w_db w').
Proof.
  intros Hn Ht Hp sent Hnd Hin Hh H Hsw Hb Hc.
  assert (exists m r1, commit_consumer chain next (take m sent) w = (r1, w')
    /\ forall out adv, r = Ok out -> po_advanced_to out = Some adv -> exists n, r1 = Ok (Some adv, n)) as (m & r1 & H1 & Hr).
  { unfold run_pipeline in H. subst sent. destruct (fetch_producer cs) as [sent pr]. unfold mbind_ in H.
    destruct pr as [c|e].
    - destruct (commit_consumer _ _ sent w) as [[[o n]|e] w1] eqn:Ec; injection H as <- <-;
        exists (length sent); eexists; (split; [rewrite firstn_all; exact Ec|]); [|done].
      intros out adv [= <-] E. cbn in E. subst. eauto.
    - destruct (commit_consumer _ _ (take k sent) w) as [[a|e'] w1] eqn:Ec; injection H as <- <-;
        exists k; eexists; (split; [exact Ec|done]). }
  assert (forall f, f ∈ take m sent -> f ∈ sent) as Htk by (intros f; apply take_elem).
  destruct (consumer_keeps lvl next (take m sent) w r1 w') as [K B]; [by auto|done|].
  assert (forall h, covered chain next (target + 1) (take m sent) (w_db w') h ->
    next <= h <= target /\ swept (h + 1) (w_db w')) as Hcs.
  { intros h Hcv. split; [destruct Hcv; lia|]. eapply covered_swept; [|exact K|exact Hsw|exact Hcv]; auto. }
  destruct (consumer_cursor chain next target step ranges (take m sent) w w' r1) as (Hs & Ha & _); try done.
  { unfold U64. assert (step <= step * rc) by nia. lia. }
  { eapply sublist_NoDup; [exact Hnd|]. apply fmap_sublist, sublist_take. }
  { auto. }
  split_and!; [auto| |by eapply swept_keeps|].
  - intros c hash Hcur. destruct Hs as [E|(h & hash' & E & Hcv)].
    + rewrite E in Hcur. destruct (Hc _ _ Hcur). split; [done|by eapply swept_keeps].
    + rewrite E in Hcur. injection Hcur as <- _. destruct (Hcs h Hcv).
      rewrite as_i64_small by (unfold_int; lia). split; [lia|done].
  - intros out adv E1 E2. destruct (Hr out adv E1 E2) as [n ->]. by eapply Hcs, Ha.
Qed.

(** The orders in which fetches complete are permutations of the window's ranges. *)
Definition turn_ok (tn : Turn) : Prop := forall l, tn_order tn l ≡ₚ l.

Lemma pipeline_sound tn next target w s r w' s' :
  turn_ok tn -> 0 <= next <= target -> target < 2 ^ 62 -> target <= settled s ->
  pipeline src rfilter quota step tn next target (w, s) = (r, (w', s')) ->
  swept next (w_db w) -> blocks_ok (settled s) (w_db w) -> checkpoint_ok (w_db w) ->
  settled s <= settled s' /\ blocks_ok (settled s') (w_db w') /\ checkpoint_ok (w_db w') /\ swept next (w_db w')
  /\ forall out adv, r = Ok out -> po_advanced_to out = Some adv ->
       next <= adv <= target /\ swept (adv + 1) (w_db w').
Proof.
  intros Htn Hn Ht Hset H Hsw Hb Hc. pose proof (pipeline_grows src rfilter quota step settled _ _ _ _ _ _ H) as Hg.
  cbn in Hg. split; [done|]. unfold turn_ok in Htn. unfold pipeline in H.
  destruct (range_chunks_spec next target step) as (rs & E & Hti & _);
    [lia|lia|unfold U64; assert (step <= step * rc) by nia; lia|].
  unfold plan_ranges in H. rewrite E in H. rewrite Z.max_r in Hti by lia. cbn in H.
  destruct (fetch_stream_sent (settled s) (tn_cancel_at tn) (tn_order tn rs) s) as [Hsub Hh]; [lia| |].
  { intros lo hi Hin. rewrite Htn in Hin. destruct (tiles_elem _ _ _ _ _ Hti Hin). lia. }
  destruct (fetch_stream _ _ _ _ _ s) as [cs s1]. cbn in Hsub, Hh. unfold on_db in H. cbn in H.
  destruct (run_pipeline _ _ _ _ w) as [r1 w1] eqn:Er. injection H as <- <- <-.
  destruct (window_sound (settled s) next target rs cs (tn_taken tn) w r1 w1) as (? & ? & ? & ?); auto.
  - eapply sublist_NoDup; [|exact Hsub]. rewrite Htn. by eapply tiles_NoDup.
  - intros f Hf. rewrite <- Htn. eapply elem_of_sublist; [|exact Hsub].
    apply list_elem_of_fmap. eauto.
  - split; [by eapply blocks_ok_up|done].
Qed.

(** * One turn *)

(** What the loop relies on between turns, and what it keeps whatever its outcome. *)
Definition store_ok (s : St) (d : Db) : Prop := blocks_ok (settled s) d /\ checkpoint_ok d.

(** What the tip state says: its heights are in order, and when it does not reconcile, the stream
    announces everything from [next] on. *)
Definition tip_ok (from next : Z) (t : TipState) : Prop :=
  ws_enabled t = supports_subscribe (cs_caps src) /\ ascending Z.compare (pending t) /\ (ws_enabled t = true -> reconcile t = false -> from < next).

(** [from]: the stream announces the blocks above. *)
Definition loop_ok (from : Z) (l : Loop) (s : St) (d : Db) : Prop :=
  0 <= lp_next l <= 2 ^ 62 /\ swept (lp_next l) d /\ from <= horizon s /\ tip_ok from (lp_next l) (lp_state l).

Lemma store_ok_up s s' d : settled s <= settled s' -> store_ok s d -> store_ok s' d.
Proof. intros Hle [? ?]. split; [by eapply blocks_ok_up|done]. Qed.

Lemma on_db_run {A} (m : M World DomainError A) w (s : St) r w' s' :
  on_db m (w, s) = (r, (w', s')) -> m w = (r, w') /\ s' = s.
Proof. unfold on_db. cbn. destruct (m w) as [r1 w1]. by intros [= -> -> ->]. Qed.

Lemma on_src_run {A} (m : M St DomainError A) (w : World) s r w' s' :
  on_src m (w, s) = (r, (w', s')) -> m s = (r, s') /\ w' = w.
Proof. unfold on_src. cbn. destruct (m s) as [r1 s1]. by intros [= -> -> ->]. Qed.

(** On a chain whose stored blocks are canonical the reorg check finds nothing. *)
Lemma reorg_check_quiet w s r w' s' :
  blocks_ok (settled s) (w_db w) -> reorg_check tables src confirmations (w, s) = (r, (w', s')) ->
  same_state w w' /\ forall o, r = Ok o -> o = None.
Proof.
  intros Hb H. unfold reorg_check in H. destruct (negb _); [injection H as <- <- <-; by split; [|intros o [= <-]]|].
  unfold mbind_ at 1 in H. destruct (on_db (block_max_height chain) (w, s)) as [r1 [w1 s1]] eqn:E1.
  apply on_db_run in E1 as [E1 ->].
  assert (reads (block_max_height chain)) as Hr1 by (apply reads_map_err, reads_sql; by intros v a v' [= <- <-]).
  assert (same_state w w1) as S1 by (by apply Hr1 in E1). pose proof (proj1 S1) as D1.
  destruct r1 as [[tip|]|e]; [|injection H as <- <- <-; by split; [|intros o [= <-]]|by injection H as <- <- <-].
  apply block_max_height_spec in E1 as (_ & Htip & _); [|intros h row Hrow; by eapply Hb].
  destruct (Htip _ eq_refl) as [_ Hti].
  unfold mbind_ at 1 in H. destruct (on_db (block_get chain tip) (w1, s)) as [r2 [w2 s2]] eqn:E2.
  apply on_db_run in E2 as [E2 ->].
  assert (reads (block_get chain tip)) as Hr2 by (apply reads_map_err, reads_sql; by intros v a v' [= <- <-]).
  assert (same_state w w2) as S2 by (apply Hr2 in E2; by eapply same_state_trans). pose proof (proj1 S2) as D2.
  destruct r2 as [[st|]|e]; [|injection H as <- <- <-; by split; [|intros o [= <-]]|by injection H as <- <- <-].
  apply mmap_err_Ok, sql_Ok in E2 as (v2 & (D & _)%next_fault_same & [= E2 _]).
  rewrite D, D1 in E2. destruct (db_blocks (w_db w) !! _) as [row|] eqn:Erow; [|done].
  rewrite (as_i64_small tip) in Erow by apply Hti. destruct (Hb _ _ Erow) as (_ & Hlv & Hhash). injection E2 as <-.
  unfold mbind_ at 1 in H. destruct (on_src (cs_block_hash src tip) (w2, s)) as [r3 [w3 s3]] eqn:E3.
  apply on_src_run in E3 as [E3 ->].
  destruct r3 as [[c|]|e]; [|injection H as <- <- <-; by split; [|intros o [= <-]]|by injection H as <- <- <-].
  apply sc_hash in E3 as ->; [|done]. cbn [bm_hash] in H. rewrite bool_decide_true in H by done.
  injection H as <- <- <-. by split; [|intros o [= <-]].
Qed.

Lemma probe_reorg_quiet next tick state w s r w' s' :
  blocks_ok (settled s) (w_db w) -> probe_reorg src tables confirmations next tick state (w, s) = (r, (w', s')) ->
  same_state w w' /\ forall ns, r = Ok ns -> ns = (next, (take_reorg_signal state).2).
Proof.
  intros Hb H. unfold probe_reorg in H. cbn [take_reorg_signal] in H. cbn.
  destruct (_ || _); [|injection H as <- <- <-; by split; [|intros ns [= <-]]].
  unfold mbind_ in H. destruct (reorg_check _ _ _ (w, s)) as [r1 [w1 s1]] eqn:E.
  apply reorg_check_quiet in E as [D Ho]; [|done].
  destruct r1 as [o|e]; [|by injection H as <- <- <-]. rewrite (Ho o eq_refl) in H.
  injection H as <- <- <-. split; [done|]. by intros ns [= <-].
Qed.

Lemma window_target_bounds next safe :
  0 <= next <= safe -> safe < 2 ^ 62 -> next <= fetch_target safe next step rc true <= safe.
Proof.
  intros H1 H2. unfold fetch_target. rewrite u64_mul_small, u64_add_small, u64_sub_small by (unfold U64; nia). nia.
Qed.

Lemma advance_sound next safe w r w' :
  0 <= next <= safe -> safe < 2 ^ 62 -> (forall b, next <= b <= safe -> recs b = []) ->
  cursor_advance chain safe [] w = (r, w') -> swept next (w_db w) -> checkpoint_ok (w_db w) ->
  db_blocks (w_db w') = db_blocks (w_db w) /\ checkpoint_ok (w_db w') /\ swept (safe + 1) (w_db w').
Proof.
  intros Hn Hsafe Hempty H Hsw Hc.
  assert (swept (safe + 1) (w_db w)) as Hsw'.
  { intros b Hb. destruct (Z.lt_ge_cases b next); [apply Hsw; lia|]. intros r' Hr'.
    rewrite Hempty in Hr' by lia. by apply not_elem_of_nil in Hr'. }
  apply cursor_advance_run in H as [->|[-> _]]; [|done]. split_and!; [done| |exact Hsw'].
  intros c hash. cbn. rewrite lookup_insert_eq. intros [= <- _]. rewrite as_i64_small by (unfold_int; lia).
  split; [lia|exact Hsw'].
Qed.

Lemma catch_up_sound tn state next safe w s r w' s' :
  turn_ok tn -> 0 <= next <= safe -> safe < 2 ^ 62 -> safe <= settled s ->
  (must_fetch state safe = false -> forall b, next <= b <= safe -> recs b = []) ->
  catch_up src rfilter quota step rc tn state next safe (w, s) = (r, (w', s')) ->
  store_ok s (w_db w) -> swept next (w_db w) ->
  store_ok s' (w_db w') /\ forall cu, r = Ok cu ->
    next <= cu_next cu.1 <= 2 ^ 62 /\ swept (cu_next cu.1) (w_db w')
    /\ forall from, tip_ok from next state -> from <= safe -> cu_shutdown cu.1 = false -> tip_ok from (cu_next cu.1) cu.2.
Proof.
  intros Htn Hn Hsafe Hset Hempty H Hst Hsw. pose proof Hst as [Hb Hc]. unfold catch_up in H.
  destruct (must_fetch state safe) eqn:Em; cbn [negb] in H.
  - set (target := fetch_target safe next step rc true) in H.
    assert (next <= target <= safe) as Htg by (by apply window_target_bounds).
    unfold mbind_ in H. destruct (pipeline _ _ _ _ tn next target (w, s)) as [r1 [w1 s1]] eqn:E.
    apply pipeline_sound in E as (_ & Hb' & Hc' & Hsw' & Hadv); auto; [|lia|lia|lia].
    destruct r1 as [out|e]; [|by injection H as <- <- <-].
    assert (let n := match po_advanced_to out with Some adv => u64_add adv 1 | None => next end in
      next <= n <= 2 ^ 62 /\ swept n (w_db w1)) as [Hn1 Hn2].
    { destruct (po_advanced_to out) as [adv|] eqn:Ea; cbn; [|split; [lia|done]].
      destruct (Hadv out adv eq_refl Ea) as [? ?]. rewrite u64_add_small by (unfold U64; lia). split; [lia|done]. }
    destruct (po_shutdown out); injection H as <- <- <-; (split; [done|]); intros cu [= <-];
      (split; [done|]); (split; [done|]); cbn [fst snd cu_shutdown cu_next]; intros from (Hw & Ha & Hr) Hfrom; [done|intros _].
    split; [done|]. split; [by apply ascending_filter|]. cbn. intros _ ?%Z.leb_gt. lia.
  - unfold mbind_, fetch_target in H. destruct (on_db _ (w, s)) as [r1 [w1 s1]] eqn:E. apply on_db_run in E as [E ->].
    apply (advance_sound next) in E as (Eb & Hc' & Hsw'); [|done|done|auto|done|done].
    assert (store_ok s (w_db w1)) as Hst' by (split; [|done]; unfold blocks_ok; by rewrite Eb).
    destruct r1 as [[]|e]; injection H as <- <- <-; (split; [done|]); [|done]. intros cu [= <-]. cbn.
    rewrite u64_add_small by (unfold U64; lia). split_and!; [lia|lia|done|].
    intros from (Hw & Ha & Hr) Hfrom _. split; [done|]. split; [done|]. intros H1 H2. specialize (Hr H1 H2). lia.
Qed.

Lemma on_ws_event_ok from next rec t : tip_ok from next t -> tip_ok from next (on_ws_event rec t).
Proof.
  intros (Hw & Ha & Hr). destruct rec as [[l|e]|]; cbn [on_ws_event]; [|by split_and!..].
  destruct (tl_removed l); [by split_and!|]. split; [done|]. split; [|done]. cbn [pending]. apply (btree_set_spec Z.compare).
Qed.

Lemma wake_ok from tn l l' s d : loop_ok from l s d -> wake tn l = Some l' -> loop_ok from l' s d.
Proof.
  intros Hl. unfold wake. destruct (tn_wake tn) as [|rec|]; [done| |by intros [= <-]].
  intros [= <-]. destruct (sub _); [|done]. destruct Hl as (H1 & H2 & H3 & H4). split_and!; [apply H1|apply H1|done|done|].
  by apply on_ws_event_ok.
Qed.

(** ** What a stream must do in time *)

(** The head a turn polls. *)
Definition head_seen (l : Loop) (tn : Turn) (ws : World * St) : option Z :=
  if tn_cancelled tn || quota ws.2 then None
  else
    let '(state, s) := ensure_subscribed src rfilter (lp_state l) ws.2 in
    match probe_reorg src tables confirmations (lp_next l) (u64_add (lp_tick l) 1) state (ws.1, s) with
    | (Ok ns, (_, s)) =>
        if should_poll_head ns.2 then match cs_head src s with (Ok h, _) => Some h | _ => None end else None
    | _ => None
    end.

(** Above which block the stream that a turn has announces: a turn may open one. *)
Definition opened (from : Z) (l : Loop) (s : St) : Z :=
  if negb (ws_enabled (lp_state l)) || sub (lp_state l) then from
  else match cs_subscribe src rfilter s with (Ok _, s') => horizon s' | _ => from end.

(** The stream is in time for a turn: unless the turn sweeps anyway, a block with records, above where the
    stream announces from and not yet swept, has been announced by the time its [confirmations] blocks
    are there. *)
Definition announced (from : Z) (l : Loop) (tn : Turn) (ws : World * St) : Prop :=
  supports_subscribe (cs_caps src) = true -> reconcile (ensure_subscribed src rfilter (lp_state l) ws.2).1 = false ->
  match head_seen l tn ws with
  | None => True
  | Some h =>
      let lo := Z.max (opened from l ws.2 + 1) (lp_next l) in
      Forall (fun b => recs b <> [] -> b ∈ pending (lp_state l)) (seqZ lo (u64_ssub h confirmations - lo + 1))
  end.

#[export] Instance announced_dec from l tn ws : Decision (announced from l tn ws).
Proof. unfold announced. destruct (head_seen l tn ws); apply _. Defined.

Lemma ensure_ok from l s d :
  loop_ok from l s d -> let '(state, s1) := ensure_subscribed src rfilter (lp_state l) s in
  loop_ok (opened from l s) (mkLoop (lp_next l) (lp_tick l) state) s1 d /\ pending state = pending (lp_state l)
  /\ ws_enabled state = ws_enabled (lp_state l).
Proof.
  intros (H1 & H2 & H3 & Hw & Ha & Hr). pose proof (ensure_grows src rfilter horizon (lp_state l) s) as Hg.
  unfold ensure_subscribed, opened in *. destruct (_ || _); [done|].
  destruct (cs_subscribe src rfilter s) as [[u|e] s1]; cbn in Hg; (split; [|done]); (split; [done|]); (split; [done|]);
    (split; [lia|]); (split; [done|]); (split; [done|]); [done|exact Hr].
Qed.

Lemma must_fetch_false from next state safe :
  tip_ok from next state -> must_fetch state safe = false ->
  ws_enabled state = true /\ reconcile state = false /\ from < next /\ forall b, b ∈ pending state -> safe < b.
Proof.
  intros (_ & Ha & Hr) Hm. unfold must_fetch in Hm. rewrite !orb_false_iff, negb_false_iff in Hm. destruct Hm as [[Hw Hrec] Hp].
  split_and!; [done|done|auto|]. intros b Hb. destruct (pending state) as [|lo rest]; [by apply not_elem_of_nil in Hb|].
  destruct Ha as [Hab _]. apply Z.leb_gt in Hp. apply elem_of_cons in Hb as [->|Hb]; [lia|]. pose proof (proj1 (Z.compare_lt_iff lo b) (Hab b Hb)). lia.
Qed.

(** A window that the loop skips has no records. *)
Lemma skipped_empty from next safe state (pend : list Z) :
  tip_ok from next state -> pending state = pend -> must_fetch state safe = false ->
  (supports_subscribe (cs_caps src) = true -> reconcile state = false ->
   Forall (fun b => recs b <> [] -> b ∈ pend) (seqZ (Z.max (from + 1) next) (safe - Z.max (from + 1) next + 1))) ->
  forall b, next <= b <= safe -> recs b = [].
Proof.
  intros Htip <- Hm Hann' b Hb. destruct (must_fetch_false _ _ _ _ Htip Hm) as (Hw & Hrc' & Hlt & Hp).
  destruct (recs b) as [|x xs] eqn:Eb; [done|]. exfalso. assert (b ∈ pending state) as Hin; [|specialize (Hp b Hin); lia].
  specialize (Hann' ltac:(by rewrite <- (proj1 Htip)) Hrc'). rewrite Forall_forall in Hann'.
  apply Hann'; [apply elem_of_seqZ; lia|by rewrite Eb].
Qed.

Lemma turn_sound from l tn w s r w' s' :
  turn_ok tn -> loop_ok from l s (w_db w) -> store_ok s (w_db w) -> announced from l tn (w, s) ->
  turn src tables rfilter quota confirmations step rc l tn (w, s) = (r, (w', s')) ->
  store_ok s' (w_db w') /\ forall l', r = Ok (Some l') -> loop_ok (opened from l s) l' s' (w_db w').
Proof.
  intros Htn Hl Hst Hann' H. unfold announced, head_seen in Hann'. cbn [fst snd] in Hann'. unfold turn in H. cbn [fst snd] in H.
  destruct (_ || _); [by injection H as <- <- <-|].
  pose proof (ensure_ok from l s (w_db w) Hl) as He. pose proof (ensure_grows src rfilter settled (lp_state l) s) as Hg1.
  destruct (ensure_subscribed _ _ _ s) as [state s1]. destruct He as (He & Hpend & Hws). cbn in Hg1.
  set (from' := opened from l s) in *. apply (store_ok_up s s1) in Hst; [|done].
  unfold mbind_ at 1 in H. destruct (probe_reorg _ _ _ _ _ _ (w, s1)) as [r1 [w1 s2]] eqn:E1.
  pose proof (probe_reorg_grows src tables rfilter confirmations settled _ _ _ _ _ _ E1) as Hg2.
  pose proof (probe_reorg_grows src tables rfilter confirmations horizon _ _ _ _ _ _ E1) as Hh2. cbn in Hg2, Hh2.
  apply probe_reorg_quiet in E1 as [(D1 & _) Hns]; [|apply Hst]. rewrite <- D1 in Hst.
  apply (store_ok_up s1 s2) in Hst; [|done]. destruct He as (Hn & Hsw & Hfr & Htip). rewrite <- D1 in Hsw. cbn in Hn, Hsw, Htip.
  destruct r1 as [ns|e]; [|by injection H as <- <- <-]. rewrite (Hns ns eq_refl) in H, Hann'. cbn [fst snd] in H, Hann'.
  set (state1 := (take_reorg_signal state).2) in H, Hann'.
  assert (tip_ok from' (lp_next l) state1) as Htip1 by exact Htip.
  assert (forall d, swept (lp_next l) d -> loop_ok from' (mkLoop (lp_next l) (u64_add (lp_tick l) 1) state1) s2 d) as Hl1.
  { intros d Hd. split_and!; cbn; [lia|lia|done|lia|exact Htip1]. }
  destruct (should_poll_head state1).
  2:{ injection H as <- <- <-. split; [done|]. intros l' [= Hw]. eapply wake_ok; [|exact Hw]. auto. }
  unfold mbind_ at 1 in H. destruct (on_src (cs_head src) (w1, s2)) as [r2 [w2 s3]] eqn:E2.
  apply on_src_run in E2 as [E2 ->]. pose proof (ri_head (lvl := settled) _ _ _ E2) as Hg3.
  pose proof (ri_head (lvl := horizon) _ _ _ E2) as Hh3. apply (store_ok_up s2 s3) in Hst; [|done].
  rewrite E2 in Hann'. destruct r2 as [head|e]; [|by injection H as <- <- <-].
  pose proof (an_head _ _ _ E2) as Hhz. apply sc_head in E2 as [Hhd Hset]. set (safe := u64_ssub head confirmations) in *.
  destruct (Z.leb_spec (lp_next l) safe) as [Hle|_].
  - unfold mbind_ at 1 in H. destruct (catch_up _ _ _ _ _ tn state1 _ safe (w1, s3)) as [r3 [w3 s4]] eqn:E3.
    pose proof (catch_up_grows src rfilter quota step rc horizon _ _ _ _ _ _ _ E3) as Hh4. cbn in Hh4.
    apply catch_up_sound in E3 as [Hst3 Hcu]; [|done|lia|subst safe; unfold u64_ssub; lia|done| |done|done].
    2:{ intros Hm. by apply (skipped_empty from' _ _ state1 (pending (lp_state l))). }
    destruct r3 as [cu|e]; [|by injection H as <- <- <-]. destruct (Hcu cu eq_refl) as (Hn3 & Hs3 & Ht3).
    destruct (cu_shutdown _); [by injection H as <- <- <-|]. specialize (Ht3 from' Htip1 ltac:(lia) eq_refl).
    assert (loop_ok from' (mkLoop (cu_next cu.1) (u64_add (lp_tick l) 1) cu.2) s4 (w_db w3)) as Hl3
      by (split_and!; cbn; [lia|lia|done|lia|exact Ht3]).
    destruct (cu_behind _); injection H as <- <- <-; (split; [done|]); intros l' [= Hl']; [by subst l'|].
    by eapply wake_ok.
  - injection H as <- <- <-. split; [done|]. intros l' [= Hw]. eapply wake_ok; [|exact Hw].
    destruct (Hl1 _ Hsw) as (? & ? & ? & ?). split_and!; [lia|lia|done|lia|done].
Qed.

Lemma cursor_get_spec w r w' :
  cursor_get chain w = (r, w') -> w_db w' = w_db w
  /\ forall o, r = Ok o -> o = (fun lh => (as_u64 lh.1, lh.2)) <$> db_cursors (w_db w) !! as_i64 chain.
Proof.
  intros H. assert (reads (cursor_get chain)) as Hr by (apply reads_map_err, reads_sql; by intros v a v' [= <- <-]).
  split; [by apply Hr in H as [-> _]|]. intros o ->.
  apply mmap_err_Ok, sql_Ok in H as (v & (D & _)%next_fault_same & [= H _]). by rewrite <- D, <- H.
Qed.

(** The loop an attempt begins with. *)
Definition loop_start (cursor : option (Z * bytes)) : Loop :=
  mkLoop (match cursor with Some (last, _) => u64_add last 1 | None => Z.max start_block 1 end) 0
    (tip_new (supports_subscribe (cs_caps src))).

(** Where an attempt resumes from a sound checkpoint. *)
Lemma loop_ok_start o s d :
  start_block < 2 ^ 62 -> store_ok s d ->
  o = (fun lh => (as_u64 lh.1, lh.2)) <$> db_cursors d !! as_i64 chain -> loop_ok (horizon s) (loop_start o) s d.
Proof.
  intros Hsb [_ Hc] Ho. assert (tip_ok (horizon s) (lp_next (loop_start o)) (lp_state (loop_start o))) as Ht by done.
  subst o. unfold loop_ok, loop_start. destruct (db_cursors d !! as_i64 chain) as [[c hash]|] eqn:Ec; cbn.
  - destruct (Hc c hash Ec) as [Hc1 Hc2]. rewrite as_u64_small, u64_add_small by (unfold_int; lia).
    split_and!; [lia|lia|done|lia|done].
  - split_and!; [lia|lia| |lia|done]. intros b Hb. lia.
Qed.

(** ** Whole runs *)

Abbreviation turn_ := (turn src tables rfilter quota confirmations step rc).
Abbreviation ingest := (ingest_loop src tables rfilter quota confirmations start_block step rc).

(** The stream is in time for every turn of a run. *)
Fixpoint turns_announced (from : Z) (l : Loop) (tns : list Turn) (ws : World * St) : Prop :=
  match tns with
  | [] => True
  | tn :: tns =>
      announced from l tn ws
      /\ match turn_ l tn ws with
         | (Ok (Some l'), ws') => turns_announced (opened from l ws.2) l' tns ws'
         | _ => True
         end
  end.

Definition attempt_announced (tns : list Turn) (ws : World * St) : Prop :=
  match on_db (cursor_get chain) ws with
  | (Ok cursor, ws') => turns_announced (horizon ws'.2) (loop_start cursor) tns ws'
  | _ => True
  end.

Fixpoint attempts_announced (attempts : list Attempt) (ws : World * St) : Prop :=
  match attempts with
  | [] => True
  | a :: attempts =>
      match at_built a ws.2 with
      | Err _ => attempts_announced attempts ws
      | Ok s => attempt_announced (at_turns a) (ws.1, s)
                /\ attempts_announced attempts (ingest (at_turns a) (ws.1, s)).2
      end
  end.

#[export] Instance turns_announced_dec from l tns ws : Decision (turns_announced from l tns ws).
Proof.
  revert from l ws. induction tns as [|tn tns IH]; intros from l ws; cbn; [apply _|].
  apply and_dec; [apply _|]. destruct (turn_ l tn ws) as [[[l'|]|e] ws']; [apply IH|apply _..].
Defined.

#[export] Instance attempts_announced_dec attempts ws : Decision (attempts_announced attempts ws).
Proof.
  revert ws. induction attempts as [|a attempts IH]; intros ws; cbn; [apply _|].
  destruct (at_built a ws.2) as [s|e]; [|apply IH]. apply and_dec; [|apply IH]. unfold attempt_announced.
  destruct (on_db _ _) as [[o|e] ws']; apply _.
Defined.

(** Nothing is asked of a source that has no streams. *)
Lemma turns_announced_polled from l tns ws : supports_subscribe (cs_caps src) = false -> turns_announced from l tns ws.
Proof.
  intros Hc. revert from l ws. induction tns as [|tn tns IH]; intros from l ws; [done|]. cbn. split.
  - unfold announced. by rewrite Hc.
  - destruct (turn_ l tn ws) as [[[l'|]|e] ws']; auto.
Qed.

Lemma attempts_announced_polled attempts ws : supports_subscribe (cs_caps src) = false -> attempts_announced attempts ws.
Proof.
  intros Hc. revert ws. induction attempts as [|a attempts IH]; intros ws; [done|]. cbn.
  destruct (at_built a ws.2) as [s|e]; [|apply IH]. split; [|apply IH]. unfold attempt_announced.
  destruct (on_db _ _) as [[o|e] ws']; [|done]. by apply turns_announced_polled.
Qed.

Lemma turns_sound from tns l w s r w' s' :
  Forall turn_ok tns -> loop_ok from l s (w_db w) -> store_ok s (w_db w) -> turns_announced from l tns (w, s) ->
  turns src tables rfilter quota confirmations step rc l tns (w, s) = (r, (w', s')) ->
  settled s <= settled s' /\ store_ok s' (w_db w').
Proof.
  revert from l w s. induction tns as [|tn tns IH]; intros from l w s Hf Hl Hst Ha H; [injection H as <- <- <-; by split|].
  apply Forall_cons in Hf as [Htn Hf]. cbn [turns] in H. unfold mbind_ in H. destruct Ha as [Ha Has].
  destruct (turn_ l tn (w, s)) as [r1 [w1 s1]] eqn:E.
  pose proof (turn_grows src tables rfilter quota confirmations step rc settled _ _ _ _ _ E) as Hg. cbn in Hg.
  apply (turn_sound from) in E as [Hst1 Hl1]; [|done..].
  destruct r1 as [[l'|]|e]; [|by injection H as <- <- <-..].
  apply (IH (opened from l s)) in H as [Hg2 ?]; [split; [lia|done]|done|by apply Hl1|done|done].
Qed.

Lemma ingest_loop_sound tns w s r w' s' :
  start_block < 2 ^ 62 -> Forall turn_ok tns -> store_ok s (w_db w) -> attempt_announced tns (w, s) ->
  ingest tns (w, s) = (r, (w', s')) -> settled s <= settled s' /\ store_ok s' (w_db w').
Proof.
  intros Hsb Hf Hst Ha H. unfold ingest_loop in H. unfold attempt_announced in Ha. unfold mbind_ at 1 in H.
  destruct (on_db (cursor_get chain) (w, s)) as [r1 [w1 s1]] eqn:E. apply on_db_run in E as [E ->].
  apply cursor_get_spec in E as [D Ho]. destruct r1 as [o|e]; [|injection H as <- <- <-; rewrite D; by split].
  rewrite <- D in Hst. eapply turns_sound; [exact Hf| |exact Hst|exact Ha|exact H]. rewrite D in Hst |- *.
  by apply loop_ok_start; auto.
Qed.

Lemma supervised_sound backoff attempts w s slept w' s' :
  start_block < 2 ^ 62 -> Forall (fun a => Forall turn_ok (at_turns a)) attempts ->
  (forall a s s', a ∈ attempts -> at_built a s = Ok s' -> settled s <= settled s') ->
  store_ok s (w_db w) -> attempts_announced attempts (w, s) -> 1 <= backoff <= 30 ->
  supervised_ingest src tables rfilter quota confirmations start_block step rc backoff attempts (w, s) = (slept, (w', s')) ->
  store_ok s' (w_db w') /\ Forall (fun n => 1 <= n <= 30) slept.
Proof.
  intros Hsb. revert backoff w s slept. induction attempts as [|a attempts IH]; intros backoff w s slept Hf Hbt Hst Han Hb H.
  { injection H as <- <- <-. by split. }
  apply Forall_cons in Hf as [Ha Hf]. cbn [supervised_ingest] in H. unfold run_chain_once in H. cbn [fst snd] in H.
  cbn [attempts_announced fst snd] in Han.
  assert (forall r w1 s1, match at_built a s with Err e => (Err e, (w, s)) | Ok s0 => ingest (at_turns a) (w, s0) end
    = (r, (w1, s1)) -> store_ok s1 (w_db w1) /\ attempts_announced attempts (w1, s1)) as Hrun.
  { intros r w1 s1. destruct (at_built a s) as [s0|e] eqn:Eb; [|by intros [= _ <- <-]]. destruct Han as [Ha1 Ha2].
    intros E. rewrite E in Ha2. split; [|done]. eapply ingest_loop_sound; [done|done| |exact Ha1|exact E].
    eapply store_ok_up; [|done]. eapply Hbt; [left|done]. }
  destruct (match at_built a s with Err e => _ | Ok s0 => _ end) as [r [w1 s1]].
  destruct (Hrun r w1 s1 eq_refl) as [Hst1 Han1].
  destruct r as [o|e]; [by injection H as <- <- <-|]. destruct (at_cancelled a); [by injection H as <- <- <-|].
  destruct (supervised_ingest _ _ _ _ _ _ _ _ _ attempts (w1, s1)) as [slept2 [w2 s2]] eqn:E2.
  injection H as <- <- <-. apply IH in E2 as [? ?]; [|done| |done|done|lia].
  - split; [done|by constructor].
  - intros a' s0 s0' Hin. apply Hbt. by right.
Qed.
End poll.

(** A source with no horizon. *)
Lemma announcing_nothing {St} (src : ChainSource St) rfilter confirmations : Announcing src rfilter confirmations (fun _ => 0).
Proof. split; [split; intros; intros s r s' _; lia|]. intros s h s' _. unfold u64_ssub. lia. Qed.

(** C11: the checkpoint of a polled chain is sound for good, reorgs included: start from a store whose
    cursor is sound, let the supervisor make any number of attempts, each with any turns, any
    completion orders, any source and storage failures and cancellations, on a chain that may replace
    any block until it has [confirmations] blocks on top; the cursor of the store it leaves stands at a
    block such that no block of the settled chain from the configured start up to it has a record
    missing.  Backoffs stay within 1 to 30 seconds. *)
Theorem polled_checkpoint_sound {St} (src : ChainSource St) (tables : list string) (rfilter : RecordFilter)
    (quota : St -> bool) (confirmations start_block step rc backoff : Z) (recs : Z -> list RawRecord)
    (chain_hash : Z -> bytes) (settled : St -> Z) (attempts : list Attempt) (w w' : World) (s s' : St) (slept : list Z) :
  SettlingChain src rfilter confirmations recs chain_hash settled -> supports_subscribe (cs_caps src) = false ->
  0 <= confirmations -> 1 <= step -> 1 <= rc -> step * rc < 2 ^ 62 -> start_block < 2 ^ 62 ->
  1 <= backoff <= 30 -> Forall (fun a => Forall turn_ok (at_turns a)) attempts ->
  (forall a s s', a ∈ attempts -> at_built a s = Ok s' -> settled s <= settled s') ->
  blocks_ok src chain_hash (settled s) (w_db w) -> checkpoint_ok src start_block recs (w_db w) ->
  supervised_ingest src tables rfilter quota confirmations start_block step rc backoff attempts (w, s) = (slept, (w', s')) ->
  checkpoint_ok src start_block recs (w_db w') /\ Forall (fun n => 1 <= n <= 30) slept.
Proof.
  intros Hh Hcaps Hconf Hst Hrc Hwin Hsb Hb Hat Hbt Hbl Hcp H.
  pose proof (announcing_nothing src rfilter confirmations) as Hann.
  apply (supervised_sound src tables rfilter quota confirmations start_block step rc recs chain_hash settled (fun _ => 0))
    in H as [[_ ?] ?]; try done. by apply attempts_announced_polled.
Qed.

(** ** Streams that replay nothing *)

Section quiet.
Context {St : Type} (src : ChainSource St) (tables : list string) (rfilter : RecordFilter).
Context (quota : St -> bool) (confirmations start_block step rc : Z).
Context (recs : Z -> list RawRecord) (settled tip : St -> Z).
Abbreviation turn_ := (turn src tables rfilter quota confirmations step rc).
Abbreviation ingest := (ingest_loop src tables rfilter quota confirmations start_block step rc).
Abbreviation announced_above horizon :=
  (turns_announced src tables rfilter quota confirmations step rc recs horizon).

(** The blocks of the chain that are not settled yet have no matched record. *)
Definition quiet (s : St) : Prop := Forall (fun b => recs b = []) (seqZ (settled s + 1) (tip s - settled s)).

(** The chain is quiet whenever a turn of the run opens a stream, and when an attempt begins. *)
Definition quiet_turn (l : Loop) (s : St) : Prop :=
  if negb (ws_enabled (lp_state l)) || sub (lp_state l) then True
  else match cs_subscribe src rfilter s with (Ok _, s') => quiet s' | _ => True end.

Fixpoint turns_quiet (l : Loop) (tns : list Turn) (ws : World * St) : Prop :=
  match tns with
  | [] => True
  | tn :: tns =>
      quiet_turn l ws.2
      /\ match turn_ l tn ws with (Ok (Some l'), ws') => turns_quiet l' tns ws' | _ => True end
  end.

Definition attempt_quiet (tns : list Turn) (ws : World * St) : Prop :=
  match on_db (cursor_get (cs_chain_id src)) ws with
  | (Ok cursor, ws') => quiet ws'.2 /\ turns_quiet (loop_start src start_block cursor) tns ws'
  | _ => True
  end.

Fixpoint attempts_quiet (attempts : list Attempt) (ws : World * St) : Prop :=
  match attempts with
  | [] => True
  | a :: attempts =>
      match at_built a ws.2 with
      | Err _ => attempts_quiet attempts ws
      | Ok s => attempt_quiet (at_turns a) (ws.1, s) /\ attempts_quiet attempts (ingest (at_turns a) (ws.1, s)).2
      end
  end.

#[export] Instance quiet_turn_dec l s : Decision (quiet_turn l s).
Proof. unfold quiet_turn. destruct (_ || _); [apply _|]. destruct (cs_subscribe _ _ _) as [[]]; apply _. Defined.

#[export] Instance turns_quiet_dec l tns ws : Decision (turns_quiet l tns ws).
Proof.
  revert l ws. induction tns as [|tn tns IH]; intros l ws; cbn; [apply _|].
  apply and_dec; [apply _|]. destruct (turn_ l tn ws) as [[[l'|]|e] ws']; [apply IH|apply _..].
Defined.

#[export] Instance attempts_quiet_dec attempts ws : Decision (attempts_quiet attempts ws).
Proof.
  revert ws. induction attempts as [|a attempts IH]; intros ws; cbn; [apply _|].
  destruct (at_built a ws.2) as [s|e]; [|apply IH]. apply and_dec; [|apply IH]. unfold attempt_quiet.
  destruct (on_db _ _) as [[o|e] ws']; apply _.
Defined.

(** Between two levels there is no record. *)
Definition empty_between (lo hi : Z) : Prop := forall b, lo < b <= hi -> recs b = [].

Lemma quiet_empty s : quiet s -> empty_between (settled s) (tip s).
Proof. intros Hq b Hb. unfold quiet in Hq. rewrite Forall_forall in Hq. apply Hq, elem_of_seqZ. lia. Qed.

Lemma opened_quiet from_s from_t l s : empty_between from_s from_t -> quiet_turn l s ->
  empty_between (opened src rfilter settled from_s l s) (opened src rfilter tip from_t l s).
Proof.
  intros He Hq. unfold opened, quiet_turn in *. destruct (_ || _); [done|].
  destruct (cs_subscribe _ _ _) as [[u|e] s']; [by apply quiet_empty|done].
Qed.

Lemma announced_lower from_s from_t l tn ws : empty_between from_s from_t -> quiet_turn l ws.2 ->
  announced src tables rfilter quota confirmations recs tip from_t l tn ws ->
  announced src tables rfilter quota confirmations recs settled from_s l tn ws.
Proof.
  intros He Hq Ha H1 H2. specialize (Ha H1 H2). destruct (head_seen _ _ _ _ _ l tn ws) as [h|]; [|done].
  rewrite Forall_forall in *. intros b Hb%elem_of_seqZ Hr. apply Ha; [|done]. apply elem_of_seqZ.
  pose proof (opened_quiet _ _ _ _ He Hq b) as Ho. destruct (decide (b <= opened src rfilter tip from_t l ws.2)); [|lia].
  exfalso. apply Hr, Ho. lia.
Qed.

Lemma turns_announced_lower from_s from_t l tns ws : empty_between from_s from_t -> turns_quiet l tns ws ->
  announced_above tip from_t l tns ws -> announced_above settled from_s l tns ws.
Proof.
  revert from_s from_t l ws. induction tns as [|tn tns IH]; intros from_s from_t l ws He; [done|].
  cbn. intros [Hq Hqs] [Ha Has]. split; [by eapply announced_lower|].
  destruct (turn_ l tn ws) as [[[l'|]|e] ws']; [|done..]. eapply IH; [by apply opened_quiet|done|done].
Qed.

Lemma attempts_announced_lower attempts ws : attempts_quiet attempts ws ->
  attempts_announced src tables rfilter quota confirmations start_block step rc recs tip attempts ws ->
  attempts_announced src tables rfilter quota confirmations start_block step rc recs settled attempts ws.
Proof.
  revert ws. induction attempts as [|a attempts IH]; intros ws; [done|]. cbn.
  destruct (at_built a ws.2) as [s|e]; [|apply IH]. intros [Hq Hqs] [Ha Has]. split; [|by apply IH].
  unfold attempt_announced, attempt_quiet in *. destruct (on_db _ _) as [[o|e] ws']; [|done].
  destruct Hq as [Hq0 Hq]. eapply turns_announced_lower; [by apply quiet_empty|done|done].
Qed.
End quiet.


(** * Samples: a chain with a record in every third block, whose last ten blocks keep being replaced *)

Definition third_recs (b : Z) : list RawRecord := if b mod 3 =? 0 then [sample_rec b 0] else [].

(** The state counts the polls of the head; each finds three more blocks and a new fork above the settled
    ones. *)
Definition fork_head (n : Z) : Z := Z.max 40 (Z.min (40 + 3 * n) 1000).
Definition fork_settled (n : Z) : Z := fork_head n - 10.
Definition fork_recs (n b : Z) : list RawRecord := if b <=? fork_settled n then third_recs b else [sample_rec b 7].
Definition fork_hash (n h : Z) : bytes := if h <=? fork_settled n then [byte_of h] else [byte_of h; byte_of n].
Definition fork_metas (n : Z) (rs : list RawRecord) : AuxData :=
  mkAuxData ((fun r => mkBlockMeta 1 (rr_height r) (fork_hash n (rr_height r)) [] 0) <$> rs) [].

Definition third_source : ChainSource Z :=
  mkChainSource Z 1 (mkChainCaps true false) (fun n => (Ok (fork_head (n + 1)), n + 1))
    (fun _ lo hi n => (Ok (recs_in (fork_recs n) lo hi), n)) (fun rs n => (Ok (fork_metas n rs), n))
    (fun h n => (Ok (Some (fork_hash n h)), n)) (fun _ => mret_ tt).

#[export] Instance third_settles rfilter :
  SettlingChain third_source rfilter 10 third_recs (fun h => [byte_of h]) fork_settled.
Proof.
  split; [split|..]; cbn.
  - intros n r n' [= _ <-]. unfold fork_settled, fork_head. lia.
  - intros lo hi n r n' [= _ <-]. lia.
  - intros rs n r n' [= _ <-]. lia.
  - intros h n r n' [= _ <-]. lia.
  - intros n r n' [= _ <-]. lia.
  - intros n h n' [= <- <-]. unfold u64_ssub, fork_settled, fork_head. lia.
  - intros b r. unfold third_recs. destruct (_ =? _); [|by intros ?%not_elem_of_nil].
    by intros ->%list_elem_of_singleton.
  - intros lo hi n rs n' Hlo _ Hset [= <- _]. unfold recs_in. f_equal. apply list_fmap_ext. intros i b Hb.
    apply list_elem_of_lookup_2, elem_of_seqZ in Hb. unfold fork_recs. by rewrite (proj2 (Z.leb_le _ _)) by lia.
  - intros m rs n aux n' Hm Hrs [= <- _] b (r & -> & Hr)%list_elem_of_fmap. cbn. destruct (Hrs r Hr).
    split; [done|]. split; [done|]. split; [done|]. unfold fork_hash. by rewrite (proj2 (Z.leb_le _ _)) by lia.
  - intros h n c n' Hset [= <- _]. unfold fork_hash. by rewrite (proj2 (Z.leb_le _ _)) by lia.
Qed.

(** Fetches complete in reverse; the twelfth statement of the first attempt is rejected. *)
Definition reverse_turn : Turn := mkTurn false reverse [] 0 WElapsed.
Definition sample_attempts : list Attempt := replicate 2 (mkAttempt (fun n => Ok (n + 1)) (replicate 3 reverse_turn) false).
Definition flaky_world : World := mkWorld empty_db 1 0 (replicate 11 NoFault ++ [Reject]).

Lemma polled_checkpoint_sound_witness :
  let run := supervised_ingest third_source [] (mkRecordFilter [] []) (fun _ => false) 10 1 5 2 1 sample_attempts (flaky_world, 0) in
  run.1 = [1] /\ db_cursors (w_db run.2.1) !! 1 = Some (30, [byte_of 30])
  /\ checkpoint_ok third_source 1 third_recs (w_db run.2.1) /\ Forall (fun n => 1 <= n <= 30) run.1.
Proof.
  intros run. split; [by vm_compute|]. split; [by vm_compute|].
  apply (polled_checkpoint_sound third_source [] (mkRecordFilter [] []) (fun _ => false) 10 1 5 2 1 third_recs
           (fun h => [byte_of h]) fork_settled sample_attempts flaky_world run.2.1 0 run.2.2 run.1).
  - apply third_settles.
  - reflexivity.
  - lia.
  - lia.
  - lia.
  - lia.
  - lia.
  - lia.
  - repeat constructor; intros l; apply reverse_Permutation.
  - intros a n n' [-> _]%elem_of_replicate [= <-]. unfold fork_settled, fork_head. lia.
  - intros h row Hrow. cbn in Hrow. by rewrite lookup_empty in Hrow.
  - intros c hash Hc. cbn in Hc. by rewrite lookup_empty in Hc.
  - unfold run. by destruct (supervised_ingest _ _ _ _ _ _ _ _ _ _ _) as [? [? ?]].
Defined.

(** A stream that replays: it announces every log above the settled blocks.  Heads seen by the polls: the
    state counts them. *)
Definition replay_head (n : nat) : Z := match n with O => 100 | S O => 106 | S (S O) => 107 | _ => 120 end.
Definition replay_settled (n : nat) : Z := match n with O => 0 | S n => replay_head n - 12 end.
Definition replay_recs (b : Z) : list RawRecord := if (b =? 95) || (b =? 105) then [sample_rec b 0] else [].

Definition replay_source : ChainSource nat :=
  mkChainSource nat 1 (mkChainCaps true true) (fun n => (Ok (replay_head n), S n))
    (fun _ lo hi => mret_ (recs_in replay_recs lo hi)) (fun _ => mret_ AuxData_default)
    (fun h => mret_ (Some [byte_of h])) (fun _ => mret_ tt).

Lemma replay_rises rfilter : Rising replay_source rfilter replay_settled.
Proof.
  assert (forall n, replay_settled n <= replay_settled (S n)) as Hn
    by (intros [|[|[|[|n]]]]; cbn; lia).
  split; cbn; [intros n r n' [= _ <-]; apply Hn|..]; intros; intros n r n' [= _ <-]; lia.
Qed.

Lemma replay_head_bounds n : 100 <= replay_head n <= 120.
Proof. destruct n as [|[|[|n]]]; cbn; lia. Qed.

Lemma replay_settles rfilter : SettlingChain replay_source rfilter 12 replay_recs (fun h => [byte_of h]) replay_settled.
Proof.
  split; [apply replay_rises|..]; cbn.
  - intros n h n' [= <- <-]. pose proof (replay_head_bounds n). unfold u64_ssub. cbn. lia.
  - intros b r. unfold replay_recs. destruct (_ || _); [|by intros ?%not_elem_of_nil]. by intros ->%list_elem_of_singleton.
  - by intros lo hi n rs n' _ _ _ [= <- _].
  - intros m rs n aux n' _ _ [= <- _] b Hb. by apply not_elem_of_nil in Hb.
  - by intros h n c n' _ [= <- _].
Qed.

Lemma replay_announces rfilter : Announcing replay_source rfilter 12 replay_settled.
Proof.
  split; [apply replay_rises|]. intros n h n' [= <- <-]. pose proof (replay_head_bounds n). unfold u64_ssub. cbn. lia.
Qed.

(** The log of block 95 is announced, then a checkpoint is taken below it without fetching, then it is
    confirmed; the stream breaks, is opened again and announces block 105. *)
Definition log_at (h : Z) : Wake := WEvent (Some (Ok (mkTipLog (sample_rec h 0) false))).
Definition replay_attempts : list Attempt :=
  [mkAttempt (fun n : nat => Ok n) ((fun wk => mkTurn false id [] 0 wk) <$> [log_at 95; WElapsed; WEvent None; log_at 105; WElapsed]) false].

(** A stream that replays nothing, opened when the unconfirmed blocks hold no matched log: block 101 is
    announced, a checkpoint is taken below it without fetching, it is confirmed and swept; the stream
    breaks, is opened again at head 120 and announces block 125. *)
Definition live_head (n : nat) : Z := nth n [100; 106; 120; 121] 140.
Definition live_tip (n : nat) : Z := live_head (pred n).
Definition live_settled (n : nat) : Z := live_tip n - 12.
Definition live_recs (b : Z) : list RawRecord := if (b =? 101) || (b =? 125) then [sample_rec b 0] else [].

Definition live_source : ChainSource nat :=
  mkChainSource nat 1 (mkChainCaps true true) (fun n => (Ok (live_head n), S n))
    (fun _ lo hi => mret_ (recs_in live_recs lo hi)) (fun _ => mret_ AuxData_default)
    (fun h => mret_ (Some [byte_of h])) (fun _ => mret_ tt).

Definition live_attempts : list Attempt :=
  [mkAttempt (fun n : nat => Ok n) ((fun wk => mkTurn false id [] 0 wk) <$> [log_at 101; WElapsed; WEvent None; log_at 125; WElapsed]) false].

Lemma live_head_bounds n : 100 <= live_head n <= 140.
Proof. destruct n as [|[|[|[|[|n]]]]]; cbn; lia. Qed.

Lemma live_settled_S n : live_settled (S n) = live_head n - 12.
Proof. done. Qed.

Arguments live_head : simpl never.

Lemma live_settles rfilter : SettlingChain live_source rfilter 12 live_recs (fun h => [byte_of h]) live_settled.
Proof.
  assert (forall n, live_settled n <= live_settled (S n)) as Hn
    by (intros [|[|[|[|[|[|n]]]]]]; unfold live_settled, live_tip, live_head; cbn; lia).
  split; [split|..]; cbn; try (intros; intros n r n' [= _ <-]; lia).
  - intros n r n' [= _ <-]. apply Hn.
  - intros n h n' [= <- <-]. pose proof (live_head_bounds n). rewrite live_settled_S. unfold u64_ssub. lia.
  - intros b r. unfold live_recs. destruct (_ || _); [|by intros ?%not_elem_of_nil]. by intros ->%list_elem_of_singleton.
  - by intros lo hi n rs n' _ _ _ [= <- _].
  - intros m rs n aux n' _ _ [= <- _] b Hb. by apply not_elem_of_nil in Hb.
  - by intros h n c n' _ [= <- _].
Qed.


(** * Two ways past a gap *)

(** The log of block 95 is on the chain before the stream opens at head 100 and is not yet
    confirmed; the stream then pushes a log of block 105. *)
Definition ws_recs (b : Z) : list RawRecord := if (b =? 95) || (b =? 105) then [sample_rec b 0] else [].

(** Heads seen by the polls: the state counts them. *)
Definition ws_source : ChainSource nat :=
  mkChainSource nat 1 (mkChainCaps true true)
    (fun n => (Ok (nth n [100; 107; 120] 120), S n))
    (fun _ lo hi => mret_ (recs_in ws_recs lo hi)) (fun _ => mret_ AuxData_default)
    (fun h => mret_ (Some [byte_of h])) (fun _ => mret_ tt).

Definition ws_turns : list Turn :=
  [ mkTurn false id [] 0 (WEvent (Some (Ok (mkTipLog (sample_rec 105 0) false))));
    mkTurn false id [] 0 WElapsed;
    mkTurn false id [] 0 WElapsed ].

(** On the websocket path a confirmed log can be lost: the sweep after a subscription stops at
    [head - confirmations], the stream only pushes blocks after the subscription, and the next turn
    checkpoints over the blocks in between without fetching them.  Here the cursor ends at 108
    with the record of block 105 stored and that of block 95 never fetched. *)
Theorem ws_tip_skips_unconfirmed_at_subscribe :
  let run := ingest_loop ws_source [] (mkRecordFilter [] []) (fun _ => false) 12 80 10 2 ws_turns
               (calm_world empty_db, O) in
  let d := w_db run.2.1 in
  db_cursors d !! 1 = Some (108, []) /\ is_Some (db_raw d !! (1, 105, 0)) /\ db_raw d !! (1, 95, 0) = None.
Proof. vm_compute. split_and!; [done|by eexists|done]. Qed.

(** A store whose cursor is at 10 while the range of block 25 was committed out of order (its earlier
    neighbour failed), on a chain that then replaces block 25. *)
Definition ahead_db : Db :=
  mkDb (list_to_map [((1, 25), mkBlockRow [byte_of 25] [] 0)]) (<[1 := (10, [])]> ∅)
    (list_to_map [raw_kv (sample_rec 25 0)]) [] ∅.

(** A rollback can move the cursor forward: the cursor is set to the fork, [confirmations] below
    the highest stored block, whether or not it had got there.  Here the cursor goes from 10 to 20
    and the loop resumes at 21, so blocks 11 to 20 are never fetched. *)
Theorem rollback_moves_cursor_forward :
  let run := reorg_check [] forked_source 5 (calm_world ahead_db, tt) in
  run.1 = Ok (Some 21) /\ db_cursors ahead_db !! 1 = Some (10, [])
  /\ db_cursors (w_db run.2.1) !! 1 = Some (20, []).
Proof. by vm_compute. Qed.
