(* ===== verification/RpcChain.v ===== *)
(** The RPC client as a chain source: against a node whose chain settles, [RpcLogSource] keeps the promises
    the ingest loop relies on. *)
From S2P Require Import Prelude Model Btree Text Pricing Retry Ranges Encode Store Repos Services Enrichment Client ClientFacts Ingest IngestFacts.

(** What is left of the node's promises: heads within range with all but their last [confirmations] blocks
    settled, settled blocks by number, logs in their block. *)
Class HonestNode {P} (pv : Provider P) (confirmations : Z) (bl : Z -> list Log) (chain_block : Z -> Block)
    (settled : P -> Z) : Prop := {
  node_head : forall p h p', pv_block_number pv p = (Ok h, p') -> 0 <= h < 2 ^ 62 /\ u64_ssub h confirmations <= settled p';
  node_block : forall h p b p', h <= settled p -> pv_get_block pv h p = (Ok (Some b), p') -> b = chain_block h;
  node_logs : forall h l, l ∈ bl h -> lg_block_number l = Some h
}.

(** The records of a block as the client maps them. *)
Definition rpc_recs (chain : Z) (bl : Z -> list Log) (b : Z) : list RawRecord :=
  match res_map (map_log chain) (bl b) with Ok l => l | Err _ => [] end.

Lemma res_map_app {E A B} (f : A -> result E B) l k out :
  res_map f (l ++ k) = Ok out ->
  exists a b, res_map f l = Ok a /\ res_map f k = Ok b /\ out = a ++ b.
Proof.
  revert out. induction l as [|x l IH]; cbn; intros out H; [by exists [], out|].
  destruct (f x) as [y|e]; [|done]. cbn in *. destruct (res_map f (l ++ k)) as [ys|e]; [|done].
  injection H as <-. destruct (IH ys eq_refl) as (a & b & -> & -> & ->). by exists (y :: a), b.
Qed.

Lemma res_map_concat {E A B} (f : A -> result E B) ls out :
  res_map f (concat ls) = Ok out ->
  out = concat ((fun l => match res_map f l with Ok r => r | Err _ => [] end) <$> ls).
Proof.
  revert out. induction ls as [|l ls IH]; cbn; intros out H; [by injection H as <-|].
  apply res_map_app in H as (a & b & -> & H & ->). by rewrite (IH b H).
Qed.

Lemma res_map_elem {E A B} (f : A -> result E B) l out y :
  res_map f l = Ok out -> y ∈ out -> exists x, x ∈ l /\ f x = Ok y.
Proof.
  revert out. induction l as [|x l IH]; cbn; intros out H Hy; [injection H as <-; by apply not_elem_of_nil in Hy|].
  destruct (f x) as [z|e] eqn:Ef; [|done]. cbn in H. destruct (res_map f l) as [zs|e]; [|done].
  injection H as <-. apply elem_of_cons in Hy as [->|Hy]; [exists x; split; [left|done]|].
  destruct (IH zs eq_refl Hy) as (x' & ? & ?). exists x'. split; [by right|done].
Qed.

Lemma map_log_height chain l r : map_log chain l = Ok r -> lg_block_number l = Some (rr_height r).
Proof.
  unfold map_log. destruct (lg_block_number l); [|done]. destruct (lg_block_hash l); [|done].
  destruct (lg_log_index l); [|done]. destruct (lg_transaction_hash l); [|done]. by intros [= <-].
Qed.

(** * The live stream *)

(** The lowest block of the removed logs. *)
Definition lowest_removed (pushed : list Log) (o : option Z) : option Z :=
  fold_left (fun o l => match lg_block_number l with
                        | Some h => if lg_removed l then Some (match o with Some cur => Z.min cur h | None => h end) else o
                        | None => o
                        end) pushed o.

(** The tip state after the loop has taken the items of well-formed logs: it still has its stream, the blocks of the
    announced logs are pending, in order and once each, and the lowest block of the removed ones is the reorg signal. *)
Theorem pushed_logs_noticed (rs : RpcLogSource) (pushed : list Log) (t : TipState) :
  Forall (fun l => exists r, map_log (rs_chain_id rs) l = Ok r) pushed -> ascending Z.compare (pending t) ->
  let t' := fold_left (fun t i => on_ws_event i t) ((fun l => Some (tip_log rs l)) <$> pushed) t in
  sub t' = sub t /\ ascending Z.compare (pending t')
  /\ (forall h, h ∈ pending t' <-> h ∈ pending t \/ Exists (fun l => lg_removed l = false /\ lg_block_number l = Some h) pushed)
  /\ reorg_at t' = lowest_removed pushed (reorg_at t).
Proof.
  revert t. induction pushed as [|l pushed IH]; intros t Hm Ha; cbn.
  { split_and!; [done|done| |done]. intros h. rewrite Exists_nil. tauto. }
  apply Forall_cons in Hm as [[r Hr] Hm].
  assert (lg_block_number l = Some (rr_height r)) as Hh.
  { unfold map_log in Hr. destruct (lg_block_number l) as [h|]; [|done]. cbn in Hr. destruct (lg_block_hash l); [|done].
    cbn in Hr. destruct (lg_log_index l); [|done]. cbn in Hr. destruct (lg_transaction_hash l); [|done]. by injection Hr as <-. }
  assert (tip_log rs l = Ok (mkTipLog r (lg_removed l))) as -> by (unfold tip_log; by rewrite Hr).
  cbn [on_ws_event tl_removed tl_record]. rewrite Hh.
  destruct (lg_removed l) eqn:Er.
  - destruct (IH (mkTipState (ws_enabled t) (sub t) (pending t) (reconcile t)
      (Some (match reorg_at t with Some cur => Z.min cur (rr_height r) | None => rr_height r end))) Hm Ha) as (H1 & H2 & H3 & H4).
    cbn in *. split_and!; [done|done| |done]. intros h. rewrite H3, Exists_cons, Er. split; [intros [?|?]; auto|].
    intros [?|[[? _]|?]]; [by left|done|by right].
  - destruct (btree_set_spec Z.compare (rr_height r :: pending t)) as [Hs Hin].
    destruct (IH (mkTipState (ws_enabled t) (sub t) (btree_set Z.compare (rr_height r :: pending t)) (reconcile t) (reorg_at t)) Hm Hs)
      as (H1 & H2 & H3 & H4).
    cbn in *. split_and!; [done|done| |done]. intros h. rewrite H3, Hin, elem_of_cons, Exists_cons, Er, Hh. split.
    + intros [[->|?]|?]; auto.
    + intros [?|[[_ [= <-]]|?]]; auto.
Qed.

(** A log that cannot be mapped, and the end of the stream, close it: the next turn opens it again and sweeps. *)
Lemma stream_end_noticed (rs : RpcLogSource) (t : TipState) :
  (forall pushed, sub (fold_left (fun t i => on_ws_event i t) (live_stream rs pushed) t) = false)
  /\ forall l e, map_log (rs_chain_id rs) l = Err e -> sub (on_ws_event (Some (tip_log rs l)) t) = false.
Proof.
  split.
  - intros pushed. unfold live_stream. by rewrite fold_left_app.
  - intros l e H. unfold tip_log. by rewrite H.
Qed.

(** C13: the RPC client keeps the chain-source contract: against a node whose chain may replace any block
    that has fewer than [confirmations] on top (pages complete below the result cap), whatever pages are
    truncated, retried or completed out of order, its heads, records, block metas and hashes are those of
    the settled chain as far as that goes. *)
Theorem rpc_source_honest {P} (pv : Provider P) (rs : RpcLogSource) (rfilter : RecordFilter) (lf : LogFilter)
    (confirmations : Z) (bl : Z -> list Log) (chain_block : Z -> Block) (settled : P -> Z)
    (order_b : list (list Z) -> list (list Z)) (order_r : list (list bytes) -> list (list bytes)) :
  base_filter rfilter = Done lf -> RisingProvider pv settled ->
  HonestProvider pv (max_getlogs_results (rs_plan rs)) lf bl settled ->
  HonestBlocks pv chain_block settled -> HonestNode pv confirmations bl chain_block settled ->
  0 <= max_getlogs_results (rs_plan rs) -> is_u32 (max_getlogs_blocks (rs_plan rs)) ->
  (forall l, order_b l ≡ₚ l) -> (forall l, order_r l ≡ₚ l) ->
  SettlingChain (rpc_source pv rs order_b order_r) rfilter confirmations (rpc_recs (rs_chain_id rs) bl)
    (fun h => blk_hash (chain_block h)) (level settled).
Proof.
  intros Hf Hri Hp Hb Hn Hcap Hu Hob Hor. split; [split|..]; cbn.
  - by apply head_grows.
  - intros lo hi. by apply fetch_records_grows.
  - intros recs. by apply fetch_aux_grows.
  - intros h. by apply block_hash_grows.
  - by apply subscribe_grows.
  - intros s h s' H. unfold head, on_provider in H.
    destruct (pv_block_number pv _) as [[n|e] p] eqn:E; [|done]. injection H as <- <-. by apply node_head in E.
  - intros b r Hr. unfold rpc_recs in Hr. destruct (res_map _ (bl b)) as [l|e] eqn:E;
      [|by apply not_elem_of_nil in Hr].
    destruct (res_map_elem _ _ _ _ E Hr) as (x & Hx & Hm). apply node_logs in Hx.
    apply map_log_height in Hm. congruence.
  - intros lo hi s out s' Hlo Hhi Hset H.
    apply (fetch_records_run pv rs rfilter lf bl settled) in H; [|done..|unfold_int; lia|done].
    apply res_map_concat in H as ->. unfold recs_in. by rewrite <- list_fmap_compose.
  - intros n recs s aux s' Hset Hrecs H b Hin.
    apply (fetch_aux_run pv rs chain_block settled) in H as (bs & rcp & aux1 & -> & Hbs & _ & E & _); [|done..|].
    2:{ intros r Hr. destruct (Hrecs r Hr) as [_ ?]. unfold level in Hset. lia. }
    cbn in Hin. rewrite E in Hin. apply list_elem_of_fmap in Hin as (blk & -> & Hblk).
    rewrite Hbs in Hblk. apply list_elem_of_fmap in Hblk as (h & -> & Hh).
    apply btree_set_heights, list_elem_of_fmap in Hh as (r & -> & Hr). cbn.
    rewrite (block_numbers (rr_height r)). destruct (Hrecs r Hr). auto.
  - intros h s c s' Hset H. unfold block_hash in H. destruct (retrying _ s) as [r s1] eqn:E.
    apply (retrying_ok settled) in E as [_ Hv]; [|by apply entered_grows, rp_block].
    destruct r as [[b|]|e]; [|done|done]. injection H as <- _. destruct (Hv _ eq_refl) as (s2 & s3 & Hl & H3).
    unfold on_provider in H3. destruct (pv_get_block pv h _) as [x p] eqn:Eb. injection H3 as -> _.
    apply node_block in Eb as ->; [done|]. unfold level in *. cbn in *. lia.
Qed.

(** * Sample: a node that truncates its pages, serves its blocks and keeps replacing the last ten *)

(** The state counts the polls of the head. *)
Definition fork_logs (n h : Z) : list Log := if h <=? fork_settled n then [sample_log h] else [].
Definition fork_block (n h : Z) : Block :=
  if h <=? fork_settled n then sample_block h else mkBlock h [byte_of n] [byte_of n] 0 [].

Definition node : Provider Z :=
  mkProvider Z (fun n => (Ok (fork_head (n + 1)), n + 1))
    (fun _ lo hi n => (Ok (if lo =? hi then logs_in (fork_logs n) lo hi else take 3 (logs_in (fork_logs n) lo hi)), n))
    (fun h n => (Ok (Some (fork_block n h)), n)) (fun hs n => (Ok ((fun h => Some (fork_block n h)) <$> hs), n))
    (fun ids n => (Ok ((fun _ => None) <$> ids), n)) (fun _ n => (Ok tt, n)).

Lemma fork_logs_settled n lo hi : hi <= fork_settled n -> logs_in (fork_logs n) lo hi = logs_in (fun h => [sample_log h]) lo hi.
Proof.
  intros Hset. unfold logs_in. f_equal. apply list_fmap_ext. intros i b Hb. apply list_elem_of_lookup_2, elem_of_seqZ in Hb.
  unfold fork_logs. by rewrite (proj2 (Z.leb_le _ _)) by lia.
Qed.

Lemma node_rises : RisingProvider node fork_settled.
Proof.
  split; cbn; [intros n r n' [= _ <-]; unfold fork_settled, fork_head; lia|..]; intros; intros n r n' [= _ <-]; lia.
Qed.

Lemma node_pages : HonestProvider node 3 any_filter (fun h => [sample_log h]) fork_settled.
Proof.
  intros lo hi n page n' Hset [= <- <-] H. rewrite (fork_logs_settled n lo hi Hset) in *.
  destruct (Z.eqb_spec lo hi) as [|Hne]; [done|]. destruct H as [?|[?|H]]; [done|done|]. apply take_ge.
  rewrite length_take in H. lia.
Qed.

Lemma node_blocks : HonestBlocks node sample_block fork_settled.
Proof.
  split; [done| |].
  - intros hs n out n' [= <- _]. induction hs; cbn; constructor; [|done]. intros Hle b [= <-]. unfold fork_block.
    by rewrite (proj2 (Z.leb_le _ _)) by lia.
  - intros ids n out n' [= <- _]. induction ids; cbn; by constructor.
Qed.

Lemma rpc_source_honest_witness :
  SettlingChain (rpc_source node sample_source reverse reverse) (mkRecordFilter [] []) 10
    (rpc_recs 1 (fun h => [sample_log h])) (fun h => blk_hash (sample_block h)) (level fork_settled).
Proof.
  apply (rpc_source_honest node sample_source (mkRecordFilter [] []) any_filter 10 (fun h => [sample_log h]) sample_block fork_settled).
  - reflexivity.
  - exact node_rises.
  - exact node_pages.
  - exact node_blocks.
  - split; cbn.
    + intros n h n' [= <- <-]. unfold u64_ssub, fork_settled, fork_head. lia.
    + intros h n b n' Hle [= <- _]. unfold fork_block. by rewrite (proj2 (Z.leb_le _ _)) by lia.
    + by intros h l ->%list_elem_of_singleton.
  - cbn. lia.
  - unfold_int. cbn. lia.
  - intros l. apply reverse_Permutation.
  - intros l. apply reverse_Permutation.
Defined.
