(* ===== verification/Worker.v ===== *)
(** The decode worker pool and the commands around it ([bins/indexer-cli/src/worker.rs],
    [commands.rs]): the worker's loop, the reclaim ticker, waiting for an empty queue, the data path of a
    backfill and the re-decoding of a range.  The theorem is the pool's liveness: a fault-free worker empties the
    queue, and what was queued is in the typed tables. *)
From S2P Require Import Prelude Model Btree Text Encode Store Repos Queue UnitOfWork Services ServicesFacts Ranges Plan Pipeline.

Section worker.
Context (map_order : list (string * list EventRow) -> list (string * list EventRow)).
Context (set_order : list bytes -> list bytes).
Context (decoders : gmap Z Decoder) (poll_ms poll_idle_ms : Z).

(** * The pool ([worker.rs]) *)

(** How long a worker sleeps after a turn: an error counts as idle. *)
Definition idle (r : result DomainError (option Z)) : bool :=
  match r with Ok (Some _) => false | Ok None | Err _ => true end.

(** The loop of a worker: [naps] says of each sleep whether the token is cancelled in it; when the
    list ends, the token is cancelled at the head of the loop.  The sleeps it took, and the state. *)
Fixpoint spawn_decode_worker (naps : list bool) (w : World) : list Z * World :=
  match naps with
  | [] => ([], w)
  | cancelled :: naps =>
      let '(r, w1) := run_once map_order set_order decoders w in
      let wait := if idle r then poll_idle_ms else poll_ms in
      if cancelled then ([wait], w1)
      else let '(waits, w2) := spawn_decode_worker naps w1 in (wait :: waits, w2)
  end.

Definition set_now (now : Z) (w : World) : World := mkWorld (w_db w) (w_seq w) now (w_faults w).

(** The reclaim ticker over the times it wakes at: a failed reclaim is ignored. *)
Definition spawn_reclaim_ticker (times : list Z) (w : World) : World :=
  fold_left (fun w now => (reclaim 60 (set_now now w)).2) times w.

(** * Commands *)

(** What happens around one poll of [drain_queue]: cancellation at the head of the loop, the turns
    workers take during the sleep, and cancellation in the sleep. *)
Record Poll := mkPoll { pl_cancelled : bool; pl_work : list bool; pl_cancelled_asleep : bool }.

(** [None]: still waiting when the polls end. *)
Fixpoint drain_queue (polls : list Poll) : M World DomainError (option ()) :=
  match polls with
  | [] => mret_ None
  | p :: polls =>
      if pl_cancelled p then mret_ (Some tt)
      else
        do n <- depth;
        if n =? 0 then mret_ (Some tt)
        else fun w =>
          let w1 := (spawn_decode_worker (pl_work p) w).2 in
          if pl_cancelled_asleep p then (Ok (Some tt), w1) else drain_queue polls w1
  end.

(** The data path of [backfill] over the completions [cs] of its fetches: the pipeline, then the wait
    for the workers; the records ingested.  [Backfill] also interleaves the turns that
    workers take while the pipeline still runs. *)
Definition backfill (chain from : Z) (cs : list Completion) (k : nat) (polls : list Poll) : M World DomainError Z :=
  do out <- run_pipeline chain from cs k;
  do _ <- drain_queue polls;
  mret_ (po_records out).

End worker.

Definition resync mo so (decoder : Decoder) (chain from to : Z) : M World DomainError Z :=
  decode_range mo so decoder chain from to.

(** * Decoding succeeds *)

(** The range can be decoded: its records and calls decode, the calls can be read, and the rows fit
    their tables (which are not the transactions'). *)
Record decodable (dec : Decoder) (chain from to : Z) (d : Db) : Prop := mkDecodable {
  dd_events : forall r, r ∈ raw_range_rows chain from to (db_raw d) -> exists o, dec_decode dec r = Ok o;
  dd_calls : dec_has_calls dec = true -> exists tab, db_tables d !! "transactions" = Some tab
    /\ forall r, r ∈ (map_to_list (t_rows tab)).*2 -> tr_chain_id r = as_i64 chain ->
         tr_tx_id r ∈ rr_tx_id <$> raw_range_rows chain from to (db_raw d) ->
         exists c o, calldata_of chain r = Some c /\ dec_decode_call dec c = Ok o;
  dd_rows : forall x, x ∈ decoded_rows dec chain from to d ->
    is_valid_ident (row_table x) = true /\ row_table x <> "transactions" /\ row_fits d (row_table x) x
}.

Lemma decode_all_succeeds {A} (f : A -> result DomainError (option EventRow)) xs :
  (forall x, x ∈ xs -> exists o, f x = Ok o) -> exists rows, decode_all f xs = Ok rows.
Proof.
  induction xs as [|x xs IH]; intros H; cbn; [eauto|]. destruct (H x) as [o ->]; [left|]. cbn.
  destruct IH as [rows ->]; [intros; apply H; by right|]. cbn. eauto.
Qed.

Lemma calldata_stmt_succeeds chain ids w tab (P : TxCalldata -> Prop) :
  db_tables (w_db w) !! "transactions" = Some tab ->
  (forall r, r ∈ (map_to_list (t_rows tab)).*2 -> tr_chain_id r = as_i64 chain -> tr_tx_id r ∈ ids ->
     exists c, calldata_of chain r = Some c /\ P c) ->
  exists out, calldata_stmt chain ids w = Some (out, w) /\ Forall P out.
Proof.
  intros Ht H. unfold calldata_stmt. rewrite Ht. cbn [mbind option_bind].
  assert (exists out, mapM (calldata_of chain) (filter (fun r => tr_chain_id r = as_i64 chain /\ tr_tx_id r ∈ ids)
    (map_to_list (t_rows tab)).*2) = Some out /\ Forall P out) as (out & -> & HP).
  { induction (map_to_list (t_rows tab)).*2 as [|r rs IH]; [by exists []|].
    destruct IH as (out & E & HP); [intros; apply H; [by right|done|done]|].
    rewrite filter_cons. case_decide as Hr; [|eauto]. cbn.
    destruct (H r) as (c & -> & Hc); [left|by apply Hr|by apply Hr|]. cbn. rewrite E. cbn. eauto. }
  cbn. eauto.
Qed.

Lemma calldata_succeeds chain ids w tab (P : TxCalldata -> Prop) :
  calm w -> db_tables (w_db w) !! "transactions" = Some tab ->
  (forall r, r ∈ (map_to_list (t_rows tab)).*2 -> tr_chain_id r = as_i64 chain -> tr_tx_id r ∈ ids ->
     exists c, calldata_of chain r = Some c /\ P c) ->
  exists out, block_calldata chain ids w = (Ok out, w) /\ Forall P out.
Proof.
  intros Hc Ht H. unfold block_calldata.
  assert (forall cs acc, (forall x, x ∈ concat cs -> x ∈ ids) -> Forall P acc ->
    exists out, mfold (fun out ids => do rows <- sql (calldata_stmt chain ids); mret_ (out ++ rows)) acc cs w
      = (Ok out, w) /\ Forall P out) as Hcs.
  { induction cs as [|c cs IH]; intros acc Hin Ha; [by exists acc|].
    destruct (calldata_stmt_succeeds chain c w tab P Ht) as (o1 & E1 & H1).
    { intros r Hr Hch Hid. apply H; [done|done|]. apply Hin. cbn. apply elem_of_app. by left. }
    destruct (IH (acc ++ o1)) as (out & E & HP);
      [intros x Hx; apply Hin; cbn; apply elem_of_app; by right|by apply Forall_app|].
    exists out. split; [|done]. cbn. apply mbind_Ok. exists (acc ++ o1), w. split; [|done].
    apply mbind_Ok. exists o1, w. split; [|done]. by apply sql_calm. }
  destruct (Hcs (chunks (Z.to_nat CALLDATA_CHUNK) ids) []) as (out & E & HP); [|done|].
  { rewrite chunks_concat by (unfold CALLDATA_CHUNK; lia). done. }
  exists out. split; [by apply mmap_err_Ok|done].
Qed.

Section succeed.
Context (mo : list (string * list EventRow) -> list (string * list EventRow)) (so : list bytes -> list bytes).
Context (Hmo : forall l, mo l ≡ₚ l) (Hso : forall l, so l ≡ₚ l).

Lemma decode_rows_succeeds dec chain from to w :
  calm w -> decodable dec chain from to (w_db w) -> exists rows, decode_rows so dec chain from to w = (Ok rows, w).
Proof.
  intros Hc [He Hcalls _]. set (raw := raw_range_rows chain from to (db_raw (w_db w))) in He, Hcalls.
  destruct (decode_all_succeeds (dec_decode dec) raw He) as [evs Hevs].
  assert (exists calls, (if dec_has_calls dec then
    do txs <- block_calldata chain (so (remove_dups (rr_tx_id <$> raw)));
    mlift (decode_all (dec_decode_call dec) txs) else mret_ []) w = (Ok calls, w)) as [calls Hcs].
  { destruct (dec_has_calls dec); [|by exists []]. destruct (Hcalls eq_refl) as (tab & Ht & Hr).
    destruct (calldata_succeeds chain (so (remove_dups (rr_tx_id <$> raw))) w tab
      (fun c => exists o, dec_decode_call dec c = Ok o) Hc Ht) as (txs & E & HP).
    { intros r Hin Hch Hid. rewrite Hso, elem_of_remove_dups in Hid.
      destruct (Hr r Hin Hch Hid) as (c & o & ? & ?). eauto. }
    rewrite Forall_forall in HP. destruct (decode_all_succeeds (dec_decode_call dec) txs HP) as [cs Ecs].
    exists cs. apply mbind_Ok. exists txs, w. split; [done|]. unfold mlift. by rewrite Ecs. }
  eexists. unfold decode_rows. apply mbind_Ok. exists raw, w. split; [by apply mmap_err_Ok, sql_calm|].
  apply mbind_Ok. exists (times_of chain from to (w_db w)), w. split; [by apply mmap_err_Ok, sql_calm|].
  apply mbind_Ok. exists evs, w. split; [unfold mlift; by rewrite Hevs|].
  apply mbind_Ok. exists calls, w. split; [exact Hcs|]. done.
Qed.

Lemma event_upsert_batch_succeeds d0 t rs :
  is_valid_ident t = true -> Forall (row_fits d0 t) rs ->
  succeeds (grown d0) (event_upsert_batch t rs) (grown d0).
Proof.
  intros Hv Hrs w Hc Hg.
  destruct (succeeds_map_err _ _ domain_of_db _ (event_upsert_succeeds d0 t rs Hv Hrs) w Hc Hg) as (n & w' & E & Hc' & Hg').
  exists n, w'. split; [|done]. unfold event_upsert_batch, safe_ident. rewrite Hv. cbn. by apply in_tx_calm.
Qed.

Lemma write_rows_succeeds d0 rows :
  (forall x, x ∈ rows -> is_valid_ident (row_table x) = true /\ row_fits d0 (row_table x) x) ->
  succeeds (grown d0) (write_rows mo rows) (grown d0).
Proof.
  intros Hrows. apply succeeds_mfold. intros acc [t g]. rewrite Hmo. intros Hg.
  destruct (btree_group_spec str_cmp row_table rows) as (G1 & G2 & G3). apply (ascending_NoDup str_cmp) in G1.
  rewrite <- (group_of_elem _ _ _ G1 Hg), G3.
  assert (exists x, x ∈ rows /\ row_table x = t) as (x & Hx & <-)
    by (apply G2, list_elem_of_fmap; by exists (t, g)).
  eapply succeeds_bind; [apply event_upsert_batch_succeeds|intros; apply succeeds_ret].
  - by apply Hrows.
  - apply Forall_forall. intros y [E Hy]%list_elem_of_filter. rewrite <- E. by apply Hrows.
Qed.

Lemma grown_refl d : grown d d.
Proof. intros t tab Ht. exists (t_rows tab). split; [|done]. rewrite Ht. by destruct tab. Qed.

(** A key of the row is taken in its table. *)
Definition row_present (d : Db) (x : EventRow) : Prop :=
  exists tab kv, db_tables d !! row_table x = Some tab
    /\ typed_kv (t_pk tab) (table_has_idx (row_table x)) x = Some kv /\ is_Some (t_rows tab !! kv.1).

Lemma row_present_grown d d' x : grown d d' -> row_present d x -> row_present d' x.
Proof.
  intros Hg (tab & kv & Ht & Hk & [v Hv]). destruct (Hg _ _ Ht) as (rows & Ht' & Hs).
  exists (set_rows rows tab), kv. split_and!; [done|done|]. exists v. by eapply lookup_weaken.
Qed.

Lemma list_to_map_some {K V} `{Countable K} (l : list (K * V)) k v :
  (k, v) ∈ l -> is_Some ((list_to_map l : gmap K V) !! k).
Proof.
  intros Hin. destruct (list_to_map l !! k) eqn:E; [eauto|]. apply not_elem_of_list_to_map in E.
  destruct E. apply list_elem_of_fmap. by exists (k, v).
Qed.

Lemma add_rows_present t rs tab x kv :
  x ∈ rs -> typed_kv (t_pk tab) (table_has_idx t) x = Some kv -> is_Some (t_rows (add_rows t rs tab) !! kv.1).
Proof.
  intros Hx Hk. cbn. rewrite lookup_union. destruct (t_rows tab !! kv.1); [by destruct (list_to_map _ !! _); eexists|].
  destruct (list_to_map_some (omap (typed_kv (t_pk tab) (table_has_idx t)) rs) kv.1 kv.2) as [v Hv].
  { apply list_elem_of_omap. exists x. by destruct kv. }
  eexists. by rewrite Hv.
Qed.

(** A range that can be decoded is decoded: the call returns, the rows are there, and only typed
    tables other than the transactions' have grown. *)
Lemma decode_range_succeeds dec chain from to w :
  calm w -> decodable dec chain from to (w_db w) ->
  exists n w', decode_range mo so dec chain from to w = (Ok n, w') /\ calm w' /\ grown (w_db w) (w_db w')
    /\ w_db w' = set_tables (db_tables (w_db w')) (w_db w)
    /\ db_tables (w_db w') !! "transactions" = db_tables (w_db w) !! "transactions"
    /\ forall x, x ∈ decoded_rows dec chain from to (w_db w) -> row_present (w_db w') x.
Proof.
  intros Hc Hd. destruct (decode_rows_succeeds _ _ _ _ _ Hc Hd) as [rows E].
  destruct (decode_rows_spec so dec chain from to w rows w Hso E) as [_ Hp].
  assert (forall x, x ∈ rows -> is_valid_ident (row_table x) = true /\ row_table x <> "transactions"
    /\ row_fits (w_db w) (row_table x) x) as Hrows by (setoid_rewrite Hp; apply Hd).
  destruct (write_rows_succeeds (w_db w) rows) with (w := w) as (n & w' & Ew & Hc' & Hg); [|done|apply grown_refl|].
  { intros x Hx. split; by apply Hrows. }
  exists n, w'. split; [apply mbind_Ok; eauto|]. split; [done|]. split; [done|].
  destruct (btree_group_spec str_cmp row_table rows) as (G1 & G2 & G3). apply (ascending_NoDup str_cmp) in G1.
  apply (write_groups_run (fun t => by_signature (rows_of rows t))) in Ew as (ts & T1 & _ & T3 & T4).
  2:{ by rewrite Hmo. }
  2:{ intros t g. rewrite Hmo. intros Hin. by rewrite <- (group_of_elem _ _ _ G1 Hin), G3. }
  rewrite (T4 _ eq_refl) in T1, T3.
  assert (Hts : forall t, t ∈ (mo (btree_group str_cmp row_table rows)).*1 <-> exists x, x ∈ rows /\ row_table x = t)
    by (intros t; by rewrite Hmo, G2).
  split_and!.
  - rewrite T3. destruct (tables_effect_others (fun t => by_signature (rows_of rows t))
      (mo (btree_group str_cmp row_table rows)).*1 (w_db w)) as (E1 & E2 & E3 & E4).
    unfold set_tables. rewrite <- E1, <- E2, <- E3, <- E4. by destruct (tables_effect _ _ _).
  - rewrite T3, tables_effect_lookup by done. rewrite decide_False; [done|].
    intros (x & Hx & Ht)%Hts. by apply (Hrows x).
  - intros x Hx. rewrite <- Hp in Hx. destruct (Hrows x Hx) as (_ & _ & tab & Ht & ([kv Hkv] & _) & _).
    exists (add_rows (row_table x) (by_signature (rows_of rows (row_table x))) tab), kv. split_and!.
    + rewrite T3, tables_effect_lookup by done. rewrite decide_True by (apply Hts; eauto). by rewrite Ht.
    + done.
    + eapply add_rows_present; [|done]. apply by_signature_elem, list_elem_of_filter. done.
Qed.

(** * A worker empties the queue *)

Context (decoders : gmap Z Decoder).

(** The item of a queue row can be decoded, or its chain has no decoder and it is only acked. *)
Definition item_decodable (d : Db) (i : WorkItem) : Prop :=
  forall dec, decoders !! wi_chain_id i = Some dec -> decodable dec (wi_chain_id i) (wi_from i) (wi_to i) d.

(** The rows of the item are in their tables. *)
Definition item_decoded (d0 d : Db) (i : WorkItem) : Prop :=
  forall dec x, decoders !! wi_chain_id i = Some dec ->
    x ∈ decoded_rows dec (wi_chain_id i) (wi_from i) (wi_to i) d0 -> row_present d x.

(** What decoding other items does to the store. *)
Definition decoded_more (d d' : Db) : Prop :=
  grown d d' /\ db_raw d' = db_raw d /\ db_blocks d' = db_blocks d
  /\ db_tables d' !! "transactions" = db_tables d !! "transactions".

Lemma decoded_rows_more dec chain from to d d' :
  decoded_more d d' -> decoded_rows dec chain from to d' = decoded_rows dec chain from to d.
Proof. intros (_ & Hr & Hb & Ht). unfold decoded_rows, times_of, tx_rows, parents. by rewrite Hr, Hb, Ht. Qed.

Lemma item_decodable_more d d' i : decoded_more d d' -> item_decodable d i -> item_decodable d' i.
Proof.
  intros Hm Hi dec Hdec. destruct (Hi dec Hdec) as [He Hc Hr].
  pose proof (decoded_rows_more dec (wi_chain_id i) (wi_from i) (wi_to i) d d' Hm) as Hrows.
  destruct Hm as (Hg & Hraw & Hb & Ht). split; rewrite ?Hraw, ?Ht; [done|done|].
  rewrite Hrows. intros x Hx. destruct (Hr x Hx) as (? & ? & ?). split_and!; [done|done|]. by eapply row_fits_grown.
Qed.

Lemma decoded_more_trans d1 d2 d3 : decoded_more d1 d2 -> decoded_more d2 d3 -> decoded_more d1 d3.
Proof.
  intros (A1 & A2 & A3 & A4) (B1 & B2 & B3 & B4). split; [by eapply grown_trans|]. by rewrite B2, B3, B4.
Qed.

Lemma set_queue_more q d : decoded_more d (set_queue q d).
Proof. split; [|done]. intros t tab Ht. by apply (grown_refl d). Qed.

Lemma pull_head w x q :
  calm w -> queue_of w = x :: q -> Forall (fun r => locked r = false) (x :: q) ->
  pull_any w = (Ok (Some (lease_of (lock_row (w_now w) x))), upd_db (set_queue (lock_row (w_now w) x :: q)) w).
Proof.
  intros Hc Hq Hu. apply mmap_err_Ok, sql_calm; [done|]. unfold queue_of in Hq. rewrite Hq.
  assert (in_flight (x :: q) (wq_chain_id x) = false) as Hf.
  { apply not_true_is_false. intros (r & Hr & [Hl _]%andb_true_iff)%existsb_exists.
    rewrite Forall_forall in Hu. apply list_elem_of_In in Hr. by rewrite Hu in Hl. }
  unfold pull_rows. cbn [list_find]. rewrite decide_True; [done|]. unfold ready. rewrite Hf.
  by pose proof (Forall_cons_1 _ _ _ Hu) as [-> _].
Qed.

Lemma ack_head w l q x :
  calm w -> queue_of w = x :: q -> l = lease_of x -> NoDup (wq_id <$> x :: q) ->
  ack (l_id l) (l_lease_seq l) w = (Ok tt, upd_db (set_queue q) w).
Proof.
  intros Hc Hq -> Hnd. apply mmap_err_Ok, sql_calm; [done|]. do 2 f_equal. unfold upd_db, with_db.
  f_equal. f_equal. unfold queue_of in Hq. rewrite Hq. unfold ack_rows.
  apply NoDup_cons in Hnd as [Hni _]. rewrite filter_cons, decide_False by tauto.
  apply filter_every. intros y Hy [E _]. apply Hni. cbn in E. rewrite <- E. apply list_elem_of_fmap. eauto.
Qed.

Lemma run_once_head w x q :
  calm w -> queue_of w = x :: q -> Forall (fun r => locked r = false) (x :: q) -> NoDup (wq_id <$> x :: q) ->
  item_decodable (w_db w) (lease_item x) ->
  exists n w', run_once mo so decoders w = (Ok (Some n), w') /\ calm w' /\ queue_of w' = q
    /\ decoded_more (w_db w) (w_db w') /\ item_decoded (w_db w) (w_db w') (lease_item x).
Proof.
  intros Hc Hq Hu Hnd Hi. pose proof (pull_head w x q Hc Hq Hu) as Hp.
  set (y := lock_row (w_now w) x) in *. set (w1 := upd_db (set_queue (y :: q)) w) in *.
  assert (decoded_more (w_db w) (w_db w1)) as M1 by apply set_queue_more.
  apply (item_decodable_more _ _ _ M1) in Hi. set (i := lease_item x) in *.
  assert (exists n w2, match decoders !! wi_chain_id i with
      | Some dec => decode_range mo so dec (wi_chain_id i) (wi_from i) (wi_to i) | None => mret_ 0 end w1 = (Ok n, w2)
    /\ calm w2 /\ queue_of w2 = y :: q /\ decoded_more (w_db w1) (w_db w2)
    /\ item_decoded (w_db w1) (w_db w2) i) as (n & w2 & E2 & C2 & Q2 & M2 & D2).
  { unfold item_decoded. destruct (decoders !! wi_chain_id i) as [dec|] eqn:Ed.
    - destruct (decode_range_succeeds dec _ _ _ w1 Hc (Hi dec Ed)) as (n & w2 & E2 & C2 & G2 & D2 & T2 & P2).
      exists n, w2. split_and!; [done|done| | |].
      + by rewrite (decode_range_queue _ _ _ _ _ _ _ _ _ E2).
      + split; [done|]. rewrite D2. done.
      + intros dec' z [= <-]. apply P2.
    - exists 0, w1. split_and!; done. }
  assert (NoDup (wq_id <$> y :: q)) as Hnd2 by done.
  pose proof (ack_head w2 (lease_of y) q y C2 Q2 eq_refl Hnd2) as Ha.
  exists n, (upd_db (set_queue q) w2). split_and!; [|done|done| |].
  - unfold run_once. apply mbind_Ok. exists (Some (lease_of y)), w1. split; [done|].
    apply mbind_Ok. exists n, w2. split; [exact E2|]. apply mbind_Ok. by exists tt, (upd_db (set_queue q) w2).
  - eapply decoded_more_trans; [exact M1|]. eapply decoded_more_trans; [exact M2|]. apply set_queue_more.
  - intros dec z Hdec Hz. rewrite <- (decoded_rows_more _ _ _ _ _ _ M1) in Hz.
    eapply row_present_grown; [apply set_queue_more|by eapply D2].
Qed.

(** The turns a worker needs are the rows of the queue, and none of them sleeps idle. *)
Lemma worker_empties poll_ms poll_idle_ms q w :
  calm w -> queue_of w = q -> Forall (fun r => locked r = false) q -> NoDup (wq_id <$> q) ->
  (forall x, x ∈ q -> item_decodable (w_db w) (lease_item x)) ->
  exists w', spawn_decode_worker mo so decoders poll_ms poll_idle_ms (replicate (length q) false) w
      = (replicate (length q) poll_ms, w')
    /\ calm w' /\ queue_of w' = [] /\ decoded_more (w_db w) (w_db w')
    /\ forall x, x ∈ q -> item_decoded (w_db w) (w_db w') (lease_item x).
Proof.
  revert w. induction q as [|x q IH]; intros w Hc Hq Hu Hnd Hi.
  { exists w. split_and!; try done; [split; [apply grown_refl|done]|by intros ? ?%not_elem_of_nil]. }
  destruct (run_once_head w x q Hc Hq Hu Hnd) as (n & w1 & E1 & C1 & Q1 & M1 & D1); [apply Hi; left|].
  apply Forall_cons_1 in Hu as [_ Hu]. apply NoDup_cons in Hnd as [_ Hnd].
  destruct (IH w1 C1 Q1 Hu Hnd) as (w2 & E2 & C2 & Q2 & M2 & D2).
  { intros z Hz. eapply item_decodable_more; [done|]. apply Hi. by right. }
  exists w2. cbn [length replicate spawn_decode_worker]. rewrite E1. cbn [idle]. rewrite E2.
  split_and!; [done|done|done|by eapply decoded_more_trans|].
  intros z [->|Hz]%elem_of_cons.
  - intros dec v Hdec Hv. eapply row_present_grown; [apply M2|by eapply D1].
  - intros dec v Hdec Hv. eapply D2; [done|done|]. by rewrite (decoded_rows_more _ _ _ _ _ _ M1).
Qed.
End succeed.

Lemma reclaimed_all now w :
  calm w -> (forall r t, r ∈ queue_of w -> wq_locked_at r = Some t -> t + 60 < now) ->
  let w0 := spawn_reclaim_ticker [now] w in
  calm w0 /\ w_db w0 = set_queue (queue_of w0) (w_db w)
  /\ queue_of w0 = (fun r => if expired now 60 r then unlock_row r else r) <$> queue_of w
  /\ Forall (fun r => locked r = false) (queue_of w0).
Proof.
  intros Hc Hold w0. assert (w0 = upd_db (set_queue (reclaim_rows now 60 (queue_of w))) (set_now now w)) as ->.
  { unfold w0, spawn_reclaim_ticker, reclaim, reclaim_expired. cbn [fold_left].
    by rewrite (proj2 (mmap_err_Ok _ _ _ _ _) (sql_calm _ (set_now now w) _ _ Hc eq_refl)). }
  split_and!; [done|done|done|]. apply Forall_forall. intros x (r & -> & Hr)%list_elem_of_fmap.
  unfold expired. destruct (wq_locked_at r) as [t|] eqn:E; [|unfold locked; by rewrite E].
  rewrite (proj2 (Z.ltb_lt t (now - 60))); [done|]. specialize (Hold r t Hr E). lia.
Qed.

(** After a reclaim that frees every lease, a worker empties the queue in as many turns as it has rows. *)
Lemma reclaimed_emptied mo so (Hmo : forall l, mo l ≡ₚ l) (Hso : forall l, so l ≡ₚ l) decoders poll_ms poll_idle_ms now w :
  calm w -> NoDup (wq_id <$> queue_of w) ->
  (forall r t, r ∈ queue_of w -> wq_locked_at r = Some t -> t + 60 < now) ->
  (forall r, r ∈ queue_of w -> item_decodable decoders (w_db w) (lease_item r)) ->
  let w0 := spawn_reclaim_ticker [now] w in
  let n := length (queue_of w) in
  calm w0 /\ length (queue_of w0) = n
  /\ exists w', spawn_decode_worker mo so decoders poll_ms poll_idle_ms (replicate n false) w0 = (replicate n poll_ms, w')
    /\ calm w' /\ queue_of w' = []
    /\ forall r, r ∈ queue_of w -> item_decoded decoders (w_db w) (w_db w') (lease_item r).
Proof.
  intros Hc Hnd Hold Hi w0 n.
  destruct (reclaimed_all now w Hc Hold) as (C0 & D0 & Q0 & U0). fold w0 in C0, D0, Q0, U0.
  assert (decoded_more (w_db w) (w_db w0)) as M0 by (rewrite D0; apply set_queue_more).
  assert (length (queue_of w0) = n) as Hn by (by rewrite Q0, length_fmap).
  assert (forall r, lease_item (if expired now 60 r then unlock_row r else r) = lease_item r) as Hli
    by (intros r; by destruct (expired now 60 r)).
  destruct (worker_empties mo so Hmo Hso decoders poll_ms poll_idle_ms (queue_of w0) w0)
    as (w' & E & C & Q & _ & Hd); [done|done|done| | |].
  - rewrite Q0, <- list_fmap_compose. erewrite list_fmap_ext; [exact Hnd|].
    intros i r _. cbn. by destruct (expired now 60 r).
  - rewrite Q0. intros x (r & -> & Hr)%list_elem_of_fmap. rewrite Hli.
    eapply item_decodable_more; [done|]. auto.
  - rewrite Hn in E. split_and!; [done|done|]. exists w'. split_and!; [done|done|done|].
    intros r Hr dec x Hdec Hx. rewrite <- (decoded_rows_more _ _ _ _ _ _ M0) in Hx.
    apply (Hd (if expired now 60 r then unlock_row r else r)) with dec; rewrite ?Hli; [|done|done].
    rewrite Q0. apply list_elem_of_fmap. eauto.
Qed.


(** One item leased by a worker that died, one never leased, of a chain without a decoder. *)
Definition stale_db : Db :=
  set_queue [lock_row 0 (fresh_row 1 (sample_item 5)); fresh_row 2 (mkWorkItem 9 1 2 Tip 0)] decode_db.
Definition evt_table : Table := mkTable PkEvent (typed_meta ++ [("idx", "bigint"); ("value", "numeric(78,0)")]) false ∅.

Lemma stale_decodable r :
  r ∈ db_queue stale_db -> item_decodable (<[1 := sample_decoder]> ∅) stale_db (lease_item r).
Proof.
  intros [->|[->|[]%not_elem_of_nil]%elem_of_cons]%elem_of_cons dec Hdec; [|by vm_compute in Hdec].
  vm_compute in Hdec. injection Hdec as <-. split.
  - intros r _. cbn. eauto.
  - intros _. eexists. split; [by vm_compute|]. intros r Hr. vm_compute in Hr. by apply not_elem_of_nil in Hr.
  - assert (Forall (fun x => row_table x = "evt"
      /\ is_Some (typed_kv (t_pk evt_table) (table_has_idx "evt") x)
      /\ NoDup (insert_cols (table_has_idx "evt") (sig_of x))
      /\ Forall (fun c => c ∈ (t_cols evt_table).*1) (insert_cols (table_has_idx "evt") (sig_of x))
      /\ Forall (fun c => is_valid_ident c = true) (sig_of x)
      /\ row_accepted (t_cols evt_table) x = true) (decoded_rows sample_decoder 1 5 14 stale_db)) as Hall
      by (apply (bool_decide_unpack _); by vm_compute).
    intros x Hx. rewrite Forall_forall in Hall. destruct (Hall x Hx) as [Ht Hs]. rewrite Ht.
    split; [by vm_compute|]. split; [done|]. by exists evt_table.
Qed.


(** A backfill takes no notice of where the chain's cursor stands: one above it moves the cursor over
    blocks 101 to 500, which were never fetched, and one below it moves the cursor back. *)
Theorem backfill_overwrites_cursor :
  let go from to := backfill (fun l => l) (fun l => l) ∅ 50 1000 1 from [(false, Ok (mkFetchedRange from to [] AuxData_default None))] 1
                      [mkPoll false [] false]
                      (calm_world (set_cursors (<[1 := (100, [byte_of 7])]> ∅) decode_db)) in
  db_cursors (w_db (go 501 510).2) !! 1 = Some (510, []) /\ db_cursors (w_db (go 1 10).2) !! 1 = Some (10, []).
Proof. by vm_compute. Qed.
