(* ===== verification/System.v ===== *)
(** The running indexer ([bins/indexer-cli/src/commands.rs], [run]; [worker.rs], [spawn_worker_pool]): the
    ingest tasks of the chains, the decode workers and the reclaim ticker as one system over a shared
    database.  A worker's turn ([run_once]) and a writer's message ([consume_one]) are cut at their round
    trips, and the system interleaves the pieces in any order. *)
From S2P Require Import Prelude Model Btree Text Encode Store Repos Queue UnitOfWork Services ServicesFacts Ranges Plan Pipeline Worker.

(** * A worker's turn, one round trip at a time *)

Inductive WState : Type :=
| WIdle
| WLeased (l : Lease)
| WRaw (l : Lease) (dec : Decoder) (raw : list RawRecord)
| WTimes (l : Lease) (dec : Decoder) (raw : list RawRecord) (times : list (Z * Z))
| WWrite (l : Lease) (written : Z) (groups : list (string * list EventRow))
| WDone (l : Lease) (written : Z).

Section system.
Context (map_order : list (string * list EventRow) -> list (string * list EventRow)).
Context (set_order : list bytes -> list bytes).
Context (decoders : gmap Z Decoder).

(** The next piece of the turn: the state after it, or the turn's result. *)
Definition worker_step (s : WState) : M World DomainError (WState + option Z) :=
  match s with
  | WIdle =>
      do l <- pull_any;
      mret_ (match l with None => inr None | Some lease => inl (WLeased lease) end)
  | WLeased l =>
      match decoders !! wi_chain_id (l_item l) with
      | None => mret_ (inl (WDone l 0))
      | Some dec =>
          do raw <- raw_range (wi_chain_id (l_item l)) (wi_from (l_item l)) (wi_to (l_item l));
          mret_ (inl (WRaw l dec raw))
      end
  | WRaw l dec raw =>
      do times <- block_times (wi_chain_id (l_item l)) (wi_from (l_item l)) (wi_to (l_item l));
      mret_ (inl (WTimes l dec raw times))
  | WTimes l dec raw times =>
      do rows <- mlift (decode_all (dec_decode dec) raw);
      do calls <- (if dec_has_calls dec then
                     do txs <- block_calldata (wi_chain_id (l_item l)) (set_order (remove_dups (rr_tx_id <$> raw)));
                     mlift (decode_all (dec_decode_call dec) txs)
                   else mret_ []);
      mret_ (inl (WWrite l 0 (map_order (btree_group str_cmp row_table (stamp times <$> rows ++ calls)))))
  | WWrite l n [] => mret_ (inl (WDone l n))
  | WWrite l n ((t, g) :: gs) =>
      do k <- event_upsert_batch t g;
      mret_ (inl (WWrite l (n + k) gs))
  | WDone l n =>
      do _ <- ack (l_id l) (l_lease_seq l);
      mret_ (inr (Some n))
  end.

(** The pieces one after the other; [None] when the fuel runs out. *)
Fixpoint worker_turn (fuel : nat) (s : WState) : M World DomainError (option (option Z)) :=
  match fuel with
  | O => mret_ None
  | S fuel =>
      do r <- worker_step s;
      match r with
      | inl s' => worker_turn fuel s'
      | inr res => mret_ (Some res)
      end
  end.

(** * A writer's message, one transaction at a time *)

(** The writer of a chain: waiting for a message, or about to move the cursor to a checkpoint. *)
Inductive Writer : Type :=
| WrReady (prefix : PrefixTracker) (records : Z)
| WrMove (prefix : PrefixTracker) (records : Z) (checkpoint : option (Z * bytes)).

Definition writer_commit (chain : Z) (prefix : PrefixTracker) (records : Z) (f : FetchedRange) : M World DomainError Writer :=
  do out <- commit_range chain f 0;
  let '(prefix, checkpoint) := tracker_record prefix (fr_from f) (fr_to f) (fr_last_block f) in
  mret_ (WrMove prefix (records + io_records out) checkpoint).

Definition writer_move (chain : Z) (prefix : PrefixTracker) (records : Z) (checkpoint : option (Z * bytes)) :
    M World DomainError Writer :=
  do _ <- match checkpoint with
          | Some (height, hash) => cursor_advance chain height hash
          | None => mret_ tt
          end;
  mret_ (WrReady prefix records).

(** * The system *)

Record Sys := mkSys { sy_world : World; sy_workers : gmap nat WState; sy_chains : gmap Z Writer }.

Definition set_worker (k : nat) (ws : WState) (w : World) (s : Sys) : Sys :=
  mkSys w (<[k := ws]> (sy_workers s)) (sy_chains s).
Definition set_chain (c : Z) (o : option Writer) (w : World) (s : Sys) : Sys :=
  mkSys w (sy_workers s) (partial_alter (fun _ => o) c (sy_chains s)).
Definition set_world (w : World) (s : Sys) : Sys := mkSys w (sy_workers s) (sy_chains s).

(** [spawn_worker_pool]: idle workers; the ticker has no state. *)
Definition spawn_worker_pool (workers : nat) : gmap nat WState :=
  list_to_map ((fun k => (k, WIdle)) <$> seq 0 workers).

(** What [run] has launched when it starts to wait: the pool and, per chain, a supervised task that has
    not begun an attempt. *)
Definition launched (workers : nat) (w : World) : Sys := mkSys w (spawn_worker_pool workers) ∅.

(** What a worker does with the outcome of a piece: an error ends the turn. *)
Definition after_step (r : result DomainError (WState + option Z)) : WState :=
  match r with Ok (inl s) => s | Ok (inr _) | Err _ => WIdle end.

Definition after_write (r : result DomainError Writer) : option Writer :=
  match r with Ok wr => Some wr | Err _ => None end.

(** The start of an attempt: where it resumes. *)
Definition resume_at (start_block : Z) (cursor : option (Z * bytes)) : Z :=
  match cursor with Some (last, _) => u64_add last 1 | None => Z.max start_block 1 end.

(** The next window of the same attempt starts after what this one reached, or where this one did. *)
Definition next_window (prefix : PrefixTracker) : Z :=
  match advanced_to prefix with Some a => u64_add a 1 | None => frontier prefix end.

Section steps.
(** The start block of each chain, and which fetched ranges its source can deliver. *)
Context (start : Z -> Z) (delivers : Z -> FetchedRange -> Prop).

Inductive sys_step : Sys -> Sys -> Prop :=
(** Time passes, and the faults to come are any. *)
| SEnv s now faults : w_now (sy_world s) <= now ->
    sys_step s (set_world (mkWorld (w_db (sy_world s)) (w_seq (sy_world s)) now faults) s)
(** A worker does the next piece of its turn, or is killed and starts over. *)
| SWorker s k ws r w' : sy_workers s !! k = Some ws -> worker_step ws (sy_world s) = (r, w') ->
    sys_step s (set_worker k (after_step r) w' s)
| SCrash s k : sys_step s (set_worker k WIdle (sy_world s) s)
(** Two pulls overlap: the second one leases a row the first one's lease should have excluded. *)
| SPullRace s k i row : sy_workers s !! k = Some WIdle ->
    queue_of (sy_world s) !! i = Some row -> locked row = false ->
    let row' := lock_row (w_now (sy_world s)) row in
    sys_step s (set_worker k (WLeased (lease_of row'))
      (upd_db (set_queue (<[i := row']> (queue_of (sy_world s)))) (sy_world s)) s)
(** The reclaim ticker. *)
| SReclaim s secs r w' : reclaim secs (sy_world s) = (r, w') -> sys_step s (set_world w' s)
(** An attempt of a chain's ingest begins: it reads the cursor. *)
| SStart s c o w' : is_u64 c -> cursor_get c (sy_world s) = (Ok o, w') ->
    sys_step s (set_chain c (Some (WrReady (tracker_new (resume_at (start c) o)) 0)) w' s)
(** A fetched range arrives: its commit, and then the move of the cursor; an error ends the attempt. *)
| SCommit s c prefix n f r w' : sy_chains s !! c = Some (WrReady prefix n) -> delivers c f ->
    writer_commit c prefix n f (sy_world s) = (r, w') -> sys_step s (set_chain c (after_write r) w' s)
| SMove s c prefix n cp r w' : sy_chains s !! c = Some (WrMove prefix n cp) ->
    writer_move c prefix n cp (sy_world s) = (r, w') -> sys_step s (set_chain c (after_write r) w' s)
(** The next window. *)
| SWindow s c prefix n : sy_chains s !! c = Some (WrReady prefix n) ->
    sys_step s (set_chain c (Some (WrReady (tracker_new (next_window prefix)) 0)) (sy_world s) s)
(** The attempt is cancelled or fails outside the store. *)
| SStop s c : sys_step s (set_chain c None (sy_world s) s).

Inductive sys_reach (s : Sys) : Sys -> Prop :=
| SRefl : sys_reach s s
| SStep s1 s2 : sys_reach s s1 -> sys_step s1 s2 -> sys_reach s s2.

Lemma sys_reach_trans s1 s2 s3 : sys_reach s1 s2 -> sys_reach s2 s3 -> sys_reach s1 s3.
Proof. intros H1 H2. induction H2; [done|]. by eapply SStep. Qed.

Lemma sys_reach_one s1 s2 : sys_step s1 s2 -> sys_reach s1 s2.
Proof. intros H. eapply SStep; [apply SRefl|done]. Qed.
End steps.
End system.
