(* ===== verification/SystemSteps.v ===== *)
(** The pieces of [System] are the code: a worker's pieces run without interruption are [run_once], and
    what the sequential code does to the database is a run of the system. *)
From S2P Require Import Prelude Model Btree Text Encode Store Repos Queue UnitOfWork Services ServicesFacts Ranges Plan Pipeline Worker System.

Section turn.
Context (mo : list (string * list EventRow) -> list (string * list EventRow)) (so : list bytes -> list bytes).
Context (decoders : gmap Z Decoder).
Abbreviation wstep := (worker_step mo so decoders).
Abbreviation wturn := (worker_turn mo so decoders).

Lemma mbind_assoc {S E A B C} (m : M S E A) (k : A -> M S E B) (h : B -> M S E C) s :
  mbind_ (mbind_ m k) h s = mbind_ m (fun a => mbind_ (k a) h) s.
Proof. unfold mbind_. by destruct (m s) as [[a|e] s1]. Qed.

Lemma mbind_ext {S E A B} (m : M S E A) (k h : A -> M S E B) s :
  (forall a s1, k a s1 = h a s1) -> mbind_ m k s = mbind_ m h s.
Proof. intros H. unfold mbind_. destruct (m s) as [[a|e] s1]; [by apply H|done]. Qed.

(** What is left of [run_once] at each point of the turn. *)
Definition finish (l : Lease) (m : M World DomainError Z) : M World DomainError (option Z) :=
  do written <- m; do _ <- ack (l_id l) (l_lease_seq l); mret_ (Some written).

Definition upserts (written : Z) (kv : string * list EventRow) : M World DomainError Z :=
  do k <- event_upsert_batch kv.1 kv.2; mret_ (written + k).

Definition decode_read (l : Lease) (dec : Decoder) (raw : list RawRecord) (times : list (Z * Z)) : M World DomainError Z :=
  do rows <- mlift (decode_all (dec_decode dec) raw);
  do calls <- (if dec_has_calls dec then
                 do txs <- block_calldata (wi_chain_id (l_item l)) (so (remove_dups (rr_tx_id <$> raw)));
                 mlift (decode_all (dec_decode_call dec) txs)
               else mret_ []);
  write_rows mo (stamp times <$> rows ++ calls).

Definition rest (s : WState) : M World DomainError (option Z) :=
  match s with
  | WIdle => run_once mo so decoders
  | WLeased l => finish l match decoders !! wi_chain_id (l_item l) with
                          | Some dec => decode_range mo so dec (wi_chain_id (l_item l)) (wi_from (l_item l)) (wi_to (l_item l))
                          | None => mret_ 0
                          end
  | WRaw l dec raw => finish l (do times <- block_times (wi_chain_id (l_item l)) (wi_from (l_item l)) (wi_to (l_item l));
                                decode_read l dec raw times)
  | WTimes l dec raw times => finish l (decode_read l dec raw times)
  | WWrite l n gs => finish l (mfold upserts n gs)
  | WDone l n => finish l (mret_ n)
  end.

(** A piece and what is left after it is what was left before it. *)
Lemma rest_step s w :
  rest s w = mbind_ (wstep s) (fun r => match r with inl s' => rest s' | inr res => mret_ res end) w.
Proof.
  destruct s as [|l|l dec raw|l dec raw times|l n [|[t g] gs]|l n]; cbn [rest worker_step].
  - unfold run_once. rewrite mbind_assoc. apply mbind_ext. by intros [l|] w1.
  - destruct (decoders !! _) as [dec|]; [|done]. unfold finish, decode_range, decode_rows.
    rewrite !mbind_assoc. apply mbind_ext. intros raw w1. cbn [rest]. unfold mret_ at 2. unfold mbind_ at 5. cbn.
    unfold finish. rewrite !mbind_assoc. apply mbind_ext. intros times w2. unfold decode_read.
    rewrite !mbind_assoc. apply mbind_ext. intros rows w3. rewrite !mbind_assoc. apply mbind_ext. by intros calls w4.
  - unfold finish. rewrite !mbind_assoc. apply mbind_ext. by intros times w1.
  - unfold finish, decode_read. rewrite !mbind_assoc. apply mbind_ext. intros rows w1.
    rewrite !mbind_assoc. apply mbind_ext. by intros calls w2.
  - done.
  - unfold finish. cbn [mfold]. unfold upserts at 1. cbn [fst snd]. rewrite !mbind_assoc. apply mbind_ext. by intros k w1.
  - unfold finish. rewrite !mbind_assoc. unfold mbind_, mret_. by destruct (ack _ _ w) as [[a|e] w1].
Qed.

(** With enough fuel, the pieces from [s] on do what is left of [run_once]. *)
Definition completes (s : WState) (w : World) : Prop :=
  exists n, forall fuel, (n <= fuel)%nat -> wturn fuel s w = mbind_ (rest s) (fun r => mret_ (Some r)) w.

Lemma completes_step s w :
  (forall s' w', wstep s w = (Ok (inl s'), w') -> completes s' w') -> completes s w.
Proof.
  intros H. destruct (wstep s w) as [[[s'|res]|e] w'] eqn:Es.
  - destruct (H s' w' eq_refl) as [n Hn]. exists (S n). intros [|fuel] Hf; [lia|]. cbn [worker_turn].
    unfold mbind_. rewrite Es, Hn, (rest_step s w) by lia. unfold mbind_. by rewrite Es.
  - exists 1%nat. intros [|fuel] Hf; [lia|]. cbn [worker_turn].
    unfold mbind_. rewrite Es, (rest_step s w). unfold mbind_. by rewrite Es.
  - exists 1%nat. intros [|fuel] Hf; [lia|]. cbn [worker_turn].
    unfold mbind_. rewrite Es, (rest_step s w). unfold mbind_. by rewrite Es.
Qed.

Lemma turn_completes s w : completes s w.
Proof.
  assert (forall l n w, completes (WDone l n) w) as HD.
  { intros l n v. apply completes_step. intros s' v' H. cbn [worker_step] in H.
    apply mbind_Ok in H as (? & ? & _ & H). by apply mret_Ok in H as [? _]. }
  assert (forall l gs n w, completes (WWrite l n gs) w) as HW.
  { intros l gs. induction gs as [|[t g] gs IH]; intros n v; apply completes_step; intros s' v' H; cbn [worker_step] in H.
    - apply mret_Ok in H as [[= ->] _]. apply HD.
    - apply mbind_Ok in H as (k & v1 & _ & H). apply mret_Ok in H as [[= ->] _]. apply IH. }
  assert (forall l dec raw times w, completes (WTimes l dec raw times) w) as HT.
  { intros l dec raw times v. apply completes_step. intros s' v' H. cbn [worker_step] in H.
    apply mbind_Ok in H as (? & ? & _ & H). apply mbind_Ok in H as (? & ? & _ & H).
    apply mret_Ok in H as [[= ->] _]. apply HW. }
  assert (forall l dec raw w, completes (WRaw l dec raw) w) as HR.
  { intros l dec raw v. apply completes_step. intros s' v' H. cbn [worker_step] in H.
    apply mbind_Ok in H as (? & ? & _ & H). apply mret_Ok in H as [[= ->] _]. apply HT. }
  assert (forall l w, completes (WLeased l) w) as HL.
  { intros l v. apply completes_step. intros s' v' H. cbn [worker_step] in H. destruct (decoders !! _).
    - apply mbind_Ok in H as (? & ? & _ & H). apply mret_Ok in H as [[= ->] _]. apply HR.
    - apply mret_Ok in H as [[= ->] _]. apply HD. }
  destruct s; auto. apply completes_step. intros s' v' H. cbn [worker_step] in H.
  apply mbind_Ok in H as ([l|] & ? & _ & H); apply mret_Ok in H as [H _]; [|done]. injection H as ->. apply HL.
Qed.
End turn.

(** C21: cutting a worker's turn into its round trips changes nothing: from every state of the store and
    for every fault, the pieces run one after the other, ending after finitely many, have the result
    and the effect of [run_once]. *)
Theorem worker_pieces_are_run_once (mo : list (string * list EventRow) -> list (string * list EventRow))
    (so : list bytes -> list bytes) (decoders : gmap Z Decoder) (w : World) :
  exists n, forall fuel, (n <= fuel)%nat ->
    worker_turn mo so decoders fuel WIdle w
    = (let '(r, w') := run_once mo so decoders w in
       (match r with Ok res => Ok (Some res) | Err e => Err e end, w')).
Proof.
  destruct (turn_completes mo so decoders WIdle w) as [n Hn]. exists n. intros fuel Hf. rewrite Hn by done.
  cbn [rest]. unfold mbind_. by destruct (run_once mo so decoders w) as [[r|e] w'].
Qed.

(** * The sequential code is a run of the system *)

Section runs.
Context (mo : list (string * list EventRow) -> list (string * list EventRow)) (so : list bytes -> list bytes).
Context (decoders : gmap Z Decoder) (start : Z -> Z) (delivers : Z -> FetchedRange -> Prop).
Abbreviation reach := (sys_reach mo so decoders start delivers).

Lemma set_worker_twice k a b w w' s : set_worker k a w (set_worker k b w' s) = set_worker k a w s.
Proof. unfold set_worker. cbn. by rewrite insert_insert_eq. Qed.

Lemma set_chain_twice c a b w w' s : set_chain c a w (set_chain c b w' s) = set_chain c a w s.
Proof. unfold set_chain. cbn. by rewrite partial_alter_partial_alter_eq. Qed.

Lemma set_chain_at c o w s : sy_chains (set_chain c o w s) !! c = o.
Proof. unfold set_chain. cbn. rewrite lookup_partial_alter. by rewrite decide_True by done. Qed.

Lemma turn_reach k fuel ws s r w' :
  sy_workers s !! k = Some ws -> worker_turn mo so decoders fuel ws (sy_world s) = (r, w') -> r <> Ok None ->
  reach s (set_worker k WIdle w' s).
Proof.
  revert ws s. induction fuel as [|fuel IH]; intros ws s Hk H Hr; cbn [worker_turn] in H.
  { unfold mret_ in H. congruence. }
  unfold mbind_ in H. destruct (worker_step mo so decoders ws (sy_world s)) as [[[s'|res]|e] w1] eqn:Es.
  - eapply sys_reach_trans; [apply sys_reach_one, (SWorker _ _ _ _ _ _ _ _ _ _ Hk Es)|].
    rewrite <- (set_worker_twice k WIdle s' w' w1 s). eapply IH; [apply lookup_insert_eq|exact H|done].
  - injection H as <- <-. apply sys_reach_one, (SWorker _ _ _ _ _ _ _ _ _ _ Hk Es).
  - injection H as <- <-. apply sys_reach_one, (SWorker _ _ _ _ _ _ _ _ _ _ Hk Es).
Qed.

Lemma run_once_reach k s r w' :
  sy_workers s !! k = Some WIdle -> run_once mo so decoders (sy_world s) = (r, w') ->
  reach s (set_worker k WIdle w' s).
Proof.
  intros Hk H. destruct (turn_completes mo so decoders WIdle (sy_world s)) as [n Hn].
  apply (turn_reach k n WIdle s (match r with Ok res => Ok (Some res) | Err e => Err e end)); [done| |by destruct r].
  rewrite Hn by done. cbn [rest]. unfold mbind_. rewrite H. by destruct r.
Qed.

Lemma consume_reach c prefix n f s r w' :
  sy_chains s !! c = Some (WrReady prefix n) -> delivers c f -> consume_one c (prefix, n) f (sy_world s) = (r, w') ->
  reach s (set_chain c (match r with Ok (p, k) => Some (WrReady p k) | Err _ => None end) w' s).
Proof.
  intros Hc Hf H. unfold consume_one, mbind_ in H.
  destruct (writer_commit c prefix n f (sy_world s)) as [rc w1] eqn:Ec.
  eapply sys_reach_trans; [apply sys_reach_one, (SCommit _ _ _ _ _ _ _ _ _ _ _ _ Hc Hf Ec)|].
  unfold writer_commit, mbind_ in Ec. destruct (commit_range c f 0 (sy_world s)) as [[out|e] w2].
  2:{ injection H as <- <-. injection Ec as <- <-. apply SRefl. }
  destruct (tracker_record prefix (fr_from f) (fr_to f) (fr_last_block f)) as [p cp] eqn:Et.
  injection Ec as <- <-. cbn [after_write].
  set (s1 := set_chain c (Some (WrMove p (n + io_records out) cp)) w2 s).
  assert (sy_chains s1 !! c = Some (WrMove p (n + io_records out) cp)) as Hs1 by apply set_chain_at.
  destruct (writer_move c p (n + io_records out) cp (sy_world s1)) as [rm w3] eqn:Em.
  rewrite <- (set_chain_twice c _ (Some (WrMove p (n + io_records out) cp)) w' w2 s). fold s1.
  unfold writer_move, mbind_ in Em. cbn [sy_world s1 set_chain] in Em.
  assert (match r with Ok (p, k) => Some (WrReady p k) | Err _ => None end = after_write rm /\ w' = w3) as [-> ->].
  { destruct cp as [[h hash]|].
    - destruct (cursor_advance c h hash w2) as [[[]|e] w4]; injection H as <- <-; by injection Em as <- <-.
    - injection H as <- <-. by injection Em as <- <-. }
  eapply sys_reach_one, (SMove _ _ _ _ _ s1 c p _ cp rm w3 Hs1). done.
Qed.

Lemma consumer_reach c msgs prefix n s r w' :
  sy_chains s !! c = Some (WrReady prefix n) -> (forall f, f ∈ msgs -> delivers c f) ->
  mfold (consume_one c) (prefix, n) msgs (sy_world s) = (r, w') ->
  reach s (set_chain c (match r with Ok (p, k) => Some (WrReady p k) | Err _ => None end) w' s).
Proof.
  revert prefix n s. induction msgs as [|f msgs IH]; intros prefix n s Hc Hall H; cbn [mfold] in H.
  { injection H as <- <-. replace (set_chain _ _ _ s) with s; [apply SRefl|].
    destruct s as [w ws cs]. unfold set_chain. cbn in *. f_equal. symmetry. by apply partial_alter_id. }
  unfold mbind_ in H. destruct (consume_one c (prefix, n) f (sy_world s)) as [[[p k]|e] w1] eqn:E1.
  - apply consume_reach in E1 as R1; [|done|apply Hall; left]. eapply sys_reach_trans; [exact R1|].
    rewrite <- (set_chain_twice c _ (Some (WrReady p k)) w' w1 s).
    apply (IH p k); [apply set_chain_at|intros; apply Hall; by right|exact H].
  - injection H as <- <-. apply consume_reach in E1; [done|done|apply Hall; left].
Qed.
End runs.
