(* ===== verification/SystemFacts.v ===== *)
(** The end-to-end guarantee of the running indexer: whatever the interleaving of the chains' writers, the
    decode workers and the reclaim ticker, and whatever fails, every record of the chain up to the
    cursor is stored, and it is decoded into its table or its range is still queued. *)
From S2P Require Import Prelude Model Btree Text Encode Store Repos Queue UnitOfWork Services ServicesFacts Ranges Plan Pipeline Ingest IngestFacts Worker System SystemSteps.

(** * The setting: chains without reorgs and decoders that keep a record's position *)

Definition timed (bt : option Z) (row : EventRow) : EventRow :=
  mkEventRow (er_chain_id row) (er_height row) (er_block_hash row) bt (er_tx_id row) (er_index row) (er_event row).

(** [recs c b]: the matched records of block [b] of chain [c]; [ev_tables]: the tables of decoded events. *)
Class Deployment (decoders : gmap Z Decoder) (start : Z -> Z) (recs : Z -> Z -> list RawRecord)
    (ev_tables : list string) : Prop := {
  dp_start : forall c, start c < 2 ^ 62;
  dp_rec : forall c b r, r ∈ recs c b -> wf_raw r /\ rr_chain_id r = c /\ rr_height r = b;
  dp_idx : forall c b r1 r2, r1 ∈ recs c b -> r2 ∈ recs c b -> rr_index r1 = rr_index r2 -> r1 = r2;
  dp_event : forall c dec b r row, decoders !! c = Some dec -> r ∈ recs c b -> dec_decode dec r = Ok (Some row) ->
    row_table row ∈ ev_tables /\ er_chain_id row = c /\ er_height row = b /\ er_index row = rr_index r;
  dp_call : forall c dec tx row, decoders !! c = Some dec -> dec_decode_call dec tx = Ok (Some row) ->
    row_table row ∉ ev_tables;
  dp_tables : forall t, t ∈ ev_tables -> table_has_idx t = true
}.

(** The decoders of the pool at work, among those of the deployment whose events the tables hold: all of them in
    a run of the indexer, that of one chain in a backfill. *)
Class Serves (decoders : gmap Z Decoder) := mkServes { served : gmap Z Decoder; served_all : decoders ⊆ served }.
Arguments served decoders {_}.
Arguments served_all decoders {_}.
#[export] Instance serves_self decoders : Serves decoders | 100 := mkServes decoders decoders (reflexivity decoders).

Lemma deployment_sub decoders decoders' start recs ev_tables :
  decoders' ⊆ decoders -> Deployment decoders start recs ev_tables -> Deployment decoders' start recs ev_tables.
Proof.
  intros Hs [A B C D E F]. split; [done|done|done| | |done].
  - intros c dec b r row Hd. apply D. by eapply lookup_weaken.
  - intros c dec tx row Hd. apply (E c). by eapply lookup_weaken.
Qed.

Section facts.
Context (mo : list (string * list EventRow) -> list (string * list EventRow)) (so : list bytes -> list bytes).
Context (Hmo : forall l, mo l ≡ₚ l).
Context (decoders : gmap Z Decoder) (start : Z -> Z) (recs : Z -> Z -> list RawRecord) (ev_tables : list string).
Context {Hserves : Serves decoders} {Hdep : Deployment (served decoders) start recs ev_tables}.

#[local] Instance own_deployment : Deployment decoders start recs ev_tables := deployment_sub _ _ _ _ _ (served_all decoders) Hdep.

(** A range as the source of the chain delivers it: the records of its blocks, and aux rows that are
    not events. *)
Definition fetched (c : Z) (f : FetchedRange) : Prop :=
  0 <= fr_from f <= fr_to f /\ fr_to f < 2 ^ 62 /\ fr_records f = recs_in (recs c) (fr_from f) (fr_to f)
  /\ forall r, r ∈ enrichment (fr_aux f) -> row_table r ∉ ev_tables.

Definition event_key (c b i : Z) : Key := inl (as_i64 c, as_i64 b, as_i64 i).

(** The event of the record, if it has one, is in its table, as it was decoded. *)
Definition decoded_in (d : Db) (c b : Z) (r : RawRecord) : Prop :=
  forall dec row, decoders !! c = Some dec -> dec_decode dec r = Ok (Some row) ->
    exists tab bt, db_tables d !! row_table row = Some tab
      /\ t_rows tab !! event_key c b (rr_index r) = Some (typed_row true (timed bt row)).

Definition complete (d : Db) (c from to : Z) : Prop :=
  forall b r, from <= b <= to -> r ∈ recs c b -> is_Some (db_raw d !! raw_key r).

Definition item_ok (d : Db) (i : WorkItem) : Prop :=
  is_u64 (wi_chain_id i) /\ 0 <= wi_from i <= wi_to i /\ wi_to i < 2 ^ 62
  /\ complete d (wi_chain_id i) (wi_from i) (wi_to i).

Definition covers (q : QueueRow) (c b : Z) : Prop :=
  wi_chain_id (lease_item q) = c /\ wi_from (lease_item q) <= b <= wi_to (lease_item q).

(** A row that decoding a record gives. *)
Definition event_of (x : EventRow) : Prop :=
  exists c dec b r row bt, served decoders !! c = Some dec /\ r ∈ recs c b /\ dec_decode dec r = Ok (Some row) /\ x = timed bt row.

(** ** The store *)

Record db_inv (w : World) : Prop := mkDbInv {
  di_ids : NoDup (wq_id <$> queue_of w) /\ Forall (fun q => wq_id q < w_seq w) (queue_of w);
  di_raw : forall k v, db_raw (w_db w) !! k = Some v -> exists c b r, r ∈ recs c b /\ (k, v) = raw_kv r;
  di_tables : forall t tab, t ∈ ev_tables -> db_tables (w_db w) !! t = Some tab -> t_pk tab = PkEvent
    /\ forall k v, t_rows tab !! k = Some v -> exists x, event_of x /\ row_table x = t /\ typed_kv PkEvent true x = Some (k, v);
  di_queue : forall q, q ∈ queue_of w -> item_ok (w_db w) (lease_item q);
  di_work : forall c b r, r ∈ recs c b -> is_Some (db_raw (w_db w) !! raw_key r) ->
    decoded_in (w_db w) c b r \/ exists q, q ∈ queue_of w /\ covers q c b;
  di_cursor : forall c cu hash, is_u64 c -> db_cursors (w_db w) !! as_i64 c = Some (cu, hash) ->
    0 <= cu < 2 ^ 62 /\ swept (start c) (recs c) (cu + 1) (w_db w)
}.

(** ** The tasks *)

(** A row with the lease's id is still that item. *)
Definition held (w : World) (l : Lease) : Prop :=
  l_id l < w_seq w /\ forall q, q ∈ queue_of w -> wq_id q = l_id l -> lease_item q = l_item l.

Definition raw_ok (i : WorkItem) (raw : list RawRecord) : Prop :=
  forall r, r ∈ raw <-> exists b, wi_from i <= b <= wi_to i /\ r ∈ recs (wi_chain_id i) b.

Definition group_ok (kv : string * list EventRow) : Prop :=
  forall x, x ∈ kv.2 -> row_table x = kv.1 /\ (kv.1 ∈ ev_tables -> event_of x).

(** Every event of the range is in its table or among the rows still to be written. *)
Definition writing (d : Db) (i : WorkItem) (gs : list (string * list EventRow)) : Prop :=
  forall b r dec row, wi_from i <= b <= wi_to i -> r ∈ recs (wi_chain_id i) b ->
    decoders !! wi_chain_id i = Some dec -> dec_decode dec r = Ok (Some row) ->
    (exists tab bt, db_tables d !! row_table row = Some tab
       /\ t_rows tab !! event_key (wi_chain_id i) b (rr_index r) = Some (typed_row true (timed bt row)))
    \/ exists g bt, (row_table row, g) ∈ gs /\ timed bt row ∈ g.

Definition worker_ok (w : World) (s : WState) : Prop :=
  match s with
  | WIdle => True
  | WLeased l => held w l /\ item_ok (w_db w) (l_item l)
  | WRaw l dec raw | WTimes l dec raw _ =>
      held w l /\ decoders !! wi_chain_id (l_item l) = Some dec /\ raw_ok (l_item l) raw
  | WWrite l _ gs => held w l /\ Forall group_ok gs /\ writing (w_db w) (l_item l) gs
  | WDone l _ => held w l /\ writing (w_db w) (l_item l) []
  end.

(** The blocks below [h] are stored, and [h] is in range. *)
Definition reached (d : Db) (c h : Z) : Prop := 0 <= h < 2 ^ 62 /\ swept (start c) (recs c) (h + 1) d.

Definition tracker_ok (d : Db) (c : Z) (t : PrefixTracker) : Prop :=
  (0 <= frontier t <= 2 ^ 62 /\ swept (start c) (recs c) (frontier t) d)
  /\ (forall from to lb, waiting t !! from = Some (to, lb) -> 0 <= from <= to /\ to < 2 ^ 62 /\ complete d c from to)
  /\ forall a, advanced_to t = Some a -> reached d c a.

Definition writer_ok (w : World) (c : Z) (wr : Writer) : Prop :=
  is_u64 c /\
  match wr with
  | WrReady t _ => tracker_ok (w_db w) c t
  | WrMove t _ cp => tracker_ok (w_db w) c t /\ forall h hash, cp = Some (h, hash) -> reached (w_db w) c h
  end.

Record sys_inv (s : Sys) : Prop := mkSysInv {
  si_db : db_inv (sy_world s);
  si_workers : forall k ws, sy_workers s !! k = Some ws -> worker_ok (sy_world s) ws;
  si_chains : forall c wr, sy_chains s !! c = Some wr -> writer_ok (sy_world s) c wr
}.

(** ** What others may do *)

(** Records and typed rows stay, and ids keep naming the same items. *)
Record evolves (w w' : World) : Prop := mkEvolves {
  ev_seq : w_seq w <= w_seq w';
  ev_raw : forall k, is_Some (db_raw (w_db w) !! k) -> is_Some (db_raw (w_db w') !! k);
  ev_tab : grown (w_db w) (w_db w');
  ev_items : forall q', q' ∈ queue_of w' -> wq_id q' < w_seq w ->
    exists q, q ∈ queue_of w /\ wq_id q = wq_id q' /\ lease_item q = lease_item q'
}.

Lemma evolves_same w w' : same_state w w' -> evolves w w'.
Proof.
  intros (D & S & _). split.
  - lia.
  - by rewrite D.
  - rewrite D. apply grown_refl.
  - unfold queue_of. rewrite D. eauto.
Qed.

Lemma evolves_trans w1 w2 w3 : evolves w1 w2 -> evolves w2 w3 -> evolves w1 w3.
Proof.
  intros A B. pose proof (ev_seq _ _ A). pose proof (ev_seq _ _ B). split.
  - lia.
  - intros k Hk. by apply (ev_raw _ _ B), (ev_raw _ _ A).
  - eapply grown_trans; [apply A|apply B].
  - intros q3 Hq3 Hlt. destruct (ev_items _ _ B q3 Hq3) as (q2 & Hq2 & I2 & L2); [lia|].
    destruct (ev_items _ _ A q2 Hq2) as (q1 & Hq1 & I1 & L1); [lia|]. exists q1. split; [done|]. split; congruence.
Qed.

Lemma swept_evolves w w' c n : evolves w w' -> swept (start c) (recs c) n (w_db w) -> swept (start c) (recs c) n (w_db w').
Proof. intros He Hs b Hb r Hr. eapply ev_raw; [done|]. by apply (Hs b Hb). Qed.

Lemma complete_evolves w w' c from to : evolves w w' -> complete (w_db w) c from to -> complete (w_db w') c from to.
Proof. intros He Hc b r Hb Hr. eapply ev_raw; [done|]. by eapply Hc. Qed.

Lemma item_ok_evolves w w' i : evolves w w' -> item_ok (w_db w) i -> item_ok (w_db w') i.
Proof. intros He (? & ? & ? & ?). unfold item_ok. eauto using complete_evolves. Qed.

Lemma row_kept d d' t tab k v :
  grown d d' -> db_tables d !! t = Some tab -> t_rows tab !! k = Some v ->
  exists tab', db_tables d' !! t = Some tab' /\ t_rows tab' !! k = Some v.
Proof.
  intros Hg Ht Hk. destruct (Hg _ _ Ht) as (rows & Ht' & Hs). eexists. split; [done|]. by eapply lookup_weaken.
Qed.

Lemma decoded_in_evolves w w' c b r : evolves w w' -> decoded_in (w_db w) c b r -> decoded_in (w_db w') c b r.
Proof.
  intros He Hd dec row H1 H2. destruct (Hd dec row H1 H2) as (tab & bt & Ht & Hk).
  destruct (row_kept _ _ _ _ _ _ (ev_tab _ _ He) Ht Hk) as (tab' & ? & ?). eauto.
Qed.

Lemma held_evolves w w' l : evolves w w' -> held w l -> held w' l.
Proof.
  intros He [Hl Hq]. pose proof (ev_seq _ _ He). split; [lia|]. intros q' Hq' Hid.
  destruct (ev_items _ _ He q' Hq') as (q & Hin & Hi & Hit); [lia|]. rewrite <- Hit. apply Hq; [done|congruence].
Qed.

Lemma writing_evolves w w' i gs : evolves w w' -> writing (w_db w) i gs -> writing (w_db w') i gs.
Proof.
  intros He Hw b r dec row Hb Hr Hd Hdec. destruct (Hw b r dec row Hb Hr Hd Hdec) as [(tab & bt & Ht & Hk)|]; [left|by right].
  destruct (row_kept _ _ _ _ _ _ (ev_tab _ _ He) Ht Hk) as (tab' & ? & ?). eauto.
Qed.

Lemma worker_ok_evolves w w' s : evolves w w' -> worker_ok w s -> worker_ok w' s.
Proof.
  intros He. destruct s; cbn; [done|..]; intros H; destruct_and!; split_and?;
    eauto using held_evolves, item_ok_evolves, writing_evolves.
Qed.

Lemma writer_ok_evolves w w' c wr : evolves w w' -> writer_ok w c wr -> writer_ok w' c wr.
Proof.
  intros He [Hc H]. split; [done|].
  assert (forall h, reached (w_db w) c h -> reached (w_db w') c h) as Hr
    by (intros h [? ?]; split; [done|by eapply swept_evolves]).
  assert (forall t, tracker_ok (w_db w) c t -> tracker_ok (w_db w') c t) as Ht.
  { intros t ((? & ?) & Hw & Ha). split; [split; [done|by eapply swept_evolves]|]. split; [|auto].
    intros from to lb Hin. destruct (Hw _ _ _ Hin) as (? & ? & ?). eauto using complete_evolves. }
  destruct wr; [auto|]. destruct H as [? Hcp]. split; [auto|]. intros h hash E. eauto.
Qed.
(** ** Reads and the queue's bookkeeping *)

Lemma db_inv_same w w' : same_state w w' -> db_inv w -> db_inv w'.
Proof. intros (D & S & _) [A B C E F G]. split; unfold queue_of in *; rewrite ?D, ?S; done. Qed.

(** The same rows under other leases. *)
Definition requeued (w w' : World) : Prop :=
  w_seq w' = w_seq w /\ w_db w' = set_queue (queue_of w') (w_db w)
  /\ Forall2 (fun a b => wq_id b = wq_id a /\ lease_item b = lease_item a) (queue_of w) (queue_of w').

Lemma requeued_elem w w' q' : requeued w w' -> q' ∈ queue_of w' ->
  exists q, q ∈ queue_of w /\ wq_id q = wq_id q' /\ lease_item q = lease_item q'.
Proof.
  intros (_ & _ & H2) (i & Hi)%list_elem_of_lookup. destruct (Forall2_lookup_r _ _ _ _ _ H2 Hi) as (q & Hq & ? & ?).
  exists q. split; [by eapply list_elem_of_lookup_2|done].
Qed.

Lemma requeued_back w w' q : requeued w w' -> q ∈ queue_of w -> exists q', q' ∈ queue_of w' /\ lease_item q' = lease_item q.
Proof.
  intros (_ & _ & H2) (i & Hi)%list_elem_of_lookup. destruct (Forall2_lookup_l _ _ _ _ _ H2 Hi) as (q' & Hq & ? & ?).
  exists q'. split; [by eapply list_elem_of_lookup_2|done].
Qed.

Lemma requeued_inv w w' : requeued w w' -> db_inv w -> db_inv w' /\ evolves w w'.
Proof.
  intros Hr Hi. pose proof Hr as (S & D & H2). destruct Hi as [[A1 A2] B C E F G].
  assert (wq_id <$> queue_of w' = wq_id <$> queue_of w) as Hids.
  { symmetry. apply list_eq_Forall2, Forall2_fmap_2. eapply Forall2_impl; [exact H2|]. by intros ? ? [-> _]. }
  split; [split|split].
  - rewrite Hids. split; [done|]. rewrite S. apply Forall_forall. intros q' Hq'.
    destruct (requeued_elem _ _ _ Hr Hq') as (q & Hq & <- & _). rewrite Forall_forall in A2. auto.
  - by rewrite D.
  - by rewrite D.
  - intros q' Hq'. destruct (requeued_elem _ _ _ Hr Hq') as (q & Hq & _ & <-). rewrite D. by apply E.
  - rewrite D. intros c b r H1 H3. destruct (F c b r H1 H3) as [?|(q & Hq & Hc)]; [by left|right].
    destruct (requeued_back _ _ _ Hr Hq) as (q' & Hq' & Hl). exists q'. split; [done|]. unfold covers. by rewrite Hl.
  - by rewrite D.
  - lia.
  - by rewrite D.
  - rewrite D. apply set_queue_more.
  - intros q' Hq' _. by eapply requeued_elem.
Qed.

Lemma locked_requeued w i row now :
  queue_of w !! i = Some row ->
  requeued w (upd_db (set_queue (<[i := lock_row now row]> (queue_of w))) w).
Proof.
  intros Hi. split_and!; [done|done|]. cbn. rewrite <- (list_insert_id (queue_of w) i row Hi) at 1.
  apply Forall2_insert; [|done]. apply Forall2_same_length_lookup_2; [done|]. intros j x y Hx Hy.
  rewrite Hx in Hy. by injection Hy as <-.
Qed.

(** The lease of a row just locked. *)
Lemma lease_ok w i row now :
  db_inv w -> queue_of w !! i = Some row ->
  let w' := upd_db (set_queue (<[i := lock_row now row]> (queue_of w))) w in
  worker_ok w' (WLeased (lease_of (lock_row now row))).
Proof.
  intros Hi Hrow w'. destruct (requeued_inv w w' (locked_requeued w i row now Hrow) Hi) as [Hi' He].
  pose proof (list_elem_of_lookup_2 _ _ _ Hrow) as Hin. split.
  - split; [destruct (di_ids _ Hi) as [_ Hb]; rewrite Forall_forall in Hb; exact (Hb row Hin)|].
    intros q Hq Hid. assert (lock_row now row ∈ queue_of w') as Hl
      by (eapply list_elem_of_lookup_2, list_lookup_insert_eq, lookup_lt_Some, Hrow).
    by rewrite (NoDup_fmap_same wq_id (queue_of w') q (lock_row now row) (proj1 (di_ids _ Hi')) Hq Hl Hid).
  - eapply item_ok_evolves; [done|]. by apply (di_queue _ Hi row).
Qed.

Lemma pull_inv w r w' :
  pull_any w = (r, w') -> db_inv w -> db_inv w' /\ evolves w w'
    /\ forall l, r = Ok (Some l) -> worker_ok w' (WLeased l).
Proof.
  intros (v & Sv & Hw & Hr)%sql_runs Hi. apply (db_inv_same _ _ Sv) in Hi as Hv.
  assert (forall a, match pull_rows (w_now v) (queue_of v) with
      | Some (l, q) => Some (Some l, upd_db (set_queue q) v) | None => Some (None, v) end = Some (a, w') ->
    db_inv w' /\ evolves w w' /\ forall l, a = Some l -> worker_ok w' (WLeased l)) as Hrun.
  { intros a. unfold pull_rows. destruct (list_find _ (queue_of v)) as [[i row]|] eqn:Ef.
    - intros [= <- <-]. apply list_find_Some in Ef as (Hrow & _).
      destruct (requeued_inv _ _ (locked_requeued v i row (w_now v) Hrow) Hv) as [Hi' He]. split_and!; [done| |].
      + by eapply evolves_trans; [apply evolves_same|].
      + intros l [= <-]. by apply lease_ok.
    - intros [= <- <-]. split_and!; [done|by apply evolves_same|done]. }
  destruct r as [a|e].
  - specialize (Hr a eq_refl). destruct (Hrun a Hr) as (? & ? & Hl). split_and!; [done|done|]. intros l [= ->]. auto.
  - destruct Hw as [Hs|[a Ha]]; [split_and!; [by eapply db_inv_same|by apply evolves_same|done]|].
    destruct (Hrun a Ha) as (? & ? & _). done.
Qed.
Lemma reclaim_inv secs w r w' : reclaim secs w = (r, w') -> db_inv w -> db_inv w' /\ evolves w w'.
Proof.
  intros (v & Sv & Hw & Hr)%sql_runs Hi. apply (db_inv_same _ _ Sv) in Hi as Hv.
  assert (forall a, Some (Z.of_nat (length (filter (fun r => expired (w_now v) secs r) (queue_of v))),
      upd_db (set_queue (reclaim_rows (w_now v) secs (queue_of v))) v) = Some (a, w') -> db_inv w' /\ evolves w w') as Hrun.
  { intros a [= <- <-]. destruct (requeued_inv v (upd_db (set_queue (reclaim_rows (w_now v) secs (queue_of v))) v)) as [? ?];
      [|done|split; [done|by eapply evolves_trans; [apply evolves_same|]]].
    split_and!; [done|done|]. cbn. unfold reclaim_rows. apply Forall2_fmap_r, Forall_Forall2_diag, Forall_true.
    intros x. cbn. destruct (expired (w_now v) secs x); done. }
  destruct Hw as [Hs|[a Ha]]; [split; [by eapply db_inv_same|by apply evolves_same]|]. by apply (Hrun a).
Qed.

Lemma written_decoded d i b r :
  writing d i [] -> wi_from i <= b <= wi_to i -> r ∈ recs (wi_chain_id i) b -> decoded_in d (wi_chain_id i) b r.
Proof.
  intros Hw Hb Hr dec row Hd Hdec. destruct (Hw b r dec row Hb Hr Hd Hdec) as [?|(g & bt & []%not_elem_of_nil & _)]; done.
Qed.

Lemma ack_inv l w r w' :
  ack (l_id l) (l_lease_seq l) w = (r, w') -> held w l -> writing (w_db w) (l_item l) [] -> db_inv w ->
  db_inv w' /\ evolves w w'.
Proof.
  intros (v & Sv & Hw & _)%sql_runs Hh Hd Hi.
  destruct Hw as [Hs|[a [= _ <-]]]; [split; [by eapply db_inv_same|by apply evolves_same]|].
  apply (db_inv_same _ _ Sv) in Hi as Hv. pose proof (evolves_same _ _ Sv) as Ev.
  apply (held_evolves _ _ _ Ev) in Hh. apply (writing_evolves _ _ _ _ Ev) in Hd.
  set (w' := upd_db _ v). assert (forall q, q ∈ queue_of w' <-> q ∈ queue_of v /\ ~ (wq_id q = l_id l /\ wq_lease_seq q = l_lease_seq l)) as Hq.
  { intros q. unfold w', queue_of, ack_rows. cbn. rewrite list_elem_of_filter. tauto. }
  destruct Hv as [[A1 A2] B C E F G]. split; [split|].
  - split.
    + eapply sublist_NoDup; [exact A1|]. apply fmap_sublist, sublist_filter.
    + rewrite Forall_forall in A2 |- *. intros q [Hin _]%Hq. by apply A2.
  - done.
  - done.
  - intros q [Hin _]%Hq. by apply E.
  - intros c b x Hrec Hraw. destruct (F c b x Hrec Hraw) as [?|(q & Hin & Hc)]; [by left|].
    destruct (decide (wq_id q = l_id l /\ wq_lease_seq q = l_lease_seq l)) as [[Hid _]|Hn].
    + left. destruct Hc as [<- Hc]. rewrite (proj2 Hh q Hin Hid) in *. by eapply written_decoded.
    + right. exists q. split; [by apply Hq|done].
  - done.
  - eapply evolves_trans; [exact Ev|]. split; [done|done|apply set_queue_more|]. intros q' [Hin _]%Hq _. eauto.
Qed.

(** ** Reading a range *)

Lemma rec_key_inj c1 b1 r1 c2 b2 r2 :
  r1 ∈ recs c1 b1 -> r2 ∈ recs c2 b2 -> raw_key r1 = raw_key r2 -> r1 = r2.
Proof.
  intros H1 H2 [= Ec Eh Ei].
  destruct (dp_rec _ _ _ H1) as ((U1 & I1 & J1 & _) & C1 & B1), (dp_rec _ _ _ H2) as ((U2 & I2 & J2 & _) & C2 & B2).
  apply as_i64_inj in Ec; [|done|done]. apply as_i64_inj in Eh, Ei; [|auto with t0..].
  assert (c1 = c2 /\ b1 = b2) as [-> ->] by (split; congruence). by eapply dp_idx.
Qed.

Lemma stored_row w c b r : db_inv w -> r ∈ recs c b -> is_Some (db_raw (w_db w) !! raw_key r) ->
  db_raw (w_db w) !! raw_key r = Some (raw_row r).
Proof.
  intros Hi Hr [v Hv]. destruct (di_raw _ Hi _ _ Hv) as (c' & b' & r' & Hr' & E).
  assert (raw_key r = raw_key r' /\ v = raw_row r') as [Ek Ev] by (unfold raw_kv in E; split; congruence).
  rewrite (rec_key_inj _ _ _ _ _ _ Hr Hr' Ek) in Hv |- *. congruence.
Qed.

Lemma raw_range_ok w i raw w' :
  db_inv w -> item_ok (w_db w) i -> raw_range (wi_chain_id i) (wi_from i) (wi_to i) w = (Ok raw, w') -> raw_ok i raw.
Proof.
  intros Hi (Hu & Hft & Hto & Hcomp) H. apply mmap_err_Ok, sql_Ok in H as (v & (D & _)%next_fault_same & H).
  injection H as <- _. rewrite D. intros r. unfold raw_range_rows. rewrite list_elem_of_fmap.
  setoid_rewrite merge_sort_Permutation. setoid_rewrite list_elem_of_filter. setoid_rewrite elem_of_map_to_list'.
  assert (is_i63 (wi_from i) /\ is_i63 (wi_to i)) as [Hf Ht] by (unfold_int; lia). split.
  - intros (kv & -> & Hb & Hk). destruct (di_raw _ Hi _ _ Hk) as (c & b & r & Hr & E).
    assert (kv = raw_kv r) as -> by (rewrite <- E; by destruct kv). destruct (dp_rec _ _ _ Hr) as (Hwf & Hc & Hbl).
    apply Is_true_true, raw_between_kv in Hb as [Hch Hrg]; [|done..]. exists b. rewrite <- Hch, raw_decode_kv by done.
    split; [lia|]. by rewrite Hc.
  - intros (b & Hb & Hr). destruct (dp_rec _ _ _ Hr) as (Hwf & Hc & Hbl). exists (raw_kv r). split_and!.
    + by rewrite <- Hc, raw_decode_kv.
    + apply Is_true_true, raw_between_kv; [done..|]. split; [done|lia].
    + by apply (stored_row w _ b r Hi Hr), (Hcomp b).
Qed.
(** ** Writing decoded rows *)

Lemma event_insert_seq table has_idx sig part w a w' :
  event_insert_stmt table has_idx sig part w = Some (a, w') -> w_seq w <= w_seq w'.
Proof.
  unfold event_insert_stmt. destruct (db_tables (w_db w) !! table); cbn; [|done]. destruct (mapM _ _); cbn; [|done].
  destruct (_ && _); [|done]. destruct (insert_absent _ _). by intros [= _ <-].
Qed.

Lemma upsert_tx_seq t g : seq_mono (event_upsert_batch_tx t g).
Proof.
  unfold event_upsert_batch_tx. apply seq_mono_bind; [apply seq_mono_lift|]. intros _. apply seq_mono_mfold.
  intros n [sig grp]. apply seq_mono_mfold. intros k part. apply seq_mono_bind; [apply seq_mono_lift|]. intros _.
  apply seq_mono_bind; [|auto with t0]. apply seq_mono_sql. apply event_insert_seq.
Qed.

(** A write that returns wrote to a table that exists. *)
Lemma upsert_table t g x w n w' :
  event_upsert_batch t g w = (Ok n, w') -> x ∈ g -> is_Some (db_tables (w_db w) !! t).
Proof.
  intros H Hx. unfold event_upsert_batch in H. apply mbind_Ok in H as (? & ? & E & H). injection E as _ <-.
  apply in_tx_Ok in H as (w1 & w2 & (D1 & _) & H & _). apply mmap_err_Ok in H.
  unfold event_upsert_batch_tx in H. apply mbind_Ok in H as (? & ? & E & H). injection E as _ <-.
  destruct (btree_group_spec strs_cmp sig_of g) as (G1 & G2 & G3). apply (ascending_NoDup strs_cmp) in G1.
  destruct (btree_group strs_cmp sig_of g) as [|[sig grp] gs].
  { by pose proof (proj2 (G2 (sig_of x)) (ex_intro _ x (conj Hx eq_refl))) as ?%not_elem_of_nil. }
  assert (exists y, y ∈ grp) as [y Hy].
  { destruct (proj1 (G2 sig)) as (y & Hy & E); [left|]. exists y.
    rewrite <- (group_of_elem _ sig grp G1), G3 by left. by apply list_elem_of_filter. }
  cbn [mfold] in H. apply mbind_Ok in H as (? & ? & H & _).
  set (cols := _ + _) in H. destruct (chunks (Z.to_nat (chunk_rows cols)) grp) as [|part parts] eqn:Ec.
  { pose proof (chunk_rows_pos cols). pose proof (chunks_concat (Z.to_nat (chunk_rows cols)) grp) as Hc.
    rewrite Ec in Hc. cbn in Hc. rewrite <- Hc in Hy by lia. by apply not_elem_of_nil in Hy. }
  cbn [mfold] in H. apply mbind_Ok in H as (? & ? & H & _). apply mbind_Ok in H as (? & ? & E & H). injection E as _ <-.
  apply mbind_Ok in H as (? & ? & H & _). apply sql_Ok in H as (v & (D2 & _)%next_fault_same & H).
  unfold event_insert_stmt in H. rewrite D2, D1 in H. by destruct (db_tables (w_db w) !! t).
Qed.

Lemma typed_kv_event x :
  typed_kv PkEvent true x = Some (event_key (er_chain_id x) (er_height x) (er_index x), typed_row true x).
Proof. done. Qed.

(** Two events with the same key are one event, stored at one time or another. *)
Lemma event_key_inj x1 x2 k v1 v2 :
  event_of x1 -> event_of x2 -> typed_kv PkEvent true x1 = Some (k, v1) -> typed_kv PkEvent true x2 = Some (k, v2) ->
  exists bt, x2 = timed bt x1.
Proof.
  intros (c1 & dec1 & b1 & r1 & row1 & bt1 & D1 & R1 & E1 & ->) (c2 & dec2 & b2 & r2 & row2 & bt2 & D2 & R2 & E2 & ->).
  rewrite !typed_kv_event. intros [= <- _] [= Ec Eh Ei _]. cbn in Ec, Eh, Ei.
  destruct (dp_event _ _ _ _ _ D1 R1 E1) as (_ & C1 & H1 & I1), (dp_event _ _ _ _ _ D2 R2 E2) as (_ & C2 & H2 & I2).
  destruct (dp_rec _ _ _ R1) as (_ & P1 & Q1), (dp_rec _ _ _ R2) as (_ & P2 & Q2).
  assert (r2 = r1) as -> by (eapply rec_key_inj; [done|done|]; unfold raw_key; congruence).
  assert (c2 = c1) as -> by congruence. assert (row2 = row1) as -> by congruence. by exists bt2.
Qed.
Lemma typed_inv t g w w' :
  group_ok (t, g) -> db_inv w -> w_seq w <= w_seq w' -> w_db w' = typed_effect t (by_signature g) (w_db w) ->
  db_inv w' /\ evolves w w'.
Proof.
  intros Hg Hi Hseq D. assert (evolves w w') as He.
  { split; [done|by rewrite D|rewrite D; apply grown_typed|]. unfold queue_of. rewrite D. cbn. eauto. }
  split; [|done]. destruct Hi as [[A1 A2] B C E F G]. split.
  - unfold queue_of in *. rewrite D. split; [done|]. eapply Forall_impl; [exact A2|]. cbn. lia.
  - by rewrite D.
  - intros t' tab Ht' Htab. rewrite D in Htab. cbn in Htab. destruct (decide (t' = t)) as [->|Hne].
    2:{ rewrite lookup_alter_ne in Htab by done. by apply C. }
    rewrite lookup_alter_eq in Htab. destruct (db_tables (w_db w) !! t) as [tab0|] eqn:E0; [|done].
    injection Htab as <-. destruct (C t tab0 Ht' E0) as [Hpk Hrows]. split; [done|]. cbn. rewrite Hpk, dp_tables by done.
    intros k v [Hk|[_ Hk]]%lookup_union_Some_raw; [by apply Hrows|].
    apply elem_of_list_to_map_2, list_elem_of_omap in Hk as (x & Hx & Hkv). rewrite by_signature_perm in Hx.
    destruct (Hg x Hx) as [Hxt Hev]. exists x. split_and!; [by apply Hev|done|done].
  - unfold queue_of. rewrite D. intros q Hq. rewrite <- D. eapply item_ok_evolves; [done|]. by apply E.
  - intros c b r Hr Hraw. rewrite D in Hraw. destruct (F c b r Hr Hraw) as [Hd|Hq]; [left; by eapply decoded_in_evolves|right].
    unfold queue_of in *. by rewrite D.
  - intros c cu hash Hc Hcu. rewrite D in Hcu. destruct (G c cu hash Hc Hcu). split; [done|by eapply swept_evolves].
Qed.

Lemma upsert_effect t g w r w' :
  event_upsert_batch t g w = (r, w') -> w_db w' = w_db w \/ w_db w' = typed_effect t (by_signature g) (w_db w).
Proof.
  intros H. pose proof (updates_map_err domain_of_db _ _ (event_upsert_updates t g)) as Hu.
  unfold event_upsert_batch, mbind_, mlift in H. destruct (safe_ident t); cbn in H; [|injection H as _ <-; by left].
  destruct r as [n|e]; [right; by apply (updates_in_tx domain_of_db _ _ Hu) in H as (-> & _)|].
  by apply (in_tx_all_or_nothing _ _ _ _ _ _ Hu) in H.
Qed.

Lemma upsert_inv t g w r w' :
  event_upsert_batch t g w = (r, w') -> group_ok (t, g) -> db_inv w ->
  db_inv w' /\ evolves w w'
  /\ forall n x, r = Ok n -> t ∈ ev_tables -> x ∈ g -> exists tab bt, db_tables (w_db w') !! t = Some tab
       /\ t_rows tab !! event_key (er_chain_id x) (er_height x) (er_index x) = Some (typed_row true (timed bt x)).
Proof.
  intros H Hg Hi. pose proof (updates_map_err domain_of_db _ _ (event_upsert_updates t g)) as Hu.
  assert (w_seq w <= w_seq w') as Hseq.
  { refine ((_ : seq_mono (event_upsert_batch t g)) w r w' H). apply seq_mono_bind; [apply seq_mono_lift|].
    intros _. apply seq_mono_in_tx, seq_mono_map_err, upsert_tx_seq. }
  pose proof (upsert_effect t g w r w' H) as Hdb.
  assert (db_inv w' /\ evolves w w') as [Hi' He].
  { destruct Hdb as [D|D]; [|by eapply typed_inv]. rewrite <- (typed_effect_nil t (w_db w)) in D.
    eapply (typed_inv t []); [by intros x ?%not_elem_of_nil|done|done|exact D]. }
  split_and!; [done|done|]. intros n x -> Ht Hx. destruct (upsert_table t g x w n w' H Hx) as [tab0 E0].
  assert (w_db w' = typed_effect t (by_signature g) (w_db w)) as D.
  { unfold event_upsert_batch in H. apply mbind_Ok in H as (? & ? & E & H). injection E as _ <-.
    by apply (updates_in_tx domain_of_db _ _ Hu) in H as (-> & _). }
  destruct (di_tables _ Hi t tab0 Ht E0) as [Hpk _].
  set (tab := add_rows t (by_signature g) tab0).
  assert (db_tables (w_db w') !! t = Some tab) as E1 by (rewrite D; cbn; by rewrite lookup_alter_eq, E0).
  assert (typed_kv (t_pk tab0) (table_has_idx t) x
    = Some (event_key (er_chain_id x) (er_height x) (er_index x), typed_row true x)) as Hkv by (by rewrite Hpk, dp_tables).
  destruct (add_rows_present t (by_signature g) tab0 x _ (by_signature_elem g x Hx) Hkv) as [v Hv]. cbn [fst] in Hv.
  destruct (di_tables _ Hi' t tab Ht E1) as [_ Hrows]. destruct (Hrows _ _ Hv) as (y & Hy & _ & Hyk).
  destruct (Hg x Hx) as [_ Hev]. destruct (event_key_inj x y _ _ _ (Hev Ht) Hy (typed_kv_event x) Hyk) as [bt ->].
  exists tab, bt. split; [done|]. rewrite typed_kv_event in Hyk. injection Hyk as <-. exact Hv.
Qed.
(** ** The ingest commit *)

Lemma commit_tx_seq b : seq_mono (commit_ingest_tx b)
  /\ forall w a w', commit_ingest_tx b w = (Ok a, w') -> is_Some (ib_enqueue b) -> w_seq w < w_seq w'.
Proof.
  assert (seq_mono (raw_insert_batch_tx (ib_raw_records b))) as M1.
  { apply seq_mono_mfold. intros n ch. apply seq_mono_bind; [|auto with t0]. apply seq_mono_sql. intros w a w'.
    unfold raw_insert_stmt. destruct (insert_absent _ _). by intros [= _ <-]. }
  assert (seq_mono (block_upsert_batch_tx (ib_block_metas b))) as M2.
  { apply seq_mono_mfold. intros n ch. apply seq_mono_bind; [|auto with t0]. apply seq_mono_sql. intros w a w'.
    unfold block_upsert_stmt. case_bool_decide; [|done]. by intros [= _ <-]. }
  set (m := btree_group str_cmp row_table (ib_enrichment b)).
  assert (seq_mono (mfor (parents_first m.*1) (fun t =>
    do _ <- mmap_err domain_of_db (event_upsert_batch_tx t (group_of m t)); mret_ tt))) as M3.
  { apply seq_mono_mfor. intros t. apply seq_mono_bind; [|auto with t0]. apply seq_mono_map_err, upsert_tx_seq. }
  assert (seq_mono match ib_enqueue b with Some i => mmap_err domain_of_db (push_in_tx i) | None => mret_ tt end) as M4.
  { destruct (ib_enqueue b) as [i|]; [|apply seq_mono_ret]. apply seq_mono_map_err, seq_mono_sql. intros w a w' [= _ <-]. cbn. lia. }
  assert (seq_mono match ib_advance_cursor b with Some (c, l, h) => mmap_err domain_of_db (advance_in_tx c l h)
    | None => mret_ tt end) as M5.
  { destruct (ib_advance_cursor b) as [[[c l] h]|]; [|apply seq_mono_ret]. apply seq_mono_map_err, seq_mono_sql.
    by intros w a w' [= _ <-]. }
  split.
  - unfold commit_ingest_tx. fold m. do 2 (apply seq_mono_bind; [by apply seq_mono_map_err|intros _]).
    apply seq_mono_bind; [done|intros _]. by apply seq_mono_bind.
  - intros w a w' H [i Hi]. unfold commit_ingest_tx in H. fold m in H.
    apply mbind_Ok in H as (? & w1 & H1 & H). apply (seq_mono_map_err domain_of_db _ M1) in H1.
    apply mbind_Ok in H as (? & w2 & H2 & H). apply (seq_mono_map_err domain_of_db _ M2) in H2.
    apply mbind_Ok in H as (? & w3 & H3 & H). apply M3 in H3.
    apply mbind_Ok in H as (? & w4 & H4 & H). apply M5 in H. rewrite Hi in H4.
    apply mmap_err_Ok, sql_Ok in H4 as (v & (_ & S & _)%next_fault_same & [= _ <-]). cbn in *. lia.
Qed.

Lemma commit_cases c f w r w' :
  commit_range c f 0 w = (r, w') ->
  let b := batch_of c f 0 false in
  w_seq w <= w_seq w'
  /\ ((w_db w' = w_db w /\ forall o, r <> Ok o)
      \/ (ingested b (w_seq w) (w_db w) (w_db w') /\ (is_Some (ib_enqueue b) -> w_seq w < w_seq w'))).
Proof.
  unfold commit_range, commit, mbind_. intros H. set (b := batch_of c f 0 false) in *. cbv zeta.
  destruct (commit_tx_seq b) as [Hmono Hpush].
  destruct (commit_ingest b w) as [x w1] eqn:E. assert (w1 = w') as -> by (destruct x; by injection H as _ <-).
  assert (w_seq w <= w_seq w') as Hs by (by eapply (seq_mono_in_tx domain_of_db _ Hmono)). split; [done|].
  destruct x as [[]|e].
  - right. apply in_tx_Ok in E as (w2 & w3 & (D1 & S1 & _) & E & (D2 & S2 & _)). split.
    + apply commit_ingest_tx_refines in E. by rewrite D2, <- D1, <- S1.
    + intros He. specialize (Hpush _ _ _ E He). lia.
  - injection H as <-. apply in_tx_Err in E as [E|(w2 & w3 & a & (D1 & S1 & _) & E & (D2 & S2 & _))]; [by left|].
    right. split.
    + apply commit_ingest_tx_refines in E. by rewrite D2, <- D1, <- S1.
    + intros He. specialize (Hpush _ _ _ E He). lia.
Qed.
(** The item of a delivered range. *)
Definition range_item (c : Z) (f : FetchedRange) : WorkItem := mkWorkItem c (fr_from f) (fr_to f) Backfill 0.

Lemma range_item_wf c f : is_u64 c -> fetched c f -> wf_item (range_item c f).
Proof. intros Hc (? & ? & _). split_and!; cbn; [done|unfold_int; lia..]. Qed.

(** After a push there is a row for the item, new or its twin. *)
Lemma push_covers n i q : wf_item i -> exists x, x ∈ push_rows n i q
  /\ wi_chain_id (lease_item x) = wi_chain_id i /\ wi_from (lease_item x) = wi_from i /\ wi_to (lease_item x) = wi_to i.
Proof.
  intros Hi. unfold push_rows. case_bool_decide as Hk.
  - apply list_elem_of_fmap in Hk as (x & E & Hx). exists x. split; [done|]. unfold item_key, dedup_key in E.
    injection E as E1 E2 E3 _. destruct Hi as (? & ? & ? & _). unfold lease_item. cbn.
    rewrite <- E1, <- E2, <- E3, !as_u64_as_i64; auto with t0.
  - exists (fresh_row n i). split; [apply elem_of_app; right; left|]. by rewrite lease_item_fresh.
Qed.

Lemma push_elem n i q x : x ∈ push_rows n i q -> x ∈ q \/ x = fresh_row n i.
Proof.
  unfold push_rows. case_bool_decide; [by left|]. intros [?|?%list_elem_of_singleton]%elem_of_app; auto.
Qed.

Lemma push_old n i q x : x ∈ q -> x ∈ push_rows n i q.
Proof. intros Hx. unfold push_rows. case_bool_decide; [done|]. apply elem_of_app. by left. Qed.

Lemma ingested_evolves c f w w' :
  db_inv w -> fetched c f -> w_seq w <= w_seq w' ->
  ingested (batch_of c f 0 false) (w_seq w) (w_db w) (w_db w') -> evolves w w'.
Proof.
  intros Hi Hf Hs [R B T Q C]. split; [done| | |].
  - intros k Hk. rewrite R. apply lookup_union_is_Some. by left.
  - intros t tab Ht. rewrite T, Ht. cbn. eexists. split; [done|]. apply map_union_subseteq_l.
  - intros q'. unfold queue_of. rewrite Q. cbn. destruct (fr_records f); [eauto|].
    intros [Hq| ->]%push_elem Hlt; [eauto|]. cbn in Hlt. lia.
Qed.

Lemma ingested_complete c f n d d' :
  fetched c f -> ingested (batch_of c f 0 false) n d d' -> complete d' c (fr_from f) (fr_to f).
Proof.
  intros (_ & _ & Hr & _) [R _ _ _ _] b r Hb Hin. rewrite R. apply lookup_union_is_Some. right.
  apply raw_written. cbn. rewrite Hr. apply recs_in_elem. eauto.
Qed.

(** A record the commit brings is one of the range, and its block is queued. *)
Lemma ingested_covers c f w w' x b r :
  is_u64 c -> fetched c f -> ingested (batch_of c f 0 false) (w_seq w) (w_db w) (w_db w') -> r ∈ recs x b ->
  is_Some ((list_to_map (raw_kv <$> fr_records f) : gmap (Z * Z * Z) _) !! raw_key r) ->
  x = c /\ r ∈ fr_records f /\ exists q, q ∈ queue_of w' /\ covers q x b.
Proof.
  intros Hc Hf [_ _ _ Q _] Hr [v Hv]. apply elem_of_list_to_map_2, list_elem_of_fmap in Hv as (r' & E & Hin).
  assert (raw_key r = raw_key r') as Ek by (unfold raw_kv in E; congruence).
  pose proof Hf as (_ & _ & Hrec & _). pose proof Hin as Hr'. rewrite Hrec in Hr'. apply recs_in_elem in Hr' as (b' & Hb' & Hr').
  pose proof (rec_key_inj _ _ _ _ _ _ Hr Hr' Ek) as <-.
  destruct (dp_rec _ _ _ Hr) as (_ & <- & <-), (dp_rec _ _ _ Hr') as (_ & Ec & Eb). split_and!; [done|done|].
  destruct (push_covers (w_seq w) (range_item c f) (queue_of w) (range_item_wf c f Hc Hf)) as (q & Hq & P1 & P2 & P3).
  exists q. split; [|split; [by rewrite P1, Ec|rewrite P2, P3, Eb; exact Hb']]. unfold queue_of. rewrite Q. cbn.
  destruct (fr_records f); [by apply not_elem_of_nil in Hin|exact Hq].
Qed.

(** The rows of the queue stay. *)
Lemma ingested_queue c f w w' q :
  ingested (batch_of c f 0 false) (w_seq w) (w_db w) (w_db w') -> q ∈ queue_of w -> q ∈ queue_of w'.
Proof. intros [_ _ _ Q _] Hq. unfold queue_of. rewrite Q. cbn. destruct (fr_records f); [done|by apply push_old]. Qed.

Lemma ingested_work c f w w' x b r :
  db_inv w -> is_u64 c -> fetched c f -> evolves w w' ->
  ingested (batch_of c f 0 false) (w_seq w) (w_db w) (w_db w') ->
  r ∈ recs x b -> is_Some (db_raw (w_db w') !! raw_key r) ->
  decoded_in (w_db w') x b r \/ exists q, q ∈ queue_of w' /\ covers q x b.
Proof.
  intros Hi Hc Hf He Hin Hr Hraw. rewrite (in_raw _ _ _ _ Hin) in Hraw. apply lookup_union_is_Some in Hraw as [Hold|Hnew].
  - destruct (di_work _ Hi x b r Hr Hold) as [?|(q & Hq & Hcov)]; [left; by eapply decoded_in_evolves|right].
    exists q. split; [by eapply ingested_queue|done].
  - right. by eapply ingested_covers in Hin as (_ & _ & ?); [|done..].
Qed.

Lemma ingested_tables c f w w' t tab :
  db_inv w -> fetched c f -> ingested (batch_of c f 0 false) (w_seq w) (w_db w) (w_db w') ->
  t ∈ ev_tables -> db_tables (w_db w') !! t = Some tab -> db_tables (w_db w) !! t = Some tab.
Proof.
  intros Hi (_ & _ & _ & Henr) [_ _ T _ _] Ht Htab. rewrite T in Htab.
  assert (rows_for (batch_of c f 0 false) t = []) as E0.
  { apply Permutation_nil. unfold rows_for. rewrite by_signature_perm. rewrite filter_none; [done|].
    intros x Hx E. apply (Henr x Hx). by rewrite E. }
  rewrite E0 in Htab. rewrite <- Htab. destruct (db_tables (w_db w) !! t) as [[]|]; [|done]. unfold set_rows. cbn.
  by rewrite map_union_empty.
Qed.

Lemma commit_inv c f w r w' :
  commit_range c f 0 w = (r, w') -> is_u64 c -> fetched c f -> db_inv w ->
  db_inv w' /\ evolves w w' /\ forall o, r = Ok o -> complete (w_db w') c (fr_from f) (fr_to f).
Proof.
  intros H Hc Hf Hi. apply commit_cases in H as [Hs [[D Hn]|[Hin Hp]]].
  { rewrite <- (typed_effect_nil EmptyString (w_db w)) in D.
    destruct (typed_inv EmptyString [] w w') as [? ?]; [by intros x ?%not_elem_of_nil|done|done|exact D|].
    split_and!; [done|done|]. intros o ->. by destruct (Hn o). }
  pose proof (ingested_evolves c f w w' Hi Hf Hs Hin) as He. split_and!; [|done|intros; by eapply ingested_complete].
  pose proof Hin as [R B T Q C]. destruct Hi as [[A1 A2] I2 I3 I4 I5 I6] eqn:EI. clear EI.
  assert (queue_of w' = match fr_records f with [] => queue_of w
    | _ => push_rows (w_seq w) (range_item c f) (queue_of w) end) as Hq.
  { unfold queue_of. rewrite Q. cbn. by destruct (fr_records f). }
  split.
  - rewrite Hq. destruct (fr_records f) as [|r0 rs] eqn:Er.
    { split; [done|]. eapply Forall_impl; [exact A2|]. cbn. lia. }
    assert (w_seq w < w_seq w') as Hlt by (apply Hp; cbn; rewrite Er; eauto). unfold push_rows.
    case_bool_decide; [split; [done|]; eapply Forall_impl; [exact A2|]; cbn; lia|]. split.
    + rewrite fmap_app. apply NoDup_app. split_and!; [done| |apply NoDup_singleton].
      intros i (q & -> & Hin')%list_elem_of_fmap E%list_elem_of_singleton. rewrite Forall_forall in A2.
      specialize (A2 q Hin'). cbn in E. lia.
    + apply Forall_app. split; [eapply Forall_impl; [exact A2|]; cbn; lia|]. by apply Forall_singleton.
  - intros k v. rewrite R. intros [Hk|[_ Hk]]%lookup_union_Some_raw; [by apply I2|].
    apply elem_of_list_to_map_2, list_elem_of_fmap in Hk as (x & E & Hx). cbn in Hx.
    destruct Hf as (_ & _ & Hrec & _). rewrite Hrec in Hx. apply recs_in_elem in Hx as (b & _ & Hx). eauto.
  - intros t tab Ht Htab. apply (I3 t tab Ht). eapply ingested_tables; eauto.
  - rewrite Hq. intros q Hin'. assert (q ∈ queue_of w \/ q = fresh_row (w_seq w) (range_item c f)) as [Hold| ->].
    { destruct (fr_records f); [by left|by apply push_elem]. }
    + eapply item_ok_evolves; [done|]. by apply I4.
    + rewrite lease_item_fresh by (by apply range_item_wf). pose proof Hf as (? & ? & _).
      split_and!; cbn; [done|lia|lia|lia|]. by eapply ingested_complete.
  - intros x b r0 Hr0 Hraw. eapply ingested_work; eauto.
  - intros x cu hash Hx Hcu. rewrite C in Hcu. cbn in Hcu. destruct (I6 x cu hash Hx Hcu).
    split; [done|by eapply swept_evolves].
Qed.
(** ** The cursor *)

Lemma reached_next d c h t :
  swept (start c) (recs c) t d -> complete d c t h -> 0 <= h < 2 ^ 62 -> reached d c h.
Proof.
  intros Hs Hc Hh. split; [done|]. intros b Hb r Hr. destruct (Z.lt_ge_cases b t); [by apply (Hs b); [lia|]|].
  by apply (Hc b r); [lia|].
Qed.

Lemma drain_ok d c fuel t moved : tracker_ok d c t -> tracker_ok d c (drain fuel t moved).1.
Proof.
  revert t moved. induction fuel as [|fuel IH]; intros t moved Ht; [done|]. cbn [drain].
  destruct (waiting t !! frontier t) as [[e lb]|] eqn:Ew; [|done]. apply IH.
  destruct Ht as ((Hf & Hs) & Hw & _). destruct (Hw _ _ _ Ew) as (H1 & H2 & Hc).
  assert (reached d c e) as Hr by (eapply reached_next; [done|done|lia]).
  split_and!; cbn.
  - rewrite u64_add_small; unfold_int; lia.
  - rewrite u64_add_small; unfold_int; lia.
  - rewrite u64_add_small by (unfold_int; lia). apply Hr.
  - intros from to lb' Hin. apply lookup_delete_Some in Hin as [_ Hin]. by apply (Hw from to lb').
  - by intros a [= <-].
Qed.

Lemma record_ok d c t from to lb :
  tracker_ok d c t -> 0 <= from <= to -> to < 2 ^ 62 -> complete d c from to ->
  let '(t', cp) := tracker_record t from to lb in
  tracker_ok d c t' /\ forall h hash, cp = Some (h, hash) -> reached d c h.
Proof.
  intros (Hf & Hw & Ha) H1 H2 Hc. unfold tracker_record.
  set (t1 := mkPrefixTracker (frontier t) (<[from := (to, lb)]> (waiting t)) (best t) (advanced_to t)).
  assert (tracker_ok d c t1) as Ht1.
  { split; [done|]. split; [|done]. intros from' to' lb'. cbn. rewrite lookup_insert_Some.
    intros [[-> [= <- _]]|[_ Hin]]; [done|by eapply Hw]. }
  pose proof (drain_ok d c (size (waiting t1)) t1 false Ht1) as Ht. destruct (drain _ t1 false) as [t' moved]. cbn in Ht.
  split; [done|]. intros h hash. destruct moved; [|done]. destruct (advanced_to t') as [a|] eqn:Ea; [|done].
  cbn. intros [= <- _]. by apply Ht.
Qed.

Lemma advance_inv c h hash w r w' :
  cursor_advance c h hash w = (r, w') -> is_u64 c -> reached (w_db w) c h -> db_inv w -> db_inv w' /\ evolves w w'.
Proof.
  intros H Hc Hr Hi. assert (w_seq w <= w_seq w') as Hs.
  { refine ((_ : seq_mono (cursor_advance c h hash)) w r w' H).
    apply seq_mono_in_tx, seq_mono_map_err, seq_mono_sql. by intros ? ? ? [= _ <-]. }
  assert (w_db w' = set_cursors (db_cursors (w_db w')) (w_db w)
    /\ (db_cursors (w_db w') = db_cursors (w_db w) \/ db_cursors (w_db w') = <[as_i64 c := (as_i64 h, hash)]> (db_cursors (w_db w))))
    as [D Hcur].
  { apply cursor_advance_run in H as [E|[E _]]; rewrite E; [by auto|]. split; [by destruct (w_db w)|by left]. }
  assert (evolves w w') as He.
  { split; [done|by rewrite D|rewrite D; intros t tab Ht; by apply (grown_refl (w_db w))|].
    unfold queue_of. rewrite D. eauto. }
  split; [|done]. destruct Hi as [[A1 A2] B C E F G]. split.
  - unfold queue_of in *. rewrite D. split; [done|]. eapply Forall_impl; [exact A2|]. cbn. lia.
  - by rewrite D.
  - by rewrite D.
  - unfold queue_of. rewrite D. intros q Hq. by apply E.
  - unfold queue_of. rewrite D. intros x b y Hy Hraw. by apply F.
  - intros x cu hash' Hx Hcu. assert (swept (start x) (recs x) (cu + 1) (w_db w) /\ 0 <= cu < 2 ^ 62) as [Hsw ?].
    { destruct Hcur as [Ec|Ec]; rewrite Ec in Hcu; [by destruct (G x cu hash' Hx Hcu)|].
      apply lookup_insert_Some in Hcu as [[Heq Hv]|[_ Hcu]]; [|by destruct (G x cu hash' Hx Hcu)].
      apply as_i64_inj in Heq as ->; [|done|done]. injection Hv as <- _. destruct Hr as [Hh Hsw].
      rewrite as_i64_small by (unfold_int; lia). done. }
    split; [done|by eapply swept_evolves].
Qed.

Lemma resume_ok c o w w' :
  cursor_get c w = (Ok o, w') -> is_u64 c -> db_inv w -> same_state w w' /\ tracker_ok (w_db w') c (tracker_new (resume_at (start c) o)).
Proof.
  intros H Hc Hi. apply mmap_err_Ok, sql_Ok in H as (v & Sv%next_fault_same & H). injection H as <- <-. split; [done|].
  assert (forall n, 0 <= n <= 2 ^ 62 -> swept (start c) (recs c) n (w_db v) -> tracker_ok (w_db v) c (tracker_new n)) as Hn.
  { intros n ? ?. split; [done|]. split; [|done]. intros ? ? ?. cbn. by rewrite lookup_empty. }
  apply Hn.
  - destruct (db_cursors (w_db v) !! as_i64 c) as [[cu hash]|] eqn:E; cbn; [|pose proof (dp_start c); lia].
    destruct (di_cursor _ (db_inv_same _ _ Sv Hi) c cu hash Hc E) as [? _].
    rewrite as_u64_small, u64_add_small; unfold_int; lia.
  - destruct (db_cursors (w_db v) !! as_i64 c) as [[cu hash]|] eqn:E; cbn; [|intros b Hb; lia].
    destruct (di_cursor _ (db_inv_same _ _ Sv Hi) c cu hash Hc E) as [? Hs].
    rewrite as_u64_small, u64_add_small by (unfold_int; lia). done.
Qed.
(** ** A worker's piece *)

Lemma decode_all_elem {A} (f : A -> result DomainError (option EventRow)) xs rows y :
  decode_all f xs = Ok rows -> y ∈ rows <-> exists x, x ∈ xs /\ f x = Ok (Some y).
Proof.
  intros H. rewrite (decode_all_omap _ _ _ H), list_elem_of_omap. unfold ok_row. split.
  - intros (x & Hx & E). exists x. split; [done|]. destruct (f x); [by subst|done].
  - intros (x & Hx & E). exists x. by rewrite E.
Qed.

Lemma groups_ok l dec raw times rows calls txs :
  decoders !! wi_chain_id (l_item l) = Some dec -> raw_ok (l_item l) raw ->
  decode_all (dec_decode dec) raw = Ok rows -> decode_all (dec_decode_call dec) txs = Ok calls ->
  let gs := mo (btree_group str_cmp row_table (stamp times <$> rows ++ calls)) in
  Forall group_ok gs /\ forall d, writing d (l_item l) gs.
Proof.
  intros Hd Hraw Hrows Hcalls gs. set (all := stamp times <$> rows ++ calls) in gs.
  destruct (btree_group_spec str_cmp row_table all) as (G1 & G2 & G3). apply (ascending_NoDup str_cmp) in G1.
  assert (forall t g, (t, g) ∈ gs -> g = filter (fun x => row_table x = t) all) as Hg.
  { intros t g. unfold gs. rewrite Hmo. intros Hin. by rewrite <- G3, (group_of_elem _ _ _ G1 Hin). }
  split.
  - apply Forall_forall. intros [t g] Hin x Hx. cbn in *. rewrite (Hg t g Hin) in Hx.
    apply list_elem_of_filter in Hx as [Hxt Hx]. split; [done|]. intros Ht.
    apply list_elem_of_fmap in Hx as (y & -> & [Hy|Hy]%elem_of_app).
    + apply (decode_all_elem _ _ _ _ Hrows) in Hy as (r & Hr & E). apply Hraw in Hr as (b & _ & Hr).
      exists (wi_chain_id (l_item l)), dec, b, r, y, (time_at times (er_height y)).
      split; [by eapply lookup_weaken; [|apply served_all]|done].
    + apply (decode_all_elem _ _ _ _ Hcalls) in Hy as (tx & _ & E). destruct (dp_call _ _ _ _ Hd E).
      change (row_table y) with (row_table (stamp times y)). by rewrite Hxt.
  - intros d b r dec' row Hb Hr Hd' E. rewrite Hd in Hd'. injection Hd' as <-. right.
    assert (stamp times row ∈ all) as Hin.
    { apply list_elem_of_fmap_2, elem_of_app. left. apply (decode_all_elem _ _ _ _ Hrows). exists r.
      split; [apply Hraw; eauto|done]. }
    assert (row_table row ∈ (btree_group str_cmp row_table all).*1) as Hk by (apply G2; by exists (stamp times row)).
    apply list_elem_of_fmap in Hk as ([t g] & Ht & Htg). cbn in Ht. subst t.
    exists g, (time_at times (er_height row)). split; [unfold gs; by rewrite Hmo|].
    rewrite (Hg (row_table row) g) by (unfold gs; by rewrite Hmo). by apply list_elem_of_filter.
Qed.

Lemma written_next w w' l t g gs :
  evolves w w' -> Forall group_ok ((t, g) :: gs) -> writing (w_db w) (l_item l) ((t, g) :: gs) ->
  (forall x, t ∈ ev_tables -> x ∈ g -> exists tab bt, db_tables (w_db w') !! t = Some tab
     /\ t_rows tab !! event_key (er_chain_id x) (er_height x) (er_index x) = Some (typed_row true (timed bt x))) ->
  writing (w_db w') (l_item l) gs.
Proof.
  intros He Hgs Hw Hpost b r dec row Hb Hr Hd E.
  destruct (writing_evolves _ _ _ _ He Hw b r dec row Hb Hr Hd E) as [?|(g' & bt & Hin & Hx)]; [by left|].
  apply elem_of_cons in Hin as [[= <- <-]|Hin]; [left|right; eauto].
  destruct (dp_event _ _ _ _ _ Hd Hr E) as (Ht & Ec & Eh & Ei).
  destruct (Hpost _ Ht Hx) as (tab & bt' & Htab & Hk). cbn in Hk. rewrite Ec, Eh, Ei in Hk. eauto.
Qed.

Lemma reads_decode l dec raw times : reads (worker_step mo so decoders (WTimes l dec raw times)).
Proof.
  cbn [worker_step]. apply reads_bind; [apply reads_lift|]. intros rows. apply reads_bind; [|intros; apply reads_ret].
  destruct (dec_has_calls dec); [apply reads_bind; [apply reads_calldata|intros; apply reads_lift]|apply reads_ret].
Qed.

Lemma worker_step_inv ws w r w' :
  worker_step mo so decoders ws w = (r, w') -> db_inv w -> worker_ok w ws ->
  db_inv w' /\ evolves w w' /\ worker_ok w' (after_step r).
Proof.
  assert (forall v r, same_state w v -> db_inv w -> (forall x, r = Ok x -> worker_ok v (after_step r)) ->
    db_inv v /\ evolves w v /\ worker_ok v (after_step r)) as Hread.
  { intros v x Sv Hi Hx. split_and!; [by eapply db_inv_same|by apply evolves_same|]. destruct x as [y|]; [by eapply Hx|done]. }
  intros H Hi Hok. destruct ws as [|l|l dec raw|l dec raw times|l n [|[t g] gs]|l n]; cbn [worker_step] in H.
  - unfold mbind_ in H. destruct (pull_any w) as [x w1] eqn:Ep. apply pull_inv in Ep as (? & ? & Hl); [|done].
    destruct x as [[l|]|e]; injection H as <- <-; split_and!; try done. by apply Hl.
  - destruct Hok as [Hh Hit]. destruct (decoders !! _) as [dec|] eqn:Ed.
    2:{ injection H as <- <-. apply Hread; [done|done|]. intros _ _. split; [done|].
        intros b y dec' row _ _ Hd'. by rewrite Ed in Hd'. }
    unfold mbind_ in H. destruct (raw_range _ _ _ w) as [x w1] eqn:Er. pose proof (reads_raw_range _ _ _ _ _ _ Er) as S1.
    destruct x as [raw|e]; injection H as <- <-; apply Hread; try done. intros _ _.
    split_and!; [by eapply held_evolves; [apply evolves_same|]|done|]. by eapply raw_range_ok.
  - destruct Hok as (Hh & Hd & Hr). unfold mbind_ in H. destruct (block_times _ _ _ w) as [x w1] eqn:Er.
    pose proof (reads_block_times _ _ _ _ _ _ Er) as S1.
    destruct x as [tm|e]; injection H as <- <-; apply Hread; try done. intros _ _.
    split_and!; [by eapply held_evolves; [apply evolves_same|]|done|done].
  - destruct Hok as (Hh & Hd & Hr).
    pose proof (reads_decode _ _ _ _ w r w' H) as S1. apply Hread; [done|done|]. intros x ->.
    apply mbind_Ok in H as (rows & w1 & Er & H). injection Er as Er <-.
    apply mbind_Ok in H as (calls & w2 & Ec & H). apply mret_Ok in H as [-> ->].
    assert (exists txs, decode_all (dec_decode_call dec) txs = Ok calls) as [txs Etx].
    { destruct (dec_has_calls dec); [|apply mret_Ok in Ec as [-> _]; by exists []].
      apply mbind_Ok in Ec as (txs & ? & _ & Ec). injection Ec as Ec _. eauto. }
    destruct (groups_ok l dec raw times rows calls txs Hd Hr Er Etx) as [G W].
    split_and!; [by eapply held_evolves; [apply evolves_same|]|done|apply W].
  - injection H as <- <-. destruct Hok as (Hh & _ & Hw). apply Hread; done.
  - destruct Hok as (Hh & Hg & Hw). unfold mbind_ in H. destruct (event_upsert_batch t g w) as [x w1] eqn:Eu.
    pose proof (Forall_cons_1 _ _ _ Hg) as [Hg1 Hgs].
    apply upsert_inv in Eu as (? & He & Hpost); [|done|done].
    destruct x as [k|e]; injection H as <- <-; split_and!; try done. cbn. split_and!; [by eapply held_evolves|done|].
    eapply written_next; [done|done|done|]. intros x Ht Hx. by eapply Hpost.
  - destruct Hok as (Hh & Hw). unfold mbind_ in H. destruct (ack _ _ w) as [x w1] eqn:Ea.
    apply ack_inv in Ea as [? ?]; [|done..]. destruct x; injection H as <- <-; split_and!; done.
Qed.

(** ** Every reachable state *)

(** The invariant holds, and the store has evolved. *)
Definition sys_inv_from (s s' : Sys) : Prop := sys_inv s' /\ evolves (sy_world s) (sy_world s').

Lemma inv_worker s k ws w' :
  sys_inv s -> db_inv w' -> evolves (sy_world s) w' -> worker_ok w' ws -> sys_inv_from s (set_worker k ws w' s).
Proof.
  intros [_ Hw Hc] Hi He Hk. split; [|done]. split; [done| |].
  - intros k' ws'. cbn. rewrite lookup_insert_Some. intros [[-> <-]|[_ H]]; [done|]. eapply worker_ok_evolves; eauto.
  - intros c wr H. eapply writer_ok_evolves; eauto.
Qed.

Lemma inv_chain s c o w' :
  sys_inv s -> db_inv w' -> evolves (sy_world s) w' -> (forall wr, o = Some wr -> writer_ok w' c wr) ->
  sys_inv_from s (set_chain c o w' s).
Proof.
  intros [_ Hw Hc] Hi He Hk. split; [|done]. split; [done| |].
  - intros k ws H. eapply worker_ok_evolves; eauto.
  - intros c' wr. cbn. rewrite lookup_partial_alter. case_decide as E; [subst c'; apply Hk|].
    intros H. eapply writer_ok_evolves; eauto.
Qed.

Lemma sys_step_inv s s' : sys_step mo so decoders start fetched s s' -> sys_inv s -> sys_inv_from s s'.
Proof.
  intros Hst Hinv. pose proof (si_db _ Hinv) as Hi.
  assert (forall w', same_state (sy_world s) w' -> db_inv w' /\ evolves (sy_world s) w') as Hsame
    by (intros w' Sw; split; [by eapply db_inv_same|by apply evolves_same]).
  destruct Hst as [s now faults Hnow|s k ws r w' Hk Hst|s k|s k i row Hk Hrow Hl row'|s secs r w' Hr|s c o w' Hc Hg
    |s c prefix n f r w' Hc Hf Hw|s c prefix n cp r w' Hc Hw|s c prefix n Hc|s c].
  - split; [|split; [cbn; lia|done|apply grown_refl|cbn; eauto]].
    split; [by destruct Hi as [[? ?] ? ? ? ? ?]|apply (si_workers _ Hinv)|apply (si_chains _ Hinv)].
  - destruct (worker_step_inv _ _ _ _ Hst Hi (si_workers _ Hinv _ _ Hk)) as (? & ? & ?). by apply inv_worker.
  - apply inv_worker; [done|done|by apply evolves_same|done].
  - destruct (requeued_inv _ _ (locked_requeued (sy_world s) i row (w_now (sy_world s)) Hrow) Hi) as [? ?].
    apply inv_worker; [done|done|done|]. by apply lease_ok.
  - apply reclaim_inv in Hr as [? He]; [|done]. split; [|done]. split; [done| |].
    + intros k ws Hk. eapply worker_ok_evolves, (si_workers _ Hinv); eauto.
    + intros c wr Hc. eapply writer_ok_evolves, (si_chains _ Hinv); eauto.
  - apply resume_ok in Hg as [Sw Ht]; [|done|done]. destruct (Hsame _ Sw). apply inv_chain; [done|done|done|].
    intros wr [= <-]. by split.
  - destruct (si_chains _ Hinv _ _ Hc) as [Hu Ht]. unfold writer_commit, mbind_ in Hw.
    destruct (commit_range c f 0 (sy_world s)) as [x w1] eqn:Ec. apply commit_inv in Ec as (? & He & Hcomp); [|done..].
    destruct x as [out|e]; [|injection Hw as <- <-; by apply inv_chain].
    pose proof (writer_ok_evolves _ _ c (WrReady prefix n) He (conj Hu Ht)) as [_ Ht1]. destruct Hf as (? & ? & _).
    pose proof (record_ok (w_db w1) c prefix (fr_from f) (fr_to f) (fr_last_block f) Ht1) as Hrec.
    destruct (tracker_record _ _ _ _) as [t' cp]. injection Hw as <- <-. apply inv_chain; [done|done|done|].
    intros wr [= <-]. split; [done|]. apply Hrec; [done|done|by eapply Hcomp].
  - destruct (si_chains _ Hinv _ _ Hc) as (Hu & Ht & Hcp). unfold writer_move, mbind_ in Hw.
    destruct cp as [[h hash]|].
    + destruct (cursor_advance c h hash (sy_world s)) as [x w1] eqn:Ea. apply advance_inv in Ea as [? He]; [|done|by eapply Hcp|done].
      pose proof (writer_ok_evolves _ _ c (WrReady prefix n) He (conj Hu Ht)) as Ht1.
      destruct x; injection Hw as <- <-; apply inv_chain; try done. by intros wr [= <-].
    + injection Hw as <- <-. apply inv_chain; [done|done|by apply evolves_same|]. intros wr [= <-]. by split.
  - destruct (si_chains _ Hinv _ _ Hc) as (Hu & (Hf & _ & Ha)).
    apply inv_chain; [done|done|by apply evolves_same|]. intros wr [= <-]. split; [done|]. split; [cbn|].
    + unfold next_window. destruct (advanced_to prefix) as [a|]; [|done]. destruct (Ha a eq_refl) as [Hb Hs].
      rewrite u64_add_small by (unfold_int; lia). split; [lia|done].
    + split; [|done]. intros ? ? ?. cbn. by rewrite lookup_empty.
  - apply inv_chain; [done|done|by apply evolves_same|done].
Qed.

Lemma sys_reach_inv s s' : sys_reach mo so decoders start fetched s s' -> sys_inv s -> sys_inv_from s s'.
Proof.
  intros H Hs. induction H as [|s1 s2 _ [I1 E1] Hst]; [split; [done|by apply evolves_same]|].
  destruct (sys_step_inv _ _ Hst I1) as [I2 E2]. split; [done|by eapply evolves_trans].
Qed.
End facts.

(** * The guarantees *)

(** Nothing ingested yet, and the tables of events empty. *)
Definition fresh_store (ev_tables : list string) (d : Db) : Prop :=
  db_raw d = ∅ /\ db_queue d = [] /\ db_cursors d = ∅
  /\ forall t tab, t ∈ ev_tables -> db_tables d !! t = Some tab -> t_pk tab = PkEvent /\ t_rows tab = ∅.

Lemma run_inv decoders start recs ev_tables n w :
  fresh_store ev_tables (w_db w) -> sys_inv decoders start recs ev_tables (launched n w).
Proof.
  intros (Hr & Hq & Hc & Ht). split; [split| |].
  - unfold queue_of. cbn. rewrite Hq. split; constructor.
  - cbn. rewrite Hr. intros k v H. by rewrite lookup_empty in H.
  - intros t tab Hin Htab. destruct (Ht t tab Hin Htab) as [? E]. split; [done|]. rewrite E. intros k v Hkv. by rewrite lookup_empty in Hkv.
  - unfold queue_of. cbn. rewrite Hq. by intros q ?%not_elem_of_nil.
  - cbn. rewrite Hr. intros c b r _ [v H]. by rewrite lookup_empty in H.
  - cbn. rewrite Hc. intros c cu hash _ H. by rewrite lookup_empty in H.
  - cbn. intros k ws H. unfold spawn_worker_pool in H.
    apply elem_of_list_to_map_2, list_elem_of_fmap in H as (j & E & _). by injection E as _ ->.
  - cbn. intros c wr H. by rewrite lookup_empty in H.
Qed.

Lemma reachable_inv mo so decoders start recs ev_tables (Hmo : forall l, mo l ≡ₚ l)
    {Hdep : Deployment decoders start recs ev_tables} n w s :
  fresh_store ev_tables (w_db w) -> sys_reach mo so decoders start (fetched recs ev_tables) (launched n w) s ->
  sys_inv decoders start recs ev_tables s.
Proof. intros Hf H. eapply sys_reach_inv; [exact Hmo|exact Hdep|exact H|by apply run_inv]. Qed.

Section inv.
Context (decoders : gmap Z Decoder) (start : Z -> Z) (recs : Z -> Z -> list RawRecord) (ev_tables : list string).
Context {Hdep : Deployment decoders start recs ev_tables} (w : World) (Hi : db_inv decoders start recs ev_tables w).

Lemma inv_decodes_or_queues c cu b hash r :
  is_u64 c -> db_cursors (w_db w) !! as_i64 c = Some (cu, hash) -> Z.max (start c) 1 <= b <= cu -> r ∈ recs c b ->
  db_raw (w_db w) !! raw_key r = Some (raw_row r)
  /\ (decoded_in decoders (w_db w) c b r \/ exists q, q ∈ queue_of w /\ covers q c b).
Proof.
  intros Hc Hcu Hb Hin. destruct (di_cursor _ _ _ _ _ Hi c cu hash Hc Hcu) as [_ Hs].
  assert (is_Some (db_raw (w_db w) !! raw_key r)) as Hst by (apply (Hs b); [lia|done]).
  split; [by eapply (stored_row decoders start recs ev_tables)|by eapply di_work].
Qed.

Lemma inv_tables_sound t tab k v :
  t ∈ ev_tables -> db_tables (w_db w) !! t = Some tab -> t_rows tab !! k = Some v ->
  exists c dec b r row bt, decoders !! c = Some dec /\ r ∈ recs c b /\ dec_decode dec r = Ok (Some row)
    /\ row_table row = t /\ k = event_key c b (rr_index r) /\ v = typed_row true (timed bt row).
Proof.
  intros Ht Htab Hk. destruct (di_tables _ _ _ _ _ Hi t tab Ht Htab) as [_ Hrows].
  destruct (Hrows k v Hk) as (x & (c & dec & b & r & row & bt & Hd & Hrec & E & ->) & Hxt & Hkv).
  destruct (dp_event _ _ _ _ _ Hd Hrec E) as (_ & Ec & Eh & Ei).
  exists c, dec, b, r, row, bt. rewrite typed_kv_event in Hkv. injection Hkv as <- <-. cbn. rewrite Ec, Eh, Ei.
  split_and!; done.
Qed.
End inv.

(** C3: end to end, no record is lost: in every state a run of the indexer can reach (any number of
    chains and workers, their round trips interleaved in any order, crashes, restarts, overlapping
    pulls, reclaims and storage faults), every matched record of a chain from its start block to its
    cursor is stored unchanged, and its event is in its table as it was decoded or its block is in the
    range of an item still in the queue. *)
Theorem run_decodes_or_queues (mo : list (string * list EventRow) -> list (string * list EventRow))
    (so : list bytes -> list bytes) (decoders : gmap Z Decoder) (start : Z -> Z)
    (recs : Z -> Z -> list RawRecord) (ev_tables : list string) (workers : nat) (w : World) (s : Sys)
    (c cu b : Z) (hash : bytes) (r : RawRecord) :
  (forall l, mo l ≡ₚ l) -> Deployment decoders start recs ev_tables -> fresh_store ev_tables (w_db w) ->
  sys_reach mo so decoders start (fetched recs ev_tables) (launched workers w) s ->
  is_u64 c -> db_cursors (w_db (sy_world s)) !! as_i64 c = Some (cu, hash) ->
  Z.max (start c) 1 <= b <= cu -> r ∈ recs c b ->
  db_raw (w_db (sy_world s)) !! raw_key r = Some (raw_row r)
  /\ (decoded_in decoders (w_db (sy_world s)) c b r
      \/ exists q, q ∈ queue_of (sy_world s) /\ covers q c b).
Proof.
  intros Hmo Hdep Hf Hr. apply reachable_inv in Hr as [Hi _ _]; [|done..]. by eapply inv_decodes_or_queues.
Qed.

(** C4: end to end, nothing is made up and nothing doubled: in every reachable state, a row of an event
    table is what decoding one record of a configured chain gives, under the key of that record, and
    a record of the raw store is a record of its chain. *)
Theorem run_tables_sound (mo : list (string * list EventRow) -> list (string * list EventRow))
    (so : list bytes -> list bytes) (decoders : gmap Z Decoder) (start : Z -> Z)
    (recs : Z -> Z -> list RawRecord) (ev_tables : list string) (workers : nat) (w : World) (s : Sys) :
  (forall l, mo l ≡ₚ l) -> Deployment decoders start recs ev_tables -> fresh_store ev_tables (w_db w) ->
  sys_reach mo so decoders start (fetched recs ev_tables) (launched workers w) s ->
  (forall t tab k v, t ∈ ev_tables -> db_tables (w_db (sy_world s)) !! t = Some tab -> t_rows tab !! k = Some v ->
     exists c dec b r row bt, decoders !! c = Some dec /\ r ∈ recs c b /\ dec_decode dec r = Ok (Some row)
       /\ row_table row = t /\ k = event_key c b (rr_index r) /\ v = typed_row true (timed bt row))
  /\ forall k v, db_raw (w_db (sy_world s)) !! k = Some v -> exists c b r, r ∈ recs c b /\ (k, v) = raw_kv r.
Proof.
  intros Hmo Hdep Hf Hr. apply reachable_inv in Hr as [Hi _ _]; [|done..]. split; [|by apply (di_raw _ _ _ _ _ Hi)].
  by eapply inv_tables_sound.
Qed.

(** ** A run *)

Definition sample_recs (c b : Z) : list RawRecord :=
  if decide (c = 1) then if decide (b = 5) then [sample_rec 5 0; sample_rec 5 1] else [] else [].
Definition sample_decoders : gmap Z Decoder := <[1 := sample_decoder]> ∅.

Lemma sample_deployment : Deployment sample_decoders (fun _ => 5) sample_recs ["evt"].
Proof.
  assert (forall c b r, r ∈ sample_recs c b -> c = 1 /\ b = 5 /\ (r = sample_rec 5 0 \/ r = sample_rec 5 1)) as Hin.
  { intros c b r. unfold sample_recs. case_decide; [|by intros ?%not_elem_of_nil].
    case_decide; [|by intros ?%not_elem_of_nil]. rewrite !elem_of_cons, elem_of_nil. naive_solver. }
  split.
  - intros _. lia.
  - intros c b r (-> & -> & Hr)%Hin. destruct Hr as [-> | ->]; split; try done; apply sample_rec_wf; unfold_int; lia.
  - intros c b r1 r2 (-> & -> & H1)%Hin (_ & _ & H2)%Hin E. by destruct H1 as [-> | ->], H2 as [-> | ->].
  - intros c dec b r row Hd (-> & -> & Hr)%Hin. vm_compute in Hd. injection Hd as <-. cbn. intros [= <-].
    destruct Hr as [-> | ->]; split_and!; try done; left.
  - intros c dec tx row Hd. unfold sample_decoders in Hd.
    destruct (decide (c = 1)) as [->|Hne]; [rewrite lookup_insert_eq in Hd; by injection Hd as <-|].
    by rewrite lookup_insert_ne, lookup_empty in Hd.
  - intros t ->%list_elem_of_singleton. done.
Qed.

Definition sample_range : FetchedRange :=
  mkFetchedRange 5 6 [sample_rec 5 0; sample_rec 5 1] (mkAuxData [mkBlockMeta 1 5 [byte_of 1] [byte_of 0] 50] [])
    (Some (5, [byte_of 1])).
Definition sample_start : World :=
  calm_world (set_queue [] (set_raw ∅ (set_blocks ∅ decode_db))).

(** One chain, one worker: an attempt begins, its range is committed, the cursor moves, the worker decodes. *)
Definition sample_committed : World := (consume_one 1 (tracker_new 5, 0) sample_range sample_start).2.
Definition sample_decoded : World := (run_once (fun l => l) (fun l => l) sample_decoders sample_committed).2.
Definition sample_end : Sys :=
  set_worker 0 WIdle sample_decoded
    (set_chain 1 (Some (WrReady (tracker_record (tracker_new 5) 5 6 (Some (5, [byte_of 1]))).1 2)) sample_committed
      (set_chain 1 (Some (WrReady (tracker_new 5) 0)) sample_start (launched 1 sample_start))).

Lemma sample_fetched : fetched sample_recs ["evt"] 1 sample_range.
Proof. split; [cbn; lia|]. split; [cbn; lia|]. split; [by vm_compute|]. by intros r ?%not_elem_of_nil. Qed.

Lemma sample_run :
  sys_reach (fun l => l) (fun l => l) sample_decoders (fun _ => 5) (fetched sample_recs ["evt"]) (launched 1 sample_start) sample_end.
Proof.
  eapply sys_reach_trans.
  { apply sys_reach_one, (SStart _ _ _ _ _ (launched 1 sample_start) 1 None sample_start); [unfold_int; lia|by vm_compute]. }
  eapply sys_reach_trans.
  { eapply (consume_reach (fun l => l) (fun l => l) sample_decoders (fun _ => 5) (fetched sample_recs ["evt"]) 1 (tracker_new 5) 0
      sample_range _ (Ok ((tracker_record (tracker_new 5) 5 6 (Some (5, [byte_of 1]))).1, 2)) sample_committed);
      [apply set_chain_at|apply sample_fetched|by vm_compute]. }
  eapply (run_once_reach (fun l => l) (fun l => l) sample_decoders (fun _ => 5) (fetched sample_recs ["evt"]) 0 _ (Ok (Some 2)));
    by vm_compute.
Qed.

Lemma sample_fresh : fresh_store ["evt"] (w_db sample_start).
Proof. split_and!; try done. intros t tab ->%list_elem_of_singleton Htab. vm_compute in Htab. by injection Htab as <-. Qed.

Lemma run_decodes_or_queues_witness :
  queue_of (sy_world sample_end) = []
  /\ db_cursors (w_db (sy_world sample_end)) !! 1 = Some (6, [byte_of 1])
  /\ db_raw (w_db (sy_world sample_end)) !! (1, 5, 1) = Some (raw_row (sample_rec 5 1))
  /\ (decoded_in sample_decoders (w_db (sy_world sample_end)) 1 5 (sample_rec 5 1)
      \/ exists q, q ∈ queue_of (sy_world sample_end) /\ covers q 1 5).
Proof.
  split; [by vm_compute|]. split; [by vm_compute|].
  apply (run_decodes_or_queues (fun l => l) (fun l => l) sample_decoders (fun _ => 5) sample_recs ["evt"] 1 sample_start sample_end
           1 6 5 [byte_of 1] (sample_rec 5 1)).
  - done.
  - apply sample_deployment.
  - apply sample_fresh.
  - apply sample_run.
  - unfold_int; lia.
  - by vm_compute.
  - lia.
  - right. left.
Defined.

Lemma run_tables_sound_witness :
  (exists tab, db_tables (w_db (sy_world sample_end)) !! "evt" = Some tab /\ size (t_rows tab) = 2%nat)
  /\ forall k v, db_raw (w_db (sy_world sample_end)) !! k = Some v -> exists c b r, r ∈ sample_recs c b /\ (k, v) = raw_kv r.
Proof.
  split; [eexists; split; by vm_compute|].
  apply (run_tables_sound (fun l => l) (fun l => l) sample_decoders (fun _ => 5) sample_recs ["evt"] 1 sample_start sample_end).
  - done.
  - apply sample_deployment.
  - apply sample_fresh.
  - apply sample_run.
Defined.
