(* ===== verification/SystemLive.v ===== *)
(** Progress of the running indexer: once storage stops failing and the leases of dead workers have
    expired, one worker decodes everything the writers have committed up to their cursors, from any
    state a run can reach. *)
From S2P Require Import Prelude Model Btree Text Encode Store Repos Queue UnitOfWork Services ServicesFacts Ranges Plan Pipeline Ingest IngestFacts Worker System SystemSteps SystemFacts.

(** A stored transaction of chain [c]: its calldata can be read and decodes, to a row that fits its table or to none. *)
Definition call_decodes (dec : Decoder) (c : Z) (d : Db) (r : TypedRow) : Prop :=
  exists tc o, calldata_of c r = Some tc /\ dec_decode_call dec tc = Ok o
    /\ forall row bt, o = Some row -> is_valid_ident (row_table row) = true /\ row_table row <> "transactions"
         /\ row_fits d (row_table row) (timed bt row).

Definition calls_decode (dec : Decoder) (c : Z) (d : Db) : Prop :=
  exists tab, db_tables d !! "transactions" = Some tab
    /\ forall r, r ∈ (map_to_list (t_rows tab)).*2 -> tr_chain_id r = as_i64 c -> call_decodes dec c d r.

Lemma calls_decode_grown dec c d d' :
  grown d d' -> db_tables d' !! "transactions" = db_tables d !! "transactions" -> calls_decode dec c d -> calls_decode dec c d'.
Proof.
  intros Hg Ht (tab & Htab & Hr). exists tab. split; [by rewrite Ht|]. intros r Hin Hch.
  destruct (Hr r Hin Hch) as (tc & o & E1 & E2 & Hok). exists tc, o. split_and!; [done|done|].
  intros row bt Ho. destruct (Hok row bt Ho) as (? & ? & ?). eauto using row_fits_grown.
Qed.

Section live.
Context (mo : list (string * list EventRow) -> list (string * list EventRow)) (so : list bytes -> list bytes).
Context (Hmo : forall l, mo l ≡ₚ l) (Hso : forall l, so l ≡ₚ l).
Context (decoders : gmap Z Decoder) (start : Z -> Z) (recs : Z -> Z -> list RawRecord) (ev_tables : list string).
Context {Hdep : Deployment decoders start recs ev_tables}.
Abbreviation reach := (sys_reach mo so decoders start (fetched recs ev_tables)).
Abbreviation inv := (sys_inv decoders start recs ev_tables).

(** Every record of the chains decodes, to a row that fits its table, and so do the stored transactions of a chain
    whose calls are decoded. *)
Record writable (d : Db) : Prop := mkWritable {
  wr_decodes : forall c dec b r, decoders !! c = Some dec -> r ∈ recs c b -> exists o, dec_decode dec r = Ok o;
  wr_calls : forall c dec, decoders !! c = Some dec -> dec_has_calls dec = true -> calls_decode dec c d;
  wr_fits : forall c dec b r row bt, decoders !! c = Some dec -> r ∈ recs c b -> dec_decode dec r = Ok (Some row) ->
    is_valid_ident (row_table row) = true /\ row_table row <> "transactions" /\ row_fits d (row_table row) (timed bt row)
}.

Lemma writable_grown d d' :
  grown d d' -> db_tables d' !! "transactions" = db_tables d !! "transactions" -> writable d -> writable d'.
Proof.
  intros Hg Ht [A B C]. split; [done|intros c dec H1 H2; by apply (calls_decode_grown dec c d); eauto|].
  intros c dec b r row bt H1 H2 H3. destruct (C c dec b r row bt H1 H2 H3) as (? & ? & ?). eauto using row_fits_grown.
Qed.

(** Then every item of the queue can be decoded. *)
Lemma queue_decodable s q :
  inv s -> calm (sy_world s) -> writable (w_db (sy_world s)) -> q ∈ queue_of (sy_world s) ->
  item_decodable decoders (w_db (sy_world s)) (lease_item q).
Proof.
  intros Hs Hc [Hdec Hcalls Hfit] Hq dec Hd. pose proof (si_db _ _ _ _ _ Hs) as Hi. set (i := lease_item q) in *.
  assert (raw_ok recs i (raw_range_rows (wi_chain_id i) (wi_from i) (wi_to i) (db_raw (w_db (sy_world s))))) as Hraw.
  { eapply raw_range_ok; [exact Hdep|exact Hi|by apply (di_queue _ _ _ _ _ Hi)|].
    apply mmap_err_Ok, sql_calm; [exact Hc|reflexivity]. }
  split.
  - intros r (b & _ & Hr)%Hraw. by eapply Hdec.
  - intros Hb. destruct (Hcalls _ _ Hd Hb) as (tab & Htab & Hrows). exists tab. split; [done|].
    intros r Hr Hch _. destruct (Hrows r Hr Hch) as (tc & o & ? & ? & _). eauto.
  - intros x (row & -> & Hrow)%list_elem_of_fmap. change (row_table (stamp ?t row)) with (row_table row).
    apply elem_of_app in Hrow as [(r & (b & _ & Hr)%Hraw & E)%list_elem_of_omap|Hrow].
    + unfold ok_row in E. destruct (dec_decode dec r) as [o|] eqn:Er; [|done]. subst o. by eapply (Hfit _ dec b r row).
    + destruct (dec_has_calls dec) eqn:Hb; [|by apply not_elem_of_nil in Hrow].
      destruct (Hcalls _ _ Hd Hb) as (tab & Htab & Hrows).
      apply list_elem_of_omap in Hrow as (tc & (r & Hr & Etc)%list_elem_of_omap & E).
      unfold tx_rows, parents in Hr. rewrite Htab in Hr. cbn in Hr. apply list_elem_of_filter in Hr as [[Hch _] Hr].
      destruct (Hrows r Hr Hch) as (tc' & o & Etc' & Eo & Hok). rewrite Etc in Etc'. injection Etc' as <-.
      unfold ok_row in E. rewrite Eo in E. by apply Hok.
Qed.

(** ** The turns of a worker and the ticks of the reclaim as steps of the system *)

Lemma worker_reach k naps poll_ms poll_idle_ms s waits w' :
  sy_workers s !! k = Some WIdle ->
  spawn_decode_worker mo so decoders poll_ms poll_idle_ms naps (sy_world s) = (waits, w') ->
  reach s (set_worker k WIdle w' s).
Proof.
  revert s waits. induction naps as [|cancelled naps IH]; intros s waits Hk H; cbn [spawn_decode_worker] in H.
  { injection H as _ <-. apply sys_reach_one, SCrash. }
  destruct (run_once mo so decoders (sy_world s)) as [r w1] eqn:E.
  pose proof (run_once_reach mo so decoders start (fetched recs ev_tables) k s r w1 Hk E) as H1.
  destruct cancelled; [by injection H as _ <-|].
  destruct (spawn_decode_worker _ _ _ _ _ naps w1) as [ws w2] eqn:E2. injection H as _ <-.
  eapply sys_reach_trans; [exact H1|]. rewrite <- (set_worker_twice k WIdle WIdle w2 w1 s).
  eapply IH; [apply lookup_insert_eq|exact E2].
Qed.

Lemma ticker_reach now s :
  w_now (sy_world s) <= now -> reach s (set_world (spawn_reclaim_ticker [now] (sy_world s)) s).
Proof.
  intros Hn. unfold spawn_reclaim_ticker. cbn [fold_left].
  destruct (reclaim 60 (set_now now (sy_world s))) as [r w1] eqn:E. cbn [snd].
  eapply sys_reach_trans; [apply sys_reach_one, (SEnv _ _ _ _ _ s now (w_faults (sy_world s)) Hn)|].
  eapply (sys_reach_one _ _ _ _ _ _ (set_world w1 (set_world _ s))), SReclaim. exact E.
Qed.

(** A worker catches up: the queue is empty, and what was stored is decoded. *)
Lemma caught_up s poll_ms poll_idle_ms now :
  inv s -> calm (sy_world s) -> writable (w_db (sy_world s)) -> w_now (sy_world s) <= now ->
  (forall q t, q ∈ queue_of (sy_world s) -> wq_locked_at q = Some t -> t + 60 < now) ->
  let n := length (queue_of (sy_world s)) in
  exists s', reach s s' /\ queue_of (sy_world s') = []
    /\ spawn_decode_worker mo so decoders poll_ms poll_idle_ms (replicate n false) (spawn_reclaim_ticker [now] (sy_world s))
         = (replicate n poll_ms, sy_world s')
    /\ forall c b r, r ∈ recs c b -> is_Some (db_raw (w_db (sy_world s)) !! raw_key r) ->
         decoded_in decoders (w_db (sy_world s')) c b r.
Proof.
  intros Hs Hc Hw Hnow Hold n. pose proof (di_ids _ _ _ _ _ (si_db _ _ _ _ _ Hs)) as [Hnd _].
  destruct (reclaimed_emptied mo so Hmo Hso decoders poll_ms poll_idle_ms now (sy_world s) Hc Hnd Hold)
    as (_ & _ & w' & E & _ & Q & _); [intros q Hq; by apply queue_decodable|].
  set (s1 := set_worker 0 WIdle (spawn_reclaim_ticker [now] (sy_world s)) s).
  assert (reach s (set_worker 0 WIdle w' s1)) as Hr.
  { eapply sys_reach_trans; [by apply ticker_reach|].
    eapply sys_reach_trans; [eapply (sys_reach_one _ _ _ _ _ _ s1), (SCrash _ _ _ _ _ (set_world _ s) 0)|].
    eapply worker_reach; [apply lookup_insert_eq|exact E]. }
  exists (set_worker 0 WIdle w' s1). split_and!; [done|done|done|]. intros c b r Hr1 Hst.
  destruct (sys_reach_inv _ _ Hmo _ _ _ _ _ _ Hr Hs) as [[Hi' _ _] He].
  destruct (di_work _ _ _ _ _ Hi' c b r Hr1 (ev_raw _ _ He _ Hst)) as [Hd|(q & Hq & _)]; [done|].
  cbn in Hq. rewrite Q in Hq. by apply not_elem_of_nil in Hq.
Qed.
End live.
