(* ===== verification/PoolLive.v ===== *)
(** The pool of decode workers drains the queue under every fair schedule: the workers' round trips may
    interleave in any order, with any time passing between them, as long as no worker is left out for
    ever. *)
From S2P Require Import Prelude Model Btree Text Encode Store Repos Queue UnitOfWork Services ServicesFacts Ranges Plan Pipeline Ingest IngestFacts Worker System SystemSteps SystemFacts SystemLive.

(** * Schedules *)

Section sched.
Context (mo : list (string * list EventRow) -> list (string * list EventRow)) (so : list bytes -> list bytes).
Context (decoders : gmap Z Decoder).

(** Seconds pass. *)
Definition pass (dt : Z) (s : Sys) : Sys :=
  set_world (set_now (w_now (sy_world s) + Z.max dt 0) (sy_world s)) s.

(** Worker [k] of the pool does the next piece of its loop. *)
Definition act (k : nat) (s : Sys) : Sys :=
  match sy_workers s !! k with
  | Some ws => let '(r, w) := worker_step mo so decoders ws (sy_world s) in set_worker k (after_step r) w s
  | None => s
  end.

(** A schedule says at each instant how much time passes and which worker acts then. *)
Definition Schedule : Type := nat -> Z * nat.

Definition sched_step (e : Z * nat) (s : Sys) : Sys := act e.2 (pass e.1 s).

(** The state after the first [n] instants. *)
Fixpoint play (sc : Schedule) (n : nat) (s : Sys) : Sys :=
  match n with O => s | S n => play (fun t => sc (S t)) n (sched_step (sc O) s) end.

(** Every worker of the pool acts again and again. *)
Definition fair (pool : gmap nat WState) (sc : Schedule) : Prop :=
  forall k t, is_Some (pool !! k) -> exists t', (t <= t')%nat /\ (sc t').2 = k.
End sched.

(** * The work left *)

(** Sums over the workers. *)
Definition wsum (f : WState -> nat) (m : gmap nat WState) : nat := map_fold (fun _ ws n => (f ws + n)%nat) O m.

Lemma wsum_insert f m k ws ws' :
  m !! k = Some ws -> (wsum f (<[k := ws']> m) + f ws = wsum f m + f ws')%nat.
Proof.
  intros Hk. unfold wsum. rewrite <- insert_delete_eq.
  rewrite (map_fold_insert_L _ _ k ws' (delete k m)); [|intros; lia|apply lookup_delete_eq].
  rewrite (map_fold_delete_L _ _ k ws m) by (try intros; lia || done). lia.
Qed.

(** Pieces of a turn before its rows are grouped, and after. *)
Definition pieces_before (ws : WState) : nat :=
  match ws with WLeased _ => 3 | WRaw _ _ _ => 2 | WTimes _ _ _ _ => 1 | _ => 0 end.
Definition pieces_after (ws : WState) : nat :=
  match ws with WWrite _ _ gs => 2 + length gs | WDone _ _ => 1 | _ => 0 end.

Definition unlocked (q : list QueueRow) : list QueueRow := filter (fun r => locked r = false) q.

Definition before (s : Sys) : nat :=
  (4 * length (unlocked (queue_of (sy_world s))) + wsum pieces_before (sy_workers s))%nat.
Definition after (s : Sys) : nat := wsum pieces_after (sy_workers s).

(** Less is left. *)
Definition nearer (s' s : Sys) : Prop :=
  (before s' < before s)%nat \/ (before s' = before s /\ (after s' < after s)%nat).

Lemma nearer_ind (P : Sys -> Prop) : (forall s, (forall s', nearer s' s -> P s') -> P s) -> forall s, P s.
Proof.
  intros H. assert (forall a b s, before s = a -> after s = b -> P s) as Hall; [|eauto].
  intros a. induction (lt_wf a) as [a _ IHa]. intros b. induction (lt_wf b) as [b _ IHb]. intros s <- <-.
  apply H. intros s' [Hlt|[He Hlt]]; [by eapply IHa|by eapply IHb].
Qed.

Lemma unlocked_lock q i row now :
  q !! i = Some row -> locked row = false ->
  (length (unlocked (<[i := lock_row now row]> q)) < length (unlocked q))%nat.
Proof.
  intros Hi Hl. unfold unlocked. revert i Hi. induction q as [|x q IH]; intros [|i] Hi; cbn in Hi; [done|done| |].
  - injection Hi as ->. cbn [insert list_insert]. rewrite !filter_cons, decide_False, decide_True by done. cbn. lia.
  - cbn [insert list_insert]. specialize (IH i Hi). rewrite !filter_cons. case_decide; cbn; [by apply (proj1 (Nat.succ_lt_mono _ _))|done].
Qed.

Lemma unlocked_filter (P : QueueRow -> Prop) `{!forall r, Decision (P r)} q :
  (length (unlocked (filter P q)) <= length (unlocked q))%nat.
Proof.
  unfold unlocked. rewrite list_filter_filter. induction q as [|x q IH]; [done|]. rewrite !filter_cons.
  case_decide as H1; case_decide as H2; cbn; try lia. tauto.
Qed.

(** * The pool at work *)

Definition lease_in (ws : WState) : option Lease :=
  match ws with
  | WIdle => None
  | WLeased l | WRaw l _ _ | WTimes l _ _ _ | WWrite l _ _ | WDone l _ => Some l
  end.

#[export] Instance is_idle ws : Decision (ws = WIdle).
Proof. destruct ws; [by left|by right..]. Defined.

(** The lease is the one on the row. *)
Definition leases (l : Lease) (q : QueueRow) : Prop := l_id l = wq_id q /\ l_lease_seq l = wq_lease_seq q.

(** The rows still to be written fit their tables, and none goes to the transactions. *)
Definition wfits (d : Db) (ws : WState) : Prop :=
  match ws with
  | WWrite _ _ gs => forall t g, (t, g) ∈ gs -> is_valid_ident t = true /\ t <> "transactions" /\ Forall (row_fits d t) g
  | _ => True
  end.

Lemma wfits_grown d d' ws : grown d d' -> wfits d ws -> wfits d' ws.
Proof.
  intros Hg. destruct ws; cbn; [done..| |done]. intros H t g Hin. destruct (H t g Hin) as (? & ? & Hf).
  split_and!; [done|done|]. eapply Forall_impl; [exact Hf|]. intros x. by apply row_fits_grown.
Qed.

Section live.
Context (mo : list (string * list EventRow) -> list (string * list EventRow)) (so : list bytes -> list bytes).
Context (Hmo : forall l, mo l ≡ₚ l).
Context (decoders : gmap Z Decoder) (start : Z -> Z) (recs : Z -> Z -> list RawRecord) (ev_tables : list string).
Context {Hdep : Deployment decoders start recs ev_tables}.
Abbreviation reach := (sys_reach mo so decoders start (fetched recs ev_tables)).
Abbreviation inv := (sys_inv decoders start recs ev_tables).
Abbreviation step := (worker_step mo so decoders).

(** Storage serves, and every lease is a live worker's. *)
Record pool_ok (s : Sys) : Prop := mkPoolOk {
  pk_inv : inv s;
  pk_calm : calm (sy_world s);
  pk_writable : writable decoders recs (w_db (sy_world s));
  pk_fits : forall k ws, sy_workers s !! k = Some ws -> wfits (w_db (sy_world s)) ws;
  pk_leased : forall q, q ∈ queue_of (sy_world s) -> locked q = true ->
    exists k ws l, sy_workers s !! k = Some ws /\ lease_in ws = Some l /\ leases l q
}.

(** What a piece of a turn that has begun does. *)
Record piece (w : World) (ws : WState) (w' : World) (ws' : WState) : Prop := mkPiece {
  pc_calm : calm w';
  pc_fits : wfits (w_db w) ws';
  pc_rank : (pieces_before ws' < pieces_before ws)%nat
    \/ (pieces_before ws' = pieces_before ws /\ (pieces_after ws' < pieces_after ws)%nat);
  pc_queue : (queue_of w' = queue_of w /\ lease_in ws' = lease_in ws)
    \/ exists l, lease_in ws = Some l /\ queue_of w' = ack_rows (l_id l) (l_lease_seq l) (queue_of w)
}.

(** The rows of the groups fit. *)
Lemma groups_fit d l dec raw times rows calls :
  writable decoders recs d -> decoders !! wi_chain_id (l_item l) = Some dec -> raw_ok recs (l_item l) raw ->
  decode_all (dec_decode dec) raw = Ok rows ->
  (forall y bt, y ∈ calls -> is_valid_ident (row_table y) = true /\ row_table y <> "transactions" /\ row_fits d (row_table y) (timed bt y)) ->
  forall t g, (t, g) ∈ mo (btree_group str_cmp row_table (stamp times <$> rows ++ calls)) ->
    is_valid_ident t = true /\ t <> "transactions" /\ Forall (row_fits d t) g.
Proof.
  intros Hw Hd Hraw Hrows Hcalls t g. rewrite Hmo. intros Hin. set (all := stamp times <$> rows ++ calls) in Hin.
  destruct (btree_group_spec str_cmp row_table all) as (G1 & G2 & G3). apply (ascending_NoDup str_cmp) in G1.
  assert (forall x, x ∈ all -> is_valid_ident (row_table x) = true /\ row_table x <> "transactions"
    /\ row_fits d (row_table x) x) as Hall.
  { intros x (y & -> & [Hy|Hy]%elem_of_app)%list_elem_of_fmap; [|by apply (Hcalls y (time_at times (er_height y)))].
    apply (decode_all_elem _ _ _ _ Hrows) in Hy as (r & Hr & E). apply Hraw in Hr as (b & _ & Hr).
    by apply (wr_fits _ _ _ Hw _ _ _ _ _ (time_at times (er_height y)) Hd Hr E). }
  rewrite <- (group_of_elem _ _ _ G1 Hin), G3.
  assert (exists x, x ∈ all /\ row_table x = t) as (x & Hx & <-) by (apply G2, list_elem_of_fmap; by exists (t, g)).
  split_and!; [by apply Hall|by apply Hall|]. apply Forall_forall. intros y [E Hy]%list_elem_of_filter. rewrite <- E. by apply Hall.
Qed.

(** Reading and decoding the calls of a range succeeds. *)
Lemma calls_run w c dec ids : calm w -> (dec_has_calls dec = true -> calls_decode dec c (w_db w)) ->
  exists calls, (if dec_has_calls dec then
      do txs <- block_calldata c ids; mlift (decode_all (dec_decode_call dec) txs)
    else mret_ []) w = (Ok calls, w)
    /\ forall y bt, y ∈ calls -> is_valid_ident (row_table y) = true /\ row_table y <> "transactions"
         /\ row_fits (w_db w) (row_table y) (timed bt y).
Proof.
  intros Hc Hok. destruct (dec_has_calls dec); [|exists []; split; [done|by intros y bt ?%not_elem_of_nil]].
  destruct (Hok eq_refl) as (tab & Htab & Hrows).
  destruct (calldata_succeeds c ids w tab (fun tc => exists o, dec_decode_call dec tc = Ok o
    /\ forall row bt, o = Some row -> is_valid_ident (row_table row) = true /\ row_table row <> "transactions"
         /\ row_fits (w_db w) (row_table row) (timed bt row)) Hc Htab) as (txs & E & HP).
  { intros r Hr Hch _. destruct (Hrows r Hr Hch) as (tc & o & ? & ? & ?). eauto. }
  rewrite Forall_forall in HP. destruct (decode_all_succeeds (dec_decode_call dec) txs) as [calls Ecs].
  { intros tc Htc. destruct (HP tc Htc) as (o & ? & _). eauto. }
  exists calls. split; [apply mbind_Ok; exists txs, w; split; [done|]; unfold mlift; by rewrite Ecs|].
  intros y bt (tc & Htc & E1)%(decode_all_elem _ _ _ _ Ecs). destruct (HP tc Htc) as (o & E2 & Hy). rewrite E1 in E2. injection E2 as <-. by apply Hy.
Qed.

(** No piece touches the transactions. *)
Lemma step_transactions ws w r w' :
  step ws w = (r, w') -> wfits (w_db w) ws -> db_tables (w_db w') !! "transactions" = db_tables (w_db w) !! "transactions".
Proof.
  assert (forall w', same_state w w' -> db_tables (w_db w') !! "transactions" = db_tables (w_db w) !! "transactions") as Hsame
    by (by intros v (-> & _)).
  intros H Hf. destruct ws as [|l|l dec raw|l dec raw times|l n [|[t g] gs]|l n]; cbn [worker_step] in H.
  - unfold mbind_ in H. destruct (pull_any w) as [x w1] eqn:Ep. assert (w1 = w') as -> by (destruct x as [[]|]; by injection H as _ <-).
    apply sql_runs in Ep as (v & (Dv & _) & [Hs|[a Ha]] & _); [by apply Hsame|]. rewrite <- Dv.
    destruct (pull_rows _ _) as [[l q]|]; by injection Ha as _ <-.
  - destruct (decoders !! wi_chain_id (l_item l)); [|by injection H as _ <-]. unfold mbind_ in H.
    destruct (raw_range _ _ _ w) as [x w1] eqn:Er. apply reads_raw_range in Er. destruct x; injection H as _ <-; by apply Hsame.
  - unfold mbind_ in H. destruct (block_times _ _ _ w) as [x w1] eqn:Er. apply reads_block_times in Er.
    destruct x; injection H as _ <-; by apply Hsame.
  - by apply Hsame, (reads_decode mo so decoders l dec raw times w r w' H).
  - by injection H as _ <-.
  - unfold mbind_ in H. destruct (event_upsert_batch t g w) as [x w1] eqn:Eu. destruct (Hf t g) as (_ & Hne & _); [left|].
    assert (w1 = w') as -> by (destruct x; by injection H as _ <-).
    destruct (upsert_effect _ _ _ _ _ Eu) as [->| ->]; [done|]. cbn. by rewrite lookup_alter_ne.
  - unfold mbind_ in H. destruct (ack _ _ w) as [x w1] eqn:Ea. assert (w1 = w') as -> by (destruct x; by injection H as _ <-).
    apply sql_runs in Ea as (v & (Dv & _) & [Hs|[a [= _ <-]]] & _); [by apply Hsame|]. by rewrite <- Dv.
Qed.

Lemma piece_done s k ws :
  pool_ok s -> sy_workers s !! k = Some ws -> ws <> WIdle ->
  exists r w', step ws (sy_world s) = (Ok r, w') /\ piece (sy_world s) ws w' (after_step (Ok r)).
Proof.
  intros Hs Hk Hne. pose proof (pk_calm _ Hs) as Hc. pose proof (si_workers _ _ _ _ _ (pk_inv _ Hs) _ _ Hk) as Hok.
  destruct ws as [|l|l dec raw|l dec raw times|l n [|[t g] gs]|l n]; [done|..]; cbn [worker_step]; clear Hne.
  - destruct (decoders !! _) as [dec|] eqn:Ed.
    + eexists _, (sy_world s). split; [apply mbind_Ok; eexists _, _; split; [by apply mmap_err_Ok, sql_calm|done]|].
      split; cbn; [done|done|lia|by left].
    + eexists _, (sy_world s). split; [done|]. split; cbn; [done|done|lia|by left].
  - eexists _, (sy_world s). split; [apply mbind_Ok; eexists _, _; split; [by apply mmap_err_Ok, sql_calm|done]|].
    split; cbn; [done|done|lia|by left].
  - destruct Hok as (_ & Hd & Hraw). pose proof (pk_writable _ Hs) as Hw.
    destruct (decode_all_succeeds (dec_decode dec) raw) as [rows Hrows].
    { intros r (b & _ & Hr)%Hraw. by eapply wr_decodes. }
    destruct (calls_run (sy_world s) (wi_chain_id (l_item l)) dec (so (remove_dups (rr_tx_id <$> raw)))) as (calls & Ec & Hcs);
      [done|by eapply wr_calls|].
    eexists _, (sy_world s). split.
    + apply mbind_Ok. exists rows, (sy_world s). split; [unfold mlift; by rewrite Hrows|].
      apply mbind_Ok. by exists calls, (sy_world s).
    + split; cbn; [done|by eapply groups_fit|lia|by left].
  - eexists _, (sy_world s). split; [done|]. split; cbn; [done|done|right; lia|by left].
  - pose proof (pk_fits _ Hs _ _ Hk) as Hf. cbn in Hf. destruct (Hf t g) as (Hv & _ & Hg); [left|].
    destruct (event_upsert_batch_succeeds (w_db (sy_world s)) t g Hv Hg (sy_world s) Hc) as (m & w' & E & Hc' & _);
      [apply grown_refl|].
    eexists _, w'. split; [apply mbind_Ok; by exists m, w'|]. split; cbn; [done| |right; lia|].
    + intros t' g' Hin. apply Hf. by right.
    + left. split; [by eapply event_upsert_batch_queue|done].
  - eexists _, (upd_db (set_queue (ack_rows (l_id l) (l_lease_seq l) (queue_of (sy_world s)))) (sy_world s)).
    split; [apply mbind_Ok; eexists tt, _; split; [by apply mmap_err_Ok, sql_calm|done]|].
    split; cbn; [done|done|right; lia|]. right. by exists l.
Qed.

(** Worker [k] goes on to [ws'] with the queue's leases accounted for. *)
Lemma pool_next s k ws r w' :
  pool_ok s -> sy_workers s !! k = Some ws -> step ws (sy_world s) = (r, w') -> calm w' ->
  wfits (w_db (sy_world s)) (after_step r) ->
  (forall q, q ∈ queue_of w' -> locked q = true ->
     (exists l, lease_in (after_step r) = Some l /\ leases l q)
     \/ (q ∈ queue_of (sy_world s) /\ forall l, lease_in ws = Some l -> ~ leases l q)) ->
  pool_ok (set_worker k (after_step r) w' s).
Proof.
  intros Hs Hk Hst Hc Hf Hq.
  destruct (sys_step_inv mo so Hmo _ _ _ _ _ _ (SWorker mo so decoders start _ s k ws r w' Hk Hst) (pk_inv _ Hs)) as [Hi He].
  cbn in He. split; [done|done| | |].
  { eapply writable_grown; [apply He|by eapply step_transactions, pk_fits|by apply pk_writable]. }
  - intros k' ws'. cbn. rewrite lookup_insert_Some. intros H. eapply wfits_grown; [apply He|].
    destruct H as [[_ <-]|[_ H]]; [done|by eapply pk_fits].
  - intros q Hin Hl. destruct (Hq q Hin Hl) as [(l & Hl1 & Hl2)|[Hin' Hno]].
    + exists k, (after_step r), l. split; [apply lookup_insert_eq|done].
    + destruct (pk_leased _ Hs q Hin' Hl) as (k' & ws' & l & Hk' & Hl1 & Hl2). exists k', ws', l. split; [|done].
      destruct (decide (k = k')) as [<-|Hne]; [|by cbn; rewrite lookup_insert_ne].
      rewrite Hk in Hk'. injection Hk' as <-. by destruct (Hno l Hl1).
Qed.

Lemma nearer_worker s k ws ws' w' :
  sy_workers s !! k = Some ws ->
  (length (unlocked (queue_of w')) <= length (unlocked (queue_of (sy_world s))))%nat ->
  ((pieces_before ws' < pieces_before ws)%nat
    \/ (pieces_before ws' = pieces_before ws /\ (pieces_after ws' < pieces_after ws)%nat)) ->
  nearer (set_worker k ws' w' s) s.
Proof.
  intros Hk Hq Hr. unfold nearer, before, after. cbn.
  pose proof (wsum_insert pieces_before _ _ _ ws' Hk). pose proof (wsum_insert pieces_after _ _ _ ws' Hk). lia.
Qed.

(** A worker in its turn always gets nearer. *)
Lemma busy_act s k ws :
  pool_ok s -> sy_workers s !! k = Some ws -> ws <> WIdle ->
  pool_ok (act mo so decoders k s) /\ nearer (act mo so decoders k s) s.
Proof.
  intros Hs Hk Hne. unfold act. rewrite Hk. destruct (piece_done s k ws Hs Hk Hne) as (r & w' & E & [C F R Q]).
  rewrite E. split; [eapply pool_next; [done|exact Hk|exact E|done|done|]|apply (nearer_worker s k ws); [done| |done]].
  - intros q Hq _. destruct Q as [[Eq El]|(l & El & Eq)]; rewrite Eq in Hq.
    + destruct (lease_in ws) as [l|] eqn:Hl; [|by right]. rewrite El.
      destruct (decide (l_id l = wq_id q /\ l_lease_seq l = wq_lease_seq q)) as [Hy|Hn]; [left; by exists l|].
      right. split; [done|]. intros l' [= <-]. exact Hn.
    + apply list_elem_of_filter in Hq as [Hn Hq]. right. split; [done|]. rewrite El. intros l' [= <-] [? ?]. by apply Hn.
  - destruct Q as [[-> _]|(l & _ & ->)]; [done|]. apply unlocked_filter.
Qed.

(** An idle worker leases the oldest ready row, if there is one. *)
Lemma idle_act s k :
  pool_ok s -> sy_workers s !! k = Some WIdle ->
  match list_find (fun r => ready (queue_of (sy_world s)) r) (queue_of (sy_world s)) with
  | None => act mo so decoders k s = s
  | Some _ => pool_ok (act mo so decoders k s) /\ nearer (act mo so decoders k s) s
  end.
Proof.
  intros Hs Hk. unfold act. rewrite Hk. set (w := sy_world s). pose proof (pk_calm _ Hs) as Hc.
  assert (step WIdle w = match list_find (fun r => ready (queue_of w) r) (queue_of w) with
    | None => (Ok (inr None), w)
    | Some (i, row) => (Ok (inl (WLeased (lease_of (lock_row (w_now w) row)))),
        upd_db (set_queue (<[i := lock_row (w_now w) row]> (queue_of w))) w)
    end) as Hstep.
  { cbn [worker_step]. destruct (list_find _ _) as [[i row]|] eqn:Ef; apply mbind_Ok;
      [exists (Some (lease_of (lock_row (w_now w) row))); eexists|exists None, w]; (split; [|done]);
      apply mmap_err_Ok, sql_calm; try done; unfold pull_rows; unfold queue_of in Ef; by rewrite Ef. }
  destruct (list_find _ (queue_of w)) as [[i row]|] eqn:Ef; rewrite ?Hstep.
  - apply list_find_Some in Ef as (Hi & Hr & _). apply Is_true_true, andb_true_iff in Hr as [Hl _].
    apply negb_true_iff in Hl. split.
    + apply (pool_next s k WIdle _ _ Hs Hk Hstep); [done|done|].
      intros q (j & Hj)%list_elem_of_lookup Hlq. cbn in Hj.
      destruct (decide (i = j)) as [<-|Hne].
      * rewrite list_lookup_insert_eq in Hj by (by eapply lookup_lt_Some). injection Hj as <-. left. eexists. done.
      * rewrite list_lookup_insert_ne in Hj by done. right. split; [by eapply list_elem_of_lookup_2|done].
    + unfold nearer, before. left. cbn [sy_world sy_workers set_worker after_step]. change (sy_world s) with w.
      pose proof (wsum_insert pieces_before _ _ _ (WLeased (lease_of (lock_row (w_now w) row))) Hk) as Hw.
      cbn [pieces_before] in Hw. pose proof (unlocked_lock (queue_of w) i row (w_now w) Hi Hl) as Hu.
      change (queue_of (upd_db (set_queue (<[i := lock_row (w_now w) row]> (queue_of w))) w))
        with (<[i := lock_row (w_now w) row]> (queue_of w)). lia.
  - unfold set_worker, w. cbn. rewrite insert_id by done. by destruct s.
Qed.

(** While the queue has rows, some worker can get nearer. *)
Lemma someone_can s k0 :
  pool_ok s -> is_Some (sy_workers s !! k0) -> queue_of (sy_world s) <> [] ->
  exists k, is_Some (sy_workers s !! k) /\ (sy_workers s !! k <> Some WIdle
    \/ is_Some (list_find (fun r => ready (queue_of (sy_world s)) r) (queue_of (sy_world s)))).
Proof.
  intros Hs Hk0 Hq. destruct (list_find _ _) as [x|] eqn:Ef; [exists k0; split; [done|right; by eexists]|].
  apply list_find_None in Ef. rewrite Forall_forall in Ef.
  assert (exists q, q ∈ queue_of (sy_world s) /\ locked q = true) as (q & Hin & Hl).
  { destruct (queue_of (sy_world s)) as [|q qs] eqn:E; [done|]. assert (q ∈ q :: qs) as Hh by left. specialize (Ef q Hh).
    destruct (locked q) eqn:Hl; [exists q; split; [left|done]|]. unfold ready in Ef. rewrite Hl in Ef. cbn [negb andb] in Ef.
    destruct (in_flight (q :: qs) (wq_chain_id q)) eqn:Hf; [|by destruct Ef].
    apply existsb_exists in Hf as (x & Hx & [Hxl _]%andb_true_iff). exists x. split; [by apply list_elem_of_In|done]. }
  destruct (pk_leased _ Hs q Hin Hl) as (k & ws & l & Hk & Hw & _). exists k. split; [by eexists|left].
  rewrite Hk. intros [= ->]. done.
Qed.

(** ** Time, and whole schedules *)

Lemma pass_ok dt s : pool_ok s -> pool_ok (pass dt s).
Proof.
  intros [Hi Hc Hw Hf Hl]. assert (sys_step mo so decoders start (fetched recs ev_tables) s (pass dt s)) as Hst.
  { apply (SEnv mo so decoders start _ s (w_now (sy_world s) + Z.max dt 0) (w_faults (sy_world s))). lia. }
  destruct (sys_step_inv mo so Hmo _ _ _ _ _ _ Hst Hi) as [Hi' _]. by split.
Qed.

Lemma sched_ok e s : pool_ok s -> pool_ok (sched_step mo so decoders e s).
Proof.
  intros Hs. apply (pass_ok e.1) in Hs. unfold sched_step. destruct (sy_workers (pass e.1 s) !! e.2) as [ws|] eqn:Hk.
  2:{ unfold act. by rewrite Hk. }
  destruct (decide (ws = WIdle)) as [->|Hne]; [|by eapply busy_act].
  pose proof (idle_act _ _ Hs Hk) as Ha. destruct (list_find _ _); [by apply Ha|by rewrite Ha].
Qed.

Lemma play_ok sc n s : pool_ok s -> pool_ok (play mo so decoders sc n s).
Proof. revert sc s. induction n as [|n IH]; intros sc s Hs; [done|]. cbn. by apply IH, sched_ok. Qed.

Lemma sched_reach delivers e s : sys_reach mo so decoders start delivers s (sched_step mo so decoders e s).
Proof.
  unfold sched_step, act. eapply sys_reach_trans.
  { apply sys_reach_one, (SEnv mo so decoders start delivers s (w_now (sy_world s) + Z.max e.1 0) (w_faults (sy_world s))). lia. }
  change (set_world _ s) with (pass e.1 s). destruct (sy_workers (pass e.1 s) !! e.2) as [ws|] eqn:Hk; [|apply SRefl].
  destruct (worker_step _ _ _ ws _) as [r w'] eqn:E. by eapply sys_reach_one, SWorker.
Qed.

Lemma play_reach delivers sc n s : sys_reach mo so decoders start delivers s (play mo so decoders sc n s).
Proof.
  revert sc s. induction n as [|n IH]; intros sc s; [apply SRefl|]. cbn. eapply sys_reach_trans; [apply sched_reach|apply IH].
Qed.

(** An instant at which nobody gets nearer changes the clock only. *)
Lemma sched_cases e s :
  pool_ok s -> nearer (sched_step mo so decoders e s) s \/ sched_step mo so decoders e s = pass e.1 s.
Proof.
  intros Hs. apply (pass_ok e.1) in Hs as Hp. unfold sched_step.
  destruct (sy_workers (pass e.1 s) !! e.2) as [ws|] eqn:Hk; [|right; unfold act; by rewrite Hk].
  destruct (decide (ws = WIdle)) as [->|Hne]; [|left; by eapply (busy_act (pass e.1 s))].
  pose proof (idle_act _ _ Hp Hk) as Ha. destruct (list_find _ _); [left; by apply Ha|by right].
Qed.

(** Worker [k] can get nearer. *)
Definition can (k : nat) (s : Sys) : Prop :=
  is_Some (sy_workers s !! k) /\ (sy_workers s !! k <> Some WIdle
    \/ is_Some (list_find (fun r => ready (queue_of (sy_world s)) r) (queue_of (sy_world s)))).

Lemma can_nearer dt k s : pool_ok s -> can k s -> nearer (sched_step mo so decoders (dt, k) s) s.
Proof.
  intros Hs [[ws Hk] Hc]. apply (pass_ok dt) in Hs as Hp. unfold sched_step. cbn [fst snd].
  destruct (decide (ws = WIdle)) as [->|Hne]; [|by eapply (busy_act (pass dt s))].
  destruct Hc as [Hc|[x Hx]]; [by rewrite Hk in Hc|]. pose proof (idle_act (pass dt s) k Hp Hk) as Ha.
  change (queue_of (sy_world (pass dt s))) with (queue_of (sy_world s)) in Ha. rewrite Hx in Ha. by apply Ha.
Qed.

(** Somebody gets nearer by the time worker [k] acts. *)
Lemma wait_for k n sc s :
  pool_ok s -> can k s -> (sc n).2 = k ->
  exists m, nearer (play mo so decoders sc m s) s.
Proof.
  revert sc s. induction n as [|n IH]; intros sc s Hs Hc Hn.
  - exists 1%nat. cbn. rewrite (surjective_pairing (sc O)), Hn. by apply can_nearer.
  - destruct (sched_cases (sc O) s Hs) as [Hl|He]; [by exists 1%nat|].
    destruct (IH (fun t => sc (S t)) (pass (sc O).1 s)) as [m Hm]; [by apply pass_ok|done|done|].
    exists (S m). cbn. by rewrite He.
Qed.

Lemma play_add sc m n s : play mo so decoders sc (m + n) s = play mo so decoders (fun t => sc (m + t)%nat) n (play mo so decoders sc m s).
Proof. revert sc s. induction m as [|m IH]; intros sc s; [done|]. cbn. by rewrite IH. Qed.

Lemma act_pool k s : dom (sy_workers (act mo so decoders k s)) = dom (sy_workers s).
Proof.
  unfold act. destruct (sy_workers s !! k) as [ws|] eqn:Hk; [|done]. destruct (worker_step _ _ _ ws _) as [r w']. cbn.
  apply elem_of_dom_2 in Hk. rewrite dom_insert_L. set_solver.
Qed.

Lemma play_pool sc n s : dom (sy_workers (play mo so decoders sc n s)) = dom (sy_workers s).
Proof. revert sc s. induction n as [|n IH]; intros sc s; [done|]. cbn. rewrite IH. apply (act_pool (sc O).2 (pass (sc O).1 s)). Qed.

Lemma fair_empties sc s k0 :
  pool_ok s -> is_Some (sy_workers s !! k0) -> fair (sy_workers s) sc ->
  exists n, queue_of (sy_world (play mo so decoders sc n s)) = [].
Proof.
  revert sc. induction s as [s IH] using nearer_ind. intros sc Hs Hk0 Hf.
  destruct (decide (length (queue_of (sy_world s)) = O)) as [Hz|Hq]; [exists O; by apply nil_length_inv|].
  destruct (someone_can s k0 Hs Hk0) as (k & Hk); [intros E; by rewrite E in Hq|].
  destruct (Hf k O (proj1 Hk)) as (t & _ & Ht). destruct (wait_for k t sc s Hs Hk Ht) as [m Hm].
  destruct (IH _ Hm (fun t => sc (m + t)%nat)) as [n Hn].
  - by apply play_ok.
  - rewrite <- elem_of_dom, play_pool. by apply elem_of_dom.
  - intros k' t' Hk'. destruct (Hf k' (m + t')%nat) as (t2 & Hle & E).
    { rewrite <- elem_of_dom, play_pool in Hk'. by apply elem_of_dom. }
    exists (t2 - m)%nat. split; [lia|]. by replace (m + (t2 - m))%nat with t2 by lia.
  - exists (m + n)%nat. by rewrite play_add.
Qed.

(** An empty queue stays empty while only the pool works. *)
Lemma sched_empty e s :
  pool_ok s -> queue_of (sy_world s) = [] -> queue_of (sy_world (sched_step mo so decoders e s)) = [].
Proof.
  intros Hs Hq. apply (pass_ok e.1) in Hs as Hp. unfold sched_step.
  destruct (sy_workers (pass e.1 s) !! e.2) as [ws|] eqn:Hk; [|unfold act; by rewrite Hk].
  destruct (decide (ws = WIdle)) as [->|Hne].
  - pose proof (idle_act _ _ Hp Hk) as Ha. change (queue_of (sy_world (pass e.1 s))) with (queue_of (sy_world s)) in Ha.
    rewrite Hq in Ha. cbn in Ha. by rewrite Ha.
  - unfold act. rewrite Hk. destruct (piece_done _ _ _ Hp Hk Hne) as (r & w' & -> & [_ _ _ Q]). cbn [sy_world set_worker].
    change (queue_of (sy_world (pass e.1 s))) with (queue_of (sy_world s)) in Q. rewrite Hq in Q.
    by destruct Q as [[-> _]|(l & _ & ->)].
Qed.

Lemma play_empty sc n s :
  pool_ok s -> queue_of (sy_world s) = [] -> queue_of (sy_world (play mo so decoders sc n s)) = [].
Proof. revert sc s. induction n as [|n IH]; intros sc s Hs Hq; [done|]. cbn. apply IH; [by apply sched_ok|by apply sched_empty]. Qed.

(** A pool that starts on a store whose leases have all been freed. *)
Lemma fresh_pool_ok n w :
  db_inv decoders start recs ev_tables w -> calm w -> writable decoders recs (w_db w) ->
  Forall (fun r => locked r = false) (queue_of w) -> pool_ok (launched n w).
Proof.
  intros Hi Hc Hw Hu.
  assert (forall k ws, spawn_worker_pool n !! k = Some ws -> ws = WIdle) as Hidle.
  { intros k ws Hk. apply elem_of_list_to_map_2, list_elem_of_fmap in Hk as (j & [= _ ->] & _). done. }
  split; [split; [done| |]|done|done| |].
  - by intros k ws ->%Hidle.
  - intros c wr Hc'. cbn in Hc'. by rewrite lookup_empty in Hc'.
  - by intros k ws ->%Hidle.
  - intros q Hq Hl. rewrite Forall_forall in Hu. cbn in Hq. by rewrite (Hu q Hq) in Hl.
Qed.

(** Under a fair schedule the pool decodes everything stored, for good. *)
Lemma pool_catches_up n w sc :
  (0 < n)%nat -> db_inv decoders start recs ev_tables w -> calm w -> writable decoders recs (w_db w) ->
  Forall (fun r => locked r = false) (queue_of w) -> fair (spawn_worker_pool n) sc ->
  exists t, forall t', (t <= t')%nat ->
    let w' := sy_world (play mo so decoders sc t' (launched n w)) in
    queue_of w' = [] /\ evolves w w'
    /\ forall c b r, r ∈ recs c b -> is_Some (db_raw (w_db w) !! raw_key r) -> decoded_in decoders (w_db w') c b r.
Proof.
  intros Hn Hi Hc Hw Hu Hf. pose proof (fresh_pool_ok n w Hi Hc Hw Hu) as Hp.
  destruct (fair_empties sc (launched n w) O Hp) as [t Ht]; [|done|].
  { cbn. unfold spawn_worker_pool. destruct n as [|n]; [lia|]. cbn. rewrite lookup_insert_eq. by eexists. }
  exists t. intros t' Hle w'.
  assert (queue_of w' = []) as Hq.
  { unfold w'. replace t' with (t + (t' - t))%nat by lia. rewrite play_add. apply play_empty; [by apply play_ok|done]. }
  destruct (sys_reach_inv mo so Hmo _ _ _ _ _ _ (play_reach (fetched recs ev_tables) sc t' (launched n w)) (pk_inv _ Hp)) as [[Hi' _ _] He].
  split_and!; [done|exact He|]. intros c b r Hr Hst.
  destruct (di_work _ _ _ _ _ Hi' c b r Hr (ev_raw _ _ He _ Hst)) as [Hd|(q & Hin & _)]; [done|].
  change (queue_of w' = []) in Hq. unfold w' in Hq. rewrite Hq in Hin. by apply not_elem_of_nil in Hin.
Qed.
End live.
