(* ===== verification/Reorg.v ===== *)
(** Reorgs of stored blocks, in the running system.  The reorg check ([reorg.rs], [check]) rolls a chain back to
    [confirmations] below its highest stored block ([unit_of_work.rs], [rollback_to]): it deletes what is
    stored of the chain from there on, but neither touches the queue nor stops a worker.  Here: when the
    fork is not deeper than that and nothing of the blocks rolled back is queued or in a worker's hands, the
    guarantees of [SystemFacts] hold afterwards for the new fork, over any number of reorgs; and a run in
    which a worker still holds an orphaned range, where they fail. *)
From S2P Require Import Prelude Model Btree Text Encode Store Repos Queue UnitOfWork Services ServicesFacts Ranges Plan Pipeline Ingest IngestFacts Worker System SystemSteps SystemFacts SystemLive PoolLive.

(** * What a rollback leaves *)

Lemma rollback_cases chain from tables w r w' :
  (forall tab, db_tables (w_db w) !! "transactions" = Some tab -> t_fk tab = false) ->
  rollback_to chain from tables w = (r, w') ->
  match r with
  | Ok _ => rolled_back chain from tables (w_db w) (w_db w')
  | Err _ => w_db w' = w_db w \/ rolled_back chain from tables (w_db w) (w_db w')
  end.
Proof.
  intros Htx H. destruct r as [a|e]; [by eapply rollback_ok|].
  apply in_tx_Err in H as [H|(w1 & w2 & a & (D1 & _) & H & (D2 & _))]; [by left|right].
  rewrite <- D1 in Htx. apply rollback_tx_refines in H; [|done]. by rewrite D2, <- D1.
Qed.

Lemma rollback_seq chain from tables : seq_mono (rollback_to chain from tables).
Proof.
  apply seq_mono_in_tx. unfold rollback_to_tx. apply seq_mono_bind; [apply seq_mono_mfor; intros t|intros _].
  { apply seq_mono_bind; [|intros; apply seq_mono_ret]. apply seq_mono_map_err. unfold event_delete_from_height_tx.
    apply seq_mono_bind; [apply seq_mono_lift|intros _]. apply seq_mono_sql. intros w a w' H.
    destruct (delete_rows _ _ _ _) as [[n ts]|]; [|done]. cbn in H. by injection H as _ <-. }
  apply seq_mono_bind; [apply seq_mono_map_err, seq_mono_sql; by intros w a w' [= _ <-]|intros _].
  apply seq_mono_bind; [apply seq_mono_map_err, seq_mono_sql; by intros w a w' [= _ <-]|intros _].
  apply seq_mono_map_err, seq_mono_sql. by intros w a w' [= _ <-].
Qed.

Lemma is_tip_unique chain d t1 t2 : is_tip chain d t1 -> is_tip chain d t2 -> t1 = t2.
Proof. intros [[r1 H1] M1] [[r2 H2] M2]. pose proof (M1 _ _ H2). pose proof (M2 _ _ H1). lia. Qed.

(** What a reorg check leaves: the store as it was, or rolled back from [confirmations] below the highest
    stored block; the latter also when the reply of the rollback is lost. *)
Lemma reorg_check_run {St} (src : ChainSource St) tables conf w (s : St) r w' s' tip :
  (forall h row, db_blocks (w_db w) !! (as_i64 (cs_chain_id src), h) = Some row -> is_i63 h) ->
  (forall tab, db_tables (w_db w) !! "transactions" = Some tab -> t_fk tab = false) -> 0 < conf ->
  is_tip (cs_chain_id src) (w_db w) tip -> reorg_check tables src conf (w, s) = (r, (w', s')) ->
  w_seq w <= w_seq w' /\ (forall from, r = Ok (Some from) -> from = Z.max 0 (tip - conf) + 1)
  /\ (match r with Ok (Some _) => False | _ => w_db w' = w_db w end
      \/ rolled_back (cs_chain_id src) (Z.max 0 (tip - conf) + 1) tables (w_db w) (w_db w')).
Proof.
  intros Hh Htx Hconf Htip H. unfold reorg_check in H.
  assert (forall w1 w2, same_state w1 w2 -> w_seq w1 <= w_seq w2) as Hss by (intros w1 w2 (_ & -> & _); lia).
  destruct (negb _); [injection H as <- <- <-; split_and!; [lia|done|by left]|].
  unfold mbind_ at 1 in H. destruct (on_db (block_max_height _) (w, s)) as [r1 [w1 s1]] eqn:E1.
  apply on_db_run in E1 as [E1 ->].
  assert (reads (block_max_height (cs_chain_id src))) as Hr1 by (apply reads_map_err, reads_sql; by intros v a v' [= <- <-]).
  assert (same_state w w1) as S1 by (by apply Hr1 in E1). pose proof (proj1 S1) as D1.
  destruct r1 as [[tip'|]|e]; [|injection H as <- <- <-; split_and!; [auto|done|by left]..].
  apply block_max_height_spec in E1 as (_ & Ht' & _); [|done]. destruct (Ht' _ eq_refl) as [Ht Hti].
  rewrite (is_tip_unique _ _ _ _ Ht Htip) in *. clear Ht Ht' tip'.
  unfold mbind_ at 1 in H. destruct (on_db (block_get _ tip) (w1, s)) as [r2 [w2 s2]] eqn:E2.
  apply on_db_run in E2 as [E2 ->].
  assert (reads (block_get (cs_chain_id src) tip)) as Hr2 by (apply reads_map_err, reads_sql; by intros v a v' [= <- <-]).
  assert (same_state w w2) as S2 by (apply Hr2 in E2; by eapply same_state_trans). pose proof (proj1 S2) as D2.
  destruct r2 as [[st|]|e]; [|injection H as <- <- <-; split_and!; [auto|done|by left]..].
  unfold mbind_ at 1 in H. destruct (on_src (cs_block_hash src tip) (w2, s)) as [r3 [w3 s3]] eqn:E3.
  apply on_src_run in E3 as [_ ->].
  destruct r3 as [[c|]|e]; [|injection H as <- <- <-; split_and!; [auto|done|by left]..].
  case_bool_decide; [injection H as <- <- <-; split_and!; [auto|done|by left]|].
  assert (u64_add (u64_ssub tip conf) 1 = Z.max 0 (tip - conf) + 1) as Hf.
  { unfold u64_ssub. apply u64_add_small; unfold_int; lia. }
  rewrite Hf in H. unfold mbind_ in H. destruct (on_db (rollback_to _ _ _) (w2, s3)) as [r4 [w4 s4]] eqn:E4.
  apply on_db_run in E4 as [E4 ->]. pose proof (rollback_seq _ _ _ _ _ _ E4) as Hseq.
  apply rollback_cases in E4; [|by rewrite D2]. rewrite D2 in E4. specialize (Hss _ _ S2).
  destruct r4 as [u|e]; injection H as <- <- <-; (split; [lia|]); [split; [by intros from [= <-]|by right]|].
  split; [done|]. destruct E4; [by left|by right].
Qed.

(** * A reorg of one chain *)

(** A position outside the orphaned blocks: of another chain, or below them. *)
Definition outside (c from c' b : Z) : Prop := c' = c -> b < from.

Definition item_outside (c from : Z) (i : WorkItem) : Prop := outside c from (wi_chain_id i) (wi_to i).

(** What a worker holds is outside: its range, and the rows it is about to write. *)
Definition worker_outside (c from : Z) (ws : WState) : Prop :=
  match ws with
  | WIdle => True
  | WLeased l | WRaw l _ _ | WTimes l _ _ _ | WDone l _ => item_outside c from (l_item l)
  | WWrite l _ gs => item_outside c from (l_item l)
      /\ Forall (fun kv => Forall (fun x => outside c from (er_chain_id x) (er_height x)) kv.2) gs
  end.

(** Nothing of the orphaned blocks waits or is in work. *)
Definition quiet_from (c from : Z) (s : Sys) : Prop :=
  Forall (fun q => item_outside c from (lease_item q)) (queue_of (sy_world s))
  /\ map_Forall (fun _ ws => worker_outside c from ws) (sy_workers s).

#[export] Instance outside_dec c from c' b : Decision (outside c from c' b) := _.
#[export] Instance item_outside_dec c from i : Decision (item_outside c from i) := _.
#[export] Instance worker_outside_dec c from ws : Decision (worker_outside c from ws).
Proof. destruct ws; cbn; apply _. Defined.
#[export] Instance quiet_from_dec c from s : Decision (quiet_from c from s).
Proof. unfold quiet_from. apply _. Defined.

(** Only the receipts refer to another table, and they are not events. *)
Definition keys_ok (ev_tables : list string) (d : Db) : Prop :=
  map_Forall (fun t tab => t_fk tab = true -> t = RECEIPTS_TABLE /\ t ∉ ev_tables) (db_tables d).

#[export] Instance keys_ok_dec ev_tables d : Decision (keys_ok ev_tables d).
Proof. unfold keys_ok. apply _. Defined.

(** The new fork has the old records outside the orphaned blocks. *)
Definition forks_at (c from : Z) (recs recs' : Z -> Z -> list RawRecord) : Prop :=
  forall c' b, outside c from c' b -> recs' c' b = recs c' b.

Section fork.
Context (decoders : gmap Z Decoder) (start : Z -> Z) (ev_tables tables : list string).
Context (recs recs' : Z -> Z -> list RawRecord).
Context {Hdep : Deployment decoders start recs ev_tables} {Hdep' : Deployment decoders start recs' ev_tables}.
Context (c from : Z) (Hc : is_u64 c) (Hfrom : 1 <= from < 2 ^ 62) (Hfork : forks_at c from recs recs').
(** The tables the rollback was given hold the events of the chain. *)
Context (Htables : forall dec b r row, decoders !! c = Some dec -> r ∈ recs c b -> dec_decode dec r = Ok (Some row) ->
  row_table row ∈ tables).
Context (d d' : Db) (Hrb : rolled_back c from tables d d') (Hkeys : keys_ok ev_tables d).

(** The comparisons of the DELETEs, on values at the width of the column. *)
Lemma below_iff c' b : is_u64 c' -> is_i63 b ->
  ((as_i64 c' =? as_i64 c) && (as_i64 from <=? as_i64 b)) = false <-> outside c from c' b.
Proof.
  intros Hu Hb. rewrite (as_i64_small b), (as_i64_small from) by (unfold_int; lia).
  rewrite andb_false_iff, Z.eqb_neq, Z.leb_gt. unfold outside. split.
  - intros [H|H] E; [by subst|lia].
  - intros H. destruct (decide (c' = c)) as [->|Hne]; [right; auto|left]. contradict Hne. by apply as_i64_inj.
Qed.

Lemma rec_pos R (HR : Deployment decoders start R ev_tables) c' b r : r ∈ R c' b -> is_u64 c' /\ is_i63 b.
Proof. intros Hr. destruct (dp_rec _ _ _ Hr) as ((? & ? & _) & <- & <-). done. Qed.

Lemma raw_after c' b r : r ∈ recs c' b ->
  is_Some (db_raw d' !! raw_key r) <-> is_Some (db_raw d !! raw_key r) /\ outside c from c' b.
Proof.
  intros Hr. destruct (rec_pos _ _ _ _ _ Hr) as [Hu Hb]. destruct (dp_rec _ _ _ Hr) as (_ & Ec & Eb).
  rewrite (rb_raw _ _ _ _ _ Hrb), <- (below_iff c' b Hu Hb). unfold raw_key. rewrite Ec, Eb. split.
  - intros [v [Hv Hk]%map_lookup_filter_Some]. eauto.
  - intros [[v Hv] Hk]. exists v. by apply map_lookup_filter_Some.
Qed.

Lemma row_after t tab : t ∈ ev_tables -> db_tables d !! t = Some tab ->
  exists tab', db_tables d' !! t = Some tab' /\ t_pk tab' = t_pk tab
    /\ forall k v, (t_rows tab' !! k = Some v -> t_rows tab !! k = Some v /\ (t ∈ tables -> typed_at_or_above c from v = false))
         /\ (t_rows tab !! k = Some v -> typed_at_or_above c from v = false -> t_rows tab' !! k = Some v).
Proof.
  intros Ht Htab. rewrite (rb_tables _ _ _ _ _ Hrb t), Htab. eexists. split; [done|]. split; [done|]. intros k v.
  cbn [set_rows t_rows]. rewrite map_lookup_filter_Some. unfold survives. cbn. split.
  - intros [Hv [H _]]. split; [done|]. intros Hin. destruct (typed_at_or_above c from v); [|done]. by destruct H.
  - intros Hv ->. split; [done|]. split; [by intros [_ ?]|]. intros [Hfk _]. by destruct (Hkeys t tab Htab Hfk).
Qed.

(** Where the orphaned blocks are not concerned, nothing changes. *)
Lemma recs_outside c' b r : outside c from c' b -> r ∈ recs' c' b -> r ∈ recs c' b.
Proof. intros Ho. by rewrite (Hfork _ _ Ho). Qed.

Lemma event_outside x : event_of decoders recs x -> outside c from (er_chain_id x) (er_height x) -> event_of decoders recs' x.
Proof.
  intros (c' & dec & b & r & row & bt & Hd & Hr & E & ->). cbn.
  destruct (dp_event _ _ _ _ _ Hd Hr E) as (_ & -> & -> & _). intros Ho.
  exists c', dec, b, r, row, bt. rewrite (Hfork _ _ Ho). split_and!; done.
Qed.

Lemma decoded_outside c' b r : r ∈ recs c' b -> outside c from c' b ->
  decoded_in decoders d c' b r -> decoded_in decoders d' c' b r.
Proof.
  intros Hr Ho Hd dec row Hdec E. destruct (Hd dec row Hdec E) as (tab & bt & Htab & Hk).
  destruct (dp_event _ _ _ _ _ Hdec Hr E) as (Ht & Ec & Eh & _).
  destruct (row_after _ _ Ht Htab) as (tab' & Htab' & _ & Hrows). exists tab', bt. split; [done|].
  apply Hrows; [done|]. unfold typed_at_or_above. cbn. rewrite Ec, Eh.
  destruct (rec_pos _ _ _ _ _ Hr). by apply below_iff.
Qed.

Lemma complete_outside c' lo hi : outside c from c' hi -> complete recs d c' lo hi -> complete recs' d' c' lo hi.
Proof.
  intros Ho Hcom b r Hb Hr. assert (outside c from c' b) as Hob by (intros E; specialize (Ho E); lia).
  apply recs_outside in Hr; [|done]. apply (raw_after c' b); [done|]. split; [by eapply Hcom|done].
Qed.

Lemma swept_outside c' n : outside c from c' (n - 1) -> swept (start c') (recs c') n d -> swept (start c') (recs' c') n d'.
Proof.
  intros Ho Hs b Hb r Hr. assert (outside c from c' b) as Hob by (intros E; specialize (Ho E); lia).
  apply recs_outside in Hr; [|done]. apply (raw_after c' b); [done|]. split; [by apply (Hs b)|done].
Qed.

Lemma item_after i : item_outside c from i -> item_ok recs d i -> item_ok recs' d' i.
Proof. intros Ho (? & ? & ? & ?). unfold item_ok. eauto using complete_outside. Qed.

Lemma writing_after i gs : item_outside c from i -> writing decoders recs d i gs -> writing decoders recs' d' i gs.
Proof.
  intros Ho Hw b r dec row Hb Hr Hd E.
  assert (outside c from (wi_chain_id i) b) as Hob by (intros Ei; specialize (Ho Ei); lia).
  apply recs_outside in Hr; [|done]. destruct (Hw b r dec row Hb Hr Hd E) as [(tab & bt & Htab & Hk)|]; [left|by right].
  destruct (dp_event _ _ _ _ _ Hd Hr E) as (Ht & Ec & Eh & _).
  destruct (row_after _ _ Ht Htab) as (tab' & Htab' & _ & Hrows). exists tab', bt. split; [done|].
  apply Hrows; [done|]. unfold typed_at_or_above. cbn. rewrite Ec, Eh. destruct (rec_pos _ _ _ _ _ Hr). by apply below_iff.
Qed.

Lemma worker_after w w' ws : w_db w = d -> w_db w' = d' -> queue_of w' = queue_of w -> w_seq w <= w_seq w' ->
  worker_outside c from ws -> worker_ok decoders recs ev_tables w ws -> worker_ok decoders recs' ev_tables w' ws.
Proof.
  intros D D' Q S Ho. assert (forall l, held w l -> held w' l) as Hh by (intros l [? ?]; split; [lia|by rewrite Q]).
  assert (forall i raw, item_outside c from i -> raw_ok recs i raw -> raw_ok recs' i raw) as Hraw.
  { intros i raw Hi Hr r. rewrite (Hr r). split; intros (b & Hb & Hin); exists b; (split; [done|]);
      (assert (outside c from (wi_chain_id i) b) as Hob by (intros E; specialize (Hi E); lia)).
    - by rewrite (Hfork _ _ Hob).
    - by rewrite <- (Hfork _ _ Hob). }
  destruct ws as [|l|l dec raw|l dec raw times|l n gs|l n]; cbn in *; rewrite ?D, ?D'.
  - done.
  - intros [? ?]. eauto using item_after.
  - intros (? & ? & ?). eauto.
  - intros (? & ? & ?). eauto.
  - destruct Ho as [Ho Hgs]. intros (? & Hg & ?). split_and!; [by apply Hh| |by apply writing_after].
    eapply Forall_impl; [exact (proj2 (Forall_and _ _) (conj Hgs Hg))|].
    intros kv [Hk Hg'] x Hx. destruct (Hg' x Hx) as [? He]. split; [done|]. intros Hin.
    apply event_outside; [by apply He|]. rewrite Forall_forall in Hk. by apply Hk.
  - intros [? ?]. eauto using writing_after.
Qed.

Lemma writer_after w w' c' wr : w_db w = d -> w_db w' = d' -> c' <> c ->
  writer_ok start recs w c' wr -> writer_ok start recs' w' c' wr.
Proof.
  intros D D' Hne [Hu H]. split; [done|]. rewrite ?D, ?D' in *.
  assert (forall b, outside c from c' b) as Ho by (by intros b ->).
  assert (forall h, reached start recs d c' h -> reached start recs' d' c' h) as Hr
    by (intros h [? ?]; split; [done|by apply swept_outside]).
  assert (forall t, tracker_ok start recs d c' t -> tracker_ok start recs' d' c' t) as Ht.
  { intros t ((? & ?) & Hw & Ha). split; [split; [done|by apply swept_outside]|]. split; [|auto].
    intros lo hi lb Hin. destruct (Hw _ _ _ Hin) as (? & ? & ?). split_and!; [lia..|by apply complete_outside]. }
  destruct wr; [auto|]. destruct H as [? Hcp]. split; [auto|]. intros h hash E. eauto.
Qed.

Lemma db_after w w' : w_db w = d -> w_db w' = d' -> w_seq w <= w_seq w' ->
  Forall (fun q => item_outside c from (lease_item q)) (queue_of w) ->
  (exists cu hash, db_cursors d !! as_i64 c = Some (cu, hash) /\ from - 1 <= cu) ->
  db_inv decoders start recs ev_tables w -> db_inv decoders start recs' ev_tables w'.
Proof.
  intros D D' S Hq (cu0 & hash0 & Hcu0 & Hle) Hi.
  assert (queue_of w' = queue_of w) as Q by (unfold queue_of; rewrite D', D; apply (rb_queue _ _ _ _ _ Hrb)).
  destruct Hi as [[A1 A2] B C E F G]. rewrite D in *. rewrite Forall_forall in Hq. split; rewrite ?D', ?Q.
  - split; [done|]. eapply Forall_impl; [exact A2|]. cbn. intros; lia.
  - intros k v Hkv. rewrite (rb_raw _ _ _ _ _ Hrb) in Hkv. apply map_lookup_filter_Some in Hkv as [Hkv Hk].
    destruct (B k v Hkv) as (c' & b & r & Hr & [= -> ->]). exists c', b, r. split; [|done].
    destruct (rec_pos _ _ _ _ _ Hr) as [Hu Hb]. destruct (dp_rec _ _ _ Hr) as (_ & Ec & Eb).
    cbn in Hk. rewrite Ec, Eb in Hk. apply below_iff in Hk; [|done..]. by rewrite (Hfork _ _ Hk).
  - intros t tab' Ht Htab'. destruct (db_tables d !! t) as [tab|] eqn:Htab.
    2:{ rewrite (rb_tables _ _ _ _ _ Hrb t), Htab in Htab'. done. }
    destruct (row_after t tab Ht Htab) as (tab1 & Htab1 & Hpk & Hrows). assert (tab1 = tab') as -> by congruence.
    destruct (C t tab Ht Htab) as [C1 C2]. split; [congruence|]. intros k v Hv. apply Hrows in Hv as [Hkv Hab].
    destruct (C2 k v Hkv) as (x & Hx & Hxt & Hxk). exists x. split; [|done]. apply event_outside; [done|].
    rewrite typed_kv_event in Hxk. injection Hxk as _ <-.
    destruct Hx as (c' & dec & b & r & row & bt & Hd & Hr & Er & ->). unfold typed_at_or_above in Hab. cbn in Hab |- *.
    destruct (dp_event _ _ _ _ _ Hd Hr Er) as (_ & Ec & Eh & _). rewrite Ec, Eh in *. intros ->.
    destruct (rec_pos _ _ _ _ _ Hr). apply below_iff in Hab; [by apply Hab|done|done|].
    rewrite <- Hxt. exact (Htables _ _ _ _ Hd Hr Er).
  - intros q Hin. apply item_after; [by apply Hq|by apply E].
  - intros c' b r Hr Hst.
    assert (outside c from c' b) as Ho.
    { destruct Hst as [v Hv]. rewrite (rb_raw _ _ _ _ _ Hrb) in Hv. apply map_lookup_filter_Some in Hv as [_ Hk].
      destruct (rec_pos _ Hdep' _ _ _ Hr) as [Hu Hb]. destruct (dp_rec (recs:=recs') _ _ _ Hr) as (_ & Ec & Eb).
      cbn in Hk. rewrite Ec, Eb in Hk. by apply below_iff in Hk. }
    apply recs_outside in Hr as Hr0; [|done]. apply (raw_after c' b) in Hst as [Hst _]; [|done].
    destruct (F c' b r Hr0 Hst) as [Hd|Hcov]; [left; by apply decoded_outside|by right].
  - intros c' cu hash Hu Hcu. rewrite (rb_cursors _ _ _ _ _ Hrb) in Hcu. destruct (decide (c' = c)) as [->|Hne].
    + rewrite lookup_alter_eq, Hcu0 in Hcu. cbn in Hcu. injection Hcu as <- _.
      replace (u64_ssub from 1) with (from - 1) by (unfold u64_ssub; lia). rewrite as_i64_small by (unfold_int; lia).
      destruct (G c cu0 hash0 Hc Hcu0) as [? Hs]. split; [lia|]. apply swept_outside; [intros _; lia|].
      intros b Hb. apply Hs. lia.
    + rewrite lookup_alter_ne in Hcu by (intros Ek; apply Hne; symmetry; by apply as_i64_inj).
      destruct (G c' cu hash Hu Hcu) as [? Hs]. split; [done|]. apply swept_outside; [by intros ->|done].
Qed.
End fork.

(** * Histories: runs and reorgs *)

Section history.
Context (mo : list (string * list EventRow) -> list (string * list EventRow)) (so : list bytes -> list bytes).
Context (decoders : gmap Z Decoder) (start : Z -> Z) (ev_tables : list string).

(** The task of the chain after a check that rolled back: it goes on where the check says, or the error
    ends its attempt. *)
Definition after_rollback (r : result DomainError (option Z)) : option Writer :=
  match r with Ok (Some from) => Some (WrReady (tracker_new from) 0) | _ => None end.

(** [history recs s]: the indexer can be in [s] while its chains have the records [recs]. *)
Inductive history : (Z -> Z -> list RawRecord) -> Sys -> Prop :=
| HStart recs workers w : Deployment decoders start recs ev_tables -> fresh_store ev_tables (w_db w) ->
    history recs (launched workers w)
| HRun recs s s' : history recs s -> sys_step mo so decoders start (fetched recs ev_tables) s s' -> history recs s'
(** A reorg of the chain of [src], at most [confirmations] deep below its highest stored block [tip], found by
    the reorg check while nothing of the blocks rolled back is in work: the rollback was done, even if its
    reply was lost. *)
| HReorg {St : Type} (src : ChainSource St) confirmations tables recs recs' tip s st r w' st' :
    let c := cs_chain_id src in
    let from := Z.max 0 (tip - confirmations) + 1 in
    history recs s -> Deployment decoders start recs' ev_tables -> forks_at c from recs recs' ->
    is_u64 c -> 0 < confirmations -> is_tip c (w_db (sy_world s)) tip ->
    map_Forall (fun k _ => k.1 = as_i64 c -> 0 <= k.2 < 2 ^ 62) (db_blocks (w_db (sy_world s))) ->
    keys_ok ev_tables (w_db (sy_world s)) ->
    (forall dec b r row, decoders !! c = Some dec -> r ∈ recs c b -> dec_decode dec r = Ok (Some row) -> row_table row ∈ tables) ->
    quiet_from c from s ->
    (exists cu hash, db_cursors (w_db (sy_world s)) !! as_i64 c = Some (cu, hash) /\ from - 1 <= cu) ->
    reorg_check tables src confirmations (sy_world s, st) = (r, (w', st')) ->
    (r = Ok (Some from) \/ w_db w' <> w_db (sy_world s)) ->
    history recs' (set_chain c (after_rollback r) w' s).

Lemma keys_tx d : keys_ok ev_tables d -> forall tab, db_tables d !! "transactions" = Some tab -> t_fk tab = false.
Proof. intros Hk tab Htab. destruct (t_fk tab) eqn:E; [|done]. by destruct (Hk _ _ Htab E). Qed.

Lemma history_inv (Hmo : forall l, mo l ≡ₚ l) recs s :
  history recs s -> Deployment decoders start recs ev_tables /\ sys_inv decoders start recs ev_tables s.
Proof.
  intros H. induction H as [recs n w Hd Hf|recs s s' _ [Hd Hi] Hst
    |St src conf tables recs recs' tip s st r w' st' c from _ [Hd [Hi Hw Hch]] Hd' Hfork Hc Hconf Htip Hbl Hk Ht [Hq Hws] Hcu Hr Hch'].
  - split; [done|]. by apply run_inv.
  - split; [done|]. by eapply sys_step_inv.
  - split; [done|]. pose proof Htip as [[trow Htrow] _]. pose proof (Hbl _ _ Htrow eq_refl) as Htb. cbn in Htb.
    assert (1 <= from < 2 ^ 62) as Hfrom by (subst from; lia).
    apply (reorg_check_run _ _ _ _ _ _ _ _ tip) in Hr as (Hseq & Hok & Hr); [|intros h row Hrow;
      specialize (Hbl _ _ Hrow eq_refl); cbn in Hbl; unfold_int; lia|by apply keys_tx|done|done].
    assert (rolled_back c from tables (w_db (sy_world s)) (w_db w')) as Hrb.
    { destruct Hr as [E|Hr]; [|done]. destruct Hch' as [->|Hne]; [done|]. by destruct r as [[?|]|e]. }
    assert (db_inv decoders start recs' ev_tables w') as Hi'
      by (by apply (db_after decoders start ev_tables tables recs recs' c from Hc Hfrom Hfork Ht _ _ Hrb Hk (sy_world s) w')).
    split; [done| |].
    + intros k ws Hkw. cbn in Hkw |- *. eapply (worker_after decoders start ev_tables tables recs recs' c from Hc Hfrom Hfork _ _ Hrb Hk (sy_world s));
        [done|done| |done|by eapply Hws|by eapply Hw].
      unfold queue_of. by rewrite (rb_queue _ _ _ _ _ Hrb).
    + intros c' wr. cbn. rewrite lookup_partial_alter. case_decide as E.
      * subst c'. destruct r as [[f|]|e]; cbn; [|done..]. rewrite (Hok f eq_refl). fold from. intros [= <-].
        split; [done|]. split; [|split; [|done]].
        2:{ intros ? ? ?. cbn. by rewrite lookup_empty. }
        cbn. split; [lia|]. destruct Hcu as (cu & hash & Hcu & Hle).
        destruct (di_cursor _ _ _ _ _ Hi c cu hash Hc Hcu) as [_ Hs].
        eapply (swept_outside decoders start ev_tables tables recs recs' c from Hc Hfrom Hfork _ _ Hrb); [intros _; lia|]. intros b Hb. apply Hs. lia.
      * intros Hwr. eapply (writer_after decoders start ev_tables tables recs recs' c from Hc Hfrom Hfork _ _ Hrb (sy_world s)); [done|done|done|].
        by apply Hch.
Qed.

Lemma history_reach recs s s' :
  history recs s -> sys_reach mo so decoders start (fetched recs ev_tables) s s' -> history recs s'.
Proof. intros Hs H. induction H; [done|]. by eapply HRun. Qed.
End history.


(** * Samples: block 5 of the sample chain is replaced *)

Definition forked_rec : RawRecord :=
  mkRawRecord 1 5 [byte_of 9] 0 [byte_of 2] [[byte_of 3; byte_of 4]] [byte_of 5] [byte_of 8] 0 None.
Definition forked_recs (c b : Z) : list RawRecord :=
  if decide (c = 1) then if decide (b = 5) then [forked_rec] else [] else [].
Definition forked_range : FetchedRange :=
  mkFetchedRange 5 6 [forked_rec] (mkAuxData [mkBlockMeta 1 5 [byte_of 9] [byte_of 0] 51] []) (Some (5, [byte_of 9])).

Lemma forked_deployment : Deployment sample_decoders (fun _ => 5) forked_recs ["evt"].
Proof.
  assert (forall c b r, r ∈ forked_recs c b -> c = 1 /\ b = 5 /\ r = forked_rec) as Hin.
  { intros c b r. unfold forked_recs. case_decide; [|by intros ?%not_elem_of_nil].
    case_decide; [|by intros ?%not_elem_of_nil]. by intros ->%list_elem_of_singleton. }
  split.
  - intros _. lia.
  - intros c b r (-> & -> & ->)%Hin. split; [|done]. unfold wf_raw. cbn. split_and!; try (unfold_int; lia); repeat constructor.
  - by intros c b r1 r2 (_ & _ & ->)%Hin (_ & _ & ->)%Hin _.
  - intros c dec b r row Hd (-> & -> & ->)%Hin. vm_compute in Hd. injection Hd as <-. cbn. intros [= <-].
    split_and!; try done. left.
  - pose proof sample_deployment as Hs. exact (dp_call (Deployment:=Hs)).
  - intros t ->%list_elem_of_singleton. done.
Qed.

Lemma forked_fork : forks_at 1 5 sample_recs forked_recs.
Proof.
  intros c b Ho. unfold forked_recs, sample_recs. case_decide as E; [|done]. case_decide; [|done].
  specialize (Ho E). lia.
Qed.

Lemma forked_fetched : fetched forked_recs ["evt"] 1 forked_range.
Proof. split; [cbn; lia|]. split; [cbn; lia|]. split; [by vm_compute|]. by intros r ?%not_elem_of_nil. Qed.

(** All was decoded when the check finds block 5 replaced; the rollback by one confirmation, and the new fork
    ingested and decoded. *)
Definition replaced_source : ChainSource unit :=
  mkChainSource unit 1 ChainCaps_default (mret_ 20) (fun _ _ _ => mret_ [])
    (fun _ => mret_ AuxData_default) (fun _ => mret_ (Some [byte_of 9])) (fun _ => mret_ tt).
Definition rolled_world : World := (reorg_check ["evt"] replaced_source 1 (sample_decoded, tt)).2.1.
Definition rolled_sys : Sys := set_chain 1 (Some (WrReady (tracker_new 5) 0)) rolled_world sample_end.
Definition forked_committed : World := (consume_one 1 (tracker_new 5, 0) forked_range rolled_world).2.
Definition forked_decoded : World := (run_once (fun l => l) (fun l => l) sample_decoders forked_committed).2.
Definition forked_end : Sys :=
  set_worker 0 WIdle forked_decoded
    (set_chain 1 (Some (WrReady (tracker_record (tracker_new 5) 5 6 (Some (5, [byte_of 9]))).1 1)) forked_committed rolled_sys).

Lemma forked_history : history (fun l => l) (fun l => l) sample_decoders (fun _ => 5) ["evt"] forked_recs forked_end.
Proof.
  assert (history (fun l => l) (fun l => l) sample_decoders (fun _ => 5) ["evt"] sample_recs sample_end) as H0.
  { eapply history_reach; [|apply sample_run]. apply HStart; [apply sample_deployment|apply sample_fresh]. }
  eapply history_reach with (s := rolled_sys).
  - apply (HReorg _ _ _ _ _ replaced_source 1 ["evt"] sample_recs forked_recs 5 sample_end tt (Ok (Some 5)) rolled_world tt
      H0 forked_deployment forked_fork).
    + cbn. unfold_int; lia.
    + lia.
    + assert (map_Forall (fun (k : Z * Z) (_ : BlockRow) => k.2 <= 5) (db_blocks (w_db (sy_world sample_end)))) as Hm
        by (apply (bool_decide_unpack _); vm_compute; exact I).
      split; [eexists; by vm_compute|]. intros h row Hrow. exact (Hm _ _ Hrow).
    + apply (bool_decide_unpack _). vm_compute. exact I.
    + apply (bool_decide_unpack _). vm_compute. exact I.
    + intros dec b r row Hd _. vm_compute in Hd. injection Hd as <-. cbn. intros [= <-]. left.
    + apply (bool_decide_unpack _). vm_compute. exact I.
    + exists 6, [byte_of 1]. split; [by vm_compute|lia].
    + by vm_compute.
    + by left.
  - eapply sys_reach_trans.
    { eapply (consume_reach (fun l => l) (fun l => l) sample_decoders (fun _ => 5) (fetched forked_recs ["evt"]) 1 (tracker_new 5) 0
        forked_range _ (Ok ((tracker_record (tracker_new 5) 5 6 (Some (5, [byte_of 9]))).1, 1)) forked_committed);
        [apply set_chain_at|apply forked_fetched|by vm_compute]. }
    eapply (run_once_reach (fun l => l) (fun l => l) sample_decoders (fun _ => 5) (fetched forked_recs ["evt"]) 0 _ (Ok (Some 1)));
      by vm_compute.
Qed.


(** * A reorg found while a worker holds an orphaned range *)

Definition alone : Schedule := fun _ => (0, O).
Abbreviation solo := (play (fun l => l) (fun l => l) sample_decoders alone).

(** The old fork is committed and the worker has read it; the rollback; the new fork is committed; the worker
    finishes its turn and finds nothing more to do. *)
Definition race_committed : Sys :=
  set_chain 1 (Some (WrReady (tracker_record (tracker_new 5) 5 6 (Some (5, [byte_of 1]))).1 2)) sample_committed
    (set_chain 1 (Some (WrReady (tracker_new 5) 0)) sample_start (launched 1 sample_start)).
Definition race_reading : Sys := solo 3 race_committed.
Definition race_rolled : World := (rollback_to 1 5 ["evt"] (sy_world race_reading)).2.
Definition race_forked : Sys := set_chain 1 (Some (WrReady (tracker_new 5) 0)) race_rolled race_reading.
Definition race_recommitted : World := (consume_one 1 (tracker_new 5, 0) forked_range race_rolled).2.
Definition race_end : Sys :=
  solo 6 (set_chain 1 (Some (WrReady (tracker_record (tracker_new 5) 5 6 (Some (5, [byte_of 9]))).1 1)) race_recommitted race_forked).

(** [rollback_to] leaves the queue alone, and the push of the new fork's range finds the old item under the same
    key and is dropped: the worker that read the orphaned records writes them after the rollback and
    acks the one item of the range.  The cursor is past the block, the queue is empty, the new record
    is stored, and its table has the row of the abandoned fork instead. *)
Theorem reorg_races_worker :
  sys_reach (fun l => l) (fun l => l) sample_decoders (fun _ => 5) (fetched sample_recs ["evt"])
    (launched 1 sample_start) race_reading
  /\ rollback_to 1 5 ["evt"] (sy_world race_reading) = (Ok tt, race_rolled)
  /\ sys_reach (fun l => l) (fun l => l) sample_decoders (fun _ => 5) (fetched forked_recs ["evt"]) race_forked race_end
  /\ db_cursors (w_db (sy_world race_end)) !! 1 = Some (6, [byte_of 9])
  /\ queue_of (sy_world race_end) = []
  /\ db_raw (w_db (sy_world race_end)) !! raw_key forked_rec = Some (raw_row forked_rec)
  /\ exists tab, db_tables (w_db (sy_world race_end)) !! "evt" = Some tab
       /\ tr_block_hash <$> t_rows tab !! event_key 1 5 0 = Some [byte_of 1].
Proof.
  split_and!.
  - eapply sys_reach_trans; [|apply play_reach]. eapply sys_reach_trans.
    { apply sys_reach_one, (SStart _ _ _ _ _ (launched 1 sample_start) 1 None sample_start); [unfold_int; lia|by vm_compute]. }
    eapply (consume_reach (fun l => l) (fun l => l) sample_decoders (fun _ => 5) (fetched sample_recs ["evt"]) 1 (tracker_new 5) 0
      sample_range _ (Ok ((tracker_record (tracker_new 5) 5 6 (Some (5, [byte_of 1]))).1, 2)) sample_committed);
      [apply set_chain_at|apply sample_fetched|by vm_compute].
  - by vm_compute.
  - eapply sys_reach_trans; [|apply play_reach].
    eapply (consume_reach (fun l => l) (fun l => l) sample_decoders (fun _ => 5) (fetched forked_recs ["evt"]) 1 (tracker_new 5) 0
      forked_range _ (Ok ((tracker_record (tracker_new 5) 5 6 (Some (5, [byte_of 9]))).1, 1)) race_recommitted);
      [apply set_chain_at|apply forked_fetched|by vm_compute].
  - by vm_compute.
  - by vm_compute.
  - by vm_compute.
  - eexists. split; by vm_compute.
Qed.
