(* ===== verification/Poison.v ===== *)
(** A record that does not decode ([crates/services/src/worker.rs], [run_once]; [worker.rs] of [bins/indexer-cli],
    [spawn_decode_worker]): the error ends the worker's turn, the item stays leased until the reclaim ticker
    frees it, and the next attempt fails the same way.  Here: over all interleavings the item is never
    acked, so nothing of its range is passed over in silence, and a command that waits for an empty queue
    waits for ever. *)
From S2P Require Import Prelude Model Btree Text Encode Store Repos Queue UnitOfWork Services ServicesFacts Ranges Plan Pipeline Ingest IngestFacts Worker System SystemSteps SystemFacts.

Section poison.
Context (mo : list (string * list EventRow) -> list (string * list EventRow)) (so : list bytes -> list bytes).
Context (Hmo : forall l, mo l ≡ₚ l).
Context (decoders : gmap Z Decoder) (start : Z -> Z) (recs : Z -> Z -> list RawRecord) (ev_tables : list string).
Context {Hdep : Deployment decoders start recs ev_tables}.
Context (c b : Z) (dec : Decoder) (r : RawRecord) (e : DomainError).
Context (Hdec : decoders !! c = Some dec) (Hrec : r ∈ recs c b) (Hbad : dec_decode dec r = Err e).

Definition in_item (i : WorkItem) : Prop := wi_chain_id i = c /\ wi_from i <= b <= wi_to i.

(** The lease of a worker that has decoded its range. *)
Definition past_decode (ws : WState) : option Lease :=
  match ws with WWrite l _ _ | WDone l _ => Some l | _ => None end.

Definition clean (ws : WState) : Prop := forall l, past_decode ws = Some l -> ~ in_item (l_item l).

(** The items of the block stay, under their ids. *)
Definition keeps_items (w w' : World) : Prop := forall q, q ∈ queue_of w -> in_item (lease_item q) ->
  exists q', q' ∈ queue_of w' /\ wq_id q' = wq_id q /\ lease_item q' = lease_item q.

Lemma items_keep_more w w' : (forall q, q ∈ queue_of w -> q ∈ queue_of w') -> keeps_items w w'.
Proof. intros H q Hq _. eauto. Qed.

Lemma items_keep_queue w w' : queue_of w' = queue_of w -> keeps_items w w'.
Proof. intros H. apply items_keep_more. by rewrite H. Qed.

Lemma items_keep_same w w' : same_state w w' -> keeps_items w w'.
Proof. intros (D & _). apply items_keep_queue. unfold queue_of. by rewrite D. Qed.

Lemma items_keep_trans w1 w2 w3 : keeps_items w1 w2 -> keeps_items w2 w3 -> keeps_items w1 w3.
Proof.
  intros H1 H2 q Hq Hi. destruct (H1 q Hq Hi) as (q2 & Hq2 & I2 & L2).
  destruct (H2 q2 Hq2) as (q3 & Hq3 & I3 & L3); [by rewrite L2|]. exists q3. split; [done|]. split; congruence.
Qed.

Lemma items_keep_requeued w w' : requeued w w' -> keeps_items w w'.
Proof.
  intros (_ & _ & H2) q (i & Hi)%list_elem_of_lookup _.
  destruct (Forall2_lookup_l _ _ _ _ _ H2 Hi) as (q' & Hq & ? & ?). exists q'. split; [by eapply list_elem_of_lookup_2|done].
Qed.

Lemma pull_keeps w x w' : pull_any w = (x, w') -> keeps_items w w'.
Proof.
  intros (v & Sv & [Hs|[a Ha]] & _)%sql_runs; [by apply items_keep_same|]. eapply items_keep_trans; [by apply items_keep_same|].
  unfold pull_rows in Ha. destruct (list_find _ _) as [[i row]|] eqn:Ef; injection Ha as _ <-; [|by apply items_keep_same].
  apply list_find_Some in Ef as (Hrow & _). by apply items_keep_requeued, locked_requeued.
Qed.

Lemma reclaim_keeps secs w x w' : reclaim secs w = (x, w') -> keeps_items w w'.
Proof.
  intros (v & Sv & [Hs|[a [= _ <-]]] & _)%sql_runs; [by apply items_keep_same|]. eapply items_keep_trans; [by apply items_keep_same|].
  intros q Hq _. cbn. unfold queue_of, reclaim_rows. cbn. eexists. split; [by apply list_elem_of_fmap_2|].
  by destruct (expired (w_now v) secs q).
Qed.

(** An ack removes rows of its own item only, and that is not one of the block. *)
Lemma ack_keeps l w x w' : ack (l_id l) (l_lease_seq l) w = (x, w') -> held w l -> ~ in_item (l_item l) -> keeps_items w w'.
Proof.
  intros (v & Sv & Hw & _)%sql_runs Hh Hni. destruct Hw as [Hs|[a [= _ <-]]]; [by apply items_keep_same|].
  intros q Hq Hi. exists q. split; [|done]. unfold queue_of, ack_rows. cbn. apply list_elem_of_filter.
  destruct Sv as (D & _). rewrite D. split; [|done]. intros [Hid _]. apply Hni. by rewrite <- (proj2 Hh q Hq Hid).
Qed.

Lemma decode_fails i raw : raw_ok recs i raw -> in_item i -> forall rows, decode_all (dec_decode dec) raw <> Ok rows.
Proof.
  intros Hraw [Ec Hb] rows H. assert (r ∈ raw) as Hr by (apply Hraw; exists b; by rewrite Ec).
  destruct (decode_all_each _ _ _ _ H Hr) as [o Ho]. congruence.
Qed.

Lemma step_keeps ws w x w' :
  worker_step mo so decoders ws w = (x, w') -> worker_ok decoders recs ev_tables w ws -> clean ws ->
  keeps_items w w' /\ clean (after_step x).
Proof.
  intros H Hok Hcl. destruct ws as [|l|l d raw|l d raw times|l n [|[t g] gs]|l n]; cbn [worker_step] in H.
  - unfold mbind_ in H. destruct (pull_any w) as [[[l|]|e'] w1] eqn:Ep; injection H as <- <-;
      (split; [by eapply pull_keeps|by intros l']).
  - destruct (decoders !! wi_chain_id (l_item l)) as [d|] eqn:Ed.
    + unfold mbind_ in H. destruct (raw_range _ _ _ w) as [y w1] eqn:Er. apply reads_raw_range in Er.
      destruct y; injection H as <- <-; (split; [by apply items_keep_same|by intros l']).
    + injection H as <- <-. split; [by apply items_keep_same|]. intros l' [= <-] [Ec _]. congruence.
  - unfold mbind_ in H. destruct (block_times _ _ _ w) as [y w1] eqn:Er. apply reads_block_times in Er.
    destruct y; injection H as <- <-; (split; [by apply items_keep_same|by intros l']).
  - destruct Hok as (Hh & Hd & Hraw).
    pose proof (reads_decode mo so decoders l d raw times w x w' H) as S1. split; [by apply items_keep_same|].
    destruct x as [y|e']; [|by intros l']. apply mbind_Ok in H as (rows & w1 & Er & H). injection Er as Er <-.
    apply mbind_Ok in H as (calls & w2 & _ & H). apply mret_Ok in H as [-> _]. intros l' [= <-] Hi.
    destruct Hi as [Ec Hb]. rewrite Ec, Hdec in Hd. injection Hd as <-. by eapply decode_fails.
  - injection H as <- <-. split; [by apply items_keep_same|exact Hcl].
  - unfold mbind_ in H. destruct (event_upsert_batch t g w) as [y w1] eqn:Eu. apply event_upsert_batch_queue in Eu.
    destruct y; injection H as <- <-; (split; [by apply items_keep_queue|]); [exact Hcl|by intros l'].
  - destruct Hok as (Hh & _). unfold mbind_ in H. destruct (ack _ _ w) as [y w1] eqn:Ea.
    apply ack_keeps in Ea; [|done|by apply Hcl]. destruct y; injection H as <- <-; (split; [done|by intros l']).
Qed.

Definition all_clean (s : Sys) : Prop := map_Forall (fun _ ws => clean ws) (sy_workers s).

Lemma all_clean_set k ws w s : clean ws -> all_clean s -> all_clean (set_worker k ws w s).
Proof. intros H1 H2. by apply map_Forall_insert_2. Qed.

Lemma clean_idle : clean WIdle.
Proof. by intros l. Qed.

Lemma sys_step_keeps s s' :
  sys_step mo so decoders start (fetched recs ev_tables) s s' -> sys_inv decoders start recs ev_tables s -> all_clean s ->
  keeps_items (sy_world s) (sy_world s') /\ all_clean s'.
Proof.
  intros Hst Hinv Hcl.
  destruct Hst as [s now faults Hnow|s k ws x w' Hk Hst|s k|s k i row Hk Hrow Hl row'|s secs x w' Hr|s c' o w' Hc Hg
    |s c' prefix n f x w' Hc Hf Hw|s c' prefix n cp x w' Hc Hw|s c' prefix n Hc|s c'].
  - split; [by apply items_keep_queue|done].
  - destruct (step_keeps _ _ _ _ Hst (si_workers _ _ _ _ _ Hinv _ _ Hk) (Hcl _ _ Hk)) as [? ?]. split; [done|by apply all_clean_set].
  - split; [by apply items_keep_queue|]. by apply all_clean_set; [apply clean_idle|].
  - split; [by apply items_keep_requeued, locked_requeued|]. by apply all_clean_set.
  - split; [by eapply reclaim_keeps|done].
  - split; [|done]. apply items_keep_same. by destruct (resume_ok decoders start recs ev_tables c' o _ _ Hg Hc (si_db _ _ _ _ _ Hinv)).
  - split; [|done]. unfold writer_commit, mbind_ in Hw. destruct (commit_range c' f 0 (sy_world s)) as [y w1] eqn:Ec.
    assert (w1 = w') as -> by (destruct y; [destruct (tracker_record _ _ _ _)|]; by injection Hw as _ <-).
    apply commit_cases in Ec as (_ & [[D _]|[[_ _ _ Q _] _]]); [apply items_keep_queue; unfold queue_of; cbn; by rewrite D|].
    apply items_keep_more. intros q Hq. unfold queue_of. cbn. rewrite Q. cbn. destruct (fr_records f); [done|]. by apply push_old.
  - split; [|done]. unfold writer_move, mbind_ in Hw. destruct cp as [[h hash]|]; [|injection Hw as _ <-; by apply items_keep_queue].
    destruct (cursor_advance c' h hash (sy_world s)) as [y w1] eqn:Ea.
    assert (w1 = w') as -> by (destruct y; by injection Hw as _ <-). apply items_keep_queue. unfold queue_of. cbn.
    by apply cursor_advance_run in Ea as [E|[E _]]; rewrite E.
  - split; [by apply items_keep_queue|done].
  - split; [by apply items_keep_queue|done].
Qed.

Lemma sys_reach_keeps s s' :
  sys_reach mo so decoders start (fetched recs ev_tables) s s' -> sys_inv decoders start recs ev_tables s -> all_clean s ->
  keeps_items (sy_world s) (sy_world s') /\ all_clean s'.
Proof.
  intros H Hi Hcl. induction H as [|s1 s2 Hr [K C] Hst]; [split; [by apply items_keep_queue|done]|].
  destruct (sys_reach_inv mo so Hmo decoders start recs ev_tables _ _ Hr Hi) as [Hi1 _].
  destruct (sys_step_keeps _ _ Hst Hi1 C) as [? ?]. split; [by eapply items_keep_trans|done].
Qed.

Lemma launched_clean n w : all_clean (launched n w).
Proof.
  intros k ws Hk. apply elem_of_list_to_map_2, list_elem_of_fmap in Hk as (j & [= _ ->] & _). apply clean_idle.
Qed.
End poison.

(** C9: an item with a record that does not decode is never lost and never done: from any state of a run
    on, however workers, writers and reclaims interleave and whatever fails, the item stays in the queue, so
    a drain of the queue does not end. *)
Theorem undecodable_item_stays (mo : list (string * list EventRow) -> list (string * list EventRow))
    (so : list bytes -> list bytes) (decoders : gmap Z Decoder) (start : Z -> Z)
    (recs : Z -> Z -> list RawRecord) (ev_tables : list string) (workers : nat) (w : World) (s1 s2 : Sys)
    (c b : Z) (dec : Decoder) (r : RawRecord) (e : DomainError) (q : QueueRow) :
  (forall l, mo l ≡ₚ l) -> Deployment decoders start recs ev_tables -> fresh_store ev_tables (w_db w) ->
  sys_reach mo so decoders start (fetched recs ev_tables) (launched workers w) s1 ->
  sys_reach mo so decoders start (fetched recs ev_tables) s1 s2 ->
  decoders !! c = Some dec -> r ∈ recs c b -> dec_decode dec r = Err e ->
  q ∈ queue_of (sy_world s1) -> covers q c b ->
  exists q', q' ∈ queue_of (sy_world s2) /\ wq_id q' = wq_id q /\ lease_item q' = lease_item q.
Proof.
  intros Hmo Hdep Hf H1 H2 Hd Hr Hbad Hq Hcov.
  pose proof (reachable_inv mo so decoders start recs ev_tables Hmo workers w s1 Hf H1) as Hi.
  destruct (sys_reach_keeps mo so Hmo decoders start recs ev_tables c b dec r e Hd Hr Hbad _ _ H1
    (run_inv _ _ _ _ workers w Hf) (launched_clean _ _ _ _)) as [_ Hcl].
  destruct (sys_reach_keeps mo so Hmo decoders start recs ev_tables c b dec r e Hd Hr Hbad _ _ H2 Hi Hcl) as [K _].
  by apply K.
Qed.

(** * The items behind it *)

Lemma pull_first now q l q' : pull_rows now q = Some (l, q') ->
  exists i row, q !! i = Some row /\ ready q row = true /\ (forall j x, q !! j = Some x -> (j < i)%nat -> ready q x = false)
    /\ l = lease_of (lock_row now row) /\ q' = <[i := lock_row now row]> q.
Proof.
  unfold pull_rows. destruct (list_find _ q) as [[i row]|] eqn:E; [|done]. intros [= <- <-].
  apply list_find_Some in E as (Hi & Hr & Hb). exists i, row. split_and!; [done|by apply Is_true_true| |done|done].
  intros j x Hx Hlt. apply not_true_iff_false. intros Hrx. by apply (Hb j x Hx Hlt), Is_true_true.
Qed.

Lemma in_flight_elem q x : x ∈ q -> locked x = true -> in_flight q (wq_chain_id x) = true.
Proof.
  intros Hx Hl. apply existsb_exists. exists x. split; [by apply list_elem_of_In|]. by rewrite Hl, Z.eqb_refl.
Qed.

(** A row as the [bigint] column keeps it. *)
Definition bigint_chain (x : QueueRow) : Prop := - 2 ^ 63 <= wq_chain_id x < 2 ^ 63.

Lemma bigint_chain_inj x y : bigint_chain x -> bigint_chain y ->
  wi_chain_id (lease_item x) = wi_chain_id (lease_item y) -> wq_chain_id x = wq_chain_id y.
Proof. unfold bigint_chain. cbn. unfold as_u64, wrap64, U64. intros Hx Hy H. Z.div_mod_to_equations. lia. Qed.

(** After a turn that failed its item is leased, and nothing of the chain is handed out; once the ticker has
    freed it, it is the first item of the chain again: the items behind it wait. *)
Theorem failed_item_blocks_chain (now now1 now2 now3 : Z) (q q1 q2 q3 : list QueueRow) (l l1 l2 : Lease) :
  Forall bigint_chain q -> pull_rows now q = Some (l, q1) ->
  (pull_rows now1 q1 = Some (l1, q2) -> wi_chain_id (l_item l1) <> wi_chain_id (l_item l))
  /\ (now + 60 < now2 -> pull_rows now3 (reclaim_rows now2 60 q1) = Some (l2, q3) ->
      wi_chain_id (l_item l2) = wi_chain_id (l_item l) -> l_id l2 = l_id l).
Proof.
  intros Hq (i & row & Hi & Hr & Hb & -> & ->)%pull_first. rewrite Forall_forall in Hq.
  set (row1 := lock_row now row). pose proof (Hq row (list_elem_of_lookup_2 _ _ _ Hi)) as Hrow.
  assert (forall x, x ∈ <[i := row1]> q -> bigint_chain x) as Hq1.
  { intros x [j Hx]%list_elem_of_lookup. apply list_lookup_insert_Some in Hx as [(_ & <- & _)|[_ Hx]]; [done|].
    by apply Hq, (list_elem_of_lookup_2 _ j). }
  assert (<[i := row1]> q !! i = Some row1) as Hi1 by (apply list_lookup_insert_eq; by eapply lookup_lt_Some).
  split.
  - intros (j & x & Hj & Hx & _ & -> & _)%pull_first E.
    apply (bigint_chain_inj (lock_row now1 x) row1) in E; [|by apply (Hq1 x (list_elem_of_lookup_2 _ _ _ Hj))|done].
    apply andb_true_iff in Hx as [_ Hx%negb_true_iff]. cbn in E.
    pose proof (in_flight_elem _ row1 (list_elem_of_lookup_2 _ _ _ Hi1) eq_refl) as Hf. cbn in Hf. congruence.
  - intros Hlate (j & x & Hj & Hx & Hbj & -> & _)%pull_first E. unfold reclaim_rows in Hj.
    apply list_lookup_fmap_Some in Hj as (y & -> & Hj).
    assert (wq_chain_id y = wq_chain_id row) as Ec.
    { apply (bigint_chain_inj y row); [by apply (Hq1 y (list_elem_of_lookup_2 _ _ _ Hj))|done|].
      destruct (expired now2 60 y); exact E. }
    assert (wq_chain_id (if expired now2 60 y then unlock_row y else y) = wq_chain_id y) as Ey by (by destruct (expired now2 60 y)).
    apply andb_true_iff in Hx as [Hux Hfx]. rewrite Ey in Hfx.
    destruct (lt_eq_lt_dec j i) as [[Hlt| ->]|Hgt].
    + exfalso. rewrite list_lookup_insert_ne in Hj by lia. specialize (Hb j y Hj Hlt).
      apply andb_true_iff in Hr as [_ Hfr]. unfold ready in Hb. rewrite Ec, Hfr, andb_true_r in Hb.
      apply negb_false_iff, (in_flight_elem q y (list_elem_of_lookup_2 _ _ _ Hj)) in Hb. rewrite Ec in Hb.
      by rewrite Hb in Hfr.
    + rewrite Hi1 in Hj. injection Hj as <-. by destruct (expired now2 60 row1).
    + exfalso. assert (expired now2 60 row1 = true) as Hexp by (cbn; apply Z.ltb_lt; lia).
      assert (reclaim_rows now2 60 (<[i := row1]> q) !! i = Some (unlock_row row1)) as Hi2
        by (unfold reclaim_rows; rewrite list_lookup_fmap, Hi1; cbn [fmap option_fmap option_map]; by rewrite Hexp).
      specialize (Hbj i _ Hi2 Hgt). unfold ready in Hbj. rewrite Ec in Hfx.
      change (wq_chain_id (unlock_row row1)) with (wq_chain_id row) in Hbj. by rewrite Hfx in Hbj.
Qed.

(** * A sample: the first record of the sample chain does not decode *)

Definition picky_decoder : Decoder :=
  mkDecoder (fun r => if rr_index r =? 0 then Err (EDecode "decode failed") else Ok (Some (evt_row r))) (fun _ => Ok None) true (fun _ => [])
    (fun _ => mkRecordFilter [] []).
Definition picky_decoders : gmap Z Decoder := <[1 := picky_decoder]> ∅.

Lemma picky_deployment : Deployment picky_decoders (fun _ => 5) sample_recs ["evt"].
Proof.
  pose proof sample_deployment as [D1 D2 D3 D4 D5 D6].
  assert (forall c dec, picky_decoders !! c = Some dec -> c = 1 /\ dec = picky_decoder) as Hin.
  { unfold picky_decoders. intros c dec [[<- <-]|[_ H]]%lookup_insert_Some; [done|]. by rewrite lookup_empty in H. }
  split; [done|done|done| | |done].
  - intros c dec b r row [-> ->]%Hin Hr. cbn. destruct (rr_index r =? 0); [done|]. intros H.
    apply (D4 1 sample_decoder b r row); [by vm_compute|done|done].
  - by intros c dec tx row [-> ->]%Hin.
Qed.

(** The range is committed; a worker fails on it. *)
Definition picky_committed : Sys :=
  set_chain 1 (Some (WrReady (tracker_record (tracker_new 5) 5 6 (Some (5, [byte_of 1]))).1 2)) sample_committed
    (set_chain 1 (Some (WrReady (tracker_new 5) 0)) sample_start (launched 1 sample_start)).
Definition picky_failed : World := (run_once (fun l => l) (fun l => l) picky_decoders sample_committed).2.
Definition picky_end : Sys := set_worker 0 WIdle picky_failed picky_committed.

Lemma undecodable_item_stays_witness :
  exists q, q ∈ queue_of sample_committed /\ covers q 1 5
    /\ exists q', q' ∈ queue_of (sy_world picky_end) /\ wq_id q' = wq_id q /\ lease_item q' = lease_item q.
Proof.
  destruct (queue_of sample_committed) as [|q0 q1] eqn:Eq; [by vm_compute in Eq|].
  exists q0. assert (covers q0 1 5) as Hcov by (vm_compute in Eq; injection Eq as <- <-; split; [done|vm_compute; by split]).
  split; [left|]. split; [done|].
  apply (undecodable_item_stays (fun l => l) (fun l => l) picky_decoders (fun _ => 5) sample_recs ["evt"] 1 sample_start
    picky_committed picky_end 1 5 picky_decoder (sample_rec 5 0) (EDecode "decode failed")).
  - done.
  - apply picky_deployment.
  - apply sample_fresh.
  - eapply sys_reach_trans.
    { apply sys_reach_one, (SStart _ _ _ _ _ (launched 1 sample_start) 1 None sample_start); [unfold_int; lia|by vm_compute]. }
    eapply (consume_reach (fun l => l) (fun l => l) picky_decoders (fun _ => 5) (fetched sample_recs ["evt"]) 1 (tracker_new 5) 0
      sample_range _ (Ok ((tracker_record (tracker_new 5) 5 6 (Some (5, [byte_of 1]))).1, 2)) sample_committed);
      [apply set_chain_at|apply sample_fetched|by vm_compute].
  - eapply (run_once_reach (fun l => l) (fun l => l) picky_decoders (fun _ => 5) (fetched sample_recs ["evt"]) 0 _
      (Err (EDecode "decode failed"))); by vm_compute.
  - done.
  - left.
  - done.
  - change (q0 ∈ queue_of sample_committed). rewrite Eq. left.
  - done.
Defined.
