(* ===== verification/SystemCalls.v ===== *)
(** Decoded calls in the running indexer: the decode of a range also decodes the calldata of the transactions of its
    records.  In every state the system can reach, the call of a stored record's transaction is in its table as it was
    decoded, or the record's block is in the range of a queued item; a pool that has caught up has written them all. *)
From S2P Require Import Prelude Model Btree Text Encode Store Repos Queue UnitOfWork Services ServicesFacts Ranges Plan Pipeline Ingest IngestFacts Worker System SystemSteps SystemFacts SystemLive PoolLive.

(** * The setting *)

(** [txrow c id]: the stored form of a transaction of the chain; [call_tables]: the tables of decoded calls. *)
Definition call_of_tx (decoders : gmap Z Decoder) (txrow : Z -> bytes -> TypedRow) (c : Z) (id : bytes) (row : EventRow) : Prop :=
  exists dec tc, decoders !! c = Some dec /\ dec_has_calls dec = true /\ calldata_of c (txrow c id) = Some tc
    /\ dec_decode_call dec tc = Ok (Some row).

(** The primary key of a table of calls is that of transactions. *)
Definition call_key (row : EventRow) : Key := inr (as_i64 (er_chain_id row), er_tx_id row).

Class CallDeployment (decoders : gmap Z Decoder) (txrow : Z -> bytes -> TypedRow) (ev_tables call_tables : list string) : Prop := {
  cl_table : forall c id row, call_of_tx decoders txrow c id row -> row_table row ∈ call_tables;
  cl_key : forall c1 id1 row1 c2 id2 row2, call_of_tx decoders txrow c1 id1 row1 -> call_of_tx decoders txrow c2 id2 row2 ->
    row_table row1 = row_table row2 ->
    call_key row1 = call_key row2 -> row1 = row2;
  cl_tables : forall t, t ∈ call_tables -> table_has_idx t = true /\ (t ∉ ev_tables) /\ t <> "transactions";
  cl_events : "transactions" ∉ ev_tables;
  cl_tx : forall c id, tr_chain_id (txrow c id) = as_i64 c /\ tr_tx_id (txrow c id) = id
}.

Section calls.
Context (mo : list (string * list EventRow) -> list (string * list EventRow)) (so : list bytes -> list bytes).
Context (Hmo : forall l, mo l ≡ₚ l) (Hso : forall l, so l ≡ₚ l).
Context (decoders : gmap Z Decoder) (start : Z -> Z) (recs : Z -> Z -> list RawRecord) (ev_tables : list string).
Context {Hdep : Deployment decoders start recs ev_tables}.
Context (txrow : Z -> bytes -> TypedRow) (call_tables : list string).
Context {Hcalls : CallDeployment decoders txrow ev_tables call_tables}.
Abbreviation inv := (db_inv decoders start recs ev_tables).
Abbreviation wok := (worker_ok decoders recs ev_tables).
Abbreviation call := (call_of_tx decoders txrow).
Abbreviation tx_stored x := (typed_row true x).

(** A delivered range brings the transactions of its records, and no rows of calls. *)
Definition fetched_txs (c : Z) (f : FetchedRange) : Prop :=
  fetched recs ev_tables c f
  /\ (forall x, x ∈ enrichment (fr_aux f) -> row_table x ∉ call_tables)
  /\ (forall x, x ∈ enrichment (fr_aux f) -> row_table x = "transactions" -> exists id, tx_stored x = txrow c id)
  /\ forall r, r ∈ fr_records f -> exists x, x ∈ enrichment (fr_aux f) /\ row_table x = "transactions"
       /\ tx_stored x = txrow c (rr_tx_id r).

(** The row of a call is in its table. *)
Definition call_row (d : Db) (row : EventRow) : Prop :=
  exists tab bt, db_tables d !! row_table row = Some tab
    /\ t_rows tab !! call_key row = Some (typed_row true (timed bt row)).

Definition called_in (d : Db) (c : Z) (r : RawRecord) : Prop := forall row, call c (rr_tx_id r) row -> call_row d row.

Definition call_event (x : EventRow) : Prop := exists c id row bt, call c id row /\ x = timed bt row.

Record call_db (w : World) : Prop := mkCallDb {
  cd_table : exists tab, db_tables (w_db w) !! "transactions" = Some tab /\ t_pk tab = PkTx;
  cd_tx : forall k v, parents (w_db w) !! k = Some v -> exists c id, is_u64 c /\ k = inr (as_i64 c, id) /\ v = txrow c id;
  cd_has : forall c b r, r ∈ recs c b -> is_Some (db_raw (w_db w) !! raw_key r) ->
    is_Some (parents (w_db w) !! inr (as_i64 c, rr_tx_id r));
  cd_rows : forall t tab, t ∈ call_tables -> db_tables (w_db w) !! t = Some tab -> t_pk tab = PkTx
    /\ forall k v, t_rows tab !! k = Some v -> exists x, call_event x /\ row_table x = t /\ typed_kv PkTx true x = Some (k, v);
  cd_work : forall c b r, r ∈ recs c b -> is_Some (db_raw (w_db w) !! raw_key r) ->
    called_in (w_db w) c r \/ exists q, q ∈ queue_of w /\ covers q c b
}.

Definition call_group (kv : string * list EventRow) : Prop :=
  forall x, x ∈ kv.2 -> row_table x = kv.1 /\ kv.1 <> "transactions" /\ (kv.1 ∈ call_tables -> call_event x).

(** Every call of the range is in its table or among the rows still to be written. *)
Definition calling (d : Db) (i : WorkItem) (gs : list (string * list EventRow)) : Prop :=
  forall b r row, wi_from i <= b <= wi_to i -> r ∈ recs (wi_chain_id i) b -> call (wi_chain_id i) (rr_tx_id r) row ->
    call_row d row \/ exists g bt, (row_table row, g) ∈ gs /\ timed bt row ∈ g.

Definition call_worker (w : World) (s : WState) : Prop :=
  match s with
  | WIdle | WLeased _ => True
  | WRaw l _ _ | WTimes l _ _ _ => is_u64 (wi_chain_id (l_item l)) /\ complete recs (w_db w) (wi_chain_id (l_item l)) (wi_from (l_item l)) (wi_to (l_item l))
  | WWrite l _ gs => Forall call_group gs /\ calling (w_db w) (l_item l) gs
  | WDone l _ => calling (w_db w) (l_item l) []
  end.

(** ** What others may do *)

Lemma call_row_evolves w w' row : evolves w w' -> call_row (w_db w) row -> call_row (w_db w') row.
Proof.
  intros He (tab & bt & Ht & Hk). destruct (row_kept _ _ _ _ _ _ (ev_tab _ _ He) Ht Hk) as (tab' & ? & ?). by exists tab', bt.
Qed.

Lemma called_evolves w w' c r : evolves w w' -> called_in (w_db w) c r -> called_in (w_db w') c r.
Proof. intros He H row Hr. eapply call_row_evolves; [done|]. by apply H. Qed.

Lemma calling_evolves w w' i gs : evolves w w' -> calling (w_db w) i gs -> calling (w_db w') i gs.
Proof. intros He H b r row Hb Hr Hc. destruct (H b r row Hb Hr Hc); [left; by eapply call_row_evolves|by right]. Qed.

Lemma call_worker_evolves w w' s : evolves w w' -> call_worker w s -> call_worker w' s.
Proof.
  intros He. destruct s; cbn; [done|done|..|by eapply calling_evolves]; intros [? ?]; (split; [done|]);
    eauto using complete_evolves, calling_evolves.
Qed.

(** A change of the queue or of the cursors alone. *)
Lemma call_db_queue w w' :
  call_db w -> db_tables (w_db w') = db_tables (w_db w) -> db_raw (w_db w') = db_raw (w_db w) ->
  (forall c b r q, r ∈ recs c b -> q ∈ queue_of w -> covers q c b ->
     called_in (w_db w) c r \/ exists q', q' ∈ queue_of w' /\ covers q' c b) ->
  call_db w'.
Proof.
  intros [A B C D E] Ht Hr Hq. assert (parents (w_db w') = parents (w_db w)) as Hp by (unfold parents; by rewrite Ht).
  assert (forall c r, called_in (w_db w) c r -> called_in (w_db w') c r) as Hc.
  { intros c r H row Hrow. destruct (H row Hrow) as (tab & bt & ? & ?). exists tab, bt. by rewrite Ht. }
  split; [by rewrite Ht|by rewrite Hp|by rewrite Hp, Hr|by rewrite Ht|]. rewrite Hr. intros c b r Hin Hraw.
  destruct (E c b r Hin Hraw) as [?|(q & Hqin & Hcov)]; [by left; auto|].
  destruct (Hq c b r q Hin Hqin Hcov); [by left; auto|by right].
Qed.

Lemma call_db_same w w' : same_state w w' -> call_db w -> call_db w'.
Proof.
  intros (D & _) H. eapply call_db_queue; [exact H|by rewrite D|by rewrite D|]. unfold queue_of. rewrite D. eauto.
Qed.

Lemma call_db_requeued w w' : requeued w w' -> call_db w -> call_db w'.
Proof.
  intros Hr H. pose proof Hr as (_ & D & _). eapply call_db_queue; [exact H|by rewrite D|by rewrite D|].
  intros c b r q _ Hq Hcov. right. destruct (requeued_back _ _ _ Hr Hq) as (q' & Hq' & Hl). exists q'.
  split; [done|]. unfold covers. by rewrite Hl.
Qed.

Lemma pull_requeues w r w' :
  pull_any w = (r, w') -> same_state w w' \/ exists v, same_state w v /\ requeued v w'.
Proof.
  intros (v & Sv & Hw & _)%sql_runs. destruct Hw as [Hs|[a Ha]]; [by left|]. unfold pull_rows in Ha.
  destruct (list_find _ _) as [[i row]|] eqn:Ef; injection Ha as _ <-; [|by left]. right. exists v. split; [done|].
  apply list_find_Some in Ef as (Hrow & _). by apply locked_requeued.
Qed.

Lemma reclaim_requeues secs w r w' :
  reclaim secs w = (r, w') -> same_state w w' \/ exists v, same_state w v /\ requeued v w'.
Proof.
  intros (v & Sv & Hw & _)%sql_runs. destruct Hw as [Hs|[a [= _ <-]]]; [by left|]. right. exists v. split; [done|].
  split_and!; [done|done|]. cbn. unfold reclaim_rows. apply Forall2_fmap_r, Forall_Forall2_diag, Forall_true.
  intros x. cbn. by destruct (expired (w_now v) secs x).
Qed.

Lemma call_db_requeues w w' : (same_state w w' \/ exists v, same_state w v /\ requeued v w') -> call_db w -> call_db w'.
Proof. intros [Hs|(v & Hs & Hr)] H; [by eapply call_db_same|]. eapply call_db_requeued; [exact Hr|by eapply call_db_same]. Qed.

Lemma call_db_ack l w r w' :
  ack (l_id l) (l_lease_seq l) w = (r, w') -> held w l -> calling (w_db w) (l_item l) [] -> call_db w -> call_db w'.
Proof.
  intros (v & Sv & Hw & _)%sql_runs Hh Hd Hi. destruct Hw as [Hs|[a [= _ <-]]]; [by eapply call_db_same|].
  destruct Sv as (D & _). eapply call_db_queue; [exact Hi|cbn; by rewrite D|cbn; by rewrite D|].
  intros c b x q Hx Hq Hcov. destruct (decide (wq_id q = l_id l /\ wq_lease_seq q = l_lease_seq l)) as [[Hid _]|Hn].
  - left. destruct Hcov as [<- Hcov]. rewrite (proj2 Hh q Hq Hid) in *. intros row Hrow.
    by destruct (Hd b x row Hcov Hx Hrow) as [?|(g & bt & []%not_elem_of_nil & _)].
  - right. exists q. split; [|done]. unfold queue_of, ack_rows in *. cbn. rewrite D. by apply list_elem_of_filter.
Qed.

(** ** Writing rows *)

Lemma call_db_typed t g w w' :
  call_group (t, g) -> w_db w' = typed_effect t (by_signature g) (w_db w) -> evolves w w' -> call_db w -> call_db w'.
Proof.
  intros Hg D He Hi. destruct (decide (g = [])) as [->|Hne].
  { change (by_signature []) with (@nil EventRow) in D. rewrite typed_effect_nil in D. eapply call_db_queue; [exact Hi|by rewrite D|by rewrite D|].
    unfold queue_of. rewrite D. eauto. }
  assert (t <> "transactions") as Ht by (destruct g as [|x g]; [done|]; apply (Hg x); left).
  destruct Hi as [(tt & A & A2) B C E F].
  assert (parents (w_db w') = parents (w_db w)) as Hp by (unfold parents; rewrite D; cbn; by rewrite lookup_alter_ne).
  split; [exists tt; rewrite D; cbn; by rewrite lookup_alter_ne|by rewrite Hp|by rewrite Hp, D| |].
  - intros t' tab Ht' Htab. rewrite D in Htab. cbn in Htab. destruct (decide (t' = t)) as [->|Hn].
    2:{ rewrite lookup_alter_ne in Htab by done. by apply E. }
    rewrite lookup_alter_eq in Htab. destruct (db_tables (w_db w) !! t) as [tab0|] eqn:E0; [|done].
    injection Htab as <-. destruct (E t tab0 Ht' E0) as [Hpk Hrows]. split; [done|]. cbn.
    rewrite Hpk, (proj1 (cl_tables t Ht')). intros k v [Hk|[_ Hk]]%lookup_union_Some_raw; [by apply Hrows|].
    apply elem_of_list_to_map_2, list_elem_of_omap in Hk as (x & Hx & Hkv). rewrite by_signature_perm in Hx.
    destruct (Hg x Hx) as (Hxt & _ & Hev). exists x. by split_and!; [apply Hev| |].
  - intros c b r Hr Hraw. rewrite D in Hraw. destruct (F c b r Hr Hraw) as [Hd|Hq]; [left; by eapply called_evolves|right].
    unfold queue_of in *. by rewrite D.
Qed.

(** A write that returns has put the calls into their table. *)
Lemma call_written t g w n w' row bt :
  event_upsert_batch t g w = (Ok n, w') -> call_db w -> call_db w' -> t ∈ call_tables -> call_event (timed bt row) ->
  row_table row = t -> timed bt row ∈ g -> call_row (w_db w') row.
Proof.
  intros H Hi Hi' Ht Hx <- Hin. pose proof (updates_map_err domain_of_db _ _ (event_upsert_updates (row_table row) g)) as Hu.
  destruct (upsert_table (row_table row) g _ w n w' H Hin) as [tab0 E0].
  assert (w_db w' = typed_effect (row_table row) (by_signature g) (w_db w)) as D.
  { unfold event_upsert_batch in H. apply mbind_Ok in H as (? & ? & E & H). injection E as _ <-.
    by apply (updates_in_tx domain_of_db _ _ Hu) in H as (-> & _). }
  destruct (cd_rows _ Hi _ tab0 Ht E0) as [Hpk _]. set (tab := add_rows (row_table row) (by_signature g) tab0).
  assert (db_tables (w_db w') !! row_table row = Some tab) as E1 by (rewrite D; cbn; by rewrite lookup_alter_eq, E0).
  assert (typed_kv (t_pk tab0) (table_has_idx (row_table row)) (timed bt row)
    = Some (call_key row, typed_row true (timed bt row))) as Hkv
    by (by rewrite Hpk, (proj1 (cl_tables _ Ht))).
  destruct (add_rows_present _ (by_signature g) tab0 _ _ (by_signature_elem g _ Hin) Hkv) as [v Hv]. cbn [fst] in Hv.
  destruct (cd_rows _ Hi' _ tab Ht E1) as [_ Hrows]. destruct (Hrows _ _ Hv) as (y & (c2 & id2 & row2 & bt2 & Hc2 & ->) & Hyt & Hyk).
  destruct Hx as (c1 & id1 & row1 & bt1 & Hc1 & E). injection Hyk as Ek1 Ek2 <-.
  assert (row2 = row1) as ->.
  { apply (cl_key c2 id2 row2 c1 id1 row1); [done|done| |].
    - change (row_table (timed bt2 row2)) with (row_table row2) in Hyt. rewrite Hyt. by change (row_table row1) with (row_table (timed bt1 row1)); rewrite <- E.
    - unfold call_key. rewrite Ek1, Ek2. change (er_chain_id row1) with (er_chain_id (timed bt1 row1)).
      change (er_tx_id row1) with (er_tx_id (timed bt1 row1)). by rewrite <- E. }
  exists tab, bt2. split; [done|]. apply (f_equal (timed bt2)) in E. change (timed bt2 row = timed bt2 row1) in E.
  rewrite E. exact Hv.
Qed.

(** ** The ingest commit *)

Lemma call_db_ingested c f w w' :
  inv w -> is_u64 c -> fetched_txs c f -> evolves w w' ->
  ingested (batch_of c f 0 false) (w_seq w) (w_db w) (w_db w') -> call_db w -> call_db w'.
Proof.
  intros Hinv Hc (Hf & Henr & Htx & Hall) He Hin [(tab & A & A2) B C E F].
  set (rows := rows_for (batch_of c f 0 false) "transactions").
  assert (forall x, x ∈ rows <-> x ∈ enrichment (fr_aux f) /\ row_table x = "transactions") as Hrows.
  { intros x. unfold rows, rows_for. rewrite by_signature_perm, list_elem_of_filter. cbn. tauto. }
  pose proof (in_tables _ _ _ _ Hin "transactions") as T. rewrite A in T. cbn in T. fold rows in T. rewrite A2 in T.
  assert (parents (w_db w) = t_rows tab) as P1 by (unfold parents; by rewrite A).
  assert (parents (w_db w') = t_rows tab ∪ list_to_map (omap (typed_kv PkTx true) rows)) as P2
    by (unfold parents; by rewrite T).
  split.
  - eexists. split; [exact T|done].
  - rewrite P2. intros k v [Hk|[_ Hk]]%lookup_union_Some_raw; [apply B; by rewrite P1|].
    apply elem_of_list_to_map_2, list_elem_of_omap in Hk as (x & [Hx Hxt]%Hrows & Hkv).
    destruct (Htx x Hx Hxt) as [id Eid]. exists c, id. split; [done|]. unfold typed_kv in Hkv. rewrite Eid in Hkv. cbn in Hkv.
    injection Hkv as <- <-. destruct (cl_tx c id) as [E1 E2].
    by rewrite E1, E2.
  - intros x b r Hr Hraw. rewrite P2. rewrite (in_raw _ _ _ _ Hin) in Hraw. apply lookup_union_is_Some in Hraw as [Hold|Hnew].
    + apply lookup_union_is_Some. left. rewrite <- P1. by eapply C.
    + destruct (ingested_covers decoders start recs ev_tables c f w w' x b r Hc Hf Hin Hr Hnew) as (-> & Hrec & _).
      destruct (Hall r Hrec) as (y & Hy & Hyt & Ey).
      pose proof (add_rows_present "transactions" rows tab y (inr (as_i64 c, rr_tx_id r), tx_stored y)) as Hp.
      cbn in Hp. rewrite A2 in Hp. apply Hp; [by apply Hrows|]. unfold typed_kv. rewrite Ey. cbn.
      destruct (cl_tx c (rr_tx_id r)) as [E1 E2]. by rewrite E1, E2.
  - intros t tab' Ht Htab. apply (E t tab' Ht). rewrite (in_tables _ _ _ _ Hin t) in Htab.
    assert (rows_for (batch_of c f 0 false) t = []) as E0.
    { apply Permutation_nil. unfold rows_for. rewrite by_signature_perm. rewrite filter_none; [done|].
      intros x Hx Ex. apply (Henr x Hx). by rewrite Ex. }
    rewrite E0 in Htab. rewrite <- Htab. destruct (db_tables (w_db w) !! t) as [[]|]; [|done]. unfold set_rows. cbn.
    by rewrite map_union_empty.
  - intros x b r Hr Hraw. rewrite (in_raw _ _ _ _ Hin) in Hraw. apply lookup_union_is_Some in Hraw as [Hold|Hnew].
    + destruct (F x b r Hr Hold) as [?|(q & Hq & Hcov)]; [left; by eapply called_evolves|right].
      exists q. split; [by eapply ingested_queue|done].
    + right. by destruct (ingested_covers decoders start recs ev_tables c f w w' x b r Hc Hf Hin Hr Hnew) as (_ & _ & ?).
Qed.

(** ** A worker's piece *)

Lemma calls_read w c ids txs w' :
  block_calldata c (so (remove_dups ids)) w = (Ok txs, w') -> is_u64 c -> call_db w ->
  (forall tc, tc ∈ txs -> exists id, calldata_of c (txrow c id) = Some tc)
  /\ forall id tc, id ∈ ids -> is_Some (parents (w_db w) !! inr (as_i64 c, id)) -> calldata_of c (txrow c id) = Some tc -> tc ∈ txs.
Proof.
  intros H Hc Hi. apply calldata_rows in H as (rows & Hp & Hm); [|rewrite Hso; apply NoDup_remove_dups].
  apply mapM_Some in Hm.
  assert (forall v, v ∈ rows <-> exists id, v = txrow c id /\ id ∈ ids /\ parents (w_db w) !! inr (as_i64 c, id) = Some v) as Hrows.
  { intros v. rewrite Hp. unfold tx_rows. rewrite list_elem_of_filter, list_elem_of_fmap. rewrite Hso, elem_of_remove_dups. split.
    - intros ([Hch Hid] & [k v'] & -> & Hk%elem_of_map_to_list). cbn in *.
      destruct (cd_tx _ Hi _ _ Hk) as (c' & id & Hc' & -> & ->). destruct (cl_tx c' id) as [E1 E2]. rewrite E1 in Hch. rewrite E2 in Hid.
      apply as_i64_inj in Hch as ->; [|done|done]. by exists id.
    - intros (id & -> & Hid & Hk). destruct (cl_tx c id) as [E1 E2]. split; [by rewrite E1, E2|].
      exists (inr (as_i64 c, id), txrow c id). split; [done|]. by apply elem_of_map_to_list. }
  split.
  - intros tc (i & Htc)%list_elem_of_lookup. destruct (Forall2_lookup_r _ _ _ _ _ Hm Htc) as (v & Hv & E).
    apply list_elem_of_lookup_2, Hrows in Hv as (id & -> & _). by exists id.
  - intros id tc Hid [v Hv] E. destruct (cd_tx _ Hi _ _ Hv) as (c' & id' & Hc' & [= Ec <-] & ->).
    apply as_i64_inj in Ec as <-; [|done|done]. assert (txrow c id ∈ rows) as (i & Hi')%list_elem_of_lookup by (apply Hrows; eauto).
    destruct (Forall2_lookup_l _ _ _ _ _ Hm Hi') as (tc' & Htc & E'). rewrite E in E'. injection E' as <-.
    by eapply list_elem_of_lookup_2.
Qed.

Lemma calls_decoded w c dec raw calls w' :
  (if dec_has_calls dec then do txs <- block_calldata c (so (remove_dups (rr_tx_id <$> raw))); mlift (decode_all (dec_decode_call dec) txs)
   else mret_ []) w = (Ok calls, w') ->
  decoders !! c = Some dec -> is_u64 c -> call_db w ->
  (forall r, r ∈ raw -> is_Some (parents (w_db w) !! inr (as_i64 c, rr_tx_id r))) ->
  (forall row, row ∈ calls -> exists id, call c id row) /\ forall r row, r ∈ raw -> call c (rr_tx_id r) row -> row ∈ calls.
Proof.
  intros H Hd Hc Hi Hhas. destruct (dec_has_calls dec) eqn:Hb.
  - apply mbind_Ok in H as (txs & w3 & Et & H). injection H as Ec _.
    destruct (calls_read _ _ _ _ _ Et Hc Hi) as [R1 R2]. split.
    + intros row (tc & Htc & E)%(decode_all_elem _ _ _ _ Ec). destruct (R1 tc Htc) as [id Hid]. exists id, dec, tc. done.
    + intros r row Hr (dec' & tc & Hd' & _ & Etc & E). rewrite Hd in Hd'. injection Hd' as <-.
      apply (decode_all_elem _ _ _ _ Ec). exists tc. split; [|done]. eapply R2; [by apply list_elem_of_fmap_2|by apply Hhas|done].
  - apply mret_Ok in H as [-> _]. split; [by intros row ?%not_elem_of_nil|]. intros r row _ (dec' & tc & Hd' & Hb' & _).
    rewrite Hd in Hd'. injection Hd' as <-. by rewrite Hb in Hb'.
Qed.

(** What the decode of a range is about to write. *)
Lemma call_groups w l dec raw times rows calls :
  decoders !! wi_chain_id (l_item l) = Some dec -> raw_ok recs (l_item l) raw -> decode_all (dec_decode dec) raw = Ok rows ->
  (forall row, row ∈ calls -> exists id, call (wi_chain_id (l_item l)) id row) ->
  (forall r row, r ∈ raw -> call (wi_chain_id (l_item l)) (rr_tx_id r) row -> row ∈ calls) ->
  let gs := mo (btree_group str_cmp row_table (stamp times <$> rows ++ calls)) in
  Forall call_group gs /\ calling (w_db w) (l_item l) gs.
Proof.
  intros Hd Hraw Hrows Hc1 Hc2 gs. set (all := stamp times <$> rows ++ calls) in gs.
  destruct (btree_group_spec str_cmp row_table all) as (G1 & G2 & G3). apply (ascending_NoDup str_cmp) in G1.
  assert (forall t g, (t, g) ∈ gs -> g = filter (fun x => row_table x = t) all) as Hg.
  { intros t g. unfold gs. rewrite Hmo. intros Hin. by rewrite <- G3, (group_of_elem _ _ _ G1 Hin). }
  split.
  - apply Forall_forall. intros [t g] Hin x Hx. cbn in *. rewrite (Hg t g Hin) in Hx.
    apply list_elem_of_filter in Hx as [<- Hx]. apply list_elem_of_fmap in Hx as (y & -> & [Hy|Hy]%elem_of_app).
    + apply (decode_all_elem _ _ _ _ Hrows) in Hy as (r & (b & _ & Hr)%Hraw & E).
      destruct (dp_event _ _ _ _ _ Hd Hr E) as (Ht & _). change (row_table (stamp times y)) with (row_table y).
      split_and!; [done|intros Et; apply cl_events; by rewrite <- Et|]. intros Hct. by destruct (proj1 (proj2 (cl_tables _ Hct))).
    + destruct (Hc1 y Hy) as [id Hcall]. pose proof (cl_table _ _ _ Hcall) as Ht. change (row_table (stamp times y)) with (row_table y).
      split_and!; [done|apply (cl_tables _ Ht)|]. intros _. exists (wi_chain_id (l_item l)), id, y, (time_at times (er_height y)). done.
  - intros b r row Hb Hr Hcall. right.
    assert (stamp times row ∈ all) as Hin.
    { apply list_elem_of_fmap_2, elem_of_app. right. apply (Hc2 r); [apply Hraw; eauto|done]. }
    assert (row_table row ∈ (btree_group str_cmp row_table all).*1) as Hk by (apply G2; by exists (stamp times row)).
    apply list_elem_of_fmap in Hk as ([t g] & Ht & Htg). cbn in Ht. subst t.
    exists g, (time_at times (er_height row)). split; [unfold gs; by rewrite Hmo|].
    rewrite (Hg (row_table row) g) by (unfold gs; by rewrite Hmo). by apply list_elem_of_filter.
Qed.

Lemma calling_next w w' l t g gs n :
  event_upsert_batch t g w = (Ok n, w') -> evolves w w' -> call_db w -> call_db w' -> Forall call_group ((t, g) :: gs) ->
  calling (w_db w) (l_item l) ((t, g) :: gs) -> calling (w_db w') (l_item l) gs.
Proof.
  intros H He Hi Hi' [Hg _]%Forall_cons Hw b r row Hb Hr Hcall.
  destruct (calling_evolves _ _ _ _ He Hw b r row Hb Hr Hcall) as [?|(g' & bt & Hin & Hx)]; [by left|].
  apply elem_of_cons in Hin as [[= <- <-]|Hin]; [left|right; eauto].
  pose proof (cl_table _ _ _ Hcall) as Ht. eapply call_written; [exact H|done|done|exact Ht| |done|exact Hx].
  by apply (Hg _ Hx).
Qed.

Lemma call_step ws w r w' :
  worker_step mo so decoders ws w = (r, w') -> inv w -> wok w ws -> call_db w -> call_worker w ws ->
  call_db w' /\ call_worker w' (after_step r).
Proof.
  intros H Hinv Hok Hi Hcw. pose proof (worker_step_inv mo so Hmo _ _ _ _ _ _ _ _ H Hinv Hok) as (Hinv' & He & Hok').
  assert (forall x, same_state w w' -> (forall s, x = Ok (inl s) -> call_worker w' s) -> call_db w' /\ call_worker w' (after_step x)) as Hread.
  { intros x Sw Hx. split; [by eapply call_db_same|]. destruct x as [[s|]|]; [by apply Hx|done|done]. }
  destruct ws as [|l|l dec raw|l dec raw times|l n [|[t g] gs]|l n]; cbn [worker_step] in H.
  - unfold mbind_ in H. destruct (pull_any w) as [x w1] eqn:Ep. apply pull_requeues in Ep.
    assert (call_db w1) as H1 by (by eapply call_db_requeues). destruct x as [[l|]|e]; injection H as <- <-; by split.
  - destruct Hok as [Hh Hit]. destruct (decoders !! _) as [dec|] eqn:Ed.
    2:{ injection H as <- <-. apply Hread; [done|]. intros s [= <-] b x row _ _ (dec & tc & Hd & _). by rewrite Ed in Hd. }
    unfold mbind_ in H. destruct (raw_range _ _ _ w) as [x w1] eqn:Er. pose proof (reads_raw_range _ _ _ _ _ _ Er) as S1.
    destruct x as [raw|e]; injection H as <- <-; (apply Hread; [done|]); [|done]. intros s [= <-].
    split; [apply Hit|]. eapply complete_evolves; [by apply evolves_same|]. apply Hit.
  - unfold mbind_ in H. destruct (block_times _ _ _ w) as [x w1] eqn:Er. pose proof (reads_block_times _ _ _ _ _ _ Er) as S1.
    destruct x as [tm|e]; injection H as <- <-; (apply Hread; [done|]); [|done]. intros s [= <-].
    by apply (call_worker_evolves w).
  - destruct Hok as (Hh & Hd & Hraw). pose proof (reads_decode mo so decoders _ _ _ _ w r w' H) as S1. apply Hread; [done|]. intros s ->.
    apply mbind_Ok in H as (rows & w1 & Er & H). injection Er as Er <-.
    apply mbind_Ok in H as (calls & w2 & Ec & H). apply mret_Ok in H as [[= ->] ->].
    destruct Hcw as [Hu Hcomp]. eapply calls_decoded in Ec as [C1 C2]; [|done|done|done|].
    + by eapply (call_groups w2 l dec raw times rows calls Hd Hraw Er).
    + intros x (b & Hb & Hx)%Hraw. eapply cd_has; [done|exact Hx|by apply (Hcomp b)].
  - injection H as <- <-. apply Hread; [done|]. intros s [= <-]. apply Hcw.
  - unfold mbind_ in H. destruct (event_upsert_batch t g w) as [x w1] eqn:Eu. destruct Hcw as [Hg Hw].
    assert (w1 = w') as -> by (destruct x; by injection H as _ <-).
    assert (call_db w') as Hi'.
    { apply upsert_effect in Eu as [D|D]; [|by eapply call_db_typed; [apply (Forall_cons_1 _ _ _ Hg)|..]].
      eapply call_db_queue; [exact Hi|by rewrite D|by rewrite D|]. unfold queue_of. rewrite D. eauto. }
    split; [done|]. destruct x as [k|e]; injection H as <-; [|done].
    split; [by apply (Forall_cons_1 _ _ _ Hg)|by eapply calling_next].
  - destruct Hok as [Hh _]. unfold mbind_ in H. destruct (ack _ _ w) as [x w1] eqn:Ea. apply call_db_ack in Ea; [|done..].
    by destruct x; injection H as <- <-.
Qed.

(** ** Every reachable state *)

Record call_inv (s : Sys) : Prop := mkCallInv {
  ci_db : call_db (sy_world s);
  ci_workers : forall k ws, sy_workers s !! k = Some ws -> call_worker (sy_world s) ws
}.

Lemma step_fetched s s' :
  sys_step mo so decoders start fetched_txs s s' -> sys_step mo so decoders start (fetched recs ev_tables) s s'.
Proof. destruct 1; try by (econstructor; eauto). eapply SCommit; [done| |done]. by match goal with H : fetched_txs _ _ |- _ => apply H end. Qed.

Lemma call_inv_worker s k ws w' :
  call_inv s -> evolves (sy_world s) w' -> call_db w' -> call_worker w' ws -> call_inv (set_worker k ws w' s).
Proof.
  intros [_ Hw] He Hi Hk. split; [done|]. intros k' ws'. cbn. rewrite lookup_insert_Some.
  intros [[-> <-]|[_ H]]; [done|]. eapply call_worker_evolves; [exact He|]. by eapply Hw.
Qed.

Lemma call_inv_world s w' :
  call_inv s -> evolves (sy_world s) w' -> call_db w' -> forall cs, call_inv (mkSys w' (sy_workers s) cs).
Proof. intros [_ Hw] He Hi cs. split; [done|]. intros k ws H. eapply call_worker_evolves; [exact He|]. by eapply Hw. Qed.

Lemma call_sys_step s s' :
  sys_step mo so decoders start fetched_txs s s' -> sys_inv decoders start recs ev_tables s -> call_inv s -> call_inv s'.
Proof.
  intros Hst Hinv Hci. pose proof (sys_step_inv mo so Hmo _ _ _ _ _ _ (step_fetched _ _ Hst) Hinv) as [_ He].
  pose proof (si_db _ _ _ _ _ Hinv) as Hdb. pose proof (ci_db _ Hci) as Hi.
  destruct Hst as [s now faults Hnow|s k ws r w' Hk Hst|s k|s k i row Hk Hrow Hl row'|s secs r w' Hr|s c o w' Hc Hg
    |s c prefix n f r w' Hc Hf Hw|s c prefix n cp r w' Hc Hw|s c prefix n Hc|s c]; cbn [sy_world set_world set_worker set_chain] in He.
  - apply call_inv_world; [done|done|]. eapply call_db_queue; [exact Hi|done|done|]. cbn. eauto.
  - destruct (call_step _ _ _ _ Hst Hdb (si_workers _ _ _ _ _ Hinv _ _ Hk) Hi (ci_workers _ Hci _ _ Hk)) as [? ?].
    by apply call_inv_worker.
  - by apply call_inv_worker.
  - apply call_inv_worker; [done|done| |done]. eapply call_db_requeued; [by apply locked_requeued|done].
  - apply call_inv_world; [done|done|]. eapply call_db_requeues; [by eapply reclaim_requeues|done].
  - apply call_inv_world; [done|done|]. eapply call_db_same; [|done].
    refine ((_ : reads (cursor_get c)) _ _ _ Hg). apply reads_map_err, reads_sql. by intros v a v' [= <- <-].
  - apply call_inv_world; [done|done|]. unfold writer_commit, mbind_ in Hw.
    destruct (commit_range c f 0 (sy_world s)) as [x w1] eqn:Ec.
    assert (w1 = w') as -> by (destruct x; [destruct (tracker_record _ _ _ _)|]; by injection Hw as _ <-).
    apply commit_cases in Ec as [_ [[D _]|[Hin _]]].
    + eapply call_db_queue; [exact Hi|by rewrite D|by rewrite D|]. unfold queue_of. rewrite D. eauto.
    + eapply call_db_ingested; [exact Hdb|apply (si_chains _ _ _ _ _ Hinv _ _ Hc)|exact Hf|exact He|exact Hin|exact Hi].
  - apply call_inv_world; [done|done|]. unfold writer_move, mbind_ in Hw. destruct cp as [[h hash]|]; [|by injection Hw as <- <-].
    destruct (cursor_advance c h hash (sy_world s)) as [x w1] eqn:Ea.
    assert (w1 = w') as -> by (destruct x; by injection Hw as _ <-).
    assert (db_tables (w_db w') = db_tables (w_db (sy_world s)) /\ db_raw (w_db w') = db_raw (w_db (sy_world s))
      /\ db_queue (w_db w') = db_queue (w_db (sy_world s))) as (Et & Er & Eq)
      by (apply cursor_advance_run in Ea as [E|[E _]]; by rewrite E).
    eapply call_db_queue; [exact Hi|done|done|]. unfold queue_of. rewrite Eq. eauto.
  - apply call_inv_world; [done|done|done].
  - apply call_inv_world; [done|done|done].
Qed.

Lemma call_sys_reach s s' :
  sys_reach mo so decoders start fetched_txs s s' -> sys_inv decoders start recs ev_tables s -> call_inv s ->
  sys_inv_from decoders start recs ev_tables s s' /\ call_inv s'.
Proof.
  intros H Hs Hc. induction H as [|s1 s2 _ [[I1 E1] C1] Hst]; [split; [split; [done|by apply evolves_same]|done]|].
  destruct (sys_step_inv mo so Hmo _ _ _ _ _ _ (step_fetched _ _ Hst) I1) as [I2 E2].
  split; [split; [done|by eapply evolves_trans]|by eapply call_sys_step].
Qed.

(** The tables of transactions and calls as [migrate] leaves them. *)
Definition fresh_calls (d : Db) : Prop :=
  (exists tab, db_tables d !! "transactions" = Some tab /\ t_pk tab = PkTx /\ t_rows tab = ∅)
  /\ forall t tab, t ∈ call_tables -> db_tables d !! t = Some tab -> t_pk tab = PkTx /\ t_rows tab = ∅.

Lemma launched_calls n w : fresh_store ev_tables (w_db w) -> fresh_calls (w_db w) -> call_inv (launched n w).
Proof.
  intros (Hr & _) ((tab & Ht & Hpk & Hrows) & Hc). split; [split|].
  - by exists tab.
  - intros k v. unfold parents. cbn. rewrite Ht. cbn. rewrite Hrows. by rewrite lookup_empty.
  - cbn. rewrite Hr. intros c b r _ [v H]. by rewrite lookup_empty in H.
  - intros t tab' Hin Htab. destruct (Hc t tab' Hin Htab) as [? E]. split; [done|]. rewrite E. intros k v Hkv. by rewrite lookup_empty in Hkv.
  - cbn. rewrite Hr. intros c b r _ [v H]. by rewrite lookup_empty in H.
  - cbn. intros k ws H. unfold spawn_worker_pool in H.
    apply elem_of_list_to_map_2, list_elem_of_fmap in H as (j & E & _). by injection E as _ ->.
Qed.

(** A restarted pool keeps the promise. *)
Lemma restarted_calls n w : call_db w -> call_inv (launched n w).
Proof.
  intros Hi. split; [done|]. cbn. intros k ws H. unfold spawn_worker_pool in H.
  apply elem_of_list_to_map_2, list_elem_of_fmap in H as (j & E & _). by injection E as _ ->.
Qed.
End calls.

(** * The guarantees *)

(** The calls are not lost either: in every state a run of the indexer can reach (any interleaving, crashes, restarts,
    overlapping pulls, reclaims and storage faults), for every matched record of a chain from its start block to its cursor the
    transaction is stored, and when its calldata decodes to a call the row of the call is in its table as it was decoded or the
    record's block is in the range of an item still in the queue. *)
Theorem run_calls_decoded_or_queued (mo : list (string * list EventRow) -> list (string * list EventRow))
    (so : list bytes -> list bytes) (decoders : gmap Z Decoder) (start : Z -> Z) (recs : Z -> Z -> list RawRecord)
    (ev_tables : list string) (txrow : Z -> bytes -> TypedRow) (call_tables : list string) (workers : nat) (w : World) (s : Sys)
    (c cu b : Z) (hash : bytes) (r : RawRecord) :
  (forall l, mo l ≡ₚ l) -> (forall l, so l ≡ₚ l) -> Deployment decoders start recs ev_tables ->
  CallDeployment decoders txrow ev_tables call_tables ->
  fresh_store ev_tables (w_db w) -> fresh_calls call_tables (w_db w) ->
  sys_reach mo so decoders start (fetched_txs recs ev_tables txrow call_tables) (launched workers w) s ->
  is_u64 c -> db_cursors (w_db (sy_world s)) !! as_i64 c = Some (cu, hash) ->
  Z.max (start c) 1 <= b <= cu -> r ∈ recs c b ->
  is_Some (parents (w_db (sy_world s)) !! inr (as_i64 c, rr_tx_id r))
  /\ (called_in decoders txrow (w_db (sy_world s)) c r \/ exists q, q ∈ queue_of (sy_world s) /\ covers q c b).
Proof.
  intros Hmo Hso Hdep Hcd Hf Hfc Hr Hc Hcu Hb Hin.
  eapply (call_sys_reach mo so Hmo Hso) in Hr as [[Hi _] Hci]; [|exact Hdep|exact Hcd|by apply run_inv|by eapply launched_calls].
  destruct (di_cursor _ _ _ _ _ (si_db _ _ _ _ _ Hi) c cu hash Hc Hcu) as [_ Hs].
  assert (is_Some (db_raw (w_db (sy_world s)) !! raw_key r)) as Hst by (apply (Hs b); [lia|done]).
  destruct Hci as [[_ _ Hhas _ Hwork] _]. split; [by eapply Hhas|by eapply Hwork].
Qed.

(** And once a restarted pool has caught up, which under a fair schedule it does for good, the calls of all stored
    records are in their tables. *)
Theorem pool_writes_calls (mo : list (string * list EventRow) -> list (string * list EventRow))
    (so : list bytes -> list bytes) (decoders : gmap Z Decoder) (start : Z -> Z) (recs : Z -> Z -> list RawRecord)
    (ev_tables : list string) (txrow : Z -> bytes -> TypedRow) (call_tables : list string) (workers n : nat) (w : World) (s : Sys)
    (sc : Schedule) :
  (forall l, mo l ≡ₚ l) -> (forall l, so l ≡ₚ l) -> Deployment decoders start recs ev_tables ->
  CallDeployment decoders txrow ev_tables call_tables ->
  fresh_store ev_tables (w_db w) -> fresh_calls call_tables (w_db w) ->
  sys_reach mo so decoders start (fetched_txs recs ev_tables txrow call_tables) (launched workers w) s ->
  calm (sy_world s) -> writable decoders recs (w_db (sy_world s)) -> Forall (fun q => locked q = false) (queue_of (sy_world s)) ->
  (0 < n)%nat -> fair (spawn_worker_pool n) sc ->
  exists t, forall t', (t <= t')%nat ->
    let w' := sy_world (play mo so decoders sc t' (launched n (sy_world s))) in
    queue_of w' = []
    /\ forall c b r, r ∈ recs c b -> is_Some (db_raw (w_db (sy_world s)) !! raw_key r) ->
         decoded_in decoders (w_db w') c b r /\ called_in decoders txrow (w_db w') c r.
Proof.
  intros Hmo Hso Hdep Hcd Hf Hfc Hr Hcalm Hwr Hu Hn Hfair.
  eapply (call_sys_reach mo so Hmo Hso) in Hr as [[Hi _] Hci]; [|exact Hdep|exact Hcd|by apply run_inv|by eapply launched_calls].
  pose proof (si_db _ _ _ _ _ Hi) as Hdb.
  destruct (pool_catches_up mo so Hmo decoders start recs ev_tables n (sy_world s) sc Hn Hdb Hcalm Hwr Hu Hfair) as [t Ht].
  exists t. intros t' Hle w'. destruct (Ht t' Hle) as (Q & He & Hd). split; [exact Q|]. intros c b r Hin Hraw.
  split; [by apply Hd|].
  pose proof (play_reach mo so decoders start (fetched_txs recs ev_tables txrow call_tables) sc t' (launched n (sy_world s))) as Hp.
  eapply (call_sys_reach mo so Hmo Hso) in Hp as [_ [[_ _ _ _ Hwork] _]]; [| | | |by eapply restarted_calls, Hci]; [|done|done|].
  - destruct (Hwork c b r Hin (ev_raw _ _ He _ Hraw)) as [?|(q & Hq & _)]; [done|].
    change (queue_of w' = []) in Q. change (q ∈ queue_of w') in Hq. rewrite Q in Hq. by apply not_elem_of_nil in Hq.
  - split; [done| |].
    + cbn. intros k ws H. unfold spawn_worker_pool in H.
      apply elem_of_list_to_map_2, list_elem_of_fmap in H as (j & E & _). by injection E as _ ->.
    + intros x wr H. cbn in H. by rewrite lookup_empty in H.
Qed.

(** ** A run with a call *)

Definition sample_tx_fields : list (string * EventValue) := [("input", VBytes [byte_of 1; byte_of 2]); ("to_addr", VAddress [byte_of 2])].
Definition sample_tx : EventRow := mkEventRow 1 5 [byte_of 1] None [byte_of 6] 0 (mkDecodedEvent "transactions" sample_tx_fields).
Definition sample_txrow (c : Z) (id : bytes) : TypedRow := mkTypedRow (as_i64 c) 5 [byte_of 1] None id (Some 0) sample_tx_fields.
Definition sample_call : EventRow := mkEventRow 1 5 [byte_of 1] None [byte_of 6] 0 (mkDecodedEvent "call" [("value", VUint "2")]).

(** Two events and one call per transaction. *)
Definition calls_decoder : Decoder :=
  mkDecoder (fun r => Ok (Some (evt_row r)))
    (fun tc => Ok (if decide (tc_tx_id tc = [byte_of 6]) then Some sample_call else None)) true (fun _ => [])
    (fun _ => mkRecordFilter [] []).
Definition calls_decoders : gmap Z Decoder := <[1 := calls_decoder]> ∅.

Lemma calls_only c dec : calls_decoders !! c = Some dec -> dec = calls_decoder.
Proof. unfold calls_decoders. intros [[_ <-]|[_ Hd]]%lookup_insert_Some; [done|by rewrite lookup_empty in Hd]. Qed.

Lemma calls_deployment : Deployment calls_decoders (fun _ => 5) sample_recs ["evt"].
Proof.
  assert (forall c b r, r ∈ sample_recs c b -> c = 1 /\ b = 5 /\ (r = sample_rec 5 0 \/ r = sample_rec 5 1)) as Hin.
  { intros c b r. unfold sample_recs. case_decide; [|by intros ?%not_elem_of_nil].
    case_decide; [|by intros ?%not_elem_of_nil]. rewrite !elem_of_cons, elem_of_nil. naive_solver. }
  split; [intros _; lia|apply sample_deployment|apply sample_deployment| | |intros t ->%list_elem_of_singleton; done].
  - intros c dec b r row Hd (-> & -> & Hr)%Hin. vm_compute in Hd. injection Hd as <-. cbn. intros [= <-].
    destruct Hr as [-> | ->]; split_and!; try done; left.
  - intros c dec tx row ->%calls_only. cbn.
    case_decide; [intros [= <-]|done]. by intros ?%list_elem_of_singleton.
Qed.

Lemma calls_call_deployment : CallDeployment calls_decoders sample_txrow ["evt"] ["call"].
Proof.
  assert (forall c id row, call_of_tx calls_decoders sample_txrow c id row -> row = sample_call) as Hrow.
  { intros c id row (dec & tc & ->%calls_only & _ & _ & E).
    cbn in E. case_decide; [by injection E as <-|done]. }
  split.
  - intros c id row ->%Hrow. left.
  - by intros c1 id1 row1 c2 id2 row2 ->%Hrow ->%Hrow.
  - intros t ->%list_elem_of_singleton. split; [done|]. split; [by intros ?%list_elem_of_singleton|done].
  - by intros ?%list_elem_of_singleton.
  - done.
Qed.

Definition calls_start : World :=
  calm_world (set_tables (<["call" := mkTable PkTx (typed_meta ++ [("idx", "bigint"); ("value", "numeric(78,0)")]) false ∅]> (db_tables (w_db sample_start))) (w_db sample_start)).
Definition calls_range : FetchedRange :=
  mkFetchedRange 5 6 [sample_rec 5 0; sample_rec 5 1] (mkAuxData [] [sample_tx]) (Some (5, [byte_of 1])).
Definition calls_committed : World := (consume_one 1 (tracker_new 5, 0) calls_range calls_start).2.
Definition calls_decoded_world : World := (run_once (fun l => l) (fun l => l) calls_decoders calls_committed).2.
Definition calls_end : Sys :=
  set_worker 0 WIdle calls_decoded_world
    (set_chain 1 (Some (WrReady (tracker_record (tracker_new 5) 5 6 (Some (5, [byte_of 1]))).1 2)) calls_committed
      (set_chain 1 (Some (WrReady (tracker_new 5) 0)) calls_start (launched 1 calls_start))).

Lemma calls_fetched : fetched_txs sample_recs ["evt"] sample_txrow ["call"] 1 calls_range.
Proof.
  assert (forall x, x ∈ enrichment (fr_aux calls_range) -> x = sample_tx) as Hx by (by intros x ?%list_elem_of_singleton).
  split_and!.
  - split_and!; [done|done|done|by vm_compute|]. intros x ->%Hx. by intros ?%list_elem_of_singleton.
  - intros x ->%Hx. by intros ?%list_elem_of_singleton.
  - intros x ->%Hx _. by exists [byte_of 6].
  - intros r Hr. exists sample_tx. split; [left|]. split; [done|]. by apply elem_of_cons in Hr as [->| ->%list_elem_of_singleton].
Qed.

Lemma run_with_calls :
  sys_reach (fun l => l) (fun l => l) calls_decoders (fun _ => 5) (fetched_txs sample_recs ["evt"] sample_txrow ["call"])
    (launched 1 calls_start) calls_end.
Proof.
  eapply sys_reach_trans.
  { apply sys_reach_one, (SStart _ _ _ _ _ (launched 1 calls_start) 1 None calls_start); [unfold_int; lia|by vm_compute]. }
  eapply sys_reach_trans.
  { eapply (consume_reach (fun l => l) (fun l => l) calls_decoders (fun _ => 5) (fetched_txs sample_recs ["evt"] sample_txrow ["call"]) 1
      (tracker_new 5) 0 calls_range _ (Ok ((tracker_record (tracker_new 5) 5 6 (Some (5, [byte_of 1]))).1, 2)) calls_committed);
      [apply set_chain_at|apply calls_fetched|by vm_compute]. }
  eapply (run_once_reach (fun l => l) (fun l => l) calls_decoders (fun _ => 5) _ 0 _ (Ok (Some 3))); by vm_compute.
Qed.

Lemma run_calls_decoded_or_queued_witness :
  queue_of (sy_world calls_end) = []
  /\ (exists tab, db_tables (w_db (sy_world calls_end)) !! "call" = Some tab /\ size (t_rows tab) = 1%nat)
  /\ is_Some (parents (w_db (sy_world calls_end)) !! inr (1, [byte_of 6]))
  /\ (called_in calls_decoders sample_txrow (w_db (sy_world calls_end)) 1 (sample_rec 5 1)
      \/ exists q, q ∈ queue_of (sy_world calls_end) /\ covers q 1 5).
Proof.
  split; [by vm_compute|]. split; [eexists; split; by vm_compute|].
  apply (run_calls_decoded_or_queued (fun l => l) (fun l => l) calls_decoders (fun _ => 5) sample_recs ["evt"] sample_txrow ["call"] 1
           calls_start calls_end 1 6 5 [byte_of 1] (sample_rec 5 1)).
  - done.
  - done.
  - apply calls_deployment.
  - apply calls_call_deployment.
  - split_and!; try done. intros t tab ->%list_elem_of_singleton Htab. vm_compute in Htab. by injection Htab as <-.
  - split; [eexists; split_and!; by vm_compute|]. intros t tab ->%list_elem_of_singleton Htab. vm_compute in Htab. by injection Htab as <-.
  - apply run_with_calls.
  - unfold_int; lia.
  - by vm_compute.
  - lia.
  - right. left.
Defined.
