(* ===== verification/SystemLoop.v ===== *)
(** The ingest loop as a task of the system: every run of the supervised loop of a chain, polled or driven by
    a stream that is in time, with its planning, fetching, reorg probes and restarts, moves the store along
    a run of [System]. *)
From S2P Require Import Prelude Model Btree Text Encode Store Repos Queue UnitOfWork Services ServicesFacts Ranges Plan Pipeline Ingest IngestFacts Worker System SystemSteps SystemFacts.

(** As long as nothing was drained the frontier is where the window began. *)
Definition stuck_at (next : Z) (t : PrefixTracker) : Prop := advanced_to t = None -> frontier t = next.

Lemma drain_stuck next fuel t moved : stuck_at next t -> stuck_at next (drain fuel t moved).1.
Proof.
  revert t moved. induction fuel as [|fuel IH]; intros t moved Ht; [done|]. cbn [drain].
  destruct (waiting t !! frontier t) as [[e lb]|]; [|done]. apply IH. by intros ?.
Qed.

Lemma consumer_stuck next c msgs t n w p k w' :
  stuck_at next t -> mfold (consume_one c) (t, n) msgs w = (Ok (p, k), w') -> stuck_at next p.
Proof.
  revert t n w. induction msgs as [|f msgs IH]; intros t n w Ht H; cbn [mfold] in H; [by injection H as <- _ _|].
  apply mbind_Ok in H as ([t1 n1] & w1 & H1 & H). refine (IH _ _ _ _ H). unfold consume_one in H1.
  apply mbind_Ok in H1 as (out & w2 & _ & H1). unfold tracker_record in H1.
  set (t2 := mkPrefixTracker (frontier t) _ _ _) in H1.
  pose proof (drain_stuck next (size (waiting t2)) t2 false Ht) as Hd. destruct (drain _ t2 false) as [t3 moved].
  apply mbind_Ok in H1 as (? & ? & _ & H1). by injection H1 as <- _ _.
Qed.

Lemma producer_sent cs f : f ∈ (fetch_producer cs).1 -> exists stop, (stop, Ok f) ∈ cs.
Proof.
  induction cs as [|[stop res] cs IH]; cbn; [by intros ?%not_elem_of_nil|].
  destruct stop; [by intros ?%not_elem_of_nil|]. destruct res as [g|e]; [|by intros ?%not_elem_of_nil].
  destruct (fetch_producer cs) as [sent pr]. cbn in *. intros [->|Hf]%elem_of_cons; [exists false; left|].
  destruct (IH Hf) as [st ?]. exists st. by right.
Qed.

Section loop.
Context {St : Type} (src : ChainSource St) (tables : list string) (rfilter : RecordFilter) (quota : St -> bool).
Context (confirmations step rc : Z) (chain_hash : Z -> bytes).
Context (mo : list (string * list EventRow) -> list (string * list EventRow)) (so : list bytes -> list bytes).
Context (decoders : gmap Z Decoder) (start : Z -> Z) (recs : Z -> Z -> list RawRecord) (ev_tables : list string).
Abbreviation chain := (cs_chain_id src).
Context (settled : St -> Z) {Hsettles : SettlingChain src rfilter confirmations (recs chain) chain_hash settled}.
(** Aux rows are not events. *)
Context (Haux : forall rs s aux s', cs_fetch_aux src rs s = (Ok aux, s') ->
  forall r, r ∈ enrichment aux -> row_table r ∉ ev_tables).
Context (Hchain : is_u64 chain) (Hstart : start chain < 2 ^ 62).
Context (Hconf : 0 <= confirmations) (Hstep : 1 <= step) (Hrc : 1 <= rc) (Hwin : step * rc < 2 ^ 62).
Context (horizon : St -> Z) {Hann : Announcing src rfilter confirmations horizon}.
Abbreviation reach := (sys_reach mo so decoders start (fetched recs ev_tables)).

Lemma env_reach s w' : same_state (sy_world s) w' -> reach s (set_world w' s).
Proof.
  intros (D & S & N). destruct w' as [d q now faults]. cbn in *. subst. apply sys_reach_one. by apply SEnv.
Qed.

Lemma fetch_fetched lo hi s f s' :
  0 <= lo <= hi -> hi < 2 ^ 62 -> hi <= settled s -> fetch_range src rfilter lo hi s = (Ok f, s') ->
  fetched recs ev_tables chain f.
Proof.
  intros H1 H2 H3 H.
  apply (fetch_range_honest src rfilter confirmations (recs chain) chain_hash settled (settled s)) in H as Hf; [|done|done|lia].
  destruct Hf as [Er [Hrec _]]. injection Er as E1 E2. split; [lia|]. split; [lia|]. split; [done|].
  unfold fetch_range in H. apply mbind_Ok in H as (rs & s1 & _ & H). apply mbind_Ok in H as (aux & s2 & Ha & H).
  apply mret_Ok in H as [-> _]. cbn. destruct rs; [apply mret_Ok in Ha as [-> _]; by intros r ?%not_elem_of_nil|].
  by eapply Haux.
Qed.

Lemma stream_fetched lvl cancel ranges s :
  lvl <= settled s -> (forall lo hi, (lo, hi) ∈ ranges -> 0 <= lo <= hi /\ hi < 2 ^ 62 /\ hi <= lvl) ->
  forall stop f, (stop, Ok f) ∈ (fetch_stream src rfilter quota cancel ranges s).1 -> fetched recs ev_tables chain f.
Proof.
  revert cancel s. induction ranges as [|[lo hi] ranges IH]; intros cancel s Hl Hr stop f; cbn; [by intros ?%not_elem_of_nil|].
  destruct (fetch_range src rfilter lo hi s) as [r s1] eqn:E.
  pose proof (fetch_range_grows src rfilter settled lo hi _ _ _ E) as Hg. specialize (IH (drop 1 cancel) s1).
  destruct (fetch_stream _ _ _ _ ranges s1) as [cs s2]. cbn in *. intros [Ef|Hin]%elem_of_cons.
  - injection Ef as _ <-. destruct (Hr lo hi) as (? & ? & ?); [left|]. eapply fetch_fetched; [done|done| |done]. lia.
  - eapply IH; [lia|intros; apply Hr; by right|done].
Qed.

(** The task stands between windows, with [next] to fetch. *)
Definition stands (s : Sys) (next : Z) : Prop :=
  exists t n, sy_chains s !! chain = Some (WrReady t n) /\ next_window t = next.

Lemma consumer_stands next msgs s r w' :
  stands s next -> (forall f, f ∈ msgs -> fetched recs ev_tables chain f) ->
  commit_consumer chain next msgs (sy_world s) = (r, w') ->
  exists s', reach s s' /\ sy_world s' = w' /\ forall adv k, r = Ok (adv, k) ->
    stands s' (match adv with Some a => u64_add a 1 | None => next end).
Proof.
  intros (t & n & Hc & Hn) Hf H. pose proof (SWindow mo so decoders start (fetched recs ev_tables) s chain t n Hc) as Hw.
  rewrite Hn in Hw. set (s1 := set_chain _ _ _ s) in Hw. unfold commit_consumer, mbind_ in H.
  change (sy_world s) with (sy_world s1) in H.
  destruct (mfold (consume_one chain) (tracker_new next, 0) msgs (sy_world s1)) as [r1 w1] eqn:E.
  assert (sy_chains s1 !! chain = Some (WrReady (tracker_new next) 0)) as Hc1 by apply set_chain_at.
  pose proof (consumer_reach mo so decoders start (fetched recs ev_tables) chain msgs _ _ s1 r1 w1 Hc1 Hf E) as R2.
  eexists. split; [eapply sys_reach_trans; [apply sys_reach_one, Hw|exact R2]|].
  destruct r1 as [[p k0]|e]; injection H as <- <-; (split; [done|]); [|done].
  intros adv k [= <- _]. exists p, k0. split; [apply set_chain_at|]. unfold next_window.
  apply (consumer_stuck next) in E as Hst; [|done]. cbn [fst]. destruct (advanced_to p) eqn:Ea; [done|by apply Hst].
Qed.

Lemma pipeline_stands tn next target s st r w' st' :
  turn_ok tn -> 0 <= next <= target -> target < 2 ^ 62 -> target <= settled st -> stands s next ->
  pipeline src rfilter quota step tn next target (sy_world s, st) = (r, (w', st')) ->
  exists s', reach s s' /\ sy_world s' = w' /\ forall out, r = Ok out ->
    stands s' (match po_advanced_to out with Some a => u64_add a 1 | None => next end).
Proof.
  intros Htn Hn Ht Hset Hs H. unfold turn_ok in Htn. unfold pipeline in H.
  destruct (range_chunks_spec next target step) as (rs & E & Hti & _);
    [lia|lia|unfold U64; assert (step <= step * rc) by nia; lia|].
  unfold plan_ranges in H. rewrite E in H. rewrite Z.max_r in Hti by lia. cbn in H.
  pose proof (stream_fetched (settled st) (tn_cancel_at tn) (tn_order tn rs) st) as Hfe.
  destruct (fetch_stream _ _ _ _ _ st) as [cs s1]. cbn in Hfe. unfold on_db in H. cbn in H.
  destruct (run_pipeline chain next cs (tn_taken tn) (sy_world s)) as [r1 w1] eqn:Er. injection H as <- <- <-.
  assert (forall f, f ∈ (fetch_producer cs).1 -> fetched recs ev_tables chain f) as Hsent.
  { intros f [stop Hin]%producer_sent. eapply Hfe; [lia| |done]. intros lo hi Hr. rewrite Htn in Hr.
    destruct (tiles_elem _ _ _ _ _ Hti Hr). lia. }
  unfold run_pipeline in Er. destruct (fetch_producer cs) as [sent [cancelled|e]]; cbn in Hsent; unfold mbind_ in Er.
  - destruct (commit_consumer chain next sent (sy_world s)) as [rc1 w2] eqn:Ec.
    apply consumer_stands in Ec as (s' & R & Hw & Hst); [|done|done]. exists s'. split; [done|].
    destruct rc1 as [[adv k]|e]; injection Er as <- <-; (split; [done|]); [|done]. intros out [= <-]. cbn. by eapply Hst.
  - destruct (commit_consumer chain next (take (tn_taken tn) sent) (sy_world s)) as [rc1 w2] eqn:Ec.
    apply consumer_stands in Ec as (s' & R & Hw & Hst); [|done|intros f Hf; apply Hsent; by eapply take_elem].
    exists s'. split; [done|]. destruct rc1 as [[adv k]|e']; injection Er as <- <-; done.
Qed.

(** A checkpoint over blocks without records is the window of one empty range: its commit writes nothing. *)
Definition empty_range (next safe : Z) : FetchedRange := mkFetchedRange next safe [] AuxData_default None.

Lemma recs_in_empty (rs : Z -> list RawRecord) lo hi : (forall b, lo <= b <= hi -> rs b = []) -> recs_in rs lo hi = [].
Proof.
  intros H. destruct (recs_in rs lo hi) as [|r l] eqn:E; [done|]. exfalso.
  assert (r ∈ recs_in rs lo hi) as (b & Hb & Hr)%recs_in_elem by (rewrite E; left).
  rewrite H in Hr by lia. by apply not_elem_of_nil in Hr.
Qed.

Lemma empty_range_fetched next safe :
  0 <= next <= safe -> safe < 2 ^ 62 -> (forall b, next <= b <= safe -> recs chain b = []) ->
  fetched recs ev_tables chain (empty_range next safe).
Proof.
  intros. split_and!; cbn; [lia|lia|lia|by rewrite recs_in_empty|]. by intros r ?%not_elem_of_nil.
Qed.

Lemma tracker_one next safe :
  tracker_record (tracker_new next) next safe None
  = (mkPrefixTracker (u64_add safe 1) ∅ None (Some safe), Some (safe, [])).
Proof.
  unfold tracker_record. cbn [waiting tracker_new frontier best advanced_to]. rewrite map_size_insert_None, map_size_empty by done.
  cbn [drain waiting frontier]. rewrite lookup_insert_eq. cbn [drain]. by rewrite delete_insert_id.
Qed.

Lemma skip_stands next safe s r w' :
  0 <= next <= safe -> safe < 2 ^ 62 -> (forall b, next <= b <= safe -> recs chain b = []) -> stands s next ->
  cursor_advance chain safe [] (sy_world s) = (r, w') ->
  exists s', reach s s' /\ sy_world s' = w' /\ forall u, r = Ok u -> stands s' (u64_add safe 1).
Proof.
  intros Hn Hsafe Hempty (t & n & Hc & Hnext) H.
  pose proof (SWindow mo so decoders start (fetched recs ev_tables) s chain t n Hc) as Hw. rewrite Hnext in Hw.
  set (s1 := set_chain _ _ _ s) in Hw. destruct (sy_world s) as [d q now faults] eqn:Ew.
  pose proof (SEnv mo so decoders start (fetched recs ev_tables) s1 now (NoFault :: NoFault :: faults)) as He.
  cbn [s1 set_chain sy_world] in He. specialize (He ltac:(cbn; lia)). set (s2 := set_world _ _) in He.
  assert (sy_chains s2 !! chain = Some (WrReady (tracker_new next) 0)) as Hc2
    by (cbn [s2 set_world sy_chains]; apply set_chain_at).
  pose proof (empty_range_fetched next safe Hn Hsafe Hempty) as Hf.
  destruct (consume_one chain (tracker_new next, 0) (empty_range next safe) (sy_world s2)) as [r2 w2] eqn:E.
  pose proof (consume_reach mo so decoders start (fetched recs ev_tables) chain _ _ _ s2 r2 w2 Hc2 Hf E) as R.
  unfold consume_one, mbind_ in E.
  change (commit_range chain (empty_range next safe) 0 (sy_world s2))
    with (@Ok DomainError IngestOutcome (mkIngestOutcome 0 0 0 None), mkWorld d q now faults) in E.
  cbn [empty_range fr_from fr_to fr_last_block] in E. rewrite tracker_one, H in E.
  eexists. split; [eapply sys_reach_trans; [apply sys_reach_one, Hw|eapply sys_reach_trans; [apply sys_reach_one, He|exact R]]|].
  destruct r as [[]|e]; injection E as <- <-; (split; [done|]); [|done]. intros [] _.
  exists (mkPrefixTracker (u64_add safe 1) ∅ None (Some safe)), 0. by split; [apply set_chain_at|].
Qed.

Lemma catch_up_stands tn state next safe s st r w' st' :
  turn_ok tn -> (must_fetch state safe = false -> forall b, next <= b <= safe -> recs chain b = []) -> 0 <= next <= safe -> safe < 2 ^ 62 -> safe <= settled st -> stands s next ->
  catch_up src rfilter quota step rc tn state next safe (sy_world s, st) = (r, (w', st')) ->
  exists s', reach s s' /\ sy_world s' = w' /\ forall cu, r = Ok cu -> stands s' (cu_next cu.1).
Proof.
  intros Htn Hempty Hn Hsafe Hset Hs H. unfold catch_up in H. destruct (must_fetch state safe); cbn [negb] in H.
  2:{ unfold mbind_, fetch_target in H. destruct (on_db _ (sy_world s, st)) as [r1 [w1 s1]] eqn:E.
      apply on_db_run in E as [E ->]. apply (skip_stands next) in E as (s' & R & Hw & Hst); [|done|done|auto|done].
      exists s'. split; [done|]. destruct r1 as [u|e]; injection H as <- <- <-; (split; [done|]); [|done].
      intros cu [= <-]. by apply (Hst u). }
  set (target := fetch_target safe next step rc true) in H.
  assert (next <= target <= safe) as Htg by (by apply window_target_bounds).
  unfold mbind_ in H. destruct (pipeline _ _ _ _ tn next target (sy_world s, st)) as [r1 [w1 s1]] eqn:E.
  apply pipeline_stands in E as (s' & R & Hw & Hst); [|done|lia|lia|lia|done].
  exists s'. split; [done|]. destruct r1 as [out|e]; [|by injection H as <- <- <-].
  specialize (Hst out eq_refl). destruct (po_shutdown out); injection H as <- <- <-; (split; [done|]); by intros cu [= <-].
Qed.

Lemma wake_next tn l l' : wake tn l = Some l' -> lp_next l' = lp_next l.
Proof. unfold wake. destruct (tn_wake tn); [done| |]; intros [= <-]; [by destruct (sub _)|done]. Qed.

Abbreviation lok := (loop_ok src (start chain) (recs chain) horizon).
Abbreviation sok := (store_ok src (start chain) (recs chain) chain_hash settled).
Abbreviation in_time := (announced src tables rfilter quota confirmations (recs chain) horizon).

Lemma turn_stands from l tn s st r w' st' :
  turn_ok tn -> lok from l st (w_db (sy_world s)) -> sok st (w_db (sy_world s)) -> in_time from l tn (sy_world s, st) ->
  stands s (lp_next l) ->
  turn src tables rfilter quota confirmations step rc l tn (sy_world s, st) = (r, (w', st')) ->
  exists s', reach s s' /\ sy_world s' = w' /\ forall l', r = Ok (Some l') -> stands s' (lp_next l').
Proof.
  intros Htn Hl Hst Hin Hs H. unfold announced, head_seen in Hin. cbn [fst snd] in Hin. unfold turn in H. cbn [fst snd] in H.
  destruct (_ || _); [injection H as <- <- <-; exists s; split_and!; [apply SRefl|done|done]|].
  pose proof (ensure_ok src rfilter confirmations (start chain) (recs chain) horizon from l st _ Hl) as He.
  pose proof (ensure_grows src rfilter settled (lp_state l) st) as Hg.
  destruct (ensure_subscribed _ _ _ st) as [state0 st1]. destruct He as ((Hn & _ & _ & Htip) & Hpend & _). cbn in Hg, Hn, Htip.
  apply (store_ok_up src (start chain) (recs chain) chain_hash settled st st1) in Hst; [|done].
  unfold mbind_ at 1 in H. destruct (probe_reorg _ _ _ _ _ _ (sy_world s, st1)) as [r1 [w1 s1]] eqn:E1.
  apply (probe_reorg_quiet src tables rfilter confirmations (recs chain) chain_hash settled) in E1 as [D1 Hns]; [|apply Hst].
  pose proof (env_reach s w1 D1) as R1. set (v := set_world w1 s) in R1. assert (stands v (lp_next l)) as Hv by exact Hs.
  change w1 with (sy_world v) in H. clearbody v.
  destruct r1 as [ns|e]; [|injection H as <- <- <-; by exists v]. rewrite (Hns ns eq_refl) in H, Hin.
  cbn [fst snd] in H, Hin. set (state := (take_reorg_signal state0).2) in H, Hin.
  assert (tip_ok src (opened src rfilter horizon from l st) (lp_next l) state) as Htip1 by exact Htip.
  destruct (should_poll_head state).
  2:{ injection H as <- <- <-. exists v. split_and!; [done|done|]. intros l' [= Hl']. by rewrite (wake_next _ _ _ Hl'). }
  unfold mbind_ at 1 in H. destruct (on_src (cs_head src) (sy_world v, s1)) as [r2 [w2 s2]] eqn:E2.
  apply on_src_run in E2 as [E2 ->]. rewrite E2 in Hin. destruct r2 as [head|e]; [|injection H as <- <- <-; by exists v].
  apply sc_head in E2 as [E2 Hset]. set (safe := u64_ssub head confirmations) in H, Hin, Hset.
  destruct (Z.leb_spec (lp_next l) safe) as [Hle|_].
  - unfold mbind_ at 1 in H. destruct (catch_up _ _ _ _ _ tn state _ safe (sy_world v, s2)) as [r3 [w3 s3]] eqn:E3.
    apply catch_up_stands in E3 as (s' & R & <- & Hcu); [|done| |lia|subst safe; unfold u64_ssub; lia|done|done].
    2:{ intros Hm. eapply (skipped_empty src (recs chain)); [exact Htip1|exact Hpend|exact Hm|exact Hin]. }
    exists s'. split; [by eapply sys_reach_trans|]. destruct r3 as [cu|e]; [|by injection H as <- <- <-].
    specialize (Hcu cu eq_refl). destruct (cu_shutdown _); [by injection H as <- <- <-|].
    destruct (cu_behind _); injection H as <- <- <-; (split; [done|]); intros l' [= Hl']; [by subst l'|].
    by rewrite (wake_next _ _ _ Hl').
  - injection H as <- <- <-. exists v. split_and!; [done|done|]. intros l' [= Hl']. by rewrite (wake_next _ _ _ Hl').
Qed.

Lemma turns_reach from tns l s st r w' st' :
  Forall turn_ok tns -> lok from l st (w_db (sy_world s)) -> sok st (w_db (sy_world s)) -> stands s (lp_next l) ->
  turns_announced src tables rfilter quota confirmations step rc (recs chain) horizon from l tns (sy_world s, st) ->
  turns src tables rfilter quota confirmations step rc l tns (sy_world s, st) = (r, (w', st')) ->
  exists s', reach s s' /\ sy_world s' = w'.
Proof.
  revert from l s st. induction tns as [|tn tns IH]; intros from l s st Hf Hl Hst Hs Ha H.
  { injection H as <- <- <-. exists s. split; [apply SRefl|done]. }
  apply Forall_cons in Hf as [Htn Hf]. cbn [turns] in H. unfold mbind_ in H. destruct Ha as [Ha Has].
  destruct (turn _ _ _ _ _ _ _ l tn (sy_world s, st)) as [r1 [w1 s1]] eqn:E.
  apply (turn_stands from) in E as Et; [|done..]. destruct Et as (s' & R & <- & Hs').
  apply (turn_sound src tables rfilter quota confirmations (start chain) step rc (recs chain) chain_hash settled horizon) with (from := from)
    in E as [Hst1 Hl1]; [|done..].
  destruct r1 as [[l'|]|e]; [|injection H as <- <- <-; by exists s'..].
  eapply IH in H as (s2 & R2 & Hw); auto. exists s2. split; [by eapply sys_reach_trans|done].
Qed.

(** An attempt: it reads the cursor and runs its turns. *)
Lemma ingest_loop_reach tns s st r w' st' :
  Forall turn_ok tns -> sok st (w_db (sy_world s)) ->
  attempt_announced src tables rfilter quota confirmations (start chain) step rc (recs chain) horizon tns (sy_world s, st) ->
  ingest_loop src tables rfilter quota confirmations (start chain) step rc tns (sy_world s, st) = (r, (w', st')) ->
  exists s', reach s s' /\ sy_world s' = w'.
Proof.
  intros Hf Hst Ha H. unfold ingest_loop in H. unfold attempt_announced in Ha. unfold mbind_ at 1 in H.
  destruct (on_db (cursor_get chain) (sy_world s, st)) as [r1 [w1 s1]] eqn:E. apply on_db_run in E as [E ->].
  assert (reads (cursor_get chain)) as Hrd by (apply reads_map_err, reads_sql; by intros v a v' [= <- <-]).
  apply Hrd in E as Hsame. apply cursor_get_spec in E as Hg. destruct Hg as [D Ho].
  destruct r1 as [o|e]; [|injection H as <- <- <-; eexists; split; [by apply env_reach|done]].
  pose proof (SStart mo so decoders start (fetched recs ev_tables) s chain o w1 Hchain E) as Hs1.
  set (s1 := set_chain _ _ w1 s) in Hs1. change w1 with (sy_world s1) in H.
  apply (turns_reach (horizon st)) in H as (s2 & R & Hw); [exists s2; split; [by eapply sys_reach_trans; [apply sys_reach_one|]|done]|done| |by cbn; rewrite D| |exact Ha].
  - cbn [sy_world s1 set_chain]. rewrite D.
    apply (loop_ok_start src (start chain) (recs chain) chain_hash settled horizon); auto.
  - exists (tracker_new (resume_at (start chain) o)), 0. by split; [apply set_chain_at|].
Qed.

Lemma supervised_reach backoff attempts s st slept w' st' :
  Forall (fun a => Forall turn_ok (at_turns a)) attempts ->
  (forall a s s', a ∈ attempts -> at_built a s = Ok s' -> settled s <= settled s') ->
  sok st (w_db (sy_world s)) -> 1 <= backoff <= 30 ->
  attempts_announced src tables rfilter quota confirmations (start chain) step rc (recs chain) horizon attempts (sy_world s, st) ->
  supervised_ingest src tables rfilter quota confirmations (start chain) step rc backoff attempts (sy_world s, st)
    = (slept, (w', st')) ->
  exists s', reach s s' /\ sy_world s' = w'.
Proof.
  revert backoff s st slept. induction attempts as [|a attempts IH]; intros backoff s st slept Hf Hbt Hst Hb Han H.
  { injection H as <- <- <-. exists s. split; [apply SRefl|done]. }
  apply Forall_cons in Hf as [Ha Hf]. cbn [supervised_ingest] in H.
  destruct (run_chain_once _ _ _ _ _ _ _ _ a (sy_world s, st)) as [r [w1 st1]] eqn:E.
  cbn [attempts_announced fst snd] in Han.
  assert (exists s', reach s s' /\ sy_world s' = w1 /\ sok st1 (w_db w1)
    /\ attempts_announced src tables rfilter quota confirmations (start chain) step rc (recs chain) horizon attempts (w1, st1))
    as (s1 & R1 & <- & Hst1 & Han1).
  { unfold run_chain_once in E. cbn [fst snd] in E. destruct (at_built a st) as [st0|e] eqn:Eb;
      [|injection E as <- <- <-; exists s; split_and!; [apply SRefl|done|done..]]. destruct Han as [Ha1 Ha2]. rewrite E in Ha2.
    apply (store_ok_up src (start chain) (recs chain) chain_hash settled st st0) in Hst; [|eapply Hbt; [left|done]].
    apply ingest_loop_reach in E as Hr; [|done|done|done]. destruct Hr as (s' & ? & ?). exists s'. split; [done|]. split; [done|].
    split; [|done]. eapply (ingest_loop_sound src tables rfilter quota confirmations (start chain) step rc (recs chain) chain_hash settled horizon)
      in E as [_ ?]; [done..]. }
  destruct r as [o|e]; [injection H as <- <- <-; by exists s1|]. destruct (at_cancelled a); [injection H as <- <- <-; by exists s1|].
  destruct (supervised_ingest _ _ _ _ _ _ _ _ _ attempts (sy_world s1, st1)) as [slept2 [w2 st2]] eqn:E2. injection H as <- <- <-.
  apply IH in E2 as (s2 & R2 & Hw); [|done|intros a' x x' Hin; apply Hbt; by right|done|lia|done].
  exists s2. split; [by eapply sys_reach_trans|done].
Qed.
End loop.

(** C6: the ingest task is one of the tasks of the system: from any state of the running indexer whose
    store has canonical blocks and a sound checkpoint of the chain, everything the supervised loop of
    the chain does to the database, over all its attempts, turns, windows, fetch orders, source and
    storage failures and cancellations, is a run of [sys_step]: starts that read the cursor, commits of
    fetched ranges and cursor moves.  What holds of every run of the system holds of it.  The chain may be
    polled, in which case the hypothesis on announcements is void, or driven by a stream that is in time;
    a checkpoint that the loop then takes without fetching is the window of one range without records. *)
Theorem supervised_ingest_is_system_run {St} (src : ChainSource St) (tables : list string) (rfilter : RecordFilter)
    (quota : St -> bool) (confirmations step rc backoff : Z) (chain_hash : Z -> bytes) (settled horizon : St -> Z)
    (mo : list (string * list EventRow) -> list (string * list EventRow)) (so : list bytes -> list bytes)
    (decoders : gmap Z Decoder) (start : Z -> Z) (recs : Z -> Z -> list RawRecord) (ev_tables : list string)
    (attempts : list Attempt) (s : Sys) (st st' : St) (slept : list Z) (w' : World) :
  SettlingChain src rfilter confirmations (recs (cs_chain_id src)) chain_hash settled ->
  Announcing src rfilter confirmations horizon ->
  (forall rs st aux st', cs_fetch_aux src rs st = (Ok aux, st') ->
     forall r, r ∈ enrichment aux -> row_table r ∉ ev_tables) ->
  is_u64 (cs_chain_id src) -> start (cs_chain_id src) < 2 ^ 62 ->
  0 <= confirmations -> 1 <= step -> 1 <= rc -> step * rc < 2 ^ 62 -> 1 <= backoff <= 30 ->
  Forall (fun a => Forall turn_ok (at_turns a)) attempts ->
  (forall a s s', a ∈ attempts -> at_built a s = Ok s' -> settled s <= settled s') ->
  attempts_announced src tables rfilter quota confirmations (start (cs_chain_id src)) step rc (recs (cs_chain_id src)) horizon
    attempts (sy_world s, st) ->
  blocks_ok src chain_hash (settled st) (w_db (sy_world s)) ->
  checkpoint_ok src (start (cs_chain_id src)) (recs (cs_chain_id src)) (w_db (sy_world s)) ->
  supervised_ingest src tables rfilter quota confirmations (start (cs_chain_id src)) step rc backoff attempts (sy_world s, st)
    = (slept, (w', st')) ->
  exists s', sys_reach mo so decoders start (fetched recs ev_tables) s s' /\ sy_world s' = w'.
Proof.
  intros Hh Han Haux Hc Hs H1 H2 H3 H4 Hb Hat Hbt Hao Hbl Hcp H.
  by eapply (supervised_reach src tables rfilter quota confirmations step rc chain_hash mo so decoders start recs ev_tables settled).
Qed.

Definition replay_deployed (c b : Z) : list RawRecord := if decide (c = 1) then replay_recs b else [].

(** The run of [replay_attempts]: swept windows, checkpoints without a fetch, a stream that breaks. *)
Lemma supervised_ingest_is_system_run_witness :
  let run_ := supervised_ingest replay_source [] (mkRecordFilter [] []) (fun _ => false) 12 80 10 2 1 replay_attempts
    (calm_world empty_db, O) in
  db_cursors (w_db run_.2.1) !! 1 = Some (108, [])
  /\ exists s', sys_reach (fun l => l) (fun l => l) ∅ (fun _ => 80) (fetched replay_deployed ["evt"]) (launched 2 (calm_world empty_db)) s'
       /\ sy_world s' = run_.2.1.
Proof.
  intros run_. split; [by vm_compute|].
  apply (supervised_ingest_is_system_run replay_source [] (mkRecordFilter [] []) (fun _ => false) 12 10 2 1
           (fun h => [byte_of h]) replay_settled replay_settled (fun l => l) (fun l => l) ∅ (fun _ => 80) replay_deployed ["evt"]
           replay_attempts (launched 2 (calm_world empty_db)) O run_.2.2 run_.1 run_.2.1).
  - apply replay_settles.
  - apply replay_announces.
  - intros rs st aux st' [= <- _] r Hr. by apply not_elem_of_nil in Hr.
  - unfold_int. cbn. lia.
  - lia.
  - lia.
  - lia.
  - lia.
  - lia.
  - lia.
  - repeat constructor; intros l; done.
  - intros a n n' ->%list_elem_of_singleton [= <-]. lia.
  - apply (bool_decide_unpack _). by vm_compute.
  - intros h row Hrow. cbn in Hrow. by rewrite lookup_empty in Hrow.
  - intros c hash Hcur. cbn in Hcur. by rewrite lookup_empty in Hcur.
  - unfold run_. cbn [sy_world launched]. by destruct (supervised_ingest _ _ _ _ _ _ _ _ _ _ _) as [? [? ?]].
Defined.
