(* ===== verification/Backfill.v ===== *)
(** A backfill under way ([bins/indexer-cli/src/commands.rs], [backfill] and [drain_queue]): the main task, which
    commits fetched ranges in the order they arrive, waits for an empty queue and reports, interleaved round trip
    by round trip with the workers and the reclaim ticker of its pool.  When it reports completion every record of
    its range is stored and decoded; two ways in which it does less than it seems to. *)
From S2P Require Import Prelude Model Btree Text Encode Store Repos Queue UnitOfWork Services ServicesFacts Ranges Plan Pipeline Ingest IngestFacts Worker System SystemSteps SystemFacts.

(** * The tasks *)

(** The main task: in the pipeline, with the planned ranges that have not been committed and its writer; waiting for
    an empty queue; done; or failed.  [cut]: the shutdown token or the spend quota ended the fetching or the wait. *)
Inductive Phase : Type :=
| PPipe (todo : list (Z * Z)) (wr : Writer)
| PDrain (cut : bool)
| PDone (cut : bool)
| PFailed.

Record Bf := mkBf { bf_world : World; bf_workers : gmap nat WState; bf_main : Phase }.

(** After a transaction of the writer. *)
Definition after_main (todo : list (Z * Z)) (r : result DomainError Writer) : Phase :=
  match r with Ok wr => PPipe todo wr | Err _ => PFailed end.

(** After [q.depth()]. *)
Definition after_depth (cut : bool) (r : result DomainError Z) : Phase :=
  match r with Ok n => if n =? 0 then PDone cut else PDrain cut | Err _ => PFailed end.

Section backfill.
Context (map_order : list (string * list EventRow) -> list (string * list EventRow)) (set_order : list bytes -> list bytes).
Context (decoders : gmap Z Decoder) (chain : Z) (delivers : FetchedRange -> Prop).

(** The pool is a system without chains. *)
Definition pool_step : Sys -> Sys -> Prop := sys_step map_order set_order decoders (fun _ => 0) (fun _ _ => False).

Inductive bf_step : Bf -> Bf -> Prop :=
(** A worker, the ticker or the environment. *)
| BPool w ws w' ws' p : pool_step (mkSys w ws ∅) (mkSys w' ws' ∅) -> bf_step (mkBf w ws p) (mkBf w' ws' p)
(** One of the planned ranges arrives: its commit, and then the move of the cursor. *)
| BCommit w ws todo prefix n f r w' : delivers f -> range_of f ∈ todo -> writer_commit chain prefix n f w = (r, w') ->
    bf_step (mkBf w ws (PPipe todo (WrReady prefix n))) (mkBf w' ws (after_main (list_difference todo [range_of f]) r))
| BMove w ws todo prefix n cp r w' : writer_move chain prefix n cp w = (r, w') ->
    bf_step (mkBf w ws (PPipe todo (WrMove prefix n cp))) (mkBf w' ws (after_main todo r))
(** A fetch fails and takes the writer down. *)
| BFetchError w ws todo wr : bf_step (mkBf w ws (PPipe todo wr)) (mkBf w ws PFailed)
(** The producer stops early, or has sent everything; the writer has taken what was sent. *)
| BCut w ws todo prefix n : bf_step (mkBf w ws (PPipe todo (WrReady prefix n))) (mkBf w ws (PDrain true))
| BFetched w ws prefix n : bf_step (mkBf w ws (PPipe [] (WrReady prefix n))) (mkBf w ws (PDrain false))
(** The wait: a look at the queue, or the token. *)
| BDepth w ws cut r w' : depth w = (r, w') -> bf_step (mkBf w ws (PDrain cut)) (mkBf w' ws (after_depth cut r))
| BCancel w ws cut : bf_step (mkBf w ws (PDrain cut)) (mkBf w ws (PDone true)).

Inductive bf_reach (s : Bf) : Bf -> Prop :=
| BRefl : bf_reach s s
| BStep s1 s2 : bf_reach s s1 -> bf_step s1 s2 -> bf_reach s s2.

Lemma bf_reach_trans s1 s2 s3 : bf_reach s1 s2 -> bf_reach s2 s3 -> bf_reach s1 s3.
Proof. intros H1 H2. induction H2; [done|]. by eapply BStep. Qed.

Lemma bf_reach_one s1 s2 : bf_step s1 s2 -> bf_reach s1 s2.
Proof. intros H. eapply BStep; [apply BRefl|done]. Qed.

(** The pool is spawned and the pipeline starts on the planned ranges. *)
Definition bf_start (workers : nat) (from : Z) (ranges : list (Z * Z)) (w : World) : Bf :=
  mkBf w (spawn_worker_pool workers) (PPipe ranges (WrReady (tracker_new from) 0)).
End backfill.

(** ** The pool's steps are those of any system *)

Lemma pool_step_any mo so decoders start delivers w ws w' ws' :
  pool_step mo so decoders (mkSys w ws ∅) (mkSys w' ws' ∅) ->
  sys_step mo so decoders start delivers (mkSys w ws ∅) (mkSys w' ws' ∅).
Proof.
  intros H. remember (mkSys w ws ∅) as s eqn:Es. remember (mkSys w' ws' ∅) as s' eqn:Es'.
  destruct H as [| | | | |s x o v _ _| | | |]; try by (econstructor; eauto).
  apply (f_equal (fun y => sy_chains y !! x)) in Es'. cbn in Es'. by rewrite lookup_partial_alter_eq, lookup_empty in Es'.
Qed.

(** * The guarantee *)

Section inv.
Context (mo : list (string * list EventRow) -> list (string * list EventRow)) (so : list bytes -> list bytes).
Context (Hmo : forall l, mo l ≡ₚ l).
Context (decoders : gmap Z Decoder) (start : Z -> Z) (recs : Z -> Z -> list RawRecord) (ev_tables : list string).
Context {Hserves : Serves decoders} {Hdep : Deployment (served decoders) start recs ev_tables}.
Context (c from to : Z) (ranges : list (Z * Z)) (Hc : is_u64 c) (Htiles : tiles from ranges (to + 1)).
Abbreviation inv := (db_inv decoders start recs ev_tables).
Abbreviation wok := (worker_ok decoders recs ev_tables).
Abbreviation wrok := (writer_ok start recs).

Definition main_ok (w : World) (p : Phase) : Prop :=
  match p with
  | PPipe todo wr => wrok w c wr /\ forall lo hi, (lo, hi) ∈ ranges -> (lo, hi) ∈ todo \/ complete recs (w_db w) c lo hi
  | PDrain false => complete recs (w_db w) c from to
  | PDone false => complete recs (w_db w) c from to
      /\ forall b r, from <= b <= to -> r ∈ recs c b -> decoded_in decoders (w_db w) c b r
  | PDrain true | PDone true | PFailed => True
  end.

Record bf_inv (s : Bf) : Prop := mkBfInv {
  bi_db : inv (bf_world s);
  bi_workers : forall k ws, bf_workers s !! k = Some ws -> wok (bf_world s) ws;
  bi_main : main_ok (bf_world s) (bf_main s)
}.

Lemma main_ok_evolves w w' p : evolves w w' -> main_ok w p -> main_ok w' p.
Proof.
  intros He. destruct p as [todo wr|[]|[]|]; cbn; [|done| |done| |done].
  - intros [Hw Hr]. split; [by eapply writer_ok_evolves|]. intros lo hi Hin. destruct (Hr lo hi Hin); [by left|right].
    by eapply complete_evolves.
  - by apply complete_evolves.
  - intros [H1 H2]. split; [by eapply complete_evolves|]. intros b r Hb Hr. by eapply decoded_in_evolves; auto.
Qed.

Lemma bf_inv_main w ws w' p p' :
  bf_inv (mkBf w ws p) -> inv w' -> evolves w w' -> main_ok w' p' -> bf_inv (mkBf w' ws p').
Proof.
  intros [_ Hw _] Hi He Hm. split; [done| |done]. intros k x Hk. eapply worker_ok_evolves; [exact He|]. by eapply Hw.
Qed.

Lemma ranges_complete d : (forall lo hi, (lo, hi) ∈ ranges -> complete recs d c lo hi) -> complete recs d c from to.
Proof.
  intros H b r Hb. destruct (tiles_cover _ _ _ b Htiles) as (lo & hi & Hin & ?); [lia|]. by apply (H lo hi Hin).
Qed.

Lemma bf_step_inv s s' : bf_step mo so decoders c (fetched recs ev_tables c) s s' -> bf_inv s -> bf_inv s'.
Proof.
  intros Hst Hinv.
  destruct Hst as [w ws w' ws' p Hp|w ws todo prefix n f r w' Hf Hin Hw|w ws todo prefix n cp r w' Hw|w ws todo wr
    |w ws todo prefix n|w ws prefix n|w ws cut r w' Hd|w ws cut]; pose proof (bi_db _ Hinv) as Hi; cbn in Hi.
  - apply (pool_step_any _ _ _ start (fetched recs ev_tables)) in Hp.
    apply (sys_step_inv mo so Hmo decoders start recs ev_tables) in Hp as [[I1 I2 _] He]; cbn in *.
    + split; [done|done|]. eapply main_ok_evolves; [exact He|apply (bi_main _ Hinv)].
    + split; [done|apply (bi_workers _ Hinv)|]. intros ? ?. cbn. by rewrite lookup_empty.
  - destruct (bi_main _ Hinv) as [[_ Ht] Hr]. cbn in Ht, Hr. unfold writer_commit, mbind_ in Hw.
    destruct (commit_range c f 0 w) as [x w1] eqn:Ec. apply (commit_inv decoders start recs ev_tables) in Ec as (Hi1 & He & Hcomp); [|done..].
    destruct x as [out|e]; [|injection Hw as <- <-; by eapply bf_inv_main].
    eapply (writer_ok_evolves start recs _ _ c (WrReady prefix n)) in He as Ht1; [|by split]. destruct Ht1 as [_ Ht1].
    pose proof Hf as (? & ? & _).
    pose proof (record_ok start recs (w_db w1) c prefix (fr_from f) (fr_to f) (fr_last_block f) Ht1) as Hrec.
    destruct (tracker_record _ _ _ _) as [t' cp]. injection Hw as <- <-. eapply bf_inv_main; [exact Hinv|done|done|].
    specialize (Hcomp out eq_refl). split; [split; [done|]; by apply Hrec|]. intros lo hi Hlh.
    destruct (decide ((lo, hi) = range_of f)) as [E|Hne]; [injection E as -> ->; by right|].
    destruct (Hr lo hi Hlh) as [Hl|]; [left|right; by eapply complete_evolves].
    apply list_elem_of_difference. split; [done|]. by intros ?%list_elem_of_singleton.
  - destruct (bi_main _ Hinv) as [(_ & Ht & Hcp) Hr]. cbn in Ht, Hr. unfold writer_move, mbind_ in Hw. destruct cp as [[h hash]|].
    + destruct (cursor_advance c h hash w) as [x w1] eqn:Ea. apply (advance_inv decoders start recs ev_tables) in Ea as [Hi1 He]; [|done|by eapply Hcp|done].
      assert (main_ok w1 (PPipe todo (WrReady prefix n))) as Hm by (eapply main_ok_evolves; [exact He|by split]).
      destruct x; injection Hw as <- <-; by eapply bf_inv_main.
    + injection Hw as <- <-. eapply bf_inv_main; [exact Hinv|done|by apply evolves_same|by split].
  - by eapply bf_inv_main; [|done|apply evolves_same|].
  - by eapply bf_inv_main; [|done|apply evolves_same|].
  - eapply bf_inv_main; [exact Hinv|done|by apply evolves_same|]. destruct (bi_main _ Hinv) as [_ Hr]. cbn in Hr |- *.
    apply ranges_complete. intros lo hi Hlh. by destruct (Hr lo hi Hlh) as [?%not_elem_of_nil|].
  - assert (same_state w w') as Sw.
    { refine ((_ : reads depth) w r w' Hd). apply reads_map_err, reads_sql. by intros v a v' [= <- <-]. }
    pose proof (evolves_same _ _ Sw) as He. eapply bf_inv_main; [exact Hinv|by eapply db_inv_same|done|].
    pose proof (main_ok_evolves _ _ (PDrain cut) He (bi_main _ Hinv)) as Hm.
    destruct r as [m|e]; [|done]. cbn. destruct (Z.eqb_spec m 0) as [->|]; [|done]. destruct cut; [done|]. split; [done|].
    intros b r Hb Hr. destruct (di_work _ _ _ _ _ (db_inv_same _ _ _ _ _ _ Sw Hi) c b r Hr) as [?|(q & Hq & _)]; [by apply (Hm b)|done|].
    apply mmap_err_Ok, sql_Ok in Hd as (v & (D & _)%next_fault_same & Hd). injection Hd as Hz <-.
    unfold queue_of in Hq. destruct (db_queue (w_db v)); [by apply not_elem_of_nil in Hq|done].
  - by eapply bf_inv_main; [|done|apply evolves_same|].
Qed.

Lemma bf_reach_inv s s' : bf_reach mo so decoders c (fetched recs ev_tables c) s s' -> bf_inv s -> bf_inv s'.
Proof. intros H Hs. induction H; [done|]. by eapply bf_step_inv. Qed.
End inv.

(** ** One chain of a deployment *)

(** Where the promise about the cursor begins once the chain has been backfilled from a block. *)
Definition from_block (c from : Z) (start : Z -> Z) (x : Z) : Z := if decide (x = c) then Z.max (start x) from else start x.

(** The pool of a backfill has the decoder of its chain; the tables hold the events of all chains. *)
Section one_chain.
Context (decoders : gmap Z Decoder) (start : Z -> Z) (recs : Z -> Z -> list RawRecord) (ev_tables : list string).
Context {Hdep : Deployment decoders start recs ev_tables} (c from : Z) (dec : Decoder).
Context (Hdec : decoders !! c = Some dec) (Hfrom : 0 <= from < 2 ^ 62).
Abbreviation only := ({[c := dec]} : gmap Z Decoder).

Lemma only_dec x dec' : only !! x = Some dec' -> x = c /\ dec' = dec.
Proof. by intros [-> ->]%lookup_singleton_Some. Qed.

Lemma only_sub : only ⊆ decoders.
Proof. by apply map_singleton_subseteq_l. Qed.

Definition only_serves : Serves only := mkServes only decoders only_sub.
#[local] Existing Instance only_serves.

#[local] Instance later_deployment : Deployment decoders (from_block c from start) recs ev_tables.
Proof.
  destruct Hdep as [A B C D E F]. split; [|done..]. intros x. unfold from_block. pose proof (A x). case_decide; lia.
Qed.

Lemma decoded_in_only d b r : decoded_in decoders d c b r <-> decoded_in only d c b r.
Proof.
  split; intros H dec' row Hd; apply H; [by destruct (only_dec _ _ Hd) as [_ ->]|].
  rewrite Hdec in Hd. injection Hd as <-. apply lookup_singleton_eq.
Qed.

(** The store a run leaves, seen from the chain. *)
Lemma db_inv_only w :
  db_inv decoders start recs ev_tables w -> db_inv only (from_block c from start) recs ev_tables w.
Proof.
  intros [A B C E F G]. split; [done|done|exact C|done| |].
  - intros x b r Hr Hraw. destruct (F x b r Hr Hraw) as [Hd|Hq]; [left|by right].
    intros dec' row [-> ->]%only_dec Hrow. apply (Hd dec row Hdec Hrow).
  - intros x cu hash Hx Hcu. destruct (G x cu hash Hx Hcu) as [? Hs]. split; [done|]. intros b Hb. apply Hs.
    unfold from_block in Hb. case_decide; lia.
Qed.

Lemma bf_start_inv to ranges n w :
  is_u64 c -> db_inv decoders start recs ev_tables w ->
  bf_inv only (from_block c from start) recs ev_tables c from to ranges (bf_start n from ranges w).
Proof.
  intros Hc Hi. split; cbn.
  - by apply db_inv_only.
  - intros k ws H. unfold spawn_worker_pool in H.
    apply elem_of_list_to_map_2, list_elem_of_fmap in H as (j & E & _). by injection E as _ ->.
  - split; [|by left]. split; [done|]. split; cbn; [split; [lia|]|split; [|done]].
    + intros b Hb. unfold from_block in Hb. case_decide; [lia|done].
    + intros ? ? ?. by rewrite lookup_empty.
Qed.

Lemma bf_done mo so (Hmo : forall l, mo l ≡ₚ l) to ranges n w s b r :
  is_u64 c -> tiles from ranges (to + 1) -> db_inv decoders start recs ev_tables w ->
  bf_reach mo so only c (fetched recs ev_tables c) (bf_start n from ranges w) s -> bf_main s = PDone false ->
  from <= b <= to -> r ∈ recs c b ->
  db_raw (w_db (bf_world s)) !! raw_key r = Some (raw_row r) /\ decoded_in decoders (w_db (bf_world s)) c b r.
Proof.
  intros Hc Htiles Hi Hr Hdone Hb Hin.
  eapply (bf_reach_inv mo so Hmo only (from_block c from start) recs ev_tables c from to ranges Hc Htiles) in Hr
    as [Hi1 _ Hm]; [|by apply bf_start_inv].
  rewrite Hdone in Hm. destruct Hm as [Hcomp Hd].
  split; [by eapply (stored_row only (from_block c from start) recs ev_tables); [|done|eapply Hcomp]|].
  by apply decoded_in_only, Hd.
Qed.
End one_chain.

(** C7: when a backfill reports completion its whole range is stored and decoded: from any state that a run of the
    indexer's writers, workers and reclaim ticker can have left in the database (leases of dead workers and queued
    items included; tables shared between chains as the naming has it), in every interleaving of the pipeline's
    transactions with the pool's round trips, worker crashes, overlapping pulls, reclaims and storage faults, once the
    main task is done without its fetching or its wait having been cut short, every matched record of every block of
    the requested range is in the raw store unchanged and its event in its table as it was decoded; and it stays so
    while the workers finish. *)
Theorem backfill_done_means_decoded (mo : list (string * list EventRow) -> list (string * list EventRow))
    (so : list bytes -> list bytes) (decoders : gmap Z Decoder) (start : Z -> Z) (recs : Z -> Z -> list RawRecord)
    (ev_tables : list string) (c from to step : Z) (dec : Decoder) (ranges : list (Z * Z))
    (before workers : nat) (w0 : World) (s0 : Sys) (s : Bf) (b : Z) (r : RawRecord) :
  (forall l, mo l ≡ₚ l) -> Deployment decoders start recs ev_tables -> decoders !! c = Some dec ->
  fresh_store ev_tables (w_db w0) -> sys_reach mo so decoders start (fetched recs ev_tables) (launched before w0) s0 ->
  is_u64 c -> 0 <= from <= to -> 1 <= step -> to + step < 2 ^ 62 -> plan_ranges from to step = Some ranges ->
  bf_reach mo so {[c := dec]} c (fetched recs ev_tables c) (bf_start workers from ranges (sy_world s0)) s ->
  bf_main s = PDone false -> from <= b <= to -> r ∈ recs c b ->
  db_raw (w_db (bf_world s)) !! raw_key r = Some (raw_row r) /\ decoded_in decoders (w_db (bf_world s)) c b r.
Proof.
  intros Hmo Hdep Hdec Hf Hrun Hc Hft Hstep Hto Hplan Hr Hdone Hb Hin.
  apply reachable_inv in Hrun as [Hi _ _]; [|done..].
  destruct (range_chunks_spec from to step) as (rs & E & Htiles & _); [lia|lia|unfold U64; lia|].
  unfold plan_ranges in Hplan. rewrite E in Hplan. injection Hplan as ->. rewrite Z.max_r in Htiles by lia.
  eapply (bf_done decoders start recs ev_tables c from dec Hdec); [lia|done..].
Qed.

(** * The command as one schedule *)

(** [Worker.backfill] runs the pipeline to its end and then the workers during the waits: one of the interleavings. *)
Section schedule.
Context (mo : list (string * list EventRow) -> list (string * list EventRow)) (so : list bytes -> list bytes).
Context (decoders : gmap Z Decoder) (c : Z) (delivers : FetchedRange -> Prop).
Abbreviation reach := (bf_reach mo so decoders c delivers).

Lemma bf_consume todo prefix n f w ws r w' :
  delivers f -> range_of f ∈ todo -> consume_one c (prefix, n) f w = (r, w') ->
  reach (mkBf w ws (PPipe todo (WrReady prefix n)))
    (mkBf w' ws (match r with Ok (p, k) => PPipe (list_difference todo [range_of f]) (WrReady p k) | Err _ => PFailed end)).
Proof.
  intros Hf Hin H. unfold consume_one, mbind_ in H. destruct (writer_commit c prefix n f w) as [rc w1] eqn:Ec.
  eapply bf_reach_trans; [eapply bf_reach_one, BCommit; [exact Hf|exact Hin|exact Ec]|].
  unfold writer_commit, mbind_ in Ec. destruct (commit_range c f 0 w) as [[out|e] w2].
  2:{ injection H as <- <-. injection Ec as <- <-. apply BRefl. }
  destruct (tracker_record prefix (fr_from f) (fr_to f) (fr_last_block f)) as [p cp]. injection Ec as <- <-. cbn [after_main].
  destruct (writer_move c p (n + io_records out) cp w2) as [rm w3] eqn:Em.
  pose proof (BMove mo so decoders c delivers w2 ws (list_difference todo [range_of f]) _ _ _ _ _ Em) as Hm.
  apply bf_reach_one in Hm. unfold writer_move, mbind_ in Em. destruct cp as [[h hash]|].
  - destruct (cursor_advance c h hash w2) as [[[]|e] w4]; injection H as <- <-; by injection Em as <- <-.
  - injection H as <- <-. by injection Em as <- <-.
Qed.

Lemma bf_consumer msgs todo prefix n w ws r w' :
  (forall f, f ∈ msgs -> delivers f /\ range_of f ∈ todo) -> NoDup (range_of <$> msgs) ->
  mfold (consume_one c) (prefix, n) msgs w = (r, w') ->
  exists todo', reach (mkBf w ws (PPipe todo (WrReady prefix n)))
    (mkBf w' ws (match r with Ok (p, k) => PPipe todo' (WrReady p k) | Err _ => PFailed end))
    /\ forall x, x ∈ todo' -> x ∈ todo /\ x ∉ range_of <$> msgs.
Proof.
  revert todo prefix n w. induction msgs as [|f msgs IH]; intros todo prefix n w Hm Hnd H; cbn [mfold] in H.
  { injection H as <- <-. exists todo. split; [apply BRefl|]. intros x Hx. split; [done|apply not_elem_of_nil]. }
  cbn in Hnd. apply NoDup_cons in Hnd as [Hni Hnd]. destruct (Hm f) as [Hf Hin]; [left|].
  unfold mbind_ in H. destruct (consume_one c (prefix, n) f w) as [[[p k]|e] w1] eqn:E.
  - apply (bf_consume todo _ _ _ _ ws) in E as R1; [|done|done].
    destruct (IH (list_difference todo [range_of f]) p k w1) as (todo' & R2 & Ht); [|done|done|].
    + intros g Hg. destruct (Hm g) as [? Hgt]; [by right|]. split; [done|]. apply list_elem_of_difference.
      split; [done|]. intros E1%list_elem_of_singleton. apply Hni. rewrite <- E1. by apply list_elem_of_fmap_2.
    + exists todo'. split; [by eapply bf_reach_trans|]. intros x Hx. destruct (Ht x Hx) as [Hd Hxm].
      apply list_elem_of_difference in Hd as [? Hxf]. split; [done|]. cbn. rewrite elem_of_cons. intros [->|?]; [|done].
      apply Hxf. left.
  - injection H as <- <-. apply (bf_consume todo _ _ _ _ ws) in E; [|done|done]. exists []. split; [done|].
    by intros x ?%not_elem_of_nil.
Qed.

Lemma bf_turn k fuel x w ws p r w' :
  ws !! k = Some x -> worker_turn mo so decoders fuel x w = (r, w') -> r <> Ok None ->
  reach (mkBf w ws p) (mkBf w' (<[k := WIdle]> ws) p).
Proof.
  revert x w ws. induction fuel as [|fuel IH]; intros x w ws Hk H Hr; cbn [worker_turn] in H.
  { unfold mret_ in H. congruence. }
  assert (forall y v, worker_step mo so decoders x w = (y, v) -> reach (mkBf w ws p) (mkBf v (<[k := after_step y]> ws) p)) as Hone.
  { intros y v E. apply bf_reach_one, BPool. change (mkSys v _ ∅) with (set_worker k (after_step y) v (mkSys w ws ∅)).
    by eapply SWorker. }
  unfold mbind_ in H. destruct (worker_step mo so decoders x w) as [[[s'|res]|e] w1] eqn:Es; specialize (Hone _ _ eq_refl).
  - eapply bf_reach_trans; [exact Hone|]. rewrite <- (insert_insert_eq ws k WIdle s').
    eapply IH; [apply lookup_insert_eq|exact H|done].
  - by injection H as <- <-.
  - by injection H as <- <-.
Qed.

Lemma bf_workers_turns k naps poll_ms poll_idle_ms w ws p :
  ws !! k = Some WIdle ->
  reach (mkBf w ws p) (mkBf (spawn_decode_worker mo so decoders poll_ms poll_idle_ms naps w).2 ws p).
Proof.
  intros Hk. revert w. induction naps as [|cancelled naps IH]; intros w; cbn [spawn_decode_worker]; [apply BRefl|].
  destruct (run_once mo so decoders w) as [r w1] eqn:E.
  assert (reach (mkBf w ws p) (mkBf w1 ws p)) as R1.
  { rewrite <- (insert_id ws k WIdle Hk) at 2. destruct (turn_completes mo so decoders WIdle w) as [n Hn].
    apply (bf_turn k n WIdle w ws p (match r with Ok res => Ok (Some res) | Err e => Err e end)); [done| |by destruct r].
    rewrite Hn by done. cbn [rest]. unfold mbind_. rewrite E. by destruct r. }
  destruct cancelled; [done|]. specialize (IH w1).
  destruct (spawn_decode_worker _ _ _ _ _ naps w1) as [waits w2]. by eapply bf_reach_trans.
Qed.

Lemma bf_drain k polls poll_ms poll_idle_ms w ws cut r w' :
  ws !! k = Some WIdle -> drain_queue mo so decoders poll_ms poll_idle_ms polls w = (r, w') ->
  exists p, reach (mkBf w ws (PDrain cut)) (mkBf w' ws p)
    /\ match r with
       | Ok None => p = PDrain cut
       | Ok (Some _) => p = PDone (cut || existsb (fun q => pl_cancelled q || pl_cancelled_asleep q) polls) \/ p = PDone cut
       | Err _ => p = PFailed
       end.
Proof.
  intros Hk. revert w. induction polls as [|q polls IH]; intros w H; cbn [drain_queue] in H.
  { injection H as <- <-. exists (PDrain cut). split; [apply BRefl|done]. }
  cbn [existsb]. destruct (pl_cancelled q) eqn:Ec; cbn [orb].
  { injection H as <- <-. exists (PDone true). split; [apply bf_reach_one, BCancel|]. left. by rewrite orb_true_r. }
  unfold mbind_ in H. destruct (depth w) as [rd w1] eqn:Ed.
  pose proof (BDepth mo so decoders c delivers w ws cut rd w1 Ed) as R1. apply bf_reach_one in R1.
  destruct rd as [m|e]; [|injection H as <- <-; by eexists]. cbn [after_depth] in R1.
  destruct (m =? 0); [injection H as <- <-; exists (PDone cut); split; [done|by right]|].
  pose proof (bf_workers_turns k (pl_work q) poll_ms poll_idle_ms w1 ws (PDrain cut) Hk) as R2.
  destruct (pl_cancelled_asleep q) eqn:Ea; cbn [orb].
  - injection H as <- <-. exists (PDone true). split; [|left; by rewrite orb_true_r].
    eapply bf_reach_trans; [exact R1|]. eapply bf_reach_trans; [exact R2|]. apply bf_reach_one, BCancel.
  - destruct (IH _ H) as (p & R3 & Hp). exists p. split; [|done].
    eapply bf_reach_trans; [exact R1|]. by eapply bf_reach_trans.
Qed.

(** Every run of the sequential command is a run of the interleaved one, and a clean one ends with the report that
    [backfill_done_means_decoded] is about, or still waits. *)
Theorem backfill_is_interleaving (poll_ms poll_idle_ms from : Z) (ranges : list (Z * Z)) (cs : list Completion) (k workers : nat)
    (polls : list Poll) (w w' : World) (r : result DomainError Z) :
  (forall f, f ∈ (fetch_producer cs).1 -> delivers f /\ range_of f ∈ ranges) -> NoDup (range_of <$> (fetch_producer cs).1) ->
  (0 < workers)%nat -> backfill mo so decoders poll_ms poll_idle_ms c from cs k polls w = (r, w') ->
  exists s', reach (bf_start workers from ranges w) s' /\ bf_world s' = w'
    /\ match r with Err _ => bf_main s' = PFailed | Ok _ => exists cut, bf_main s' = PDrain cut \/ bf_main s' = PDone cut end
    /\ (range_of <$> (fetch_producer cs).1 ≡ₚ ranges -> (fetch_producer cs).2 = Ok false ->
        Forall (fun q => pl_cancelled q || pl_cancelled_asleep q = false) polls ->
        forall m, r = Ok m -> bf_main s' = PDrain false \/ bf_main s' = PDone false).
Proof.
  intros Hall Hnd Hn H. assert (spawn_worker_pool workers !! O = Some WIdle) as Hk.
  { apply elem_of_list_to_map_1.
    - rewrite <- list_fmap_compose. cbn. rewrite list_fmap_id. apply NoDup_seq.
    - apply list_elem_of_fmap. exists O. split; [done|]. apply elem_of_seq. lia. }
  unfold backfill, mbind_ in H. destruct (run_pipeline c from cs k w) as [rp w1] eqn:Ep. unfold run_pipeline in Ep.
  destruct (fetch_producer cs) as [sent pr]. cbn [fst snd] in *. unfold commit_consumer, mbind_ in Ep.
  destruct pr as [cut|e].
  - destruct (mfold _ _ sent w) as [rm w2] eqn:Em.
    destruct (bf_consumer sent ranges _ _ _ (spawn_worker_pool workers) _ _ Hall Hnd Em) as (todo & R1 & Ht).
    destruct rm as [[p n]|e]; injection Ep as <- <-.
    2:{ injection H as <- <-. eexists. split; [exact R1|]. by split_and!. }
    destruct (drain_queue _ _ _ _ _ polls w2) as [rd w3] eqn:Ed.
    assert (w3 = w') as -> by (destruct rd; by injection H as _ <-).
    pose (cut' := negb (bool_decide (todo = [])) || cut).
    assert (reach (mkBf w2 (spawn_worker_pool workers) (PPipe todo (WrReady p n))) (mkBf w2 (spawn_worker_pool workers) (PDrain cut'))) as R2.
    { apply bf_reach_one. unfold cut'. case_bool_decide as E; cbn; [|apply BCut]. destruct cut; [apply BCut|]. rewrite E. apply BFetched. }
    destruct (bf_drain O polls poll_ms poll_idle_ms w2 _ cut' rd w' Hk Ed) as (ph & R3 & Hph).
    exists (mkBf w' (spawn_worker_pool workers) ph).
    split; [eapply bf_reach_trans; [exact R1|]; by eapply bf_reach_trans|]. split; [done|].
    split; [destruct rd as [[[]|]|]; injection H as <-; cbn; [destruct Hph as [-> | ->]; eauto|eauto|done]|].
    intros Hp [= ->] Hpolls m ->. assert (cut' = false) as Ecut.
    { unfold cut'. rewrite bool_decide_true; [done|]. destruct todo as [|x todo]; [done|]. exfalso.
      destruct (Ht x) as [Hx Hxn]; [left|]. by rewrite Hp in Hxn. }
    rewrite Ecut in Hph. assert (existsb (fun q => pl_cancelled q || pl_cancelled_asleep q) polls = false) as Ex.
    { rewrite <- not_true_iff_false, existsb_exists. intros (q & Hq%list_elem_of_In & E). rewrite Forall_forall in Hpolls.
      by rewrite Hpolls in E. }
    rewrite Ex in Hph. destruct rd as [[[]|]|]; [|by left|done]. right. by destruct Hph as [-> | ->].
  - destruct (mfold _ _ (take k sent) w) as [rm w2] eqn:Em.
    destruct (bf_consumer (take k sent) ranges (tracker_new from) 0 w (spawn_worker_pool workers) rm w2) as (todo & R1 & _); [|..|done|].
    + intros f Hf. apply Hall. by eapply take_elem.
    + eapply sublist_NoDup; [exact Hnd|]. apply fmap_sublist, sublist_take.
    + assert (exists e', rp = Err e' /\ w1 = w2) as (e' & -> & ->) by (destruct rm; injection Ep as <- <-; eauto).
      injection H as <- <-. exists (mkBf w2 (spawn_worker_pool workers) PFailed).
      split; [|by split_and!]. eapply bf_reach_trans; [exact R1|]. destruct rm as [[p n]|e2]; [apply bf_reach_one, BFetchError|apply BRefl].
Qed.
End schedule.

(** * Samples *)

(** Blocks 5 and 6 arrive as one range, the queue is looked at, a worker takes its turn, the queue is empty. *)
Definition sample_backfilled : Bf := mkBf sample_decoded (spawn_worker_pool 1) (PDone false).

Lemma sample_backfill :
  bf_reach (fun l => l) (fun l => l) {[1 := sample_decoder]} 1 (fetched sample_recs ["evt"] 1)
    (bf_start 1 5 [(5, 6)] sample_start) sample_backfilled.
Proof.
  eapply bf_reach_trans; [eapply (bf_consume _ _ _ _ _ [(5, 6)] (tracker_new 5) 0 sample_range); [apply sample_fetched|left|reflexivity]|].
  set (v := (consume_one 1 (tracker_new 5, 0) sample_range sample_start).2).
  assert (v = sample_committed) as -> by done.
  eapply bf_reach_trans; [apply bf_reach_one; cbn; eapply BFetched|].
  eapply bf_reach_trans; [eapply bf_reach_one, BDepth; vm_compute; reflexivity|]. cbn [after_depth].
  eapply bf_reach_trans; [eapply (bf_workers_turns _ _ _ _ _ O [false] 50 1000); reflexivity|].
  eapply bf_reach_one. eapply (BDepth _ _ _ _ _ _ _ false (Ok 0)). by vm_compute.
Qed.

Lemma backfill_done_means_decoded_witness :
  queue_of (bf_world sample_backfilled) = []
  /\ db_raw (w_db (bf_world sample_backfilled)) !! (1, 5, 1) = Some (raw_row (sample_rec 5 1))
  /\ decoded_in sample_decoders (w_db (bf_world sample_backfilled)) 1 5 (sample_rec 5 1).
Proof.
  split; [by vm_compute|].
  apply (backfill_done_means_decoded (fun l => l) (fun l => l) sample_decoders (fun _ => 5) sample_recs ["evt"] 1 5 6 10 sample_decoder
           [(5, 6)] 1 1 sample_start (launched 1 sample_start) sample_backfilled 5 (sample_rec 5 1)).
  - done.
  - apply sample_deployment.
  - by vm_compute.
  - apply sample_fresh.
  - apply SRefl.
  - unfold_int; lia.
  - lia.
  - lia.
  - lia.
  - by vm_compute.
  - apply sample_backfill.
  - done.
  - lia.
  - right. left.
Defined.

(** * What a report of completion does not say *)

(** [backfill] does not look at [out.shutdown]: when the free quota is used up after the first range it waits for the
    queue and reports completion, and the records of the second range were never fetched. *)
Theorem backfill_cut_by_quota_reports_done :
  let run := backfill (fun l => l) (fun l => l) sample_decoders 50 1000 1 3
    [(false, Ok (mkFetchedRange 3 4 [] AuxData_default None)); (true, Ok sample_range)] 1
    [mkPoll false [] false] sample_start in
  run.1 = Ok 0 /\ queue_of run.2 = [] /\ db_raw (w_db run.2) !! raw_key (sample_rec 5 0) = None.
Proof. by vm_compute. Qed.

(** The pool of a backfill knows the decoder of its own chain only, and takes items of any chain: it acks what the run
    of another chain has queued without decoding it.  Here a backfill of chain 9 waits for its empty queue; the item of
    chain 1 is gone with its two records stored and none decoded, where a worker of that chain decodes both. *)
Theorem backfill_discards_other_chains :
  let run := backfill (fun l => l) (fun l => l) (<[9 := sample_decoder]> ∅) 50 1000 9 1
    [(false, Ok (mkFetchedRange 1 2 [] AuxData_default None))] 1 [mkPoll false [false] false; mkPoll false [] false]
    sample_committed in
  length (queue_of sample_committed) = 1%nat /\ run.1 = Ok 0 /\ queue_of run.2 = []
  /\ size (db_raw (w_db run.2)) = 2%nat
  /\ (fun tab => size (t_rows tab)) <$> db_tables (w_db run.2) !! "evt" = Some 0%nat
  /\ (fun tab => size (t_rows tab)) <$> db_tables (w_db sample_decoded) !! "evt" = Some 2%nat.
Proof. by vm_compute. Qed.
