(* ===== verification/Commands.v ===== *)
(** The command line and the commands ([crates/config/src/lib.rs], [crates/db/src/base_schema.rs], and
    [cli.rs], [main.rs], [wiring.rs], [commands.rs] of [bins/indexer-cli]; the start of
    [bins/query/src/main.rs]): from a configuration file to the migrated database and the running tasks. *)
From S2P Require Import Prelude Model Btree Text Encode Store Repos Queue UnitOfWork Services ServicesFacts Ranges Plan Pipeline Ingest Retry Pricing Schema Enrichment Abi Query QueryFacts Cache Api GraphqlSchema Client Config Worker System.

(** * The command line ([cli.rs]) *)

Inductive Cmd : Type :=
| CmdMigrate (config : string) (dry_run allow_destructive : bool)
| CmdBackfill (config : string) (chain from to : Z)
| CmdResync (config : string) (chain from to : Z)
| CmdFollow (config : string) (chain : Z) (interval : option Z)
| CmdDecode (config : string) (workers : Z)
| CmdRun (config : string) (workers : Z) (interval : option Z).

Definition cmd_config (cmd : Cmd) : string :=
  match cmd with
  | CmdMigrate config _ _ | CmdBackfill config _ _ _ | CmdResync config _ _ _ | CmdFollow config _ _
  | CmdDecode config _ | CmdRun config _ _ => config
  end.

(** * Errors *)

Inductive ConfigError : Type :=
| CRead (msg : string)
| CInvalid (msg : string).

(** What a command ends with when it does not return: the errors [anyhow] wraps, or a panic. *)
Inductive CmdError : Type :=
| XConfig (e : ConfigError)
| XSource (e : SourceError)
| XDb (e : DbError)
| XDomain (e : DomainError)
| XMsg (msg : string)
| XPanic.

(** * Paths *)

(** A path, reversed, without its trailing separators and [.] components; the root stays. *)
Fixpoint trim_tail (l : bytes) : bytes :=
  match l with
  | c :: l' =>
      if Ascii.eqb c "/" then match l' with [] => l | _ => trim_tail l' end
      else if Ascii.eqb c "." then
        match l' with d :: _ => if Ascii.eqb d "/" then trim_tail l' else l | [] => l end
      else l
  | [] => []
  end.

Fixpoint drop_component (l : bytes) : bytes :=
  match l with
  | c :: l' => if Ascii.eqb c "/" then l else drop_component l'
  | [] => []
  end.

(** [Path::parent]. *)
Definition parent (path : string) : option string :=
  let r := trim_tail (reverse (to_list path)) in
  if bool_decide (r = []) || bool_decide (r = ["/"%char]) then None
  else Some (of_list (reverse (trim_tail (drop_component r)))).

(** [Path::join]. *)
Definition path_join (base path : string) : string :=
  if starts_with path "/" || String.eqb base EmptyString then path
  else if ends_with "/" base then base +:+ path
  else base +:+ "/" +:+ path.

Definition base_dir (config_path : string) : string := default EmptyString (parent config_path).

(** * The database as the commands see it *)

(** A chain's supervised task as [run] spawns it: the arguments of [supervised_ingest]. *)
Record ChainTask := mkChainTask {
  ct_chain : ChainCfg;
  ct_table_names : list string;
  ct_aux_concurrency : Z;
  ct_range_concurrency : Z;
  ct_interval : Z
}.

(** The catalog, the state behind the pool, and the chain tasks spawned so far.  A spawned task runs beside
    the command from then on (its steps are those of [SystemLoop]); the command does not wait for it. *)
Record App := mkApp { ap_catalog : Catalog; ap_world : World; ap_spawned : list ChainTask }.

(** The fixed tables: columns with their types, and the key. *)
Definition base_tables : list (string * TableDef) :=
  [("blocks", mkTableDef [("chain_id", "bigint"); ("height", "bigint"); ("hash", "bytea"); ("parent_hash", "bytea");
      ("time", "bigint")] ["chain_id"; "height"]);
   ("cursors", mkTableDef [("chain_id", "bigint"); ("last_height", "bigint"); ("last_hash", "bytea")] ["chain_id"]);
   ("raw_records", mkTableDef [("chain_id", "bigint"); ("height", "bigint"); ("idx", "bigint"); ("block_hash", "bytea");
      ("address", "bytea"); ("selectors", "bytea"); ("data", "bytea"); ("tx_id", "bytea"); ("tx_index", "bigint");
      ("inner_index", "bigint")] ["chain_id"; "height"; "idx"]);
   ("work_queue", mkTableDef [("id", "bigserial"); ("chain_id", "bigint"); ("from_height", "bigint"); ("to_height", "bigint");
      ("kind", "text"); ("epoch", "bigint"); ("locked_at", "timestamptz"); ("lease_seq", "bigint");
      ("created_at", "timestamptz")] ["id"])].

(** The indexes of the fixed tables with the columns they need. *)
Definition base_indexes : list (string * (string * list string)) :=
  [("raw_records_tx", ("raw_records", ["chain_id"; "height"; "tx_index"]));
   ("work_queue_ready_id", ("work_queue", ["id"; "locked_at"]));
   ("work_queue_inflight", ("work_queue", ["chain_id"; "locked_at"]));
   ("work_queue_item_uniq", ("work_queue", ["chain_id"; "from_height"; "to_height"; "kind"]))].

(** A statement of the script. *)
Inductive BaseStmt : Type :=
| BTable (name : string)
| BIndex (name : string)
| BDropIndex (name : string).

#[export] Instance BaseStmt_eq_dec : EqDecision BaseStmt.
Proof. solve_decision. Defined.

(** In the order of the text. *)
Definition base_script : list BaseStmt :=
  [BTable "blocks"; BTable "cursors"; BTable "raw_records"; BIndex "raw_records_tx"; BTable "work_queue";
   BDropIndex "work_queue_ready"; BIndex "work_queue_ready_id"; BIndex "work_queue_inflight"; BIndex "work_queue_item_uniq"].

(** The sequence behind a [bigserial] column. *)
Definition add_sequences (name : string) (def : TableDef) (c : Catalog) : Catalog :=
  fold_left (fun c col => if String.eqb col.2 "bigserial"
    then mkCatalog (ct_tables c) ({[free_name ({[name]} ∪ relations c) (name +:+ "_" +:+ col.1) "_seq"]} ∪ ct_indexes c) (ct_fk c)
    else c) (td_cols def) c.

Definition add_base_table (name : string) (def : TableDef) (c : Catalog) : Catalog :=
  if bool_decide (name ∈ relations c) then c else new_table name def (add_sequences name def c).

Definition add_base_index (name table : string) (cols : list string) (c : Catalog) : option Catalog :=
  t ← ct_tables c !! table;
  if bool_decide (name ∈ relations c) then Some c
  else if bool_decide (Forall (fun x => x ∈ (td_cols t).*1) cols)
  then Some (mkCatalog (ct_tables c) ({[name]} ∪ ct_indexes c) (ct_fk c))
  else None.

(** [DROP INDEX] of a table is an error. *)
Definition drop_index (name : string) (c : Catalog) : option Catalog :=
  match ct_tables c !! name with
  | Some _ => None
  | None => Some (mkCatalog (ct_tables c) (ct_indexes c ∖ {[name]}) (ct_fk c))
  end.

Definition base_exec (stmt : BaseStmt) (c : Catalog) : option Catalog :=
  match stmt with
  | BTable name => def ← (list_to_map base_tables : gmap string TableDef) !! name; Some (add_base_table name def c)
  | BIndex name => i ← (list_to_map base_indexes : gmap string (string * list string)) !! name; add_base_index name i.1 i.2 c
  | BDropIndex name => drop_index name c
  end.

(** [base_schema::init]: one batch, all or nothing; [None] is an SQL error. *)
Definition base_ddl (c : Catalog) : option Catalog := foldl (fun oc stmt => oc ≫= base_exec stmt) (Some c) base_script.

(** The typed tables of the store, as the catalog has them: rows stay, columns are the catalog's. *)
Definition pk_kind (pk : list string) : option PkKind :=
  if bool_decide (pk = event_pk) then Some PkEvent
  else if bool_decide (pk = aux_pk) then Some PkTx else None.

Definition store_table (c : Catalog) (d : Db) (t : string) (def : TableDef) : option Table :=
  if bool_decide (t ∈ base_tables.*1) then None
  else (fun k => mkTable k (td_cols def) (ct_fk c && String.eqb t RECEIPTS_TABLE)
                   (default ∅ (t_rows <$> db_tables d !! t))) <$> pk_kind (td_pk def).

Definition sync_tables (c : Catalog) (d : Db) : Db := set_tables (map_imap (store_table c d) (ct_tables c)) d.

(** DDL changes the catalog and with it the shape of the stored tables. *)
Definition on_catalog {A} (m : M Catalog DomainError A) : M App CmdError A := fun app =>
  let '(r, c) := m (ap_catalog app) in (res_map_err XDomain r, mkApp c (upd_db (sync_tables c) (ap_world app)) (ap_spawned app)).

Definition on_world {A} (m : M World DomainError A) : M App CmdError A := fun app =>
  let '(r, w) := m (ap_world app) in (res_map_err XDomain r, mkApp (ap_catalog app) w (ap_spawned app)).

Definition init : M App CmdError () := fun app =>
  match base_ddl (ap_catalog app) with
  | Some c => (Ok tt, mkApp c (ap_world app) (ap_spawned app))
  | None => (Err (XDb (Sqlx "statement failed")), app)
  end.

(** [tokio::spawn(supervised_ingest(...))]. *)
Definition spawn (task : ChainTask) : M App CmdError () := fun app =>
  (Ok tt, mkApp (ap_catalog app) (ap_world app) (ap_spawned app ++ [task])).

(** * Commands *)

(** What [run] and [decode_workers] have spawned when they start to wait for their tasks. *)
Record Started := mkStarted {
  st_decoders : gmap Z Decoder;
  st_tasks : list ChainTask;
  st_pool : gmap nat WState;
  st_poll_ms : Z;
  st_poll_idle_ms : Z
}.

(** What [backfill] and [follow] set up for one chain. *)
Record ChainSetup := mkChainSetup {
  cs_cfg : ChainCfg;
  cs_source : RpcLogSource;
  cs_ledger : SpendLedger;
  cs_decoder : Decoder;
  cs_step : Z;
  cs_range_concurrency : Z;
  cs_poll_ms : Z;
  cs_poll_idle_ms : Z;
  cs_interval : Z
}.

(** What a command reports: the lines it prints, the records it ingested, the rows it decoded. *)
Inductive Report : Type :=
| RMigrated (lines : list string)
| RBackfilled (records : Z)
| RResynced (events : Z)
| RFollowed (still_running : bool)
| RStarted (s : Started).

Definition with_context {A} (o : option A) (msg : string) : result CmdError A := ok_or o (XMsg msg).

Section commands.
(** [figment]: the file at a path, overlaid with the environment, or a text. *)
Context (extract : string -> result string Config) (extract_str : string -> result string Config).
(** Opening the pool, the endpoints of a source, and installing the metrics exporter. *)
Context (connect_pool : string -> Z -> result DbError ()).
Context (parse_url : string -> result string ()) (connect_ws : string -> result string ()).
Context (install : string -> result CmdError ()).
(** Whether a text parses as a socket address. *)
Context (socket_addr : string -> bool).
(** The ABI library, and the reading of a file with the error text of the code. *)
Context (parse_abi : string -> result string JsonAbi).
Context (event_selector : AbiEvent -> bytes) (function_selector : AbiFunction -> bytes).
Context (decode_log_parts : AbiEvent -> list bytes -> bytes -> result string (list DynSolValue * list DynSolValue)).
Context (abi_decode_input : AbiFunction -> bytes -> result string (list DynSolValue)).
Context (json_text : Json -> string).
Context (read_file : string -> result string string).
(** The hash iteration orders of the decoder this run of the command builds for a chain. *)
Context (ho : ChainCfg -> HashOrder).

(** ** Configuration ([config/src/lib.rs]) *)

Definition load (path : string) : result ConfigError Config :=
  let? cfg := res_map_err CRead (extract path) in
  let? _ := res_map_err CInvalid (validate cfg) in
  Ok cfg.

Definition from_str (s : string) : result ConfigError Config :=
  let? cfg := res_map_err CRead (extract_str s) in
  let? _ := res_map_err CInvalid (validate cfg) in
  Ok cfg.

Definition metrics_listen (cmd : Cmd) : option string :=
  match load (cmd_config cmd) with Ok cfg => ix_metrics_listen (cf_indexer cfg) | Err _ => None end.

(** ** Wiring ([wiring.rs]) *)

(** A panic of the code is the end of the command. *)
Definition or_panic {A} (o : outcome (result SourceError A)) : result CmdError A :=
  match o with Panic => Err XPanic | Done r => res_map_err XSource r end.

Definition decoder_at (base : string) (chain : ChainCfg) : result CmdError Decoder :=
  or_panic (build_decoder parse_abi event_selector function_selector decode_log_parts abi_decode_input json_text
              (fun abi => read_file (path_join base abi)) chain).

Definition connect (cfg : Config) : result CmdError () :=
  res_map_err XDb (connect_pool (dc_url (cf_database cfg)) (dc_max_conns (cf_database cfg))).

Definition boot (config_path : string) : M App CmdError Config :=
  do cfg <- mlift (res_map_err XConfig (load config_path));
  do _ <- mlift (connect cfg);
  mret_ cfg.

Definition chain_in (cfg : Config) (id : Z) : result CmdError ChainCfg :=
  with_context (find_chain cfg id) ("chain " +:+ show id +:+ " not in config").

Definition preflight (schemas : list EventSchema) : M App CmdError () := fun app =>
  if is_in_sync (ap_catalog app) schemas then (Ok tt, app)
  else (Err (XMsg "schema out of sync with config; run `indexer migrate`"), app).

Fixpoint build_decoders (base : string) (chains : list ChainCfg) (map : gmap Z Decoder) : result CmdError (gmap Z Decoder) :=
  match chains with
  | [] => Ok map
  | chain :: chains =>
      let? decoder := decoder_at base chain in
      build_decoders base chains (<[ch_id chain := decoder]> map)
  end.

(** ** [migrate] *)

Fixpoint all_schemas (base : string) (chains : list ChainCfg) : result CmdError (list EventSchema) :=
  match chains with
  | [] => Ok []
  | chain :: chains =>
      let? decoder := decoder_at base chain in
      let? rest := all_schemas base chains in
      Ok (dec_schemas decoder (ho chain) ++ rest)
  end.

Definition migrate (config_path : string) (dry_run allow_destructive : bool) : M App CmdError (list string) :=
  do cfg <- mlift (res_map_err XConfig (load config_path));
  do schemas <- mlift (all_schemas (base_dir config_path) (cf_chains cfg));
  do _ <- mlift (connect cfg);
  do _ <- init;
  do p <- (fun app => (Ok (plan (ap_catalog app) schemas), app));
  let n := show (Z.of_nat (length (sp_statements p))) in
  if dry_run then
    mret_ (("-- dry run: " +:+ n +:+ " statement(s) --") :: ((fun s => render s +:+ ";") <$> sp_statements p))
  else
    do _ <- on_catalog (apply_plan p allow_destructive);
    mret_ ["applied " +:+ n +:+ " statement(s)"].

(** ** [run] and [decode_workers] *)

(** The loop of [run]: a chain's task is spawned as soon as its own preflight check has passed. *)
Fixpoint spawn_chains (base : string) (cfg : Config) (interval : Z) (chains : list ChainCfg)
    (decoders : gmap Z Decoder) : M App CmdError (gmap Z Decoder) :=
  match chains with
  | [] => mret_ decoders
  | chain :: chains =>
      do decoder <- mlift (decoder_at base chain);
      let schemas := dec_schemas decoder (ho chain) in
      do _ <- preflight schemas;
      do _ <- spawn (mkChainTask chain (es_table <$> schemas) (ix_aux_concurrency (cf_indexer cfg))
                       (Z.max (ix_range_concurrency (cf_indexer cfg)) 1) interval);
      spawn_chains base cfg interval chains (<[ch_id chain := decoder]> decoders)
  end.

Definition run (config_path : string) (workers : Z) (interval : option Z) : M App CmdError Started :=
  do cfg <- boot config_path;
  let interval := default (ix_tip_interval_secs (cf_indexer cfg)) interval in
  do _ <- init;
  do decoders <- spawn_chains (base_dir config_path) cfg interval (cf_chains cfg) ∅;
  do tasks <- (fun app => (Ok (ap_spawned app), app));
  mret_ (mkStarted decoders tasks (spawn_worker_pool (Z.to_nat workers)) (qc_poll_ms (cf_queue cfg)) (qc_poll_idle_ms (cf_queue cfg))).

Definition decode_workers (config_path : string) (workers : Z) : M App CmdError Started :=
  do cfg <- boot config_path;
  do decoders <- mlift (build_decoders (base_dir config_path) (cf_chains cfg) ∅);
  mret_ (mkStarted decoders [] (spawn_worker_pool (Z.to_nat workers)) (qc_poll_ms (cf_queue cfg)) (qc_poll_idle_ms (cf_queue cfg))).

(** ** The commands on one chain *)

(** What [backfill] and [follow] build before they touch the database. *)
Definition chain_setup (config_path : string) (chain_id : Z) (interval : option Z) : M App CmdError ChainSetup :=
  do cfg <- boot config_path;
  do chain <- mlift (chain_in cfg chain_id);
  do built <- mlift (or_panic (build_chain parse_abi event_selector function_selector decode_log_parts abi_decode_input
                       json_text (fun abi => read_file (path_join (base_dir config_path) abi)) parse_url connect_ws chain
                       (ix_aux_concurrency (cf_indexer cfg))));
  let '(source, ledger, decoder) := built in
  mret_ (mkChainSetup chain source ledger decoder (Z.max (max_getlogs_blocks (rs_plan source)) 1)
           (Z.max (ix_range_concurrency (cf_indexer cfg)) 1) (qc_poll_ms (cf_queue cfg)) (qc_poll_idle_ms (cf_queue cfg))
           (default (ix_tip_interval_secs (cf_indexer cfg)) interval)).

Section data.
(** The connected source with its state, what the ledger says of it, and hash iteration orders. *)
Context {St : Type} (connected : RpcLogSource -> ChainSource St) (quota : St -> bool) (st : St).
Context (mo : list (string * list EventRow) -> list (string * list EventRow)) (so : list bytes -> list bytes).

(** Calls on the store and the source; the source ends with the command. *)
Definition on_chain {A} (m : M (World * St) DomainError A) : M App CmdError A :=
  on_world (fun w => let '(r, ws) := m (w, st) in (r, ws.1)).

Definition backfill (config_path : string) (chain_id from to : Z) (tn : Turn) (polls : list Poll) : M App CmdError Z :=
  do a <- chain_setup config_path chain_id None;
  do _ <- init;
  do _ <- preflight (dec_schemas (cs_decoder a) (ho (cs_cfg a)));
  do out <- on_chain (pipeline (connected (cs_source a)) (dec_record_filter (cs_decoder a) (ho (cs_cfg a))) quota (cs_step a) tn from to);
  do _ <- on_world (drain_queue mo so {[chain_id := cs_decoder a]} (cs_poll_ms a) (cs_poll_idle_ms a) polls);
  mret_ (po_records out).

Definition resync (config_path : string) (chain_id from to : Z) : M App CmdError Z :=
  do cfg <- boot config_path;
  do chain <- mlift (chain_in cfg chain_id);
  do decoder <- mlift (decoder_at (base_dir config_path) chain);
  on_world (decode_range mo so decoder chain_id from to).

(** The loop runs over the turns given; [true] when it is still running. *)
Definition follow (config_path : string) (chain_id : Z) (interval : option Z) (tns : list Turn) : M App CmdError bool :=
  do a <- chain_setup config_path chain_id interval;
  do start <- mlift (ok_or (start_block (cs_cfg a)) XPanic);
  do _ <- init;
  do _ <- preflight (dec_schemas (cs_decoder a) (ho (cs_cfg a)));
  do l <- on_chain (ingest_loop (connected (cs_source a)) (es_table <$> dec_schemas (cs_decoder a) (ho (cs_cfg a)))
                      (dec_record_filter (cs_decoder a) (ho (cs_cfg a))) quota (ch_confirmations (cs_cfg a)) start (cs_step a)
                      (cs_range_concurrency a) tns);
  mret_ (bool_decide (is_Some l)).

(** ** [main] *)

Definition main (cmd : Cmd) (tn : Turn) (tns : list Turn) (polls : list Poll) : M App CmdError Report :=
  do _ <- mlift (match metrics_listen cmd with Some addr => install addr | None => Ok tt end);
  match cmd with
  | CmdMigrate config dry_run allow_destructive => do l <- migrate config dry_run allow_destructive; mret_ (RMigrated l)
  | CmdBackfill config chain from to => do n <- backfill config chain from to tn polls; mret_ (RBackfilled n)
  | CmdResync config chain from to => do n <- resync config chain from to; mret_ (RResynced n)
  | CmdFollow config chain interval => do b <- follow config chain interval tns; mret_ (RFollowed b)
  | CmdDecode config workers => do s <- decode_workers config workers; mret_ (RStarted s)
  | CmdRun config workers interval => do s <- run config workers interval; mret_ (RStarted s)
  end.
End data.

(** ** The query server's schemas ([bins/query/src/main.rs]) *)

Definition push_new (acc : list EventSchema) (s : EventSchema) : list EventSchema :=
  if bool_decide (es_table s ∈ es_table <$> acc) then acc else acc ++ [s].

Fixpoint served_schemas (base : string) (chains : list ChainCfg) (acc : list EventSchema) : result CmdError (list EventSchema) :=
  match chains with
  | [] => Ok acc
  | chain :: chains =>
      let? decoder := decoder_at base chain in
      served_schemas base chains (fold_left push_new (dec_schemas decoder (ho chain)) acc)
  end.

(** The address to listen on, the schemas to serve, and the cache's TTL in milliseconds when it is on. *)
Definition query_main (config_path : string) (listen : option string) : result CmdError (string * list EventSchema * option Z) :=
  let? cfg := res_map_err XConfig (load config_path) in
  let? _ := match ix_metrics_listen (cf_indexer cfg) with Some addr => install addr | None => Ok tt end in
  let listen := default (yc_listen (cf_query cfg)) listen in
  let? _ := (if socket_addr listen then Ok tt else Err (XMsg ("bad listen addr " +:+ listen))) in
  let? schemas := served_schemas (base_dir config_path) (cf_chains cfg) [] in
  let? _ := connect cfg in
  Ok (listen, schemas,
      if 0 <? yc_cache_ttl_ms (cf_query cfg) then Some (yc_cache_ttl_ms (cf_query cfg)) else None).

Definition query_run (finish : GqlSchema -> result string ()) (bind : string -> result string ())
    (axum_serve : GqlSchema -> result string ()) (config_path : string) (listen : option string) : result CmdError () :=
  let? setup := query_main config_path listen in
  res_map_err XDomain (serve finish bind axum_serve (server_new setup.1.2) setup.1.1).
End commands.
