(* ===== verification/Deploy.v ===== *)
(** From the configuration file to the decoded rows: the decoders that [run] builds and the tables that
    [migrate] creates are what the end-to-end guarantee of [SystemFacts] asks for, and the rows decoding
    gives fit the tables. *)
From S2P Require Import Prelude Model Btree Text Encode Store Repos Queue UnitOfWork Services ServicesFacts Ranges Plan Pipeline Ingest IngestFacts Retry Pricing Schema SchemaFacts Enrichment Abi AbiFacts Client Config Worker System SystemSteps SystemFacts Commands CommandsFacts.

(** * The tables a migration creates *)

(** A column of a table made by the schemas: a meta column, or one of a schema on the table. *)
Definition column_of (ss : list EventSchema) (t : string) (ct : string * string) : Prop :=
  ct.1 ∈ (all_cols true []).*1 \/ exists s col, s ∈ ss /\ pg_ident (es_table s) = Some t /\ col ∈ es_columns s
    /\ pg_quoted (c_name col) = Some ct.1 /\ ct.2 = pg_type (c_ty col).

(** A table that is not a fixed one is of one of the schemas: it has its key and the meta columns, and every column
    is one that a schema asks for. *)
Definition made_by (ss : list EventSchema) (c : Catalog) : Prop := forall t d,
  ct_tables c !! t = Some d -> t ∉ base_tables.*1 ->
  (exists s, s ∈ ss /\ pg_ident (es_table s) = Some t /\ mapM pg_quoted (pk s) = Some (td_pk d)
    /\ Forall (fun x => x ∈ (td_cols d).*1) (all_cols (table_has_idx (es_table s)) []).*1)
  /\ Forall (column_of ss t) (td_cols d).

Lemma quoted_cols_elem cols qs ct :
  quoted_cols cols = Some qs -> ct ∈ qs -> exists n, (n, ct.2) ∈ cols /\ pg_quoted n = Some ct.1.
Proof.
  unfold quoted_cols. intros H Hin. apply mapM_Some in H. apply list_elem_of_lookup in Hin as (i & Hi).
  destruct (Forall2_lookup_r _ _ _ _ _ H Hi) as ([n ty] & Hn & E). cbn in E. destruct (pg_quoted n) as [x|] eqn:Eq; [|done].
  injection E as <-. exists n. split; [by eapply list_elem_of_lookup_2|done].
Qed.

Lemma created_columns ss s t qs :
  s ∈ ss -> pg_ident (es_table s) = Some t -> quoted_cols (typed_cols s) = Some qs ->
  Forall (column_of ss t) (all_cols (table_has_idx (es_table s)) qs).
Proof.
  intros Hs Ht Hq. apply Forall_forall. intros ct Hct. unfold all_cols in Hct. rewrite !elem_of_app in Hct.
  destruct Hct as [H|[H|H]].
  - left. unfold all_cols. rewrite fmap_app. apply elem_of_app. left. by apply list_elem_of_fmap_2.
  - left. destruct (table_has_idx _); [|by apply not_elem_of_nil in H]. unfold all_cols. rewrite fmap_app. apply elem_of_app.
    right. cbn. apply list_elem_of_singleton in H as ->. left.
  - destruct (quoted_cols_elem _ _ _ Hq H) as (n & (col & E & Hcol)%list_elem_of_fmap & Hn). injection E as -> E. right.
    exists s, col. split_and!; done.
Qed.

Lemma made_by_exec ss s stmt c c' :
  s ∈ ss -> stmt ∈ table_statements s -> exec stmt c = Some c' -> made_by ss c -> made_by ss c'.
Proof.
  intros Hs Hin He Hc. unfold table_statements in Hin. rewrite !elem_of_app in Hin.
  assert (ct_tables c' = ct_tables c -> made_by ss c') as Hsame by (unfold made_by; by intros ->).
  destruct Hin as [->%list_elem_of_singleton|[(col & -> & Hcol)%list_elem_of_fmap|[Hin|Hin]]].
  - unfold create_table in He. cbn [exec] in He. destruct (pg_ident _) as [n|] eqn:En; [|done]. cbn in He.
    destruct (quoted_cols _) as [qs|] eqn:Eq; [|done]. cbn in He.
    destruct (mapM pg_quoted _) as [pk'|] eqn:Ep; [|done]. cbn in He. case_bool_decide; [by injection He as <-|].
    destruct (_ && _); [|done]. injection He as <-. intros t d Ht Hb. cbn in Ht. destruct (decide (t = n)) as [->|Hne].
    + rewrite lookup_insert_eq in Ht. injection Ht as <-. split; [|by apply created_columns].
      exists s. split_and!; [done..|]. apply Forall_forall. intros x. cbn. apply all_cols_base.
    + rewrite lookup_insert_ne in Ht by done. by apply Hc.
  - cbn [exec] in He. destruct (pg_ident _) as [n|] eqn:En; [|done]. cbn in He.
    destruct (pg_quoted _) as [x|] eqn:Ex; [|done]. cbn in He.
    destruct (ct_tables c !! n) as [d0|] eqn:E; [|done]. cbn in He. case_bool_decide; [by injection He as <-|].
    case_bool_decide; [done|]. injection He as <-. intros t d Ht Hb. cbn in Ht. destruct (decide (t = n)) as [->|Hne].
    + rewrite lookup_insert_eq in Ht. injection Ht as <-. destruct (Hc _ _ E Hb) as [(s' & ? & ? & ? & Hm) Hf]. split.
      * exists s'. split_and!; [done..|]. eapply Forall_impl; [exact Hm|]. intros y Hy. cbn in *.
        rewrite fmap_app. apply elem_of_app. by left.
      * cbn. apply Forall_app. split; [done|]. constructor; [|constructor]. right. exists s, col. cbn. by split_and!.
    + rewrite lookup_insert_ne in Ht by done. by apply Hc.
  - apply Hsame. destruct (create_indexes_elem _ _ Hin) as [col ->]. cbn [exec] in He.
    destruct (pg_ident (es_table s)) as [n|]; [|done]. cbn in He. destruct (pg_ident _); [|done]. cbn in He. destruct (index_reads _); [|done]. cbn in He.
    destruct (ct_tables c !! n); [|done]. cbn in He. by repeat case_bool_decide; simplify_eq.
  - apply Hsame. unfold foreign_keys in Hin. destruct (String.eqb _ _); [|by apply not_elem_of_nil in Hin].
    apply list_elem_of_singleton in Hin as ->. cbn in He. destruct (ct_fk c); [by injection He as <-|].
    destruct (ct_tables c !! RECEIPTS_TABLE); [|done]. destruct (ct_tables c !! "transactions"); [|done]. cbn in He.
    case_bool_decide; [|done]. by injection He as <-.
Qed.

Lemma made_by_plan ss c c' :
  apply_plan (plan c ss) false c = (Ok tt, c') -> made_by ss c -> made_by ss c'.
Proof.
  unfold apply_plan. cbn [sp_destructive plan andb sp_statements]. intros H Hc.
  assert (forall stmts, (forall d, d ∈ stmts -> exists s, s ∈ ss /\ d ∈ table_statements s) ->
    forall c, exec_all stmts c = (Ok tt, c') -> made_by ss c -> made_by ss c') as Hall.
  { clear. induction stmts as [|d stmts IH]; intros Hd c H Hc; [by injection H as <-|]. rewrite exec_all_cons in H.
    destruct (exec d c) as [c1|] eqn:E; [|done]. destruct (Hd d) as (s & Hs & Hin); [left|].
    eapply IH; [intros; apply Hd; by right|done|]. by eapply made_by_exec. }
  eapply Hall; [|done|done]. intros d (l & Hl & Hd)%list_elem_of_In%in_concat. apply list_elem_of_In in Hl, Hd.
  apply list_elem_of_fmap in Hl as (s & -> & Hs). eauto.
Qed.

Lemma made_by_shuffle ss ss' c : ss ≡ₚ ss' -> made_by ss c -> made_by ss' c.
Proof.
  intros P Hc t d Ht Hb. destruct (Hc t d Ht Hb) as [(s & Hs & H) Hf]. split.
  - exists s. by rewrite <- P.
  - eapply Forall_impl; [exact Hf|]. intros ct [?|(s' & col & Hs' & H')]; [by left|]. right. exists s', col. by rewrite <- P.
Qed.

Lemma store_lookup c d t : db_tables (sync_tables c d) !! t = ct_tables c !! t ≫= store_table c d t.
Proof. unfold sync_tables. cbn. by rewrite map_lookup_imap. Qed.

(** * The decoders *)

(** The tables of events. *)
Definition event_tables (decs : list Decoder) : list string :=
  es_table <$> filter (fun s => is_Some (es_topic0 s)) (concat (schemas_of <$> decs)).

(** Two schemas on one table: Postgres folds and cuts names. *)
Definition same_table (s1 s2 : EventSchema) : Prop :=
  es_table s1 = es_table s2 \/ pg_ident (es_table s1) = Some (es_table s2) \/ pg_ident (es_table s2) = Some (es_table s1).

#[export] Instance same_table_dec s1 s2 : Decision (same_table s1 s2).
Proof. unfold same_table. apply _. Defined.

(** No table holds events and something else (an override may give an event table any name). *)
Definition kinds_apart (decs : list Decoder) : Prop :=
  Forall (fun s1 => Forall (fun s2 => same_table s1 s2 -> is_Some (es_topic0 s1) -> is_Some (es_topic0 s2))
    (concat (schemas_of <$> decs))) (concat (schemas_of <$> decs)).

#[export] Instance kinds_apart_dec decs : Decision (kinds_apart decs).
Proof. unfold kinds_apart. apply _. Defined.

Lemma event_tables_elem decs t :
  t ∈ event_tables decs <-> exists dec s, dec ∈ decs /\ s ∈ schemas_of dec /\ is_Some (es_topic0 s) /\ es_table s = t.
Proof.
  unfold event_tables. rewrite list_elem_of_fmap. split.
  - intros (s & -> & [Ht Hs]%list_elem_of_filter). apply list_elem_of_In, in_concat in Hs as (l & Hl & Hs).
    apply list_elem_of_In in Hl, Hs. apply list_elem_of_fmap in Hl as (dec & -> & Hd). by exists dec, s.
  - intros (dec & s & Hd & Hs & Ht & <-). exists s. split; [done|]. apply list_elem_of_filter. split; [done|].
    apply list_elem_of_In, in_concat. exists (schemas_of dec). split; [|by apply list_elem_of_In].
    apply list_elem_of_In, list_elem_of_fmap. eauto.
Qed.

Lemma concat_schema decs dec s : dec ∈ decs -> s ∈ schemas_of dec -> s ∈ concat (schemas_of <$> decs).
Proof.
  intros Hd Hs. apply list_elem_of_In, in_concat. exists (schemas_of dec). split; [|by apply list_elem_of_In].
  apply list_elem_of_In, list_elem_of_fmap. eauto.
Qed.

(** A schema on an event table is one of events. *)
Lemma kinds_apart_spec decs dec s t :
  kinds_apart decs -> dec ∈ decs -> s ∈ schemas_of dec -> t ∈ event_tables decs ->
  es_table s = t \/ pg_ident (es_table s) = Some t -> is_Some (es_topic0 s).
Proof.
  intros Hk Hd Hs (d1 & s1 & H1 & Hs1 & Ht1 & <-)%event_tables_elem E. unfold kinds_apart in Hk. rewrite Forall_forall in Hk.
  specialize (Hk s1 (concat_schema _ _ _ H1 Hs1)). rewrite Forall_forall in Hk.
  apply (Hk s (concat_schema _ _ _ Hd Hs)); [|done]. unfold same_table. by destruct E as [->|E]; [left|right; right].
Qed.

Section decoders.
Context (parse_abi : string -> result string JsonAbi).
Context (es : AbiEvent -> bytes) (fs : AbiFunction -> bytes).
Context (dlp : AbiEvent -> list bytes -> bytes -> result string (list DynSolValue * list DynSolValue)).
Context (adi : AbiFunction -> bytes -> result string (list DynSolValue)) (json_text : Json -> string).
Context (read_file : string -> result string string).
Abbreviation dec_at := (decoder_at parse_abi es fs dlp adi json_text read_file).

Definition calls_ok (idx : AbiIndex) : Prop := forall k e, by_call idx !! k = Some e -> es_topic0 (ce_schema e) = None.

Lemma build_calls_ok specs idx : build parse_abi es fs specs = Ok idx -> calls_ok idx.
Proof.
  unfold build. assert (calls_ok (mkAbiIndex ∅ ∅)) as H0. { intros k e H. cbn in H. by rewrite lookup_empty in H. }
  revert H0. generalize (mkAbiIndex ∅ ∅). induction specs as [|spec specs IH]; intros i0 H0; cbn; [by intros [= <-]|].
  destruct (parse_abi _) as [abi|e]; [|done]. cbn. apply IH. unfold calls_ok in *. cbn. revert H0. generalize (by_call i0).
  induction (ja_functions abi) as [|f fns IHf]; intros m Hm; [done|]. cbn. apply IHf. intros k e.
  unfold add_function. case_bool_decide; [|apply Hm].
  destruct (decide (k = (sp_address spec, fs f))) as [->|Hne]; [rewrite lookup_insert_eq; by intros [= <-]|].
  rewrite lookup_insert_ne by done. apply Hm.
Qed.

(** An event row comes from an entry of the index and keeps the record's position. *)
Lemma decode_row idx r row :
  decode dlp json_text idx r = Done (Ok (Some row)) ->
  exists k e fields, by_topic0 idx !! k = Some e /\ row_table row = es_table (en_schema e)
    /\ er_chain_id row = rr_chain_id r /\ er_height row = rr_height r /\ er_index row = rr_index r
    /\ decode_event dlp json_text (en_event e) (en_schema e) r = Done (Ok (mkDecodedEvent (es_table (en_schema e)) fields))
    /\ de_fields (er_event row) = fields.
Proof.
  unfold decode. destruct (rr_selectors r) as [|sel sels] eqn:Esel; [done|]. destruct (negb _); [done|].
  destruct (by_topic0 idx !! sel) as [e|] eqn:E; [|done]. destruct (decode_event _ _ _ _ r) as [[ev|]|] eqn:Ed; [|done|done].
  intros [= <-]. unfold decode_event in Ed. destruct (forallb _ _) eqn:Ef; [|done].
  destruct (dlp _ _ _) as [[ix body]|] eqn:El; [|done]. destruct (event_fields _ _ _ ix body) as [[fields|]|] eqn:Efs; [|done|done].
  injection Ed as <-. exists sel, e, fields. unfold decode_event. rewrite Ef, El, Efs. by split_and!.
Qed.

Lemma built_event base ch dec r row :
  dec_at base ch = Ok dec -> dec_decode dec r = Ok (Some row) ->
  (exists s, s ∈ schemas_of dec /\ is_Some (es_topic0 s) /\ es_table s = row_table row)
  /\ er_chain_id row = rr_chain_id r /\ er_height row = rr_height r /\ er_index row = rr_index r.
Proof.
  intros (specs & idx & addrs & Hb & ->)%decoder_at_evm H. cbn in H.
  destruct (decode dlp json_text idx r) as [[o|]|] eqn:E; cbn in H; [|done|done]. injection H as ->.
  apply decode_row in E as (k & e & fields & Hk & Ht & ? & ? & ? & _). split; [|done].
  apply build_entries_ok in Hb. destruct (Hb _ _ Hk) as (_ & t & Hs). exists (en_schema e). split_and!; [|by rewrite Hs|done].
  cbn. apply elem_of_app. left. unfold schemas. rewrite <- list_fmap_compose. apply list_elem_of_fmap. exists (k, e).
  split; [done|]. by apply elem_of_map_to_list.
Qed.

Lemma built_call base ch dec tx row :
  dec_at base ch = Ok dec -> dec_decode_call dec tx = Ok (Some row) ->
  exists s, s ∈ schemas_of dec /\ es_topic0 s = None /\ es_table s = row_table row.
Proof.
  intros (specs & idx & addrs & Hb & ->)%decoder_at_evm H. cbn in H. unfold decode_call in H.
  destruct (_ <? 4)%nat; [done|]. destruct (by_call idx !! _) as [e|] eqn:E; [|done].
  destruct (decode_calldata _ _ _ _ _) as [[ev|]|] eqn:Ed; cbn in H; [|done|done]. injection H as <-.
  unfold decode_calldata in Ed. destruct (adi _ _); [|done]. destruct (call_fields _ _ _); [|done]. injection Ed as <-.
  exists (ce_schema e). split_and!; [|by eapply build_calls_ok|done]. cbn. apply elem_of_app. right. apply elem_of_app. left.
  unfold call_schemas. rewrite <- list_fmap_compose. apply list_elem_of_fmap. eexists (_, e). split; [done|].
  by apply elem_of_map_to_list.
Qed.

Lemma built_aux base ch dec s : dec_at base ch = Ok dec -> s ∈ aux_schemas -> s ∈ schemas_of dec.
Proof. intros (specs & idx & addrs & _ & ->)%decoder_at_evm Hs. cbn. rewrite !elem_of_app. auto. Qed.
End decoders.

(** * The deployment *)

(** What a chain's records are: positions fit the columns, each record is of its block, and an index
    names one record of its block. *)
Class ChainRecords (recs : Z -> Z -> list RawRecord) : Prop := {
  cr_rec : forall c b r, r ∈ recs c b -> wf_raw r /\ rr_chain_id r = c /\ rr_height r = b;
  cr_idx : forall c b r1 r2, r1 ∈ recs c b -> r2 ∈ recs c b -> rr_index r1 = rr_index r2 -> r1 = r2
}.

(** The start block of a chain. *)
Definition start_of (cfg : Config) (c : Z) : Z := default 0 (find_chain cfg c ≫= start_block).

(** No typed table yet, and nothing ingested. *)
Definition fresh_app (app : App) : Prop :=
  (forall t, t ∉ base_tables.*1 -> ct_tables (ap_catalog app) !! t = None)
  /\ db_raw (w_db (ap_world app)) = ∅ /\ db_queue (w_db (ap_world app)) = []
  /\ db_cursors (w_db (ap_world app)) = ∅ /\ db_tables (w_db (ap_world app)) = ∅.

Section deploy.
Context (extract : string -> result string Config) (connect_pool : string -> Z -> result DbError ()).
Context (parse_abi : string -> result string JsonAbi).
Context (es : AbiEvent -> bytes) (fs : AbiFunction -> bytes).
Context (dlp : AbiEvent -> list bytes -> bytes -> result string (list DynSolValue * list DynSolValue)).
Context (adi : AbiFunction -> bytes -> result string (list DynSolValue)) (json_text : Json -> string).
Context (read_file : string -> result string string).
Abbreviation builds := (built parse_abi es fs dlp adi json_text read_file).
Abbreviation migrates := (migrated extract connect_pool parse_abi es fs dlp adi json_text read_file).

Lemma built_elem base chains decs dec :
  builds base chains decs -> dec ∈ decs ->
  exists ch, ch ∈ chains /\ decoder_at parse_abi es fs dlp adi json_text read_file base ch = Ok dec.
Proof.
  intros H (i & Hi)%list_elem_of_lookup. destruct (Forall2_lookup_r _ _ _ _ _ H Hi) as (ch & Hch & Hd).
  exists ch. split; [by eapply list_elem_of_lookup_2|done].
Qed.

Lemma built_lookup path cfg base decs ch dec :
  load extract path = Ok cfg -> builds base (cf_chains cfg) decs -> ch ∈ cf_chains cfg ->
  decoder_at parse_abi es fs dlp adi json_text read_file base ch = Ok dec ->
  fold_left add_decoder (zip (cf_chains cfg) decs) ∅ !! ch_id ch = Some dec.
Proof.
  intros Hl Hb (i & Hi)%list_elem_of_lookup Hd. destruct (Forall2_lookup_l _ _ _ _ _ Hb Hi) as (dec' & Hi' & Hd').
  assert (dec' = dec) as -> by congruence. apply (add_decoders_lookup (zip (cf_chains cfg) decs) ∅ (ch, dec)).
  - rewrite (zip_ids _ _ (Forall2_length _ _ _ Hb)). by eapply loaded_ids.
  - eapply list_elem_of_lookup_2. by rewrite lookup_zip_with, Hi, Hi'.
Qed.

(** Transactions and receipts are not events. *)
Lemma aux_not_event base chains decs s :
  builds base chains decs -> kinds_apart decs -> s ∈ aux_schemas -> es_table s ∉ event_tables decs.
Proof.
  intros Hb Hk Hs Ht. pose proof Ht as (dec & _ & Hd & _)%event_tables_elem.
  destruct (built_elem _ _ _ _ Hb Hd) as (ch & _ & Hch).
  destruct (kinds_apart_spec decs dec s _ Hk Hd (built_aux _ _ _ _ _ _ _ _ _ _ _ Hch Hs) Ht (or_introl eq_refl)) as [x Hx].
  unfold aux_schemas in Hs. rewrite !elem_of_cons, elem_of_nil in Hs. by destruct Hs as [->|[->|[]]].
Qed.

Lemma event_table_idx base chains decs t :
  builds base chains decs -> kinds_apart decs -> t ∈ event_tables decs -> table_has_idx t = true.
Proof.
  intros Hb Hk Ht. unfold table_has_idx. destruct (String.eqb_spec t RECEIPTS_TABLE) as [->|]; [|done].
  exfalso. eapply (aux_not_event _ _ _ _ Hb Hk); [right; left|exact Ht].
Qed.

(** The decoders [run] spawns with make a deployment. *)
Lemma configured_deployment base cfg decs recs :
  ChainRecords recs -> builds base (cf_chains cfg) decs -> kinds_apart decs ->
  (forall ch b, ch ∈ cf_chains cfg -> start_block ch = Some b -> b < 2 ^ 62) ->
  Deployment (fold_left add_decoder (zip (cf_chains cfg) decs) ∅) (start_of cfg) recs (event_tables decs).
Proof.
  intros Hrecs Hb Hk Hst.
  assert (forall c dec, fold_left add_decoder (zip (cf_chains cfg) decs) ∅ !! c = Some dec ->
    dec ∈ decs /\ exists ch, decoder_at parse_abi es fs dlp adi json_text read_file base ch = Ok dec) as Hdec.
  { intros c dec [H|([ch d] & Hin & _ & <-)]%add_decoders_inv; [by rewrite lookup_empty in H|]. cbn. split.
    - by eapply elem_of_zip_r.
    - exists ch. by apply (elem_of_zip_Forall2 _ _ _ _ _ Hb). }
  split.
  - intros c. unfold start_of, find_chain. destruct (list_find _ _) as [[i ch]|] eqn:E; cbn; [|lia].
    destruct (start_block ch) as [b|] eqn:Eb; cbn; [|lia]. apply list_find_Some in E as (Hi & _).
    eapply Hst; [by eapply list_elem_of_lookup_2|done].
  - apply cr_rec.
  - apply cr_idx.
  - intros c dec b r row [Hd [ch Hch]]%Hdec Hr E. destruct (built_event _ _ _ _ _ _ _ _ _ _ _ _ Hch E) as [(s & ? & ? & ?) (-> & -> & ->)].
    destruct (cr_rec c b r Hr) as (_ & -> & ->). split; [|done]. apply event_tables_elem. eauto 7.
  - intros c dec tx row [Hd [ch Hch]]%Hdec E Hin. destruct (built_call _ _ _ _ _ _ _ _ _ _ _ _ Hch E) as (s & Hs & Ht & Hr).
    destruct (kinds_apart_spec decs dec s _ Hk Hd Hs Hin (or_introl Hr)) as [x Hx]. congruence.
  - intros t Ht. by eapply event_table_idx.
Qed.

(** An event schema has the standard key. *)
Lemma event_schema_pk base ch dec s :
  decoder_at parse_abi es fs dlp adi json_text read_file base ch = Ok dec -> s ∈ schemas_of dec ->
  is_Some (es_topic0 s) -> pk s = event_pk.
Proof.
  intros (specs & idx & addrs & Hb & ->)%decoder_at_evm Hs Hx. cbn in Hs. rewrite !elem_of_app in Hs.
  destruct Hs as [Hs|[Hs|Hs]].
  - unfold schemas in Hs. rewrite <- list_fmap_compose in Hs. apply list_elem_of_fmap in Hs as ([k e] & -> & Hin).
    apply elem_of_map_to_list in Hin. apply build_entries_ok in Hb. destruct (Hb _ _ Hin) as (_ & t & E). cbn. by rewrite E.
  - unfold call_schemas in Hs. rewrite <- list_fmap_compose in Hs. apply list_elem_of_fmap in Hs as ([k e] & -> & Hin).
    apply elem_of_map_to_list in Hin. apply build_calls_ok in Hb. cbn in Hx. rewrite (Hb _ _ Hin) in Hx. by destruct Hx.
  - unfold aux_schemas in Hs. rewrite !elem_of_cons, elem_of_nil in Hs. destruct Hs as [->|[->|[]]]; by destruct Hx.
Qed.

Lemma migrated_made ho path app cfg decs c0 app' :
  (forall ch, Shuffles (ho ch)) -> migrates ho path app cfg decs c0 app' ->
  (forall t, t ∉ base_tables.*1 -> ct_tables (ap_catalog app) !! t = None) ->
  made_by (concat (schemas_of <$> decs)) (ap_catalog app').
Proof.
  intros Ho [_ _ Hbu Hi Ha _ _] Hf. pose proof (ordered_shuffle _ _ _ _ _ _ _ _ _ _ _ Hbu Ho) as P.
  apply (made_by_shuffle _ _ _ P). eapply made_by_plan; [exact Ha|]. intros t d Ht Hb.
  apply base_ddl_spec in Hi as [_ Hk]. rewrite (bk_other _ _ Hk), Hf in Ht by done. done.
Qed.

(** The table of events in the migrated store: under the standard key, with the meta columns, its old rows. *)
Lemma migrated_table ho path app cfg decs c0 app' t d :
  (forall ch, Shuffles (ho ch)) -> migrates ho path app cfg decs c0 app' ->
  (forall t, t ∉ base_tables.*1 -> ct_tables (ap_catalog app) !! t = None) ->
  kinds_apart decs -> t ∈ event_tables decs -> ct_tables (ap_catalog app') !! t = Some d -> t ∉ base_tables.*1 ->
  db_tables (w_db (ap_world app')) !! t
    = Some (mkTable PkEvent (td_cols d) false (default ∅ (t_rows <$> db_tables (w_db (ap_world app)) !! t)))
  /\ Forall (fun x => x ∈ (td_cols d).*1) (all_cols true []).*1
  /\ Forall (column_of (concat (schemas_of <$> decs)) t) (td_cols d).
Proof.
  intros Ho Hm Hf Hk Hin Htd Hb. pose proof (mg_built _ _ _ _ _ _ _ _ _ _ _ _ _ _ _ _ Hm) as Hbu.
  destruct (migrated_made _ _ _ _ _ _ _ Ho Hm Hf t d Htd Hb) as [(s & Hs & Hid & Hpk & Hmeta) Hcols].
  pose proof (event_table_idx _ _ _ _ Hbu Hk Hin) as Hidx. unfold table_has_idx in Hidx.
  apply list_elem_of_In, in_concat in Hs as (l & Hl & Hs). apply list_elem_of_In in Hl, Hs.
  apply list_elem_of_fmap in Hl as (dec & -> & Hd). destruct (built_elem _ _ _ _ Hbu Hd) as (ch & _ & Hch).
  rewrite (event_schema_pk _ _ _ _ Hch Hs (kinds_apart_spec _ _ _ _ Hk Hd Hs Hin (or_intror Hid))) in Hpk.
  split_and!; [| |done].
  - rewrite (mg_world _ _ _ _ _ _ _ _ _ _ _ _ _ _ _ _ Hm). cbn [w_db upd_db with_db]. rewrite store_lookup, Htd.
    cbn [mbind option_bind]. unfold store_table. rewrite bool_decide_false by done.
    assert (td_pk d = event_pk) as -> by (by injection Hpk). cbn [pk_kind].
    destruct (String.eqb _ RECEIPTS_TABLE); [done|]. by rewrite andb_false_r.
  - assert (table_has_idx (es_table s) = true) as E; [|by rewrite E in Hmeta]. unfold table_has_idx.
    destruct (String.eqb_spec (es_table s) RECEIPTS_TABLE) as [E|]; [|done]. rewrite E in Hid. vm_compute in Hid.
    injection Hid as <-. done.
Qed.

(** The table of events in the migrated store: empty, under the standard key. *)
Lemma migrated_fresh ho path app cfg decs c0 app' :
  (forall ch, Shuffles (ho ch)) -> migrates ho path app cfg decs c0 app' -> fresh_app app -> kinds_apart decs ->
  fresh_store (event_tables decs) (w_db (ap_world app')).
Proof.
  intros Ho Hm (Hf & Hr & Hq & Hc & Ht) Hk. pose proof (mg_world _ _ _ _ _ _ _ _ _ _ _ _ _ _ _ _ Hm) as Hw.
  split_and!; [by rewrite Hw..|]. intros t tab Hin Htab. pose proof Htab as Htab'. rewrite Hw in Htab'.
  cbn [w_db upd_db with_db] in Htab'. rewrite store_lookup in Htab'.
  destruct (ct_tables (ap_catalog app') !! t) as [d|] eqn:E; [|done]. cbn in Htab'. unfold store_table in Htab'.
  case_bool_decide as Hb; [done|]. destruct (migrated_table _ _ _ _ _ _ _ _ _ Ho Hm Hf Hk Hin E Hb) as [E2 _].
  rewrite E2 in Htab. injection Htab as <-. cbn. by rewrite Ht, lookup_empty.
Qed.

(** What a migration and a [run] leave to the tasks: the migrated world and the chains' decoders. *)
Lemma configured_start ho1 ho2 path allow workers iv app app1 app2 lines st cfg decs :
  load extract path = Ok cfg -> builds (base_dir path) (cf_chains cfg) decs ->
  migrate extract connect_pool parse_abi es fs dlp adi json_text read_file ho1 path false allow app = (Ok lines, app1) ->
  run extract connect_pool parse_abi es fs dlp adi json_text read_file ho2 path workers iv app1 = (Ok st, app2) ->
  exists c0, migrates ho1 path app cfg decs c0 app1
    /\ st_decoders st = fold_left add_decoder (zip (cf_chains cfg) decs) ∅ /\ ap_world app2 = ap_world app1.
Proof.
  intros Hl Hb (cfg' & decs' & c0 & Hm)%migrate_migrated Hr. pose proof Hm as [Hl' Hcon Hb' _ _ _ _].
  assert (cfg' = cfg) as -> by congruence. rewrite (built_det _ _ _ _ _ _ _ _ _ _ _ Hb Hb') in Hm. exists c0. split; [done|].
  apply run_started in Hr as (cfg2 & decs2 & c2 & Hl2 & Hb2 & _ & _ & Hw & Hd). assert (cfg2 = cfg) as -> by congruence.
  by rewrite (built_det _ _ _ _ _ _ _ _ _ _ _ Hb Hb2) in Hd.
Qed.

(** ** Rows and tables *)

(** The event schemas make tables that take their rows: names Postgres keeps as they are and the store layer takes
    as identifiers, no column twice, no fixed table's name; and schemas that share a table agree on the types of the
    columns they share. *)
Definition schemas_fit (decs : list Decoder) : Prop :=
  let ss := concat (schemas_of <$> decs) in
  Forall (fun s => is_Some (es_topic0 s) -> NoDup (names s) /\ (es_table s ∉ base_tables.*1) /\ makes_table s
    /\ is_valid_ident (es_table s) = true
    /\ Forall (fun c => is_valid_ident (c_name c) = true /\ pg_quoted (c_name c) = Some (c_name c)
         /\ Forall (fun s' => pg_ident (es_table s') = Some (es_table s) ->
              Forall (fun c' => pg_quoted (c_name c') = Some (c_name c) -> pg_type (c_ty c') = pg_type (c_ty c)) (es_columns s')) ss)
         (es_columns s)) ss.

#[export] Instance schemas_fit_dec decs : Decision (schemas_fit decs).
Proof. unfold schemas_fit. apply _. Defined.

(** The events of the configured contracts have no function-typed parameter and no indexed struct. *)
Definition plain_events (base : string) (chains : list ChainCfg) : Prop := forall ch cc text abi ev,
  ch ∈ chains -> cc ∈ ch_contracts ch -> read_file (path_join base (cc_abi cc)) = Ok text -> parse_abi text = Ok abi ->
  ev ∈ ja_events abi -> cc_events cc = [] \/ ae_name ev ∈ cc_events cc -> Forall plain_param (ae_inputs ev).

Lemma contract_specs_elem read_abi cs specs spec :
  contract_specs read_abi cs = Done (Ok specs) -> spec ∈ specs ->
  exists cc, cc ∈ cs /\ read_abi (cc_abi cc) = Ok (sp_abi_json spec) /\ sp_events spec = cc_events cc.
Proof.
  revert specs. induction cs as [|c cs IH]; intros specs; cbn; [intros [= <-]; by intros ?%not_elem_of_nil|].
  destruct (read_abi (cc_abi c)) as [text|] eqn:Er; [|done]. destruct (parse_addr _) as [[addr|]|]; [|done|done].
  destruct (contract_specs read_abi cs) as [[rest|]|]; [|done|done]. intros [= <-] [->|Hin]%elem_of_cons.
  - exists c. split; [left|done].
  - destruct (IH rest eq_refl Hin) as (cc & ? & ?). exists cc. split; [by right|done].
Qed.

(** A decoded row has a field for each column of its schema, under its name, and of its type when the events are
    plain. *)
Lemma built_sig base chains ch dec r row `{!LogDecoder dlp} :
  decoder_at parse_abi es fs dlp adi json_text read_file base ch = Ok dec -> dec_decode dec r = Ok (Some row) ->
  ch ∈ chains -> plain_events base chains ->
  exists s, s ∈ schemas_of dec /\ is_Some (es_topic0 s) /\ es_table s = row_table row
    /\ (de_fields (er_event row)).*1 = c_name <$> es_columns s
    /\ Forall2 (fun f c => bound_type f.2 = pg_type (c_ty c)) (de_fields (er_event row)) (es_columns s).
Proof.
  intros Hd H Hch Hpl. unfold decoder_at, build_decoder in Hd. destruct (String.eqb _ _); [|done]. unfold build_evm_decoder in Hd.
  destruct (contract_specs _ _) as [[specs|]|] eqn:Esp; [|done|done].
  destruct (build parse_abi es fs specs) as [idx|] eqn:Hb; [|done]. cbn in Hd. injection Hd as <-. cbn in H.
  destruct (decode dlp json_text idx r) as [[o|]|] eqn:E; cbn in H; [|done|done]. injection H as ->.
  apply decode_row in E as (k & e & fields & Hk & Ht & _ & _ & _ & Hd & Hf).
  destruct (build_events _ _ _ _ _ _ _ Hb Hk) as (spec & abi & Hspec & Habi & Hev & Hsel).
  destruct (contract_specs_elem _ _ _ _ Esp Hspec) as (cc & Hcc & Hread & Hevs). rewrite Hevs in Hsel.
  specialize (Hpl ch cc _ abi _ Hch Hcc Hread Habi Hev Hsel). apply build_entries_ok in Hb.
  destruct (Hb _ _ Hk) as (_ & t & Hs). exists (en_schema e). split; [|split; [by rewrite Hs|split; [done|]]].
  - unfold schemas_of. cbn. apply elem_of_app. left. unfold schemas. cbn. rewrite <- list_fmap_compose. apply list_elem_of_fmap.
    exists (k, e). split; [done|]. by apply elem_of_map_to_list.
  - rewrite Hf. unfold decode_event in Hd. destruct (forallb _ _); [|done].
    destruct (dlp _ _ _) as [[ix body]|] eqn:El; [|done]. apply log_values in El as [Hi Hbody].
    assert (es_columns (en_schema e) = columns_from 0 (ae_inputs (en_event e))) as Hcols by (by rewrite Hs).
    destruct (event_fields_typed json_text 0 (ae_inputs (en_event e)) ix body Hi Hbody) as (fs' & Ef & Hn & Hty).
    rewrite Hcols, Ef in Hd. injection Hd as <-. rewrite Hcols. split; [done|by apply Hty].
Qed.

Lemma insert_cols_names s : names s = insert_cols (table_has_idx (es_table s)) (c_name <$> es_columns s).
Proof.
  unfold names, all_cols, insert_cols, typed_cols. rewrite !fmap_app. f_equal. f_equal; [by destruct (table_has_idx _)|].
  by rewrite <- list_fmap_compose.
Qed.

(** The type of a schema's column in its table. *)
Lemma column_typed decs s t d col :
  schemas_fit decs -> s ∈ concat (schemas_of <$> decs) -> is_Some (es_topic0 s) -> es_table s = t -> table_has_idx t = true ->
  Forall (column_of (concat (schemas_of <$> decs)) t) (td_cols d) -> col ∈ es_columns s ->
  c_name col ∈ (td_cols d).*1 -> column_ty (td_cols d) (c_name col) = Some (pg_type (c_ty col)).
Proof.
  intros Hfit Hs Hev Ht Hidx Hcols Hcol (ct & Hn & Hct)%list_elem_of_fmap. unfold schemas_fit in Hfit. rewrite Forall_forall in Hfit.
  destruct (Hfit s Hs Hev) as (Hnd & _ & _ & _ & Hids). rewrite Forall_forall in Hids. destruct (Hids col Hcol) as (_ & _ & Hag).
  unfold column_ty. destruct (list_find _ (td_cols d)) as [[i ct']|] eqn:E; cbn; cycle 1.
  { apply list_find_None in E. rewrite Forall_forall in E. by destruct (E ct Hct). }
  apply list_find_Some in E as (Hi & Hn' & _). apply list_elem_of_lookup_2 in Hi. rewrite Forall_forall in Hcols.
  destruct (Hcols ct' Hi) as [Hm|(s' & col' & Hs' & Hid & Hcol' & Hq & ->)].
  - exfalso. unfold names in Hnd. rewrite Ht, Hidx in Hnd. unfold all_cols in Hnd, Hm.
    rewrite app_nil_r in Hm. rewrite app_assoc, fmap_app in Hnd. apply NoDup_app in Hnd as (_ & Hnd & _).
    apply (Hnd (c_name col)); [by rewrite <- Hn'|]. unfold typed_cols. rewrite <- list_fmap_compose.
    by apply (list_elem_of_fmap_2 c_name).
  - f_equal. rewrite Forall_forall in Hag. rewrite Ht in Hag. specialize (Hag s' Hs' Hid). rewrite Forall_forall in Hag.
    apply (Hag col' Hcol'). by rewrite Hq, Hn'.
Qed.

Lemma fields_accepted cols (fields : list (string * EventValue)) (cds : list ColumnDef) :
  fields.*1 = c_name <$> cds -> Forall2 (fun f c => bound_type f.2 = pg_type (c_ty c)) fields cds ->
  Forall (fun f => storable f.2 = true) fields -> (forall c, c ∈ cds -> column_ty cols (c_name c) = Some (pg_type (c_ty c))) ->
  forallb (fun f => match column_ty cols f.1 with Some ty => accepts ty f.2 | None => false end) fields = true.
Proof.
  intros Hn Hty Hst Hc. revert Hn. induction Hty as [|f c fields cds Hb _ IH]; intros Hn; [done|]. cbn in Hn. injection Hn as Hf Hn.
  apply Forall_cons in Hst as [Hs Hst]. cbn. rewrite Hf, (Hc c) by left. unfold accepts. rewrite Hb, String.eqb_refl, Hs. cbn.
  apply IH; [done| |done]. intros c' Hc'. apply Hc. by right.
Qed.

Lemma migrated_fits ho path app cfg decs c0 app' dec r row bt `{!LogDecoder dlp} :
  (forall ch, Shuffles (ho ch)) -> migrates ho path app cfg decs c0 app' ->
  (forall t, t ∉ base_tables.*1 -> ct_tables (ap_catalog app) !! t = None) ->
  kinds_apart decs -> schemas_fit decs -> plain_events (base_dir path) (cf_chains cfg) -> dec ∈ decs ->
  dec_decode dec r = Ok (Some row) -> Forall (fun f => storable f.2 = true) (de_fields (er_event row)) ->
  is_valid_ident (row_table row) = true /\ row_fits (w_db (ap_world app')) (row_table row) (timed bt row).
Proof.
  intros Ho Hm Hf Hk Hfit Hpl Hd E Hst. pose proof (mg_built _ _ _ _ _ _ _ _ _ _ _ _ _ _ _ _ Hm) as Hbu.
  destruct (built_elem _ _ _ _ Hbu Hd) as (ch & Hin & Hch).
  destruct (built_sig _ _ _ _ _ _ Hch E Hin Hpl) as (s & Hs & Hev & Ht & Hsig & Hty). pose proof (concat_schema _ _ _ Hd Hs) as Hsc.
  pose proof Hfit as Hfit'. unfold schemas_fit in Hfit'. rewrite Forall_forall in Hfit'.
  destruct (Hfit' s Hsc Hev) as (Hn & Hbase & Hmk & Hid & Hids). rewrite Forall_forall in Hids. rewrite <- Ht. split; [done|].
  pose proof (mg_applied _ _ _ _ _ _ _ _ _ _ _ _ _ _ _ _ Hm) as Ha.
  pose proof (ordered_shuffle _ _ _ _ _ _ _ _ _ _ _ Hbu Ho) as P.
  assert (s ∈ ordered ho (cf_chains cfg) decs) as Hso by (by rewrite P).
  destruct (migrated_schema _ _ _ _ Ha Hso Hmk) as [d Htd].
  assert (es_table s ∈ event_tables decs) as Hevt by (apply event_tables_elem; eauto 7).
  pose proof (event_table_idx _ _ _ _ Hbu Hk Hevt) as Hidx.
  destruct (migrated_table _ _ _ _ _ _ _ _ _ Ho Hm Hf Hk Hevt Htd Hbase) as (Etab & Hmeta & Hprov). eexists. split; [exact Etab|].
  cbn [t_fk]. split; [|done].
  assert (forall col, col ∈ es_columns s -> c_name col ∈ (td_cols d).*1) as Hcols.
  { intros col Hcol. destruct (migrated_column _ _ _ _ _ Ha Hso Hcol) as (n & x & d' & En & Ex & Hd' & Hx).
    destruct Hmk as [Eid _]. destruct (Hids col Hcol) as (_ & Eq & _). congruence. }
  assert (sig_of (timed bt row) = c_name <$> es_columns s) as Hsig' by exact Hsig.
  unfold row_shape. rewrite Hsig', <- insert_cols_names. cbn [t_fk t_pk t_cols]. split_and!.
  - unfold typed_kv, key_of, typed_row. rewrite Hidx. cbn. eauto.
  - done.
  - unfold names, all_cols. rewrite Hidx, app_assoc, fmap_app, Forall_app. unfold all_cols in Hmeta. rewrite app_nil_r in Hmeta.
    split; [done|]. unfold typed_cols. rewrite <- list_fmap_compose. apply Forall_fmap, Forall_forall. intros col Hcol. by apply Hcols.
  - apply Forall_fmap. apply Forall_forall. intros c Hc. by destruct (Hids c Hc).
  - eapply fields_accepted; [exact Hsig|exact Hty|exact Hst|]. intros c Hc.
    eapply column_typed; [exact Hfit|exact Hsc|exact Hev|reflexivity|exact Hidx|exact Hprov|exact Hc|by apply Hcols].
Qed.
End deploy.



(** * A run from a configuration file *)

Definition demo_height : Z := 18000000.
Definition demo_rec : RawRecord :=
  mkRawRecord 1 demo_height [] 4 (repeat (byte_of 3) 20) (repeat (repeat (byte_of 221) 32) 3) [] [byte_of 6] 0 None.
Definition demo_recs (c b : Z) : list RawRecord :=
  if decide (c = 1 /\ b = demo_height) then [demo_rec] else [].
Definition demo_range : FetchedRange := mkFetchedRange demo_height (demo_height + 1) [demo_rec] (mkAuxData [] []) None.

Lemma demo_chain_records : ChainRecords demo_recs.
Proof.
  assert (forall c b r, r ∈ demo_recs c b -> c = 1 /\ b = demo_height /\ r = demo_rec) as Hin.
  { intros c b r. unfold demo_recs. case_decide as H; [|by intros ?%not_elem_of_nil]. destruct H. by intros ->%list_elem_of_singleton. }
  split.
  - intros c b r (-> & -> & ->)%Hin. split; [|done]. unfold wf_raw. cbn. split_and!; try (unfold_int; lia); try done.
    repeat constructor; cbn; unfold_int; lia.
  - by intros c b r1 r2 (_ & _ & ->)%Hin (_ & _ & ->)%Hin.
Qed.

Definition demo_started : Started :=
  match demo run flipped 1 None demo_migrated with
  | (Ok st, _) => st
  | _ => mkStarted ∅ [] ∅ 0 0
  end.
Definition demo_booted : App := (demo run flipped 1 None demo_migrated).2.

Definition demo_committed : World := (consume_one 1 (tracker_new demo_height, 0) demo_range (ap_world demo_booted)).2.
Definition demo_decoded : World := (run_once (fun l => l) (fun l => l) (st_decoders demo_started) demo_committed).2.
Definition demo_tracker : PrefixTracker :=
  (tracker_record (tracker_new demo_height) demo_height (demo_height + 1) None).1.
Definition demo_ingested : Sys :=
  set_chain 1 (Some (WrReady demo_tracker 1)) demo_committed
    (set_chain 1 (Some (WrReady (tracker_new demo_height) 0)) (ap_world demo_booted) (launched 1 (ap_world demo_booted))).
Definition demo_end : Sys := set_worker 0 WIdle demo_decoded demo_ingested.

Lemma demo_commit_run :
  sys_reach (fun l => l) (fun l => l) (st_decoders demo_started) (start_of sample_cfg)
    (fetched demo_recs (event_tables [demo_decoder])) (launched (Z.to_nat 1) (ap_world demo_booted)) demo_ingested.
Proof.
  assert (fetched demo_recs (event_tables [demo_decoder]) 1 demo_range) as Hf.
  { split; [cbn; unfold demo_height; lia|]. split; [cbn; unfold demo_height; lia|]. split; [by vm_compute|].
    by intros r ?%not_elem_of_nil. }
  eapply sys_reach_trans.
  { apply sys_reach_one, (SStart _ _ _ _ _ (launched 1 (ap_world demo_booted)) 1 None (ap_world demo_booted)); [unfold_int; lia|by vm_compute]. }
  eapply (consume_reach (fun l => l) (fun l => l) (st_decoders demo_started) (start_of sample_cfg)
      (fetched demo_recs (event_tables [demo_decoder])) 1 (tracker_new demo_height) 0
      demo_range _ (Ok (demo_tracker, 1)) demo_committed); [apply set_chain_at|done|by vm_compute].
Qed.

Lemma demo_run :
  sys_reach (fun l => l) (fun l => l) (st_decoders demo_started) (start_of sample_cfg)
    (fetched demo_recs (event_tables [demo_decoder])) (launched (Z.to_nat 1) (ap_world demo_booted)) demo_end.
Proof.
  eapply sys_reach_trans; [apply demo_commit_run|].
  eapply (run_once_reach (fun l => l) (fun l => l) (st_decoders demo_started) (start_of sample_cfg)
    (fetched demo_recs (event_tables [demo_decoder])) 0 _ (Ok (Some 1))); by vm_compute.
Qed.

Lemma demo_run_ok : demo run flipped 1 None demo_migrated = (Ok demo_started, demo_booted).
Proof.
  assert (match (demo run flipped 1 None demo_migrated).1 with Ok _ => true | Err _ => false end = true) as H by (by vm_compute).
  unfold demo_started, demo_booted. destruct (demo run flipped 1 None demo_migrated) as [[st|e] a]; [reflexivity|discriminate].
Qed.

Lemma demo_fresh : fresh_app demo_app.
Proof. by split_and!; [intros t _; apply lookup_empty|..]. Qed.


Lemma demo_plain : plain_events sample_parse demo_read "etc" (cf_chains sample_cfg).
Proof.
  intros ch cc text abi ev _ _ _ [= <-] ->%list_elem_of_singleton _. apply (bool_decide_unpack _). by vm_compute.
Qed.

Definition demo_row : EventRow :=
  match dec_decode demo_decoder demo_rec with Ok (Some row) => row | _ => sample_row "none" 0 0 [] [] end.

