(* ===== verification/DeployCalls.v ===== *)
(** The calls of transactions from the configuration file on: the call tables that [migrate] creates and the decoders
    that [run] builds are what [SystemCalls] asks for, so that no call of a configured function is lost. *)
From S2P Require Import Prelude Model Btree Text Encode Store Repos Queue UnitOfWork Services ServicesFacts Ranges Plan Pipeline Ingest IngestFacts Retry Pricing Schema SchemaFacts Enrichment Abi AbiFacts Client Config Worker System SystemSteps SystemFacts SystemLive PoolLive SystemCalls Commands CommandsFacts Deploy.

(** * The tables of calls *)

(** A call table is named by [call_table], which no override changes. *)
Definition is_call (s : EventSchema) : Prop :=
  es_topic0 s = None /\ starts_with (es_table s) "call_" = true /\ es_pk_columns s = ["chain_id"; "tx_id"].

#[export] Instance is_call_dec s : Decision (is_call s).
Proof. unfold is_call. apply _. Defined.

Definition calls_tables (decs : list Decoder) : list string := es_table <$> filter is_call (concat (schemas_of <$> decs)).

Lemma calls_tables_elem decs t :
  t ∈ calls_tables decs <-> exists dec s, dec ∈ decs /\ s ∈ schemas_of dec /\ is_call s /\ es_table s = t.
Proof.
  unfold calls_tables. rewrite list_elem_of_fmap. split.
  - intros (s & -> & [Ht Hs]%list_elem_of_filter). apply list_elem_of_In, in_concat in Hs as (l & Hl & Hs).
    apply list_elem_of_In in Hl, Hs. apply list_elem_of_fmap in Hl as (dec & -> & Hd). by exists dec, s.
  - intros (dec & s & Hd & Hs & Ht & <-). exists s. split; [done|]. apply list_elem_of_filter. split; [done|].
    by eapply concat_schema.
Qed.

Lemma call_prefix_other t : starts_with t "call_" = true -> t <> "transactions" /\ t <> RECEIPTS_TABLE /\ (t ∉ base_tables.*1).
Proof.
  intros H. assert (forall l, forallb (fun x => negb (starts_with x "call_")) l = true -> t ∉ l) as Hn.
  { intros l Hl Hin. rewrite forallb_forall in Hl. apply list_elem_of_In, Hl in Hin. by rewrite H in Hin. }
  assert (t ∉ ["transactions"; RECEIPTS_TABLE]) as H2 by (by apply Hn).
  rewrite !elem_of_cons in H2. split_and!; [naive_solver..|]. by apply Hn.
Qed.

Section decoders.
Context (parse_abi : string -> result string JsonAbi).
Context (es : AbiEvent -> bytes) (fs : AbiFunction -> bytes).
Context (dlp : AbiEvent -> list bytes -> bytes -> result string (list DynSolValue * list DynSolValue)).
Context (adi : AbiFunction -> bytes -> result string (list DynSolValue)) (json_text : Json -> string).
Context (read_file : string -> result string string).
Abbreviation dec_at := (decoder_at parse_abi es fs dlp adi json_text read_file).

Lemma build_is_call specs idx k e : build parse_abi es fs specs = Ok idx -> by_call idx !! k = Some e -> is_call (ce_schema e).
Proof.
  unfold build. assert (forall k e, by_call (mkAbiIndex ∅ ∅) !! k = Some e -> is_call (ce_schema e)) as H0.
  { cbn. intros k' e' H. by rewrite lookup_empty in H. }
  intros H. revert k e. revert H0 H. generalize (mkAbiIndex ∅ ∅).
  induction specs as [|spec specs IH]; intros i0 H0; cbn; [by intros [= <-]|].
  destruct (parse_abi _) as [abi|e]; [|done]. cbn. apply IH. cbn. revert H0. generalize (by_call i0).
  induction (ja_functions abi) as [|f fns IHf]; intros m Hm; [done|]. cbn. apply IHf. intros k e.
  unfold add_function. case_bool_decide; [|apply Hm].
  destruct (decide (k = (sp_address spec, fs f))) as [->|Hne]; [rewrite lookup_insert_eq; by intros [= <-]|].
  rewrite lookup_insert_ne by done. apply Hm.
Qed.

(** A call row comes from a call schema and keeps the transaction's position. *)
Lemma built_call_row base ch dec tx row :
  dec_at base ch = Ok dec -> dec_decode_call dec tx = Ok (Some row) ->
  (exists s, s ∈ schemas_of dec /\ is_call s /\ es_table s = row_table row)
  /\ er_chain_id row = tc_chain_id tx /\ er_tx_id row = tc_tx_id tx.
Proof.
  intros (specs & idx & addrs & Hb & ->)%decoder_at_evm H. cbn in H. unfold decode_call in H.
  destruct (_ <? 4)%nat; [done|]. destruct (by_call idx !! _) as [e|] eqn:E; [|done].
  destruct (decode_calldata _ _ _ _ _) as [[ev|]|] eqn:Ed; cbn in H; [|done|done]. injection H as <-.
  unfold decode_calldata in Ed. destruct (adi _ _); [|done]. destruct (call_fields _ _ _); [|done]. injection Ed as <-.
  split; [|done]. exists (ce_schema e). split_and!; [|by eapply build_is_call|done]. cbn. apply elem_of_app. right.
  apply elem_of_app. left. unfold call_schemas. rewrite <- list_fmap_compose. apply list_elem_of_fmap.
  eexists (_, e). split; [done|]. by apply elem_of_map_to_list.
Qed.

Lemma built_has_calls base ch dec tx row :
  dec_at base ch = Ok dec -> dec_decode_call dec tx = Ok (Some row) -> dec_has_calls dec = true.
Proof.
  intros (specs & idx & addrs & _ & ->)%decoder_at_evm H. cbn in H |- *. unfold call_is_empty. case_bool_decide as E; [|done].
  unfold decode_call in H. destruct (_ <? 4)%nat; [done|]. by rewrite E, lookup_empty in H.
Qed.

(** A schema of a decoder is of an event, of a call, or of transactions or receipts; the latter have the same key. *)
Lemma built_schema_kinds base ch dec s :
  dec_at base ch = Ok dec -> s ∈ schemas_of dec ->
  is_Some (es_topic0 s) \/ (pk s = aux_pk /\ (is_call s \/ es_table s = "transactions" \/ es_table s = RECEIPTS_TABLE)).
Proof.
  intros (specs & idx & addrs & Hb & ->)%decoder_at_evm Hs. cbn in Hs. rewrite !elem_of_app in Hs. destruct Hs as [Hs|[Hs|Hs]].
  - left. unfold schemas in Hs. rewrite <- list_fmap_compose in Hs. apply list_elem_of_fmap in Hs as ([k e] & -> & Hin).
    apply elem_of_map_to_list in Hin. apply build_entries_ok in Hb. destruct (Hb _ _ Hin) as (_ & t & E). cbn. by rewrite E.
  - right. unfold call_schemas in Hs. rewrite <- list_fmap_compose in Hs. apply list_elem_of_fmap in Hs as ([k e] & -> & Hin).
    apply elem_of_map_to_list in Hin. pose proof (build_is_call _ _ _ _ Hb Hin) as Hc. split; [|by left].
    destruct Hc as (_ & _ & E). cbn. unfold pk. by rewrite E.
  - right. unfold aux_schemas in Hs. rewrite !elem_of_cons, elem_of_nil in Hs. destruct Hs as [->|[->|[]]]; naive_solver.
Qed.
End decoders.

(** * The deployment *)

(** The rows of a chain's transactions are under their chain and id. *)
Class ChainTxs (txrow : Z -> bytes -> TypedRow) : Prop :=
  ct_tx : forall c id, tr_chain_id (txrow c id) = as_i64 c /\ tr_tx_id (txrow c id) = id.

Section deploy.
Context (extract : string -> result string Config) (connect_pool : string -> Z -> result DbError ()).
Context (parse_abi : string -> result string JsonAbi).
Context (es : AbiEvent -> bytes) (fs : AbiFunction -> bytes).
Context (dlp : AbiEvent -> list bytes -> bytes -> result string (list DynSolValue * list DynSolValue)).
Context (adi : AbiFunction -> bytes -> result string (list DynSolValue)) (json_text : Json -> string).
Context (read_file : string -> result string string).
Abbreviation builds := (built parse_abi es fs dlp adi json_text read_file).
Abbreviation migrates := (migrated extract connect_pool parse_abi es fs dlp adi json_text read_file).

Lemma calls_tables_apart decs t :
  kinds_apart decs -> t ∈ calls_tables decs ->
  table_has_idx t = true /\ (t ∉ event_tables decs) /\ t <> "transactions" /\ (t ∉ base_tables.*1).
Proof.
  intros Hk (dec & s & Hd & Hs & (Ht & Hp & _) & <-)%calls_tables_elem. destruct (call_prefix_other _ Hp) as (? & Hr & ?).
  split_and!; [| |done|done].
  - unfold table_has_idx. by destruct (String.eqb_spec (es_table s) RECEIPTS_TABLE).
  - intros Hin. destruct (kinds_apart_spec decs dec s _ Hk Hd Hs Hin (or_introl eq_refl)) as [x Hx]. congruence.
Qed.

Lemma transactions_not_event base chains decs : builds base chains decs -> kinds_apart decs -> "transactions" ∉ event_tables decs.
Proof.
  intros Hb Hk. destruct aux_schemas as [|s l] eqn:E; [done|]. replace "transactions" with (es_table s) by (by injection E as <- _).
  eapply aux_not_event; [exact Hb|exact Hk|]. rewrite E. left.
Qed.

Lemma configured_calls base cfg decs txrow :
  ChainTxs txrow -> builds base (cf_chains cfg) decs -> kinds_apart decs ->
  (forall ch, ch ∈ cf_chains cfg -> is_u64 (ch_id ch)) ->
  CallDeployment (fold_left add_decoder (zip (cf_chains cfg) decs) ∅) txrow (event_tables decs) (calls_tables decs).
Proof.
  intros Htx Hb Hk Hu.
  assert (forall c dec, fold_left add_decoder (zip (cf_chains cfg) decs) ∅ !! c = Some dec ->
    is_u64 c /\ dec ∈ decs /\ exists ch, decoder_at parse_abi es fs dlp adi json_text read_file base ch = Ok dec) as Hdec.
  { intros c dec [H|([ch d] & Hin & <- & <-)]%add_decoders_inv; [by rewrite lookup_empty in H|]. cbn. split_and!.
    - apply Hu. by eapply elem_of_zip_l.
    - by eapply elem_of_zip_r.
    - exists ch. by apply (elem_of_zip_Forall2 _ _ _ _ _ Hb). }
  assert (forall c id row, call_of_tx (fold_left add_decoder (zip (cf_chains cfg) decs) ∅) txrow c id row ->
    is_u64 c /\ er_chain_id row = c /\ er_tx_id row = id /\ row_table row ∈ calls_tables decs) as Hrow.
  { intros c id row (dec & tc & (Hc & Hd & ch & Hch)%Hdec & _ & Etc & Erow).
    destruct (built_call_row _ _ _ _ _ _ _ _ _ _ _ _ Hch Erow) as [(s & ? & ? & ?) (-> & ->)].
    unfold calldata_of in Etc. destruct (field_bytes "input" _); cbn in Etc; [|done]. injection Etc as <-. cbn.
    split_and!; [done|done|apply ct_tx|]. apply calls_tables_elem. eauto 7. }
  split.
  - intros c id row H. apply (Hrow c id row H).
  - intros c1 id1 row1 c2 id2 row2 H1 H2 _ E. destruct (Hrow _ _ _ H1) as (U1 & C1 & I1 & _), (Hrow _ _ _ H2) as (U2 & C2 & I2 & _).
    unfold call_key in E. rewrite C1, C2, I1, I2 in E. injection E as Ec ->. apply as_i64_inj in Ec as ->; [|done|done].
    destruct H1 as (d1 & t1 & E1 & _ & T1 & R1), H2 as (d2 & t2 & E2 & _ & T2 & R2). congruence.
  - intros t Ht. destruct (calls_tables_apart decs t Hk Ht) as (? & ? & ? & _). by split_and!.
  - by eapply transactions_not_event.
  - apply ct_tx.
Qed.

(** A migrated table that a schema other than of events names is empty, under the key of transactions. *)
Lemma migrated_tx_table ho path app cfg decs c0 app' dec s d :
  (forall ch, Shuffles (ho ch)) -> migrates ho path app cfg decs c0 app' -> fresh_app app -> kinds_apart decs ->
  dec ∈ decs -> s ∈ schemas_of dec -> es_topic0 s = None -> (es_table s ∉ base_tables.*1) ->
  ct_tables (ap_catalog app') !! es_table s = Some d ->
  exists tab, db_tables (w_db (ap_world app')) !! es_table s = Some tab /\ t_pk tab = PkTx /\ t_rows tab = ∅.
Proof.
  intros Ho Hm (Hf & _ & _ & _ & Ht) Hk Hdec Hs Hnone Hb E. rewrite (mg_world _ _ _ _ _ _ _ _ _ _ _ _ _ _ _ _ Hm).
  cbn [w_db upd_db with_db]. rewrite store_lookup, E. cbn [mbind option_bind].
  destruct (migrated_made _ _ _ _ _ _ _ _ _ _ _ _ _ _ _ _ Ho Hm Hf _ d E Hb) as [(s' & Hs' & Hid & Hd & _) _].
  pose proof Hk as Hk'. unfold kinds_apart in Hk'. rewrite Forall_forall in Hk'. specialize (Hk' s' Hs'). rewrite Forall_forall in Hk'.
  specialize (Hk' s (concat_schema _ _ _ Hdec Hs) (or_intror (or_introl Hid))).
  apply list_elem_of_In, in_concat in Hs' as (l & Hl & Hs'). apply list_elem_of_In in Hl, Hs'.
  apply list_elem_of_fmap in Hl as (dec' & -> & Hdec').
  pose proof (mg_built _ _ _ _ _ _ _ _ _ _ _ _ _ _ _ _ Hm) as Hbu.
  destruct (built_elem _ _ _ _ _ _ _ _ _ _ _ Hbu Hdec') as (ch & _ & Hch).
  destruct (built_schema_kinds _ _ _ _ _ _ _ _ _ _ _ Hch Hs') as [Hev|[Hpk _]];
    [destruct (Hk' Hev) as [x Hx]; congruence|]. rewrite Hpk in Hd.
  unfold store_table. rewrite bool_decide_false by done. assert (td_pk d = aux_pk) as -> by (by injection Hd).
  cbn. eexists. split; [reflexivity|]. cbn. by rewrite Ht, lookup_empty.
Qed.

Lemma migrated_fresh_calls ho path app cfg decs c0 app' :
  (forall ch, Shuffles (ho ch)) -> migrates ho path app cfg decs c0 app' -> fresh_app app -> kinds_apart decs -> decs <> [] ->
  fresh_calls (calls_tables decs) (w_db (ap_world app')).
Proof.
  intros Ho Hm Hf Hk Hne. pose proof (mg_built _ _ _ _ _ _ _ _ _ _ _ _ _ _ _ _ Hm) as Hb. split.
  - destruct decs as [|dec decs']; [done|]. set (decs := dec :: decs') in *.
    destruct (built_elem _ _ _ _ _ _ _ _ _ _ dec Hb) as (ch & _ & Hch); [left|].
    destruct aux_schemas as [|s l] eqn:Ea; [done|]. assert (es_table s = "transactions") as Est by (by injection Ea as <- _).
    assert (s ∈ schemas_of dec) as Hs by (eapply built_aux; [exact Hch|]; rewrite Ea; left).
    pose proof (mg_applied _ _ _ _ _ _ _ _ _ _ _ _ _ _ _ _ Hm) as Ha.
    pose proof (ordered_shuffle _ _ _ _ _ _ _ _ _ _ _ Hb Ho) as P.
    destruct (migrated_schema _ _ _ s Ha) as [d Htd].
    { rewrite P. eapply concat_schema; [left|done]. }
    { injection Ea as <- _. apply (bool_decide_unpack _). by vm_compute. }
    rewrite <- Est. eapply (migrated_tx_table _ _ _ _ _ _ _ dec s); [exact Ho|exact Hm|done|done|left|done| | |exact Htd].
    + by injection Ea as <- _.
    + rewrite Est. apply (bool_decide_unpack _). by vm_compute.
  - intros t tab Ht Htab. destruct (calls_tables_apart decs t Hk Ht) as (_ & Hn & _ & Hbase).
    apply calls_tables_elem in Ht as (dec & s & Hd & Hs & Hc & <-).
    assert (exists d, ct_tables (ap_catalog app') !! es_table s = Some d) as [d Hd'].
    { rewrite (mg_world _ _ _ _ _ _ _ _ _ _ _ _ _ _ _ _ Hm) in Htab. cbn [w_db upd_db with_db] in Htab. rewrite store_lookup in Htab.
      destruct (ct_tables (ap_catalog app') !! es_table s); [by eexists|done]. }
    destruct Hc as (Hnone & _).
    destruct (migrated_tx_table _ _ _ _ _ _ _ dec s d Ho Hm Hf Hk Hd Hs Hnone Hbase Hd') as (tab' & E & ?).
    rewrite E in Htab. by injection Htab as <-.
Qed.
End deploy.


(** * A run with a configured function *)

Definition pay : AbiFunction := mkAbiFunction "transfer" [mkParam "to" "address" false; mkParam "amount" "uint256" false].
Definition pay_parse (_ : string) : result string JsonAbi := Ok (mkJsonAbi [transfer_event] [pay]).
Definition pay_input (_ : AbiFunction) (_ : bytes) : result string (list DynSolValue) := Ok [SAddress [byte_of 2]; SUint 5 256].
Definition pay_chain : ChainCfg :=
  mkChainCfg 1 EmptyString "evm" 12 (mkSourceCfg "alchemy" "https://x" None None)
    [mkContractCfg "0x0303030303030303030303030303030303030303" "abis/erc20.json" ["Transfer"] ["transfer"] None (Some demo_height)].
Definition pay_cfg : Config :=
  mkConfig IndexerCfg_default (mkDatabaseCfg "postgres://localhost/idx" 16) QueueCfg_default QueryCfg_default [pay_chain].
Definition pay_extract (path : string) : result string Config :=
  if String.eqb path "etc/config.toml" then Ok pay_cfg else Err "no such file".

Abbreviation paying cmd ho :=
  (cmd pay_extract (fun _ _ => Ok tt) pay_parse sample_selector sample_fn_selector sample_dlp pay_input (fun _ => EmptyString)
     demo_read ho "etc/config.toml") (only parsing).

Definition pay_decoder : Decoder :=
  match decoder_at pay_parse sample_selector sample_fn_selector sample_dlp pay_input (fun _ => EmptyString) demo_read "etc" pay_chain
  with Ok d => d | Err _ => sample_decoder end.

Definition pay_migrated : App := (paying migrate flipped false false demo_app).2.
Definition pay_started : Started :=
  match paying run kept 1 None pay_migrated with (Ok st, _) => st | _ => mkStarted ∅ [] ∅ 0 0 end.
Definition pay_booted : App := (paying run kept 1 None pay_migrated).2.

(** The transaction of the record, to the contract, with calldata. *)
Definition pay_fields : list (string * EventValue) :=
  [("input", VBytes (repeat (byte_of 9) 4)); ("to_addr", VAddress (repeat (byte_of 3) 20))].
Definition pay_tx : EventRow := mkEventRow 1 demo_height [] None [byte_of 6] 0 (mkDecodedEvent "transactions" pay_fields).
Definition pay_txrow (c : Z) (id : bytes) : TypedRow := mkTypedRow (as_i64 c) demo_height [] None id (Some 0) pay_fields.
Definition pay_range : FetchedRange :=
  mkFetchedRange demo_height (demo_height + 1) [demo_rec] (mkAuxData [] [pay_tx]) None.

Definition pay_committed : World := (consume_one 1 (tracker_new demo_height, 0) pay_range (ap_world pay_booted)).2.
Definition pay_decoded : World := (run_once (fun l => l) (fun l => l) (st_decoders pay_started) pay_committed).2.
Definition pay_end : Sys :=
  set_worker 0 WIdle pay_decoded
    (set_chain 1 (Some (WrReady demo_tracker 1)) pay_committed
      (set_chain 1 (Some (WrReady (tracker_new demo_height) 0)) (ap_world pay_booted) (launched 1 (ap_world pay_booted)))).

Lemma pay_tables : event_tables [pay_decoder] = ["evt_erc20_transfer"] /\ calls_tables [pay_decoder] = ["call_erc20_transfer"].
Proof. by vm_compute. Qed.

Lemma pay_fetched : fetched_txs demo_recs (event_tables [pay_decoder]) pay_txrow (calls_tables [pay_decoder]) 1 pay_range.
Proof.
  destruct pay_tables as [-> ->].
  assert (forall x, x ∈ enrichment (fr_aux pay_range) -> x = pay_tx) as Hx by (by intros x ?%list_elem_of_singleton).
  split_and!.
  - split; [cbn; unfold demo_height; lia|]. split; [cbn; unfold demo_height; lia|]. split; [by vm_compute|].
    intros x ->%Hx. by intros ?%list_elem_of_singleton.
  - intros x ->%Hx. by intros ?%list_elem_of_singleton.
  - intros x ->%Hx _. by exists [byte_of 6].
  - intros r ->%list_elem_of_singleton. exists pay_tx. split; [left|]. by split.
Qed.

Lemma pay_run :
  sys_reach (fun l => l) (fun l => l) (st_decoders pay_started) (start_of pay_cfg)
    (fetched_txs demo_recs (event_tables [pay_decoder]) pay_txrow (calls_tables [pay_decoder]))
    (launched (Z.to_nat 1) (ap_world pay_booted)) pay_end.
Proof.
  eapply sys_reach_trans.
  { apply sys_reach_one, (SStart _ _ _ _ _ (launched 1 (ap_world pay_booted)) 1 None (ap_world pay_booted)); [unfold_int; lia|by vm_compute]. }
  eapply sys_reach_trans.
  { eapply (consume_reach (fun l => l) (fun l => l) (st_decoders pay_started) (start_of pay_cfg)
      (fetched_txs demo_recs (event_tables [pay_decoder]) pay_txrow (calls_tables [pay_decoder])) 1 (tracker_new demo_height) 0
      pay_range _ (Ok (demo_tracker, 1)) pay_committed); [apply set_chain_at|apply pay_fetched|by vm_compute]. }
  eapply (run_once_reach (fun l => l) (fun l => l) (st_decoders pay_started) (start_of pay_cfg) _ 0 _ (Ok (Some 2))); by vm_compute.
Qed.

Definition pay_lines : list string := match (paying migrate flipped false false demo_app).1 with Ok l => l | Err _ => [] end.

Lemma pay_migrate_ok : paying migrate flipped false false demo_app = (Ok pay_lines, pay_migrated).
Proof.
  assert (match (paying migrate flipped false false demo_app).1 with Ok _ => true | Err _ => false end = true) as H by (by vm_compute).
  unfold pay_lines, pay_migrated. destruct (paying migrate flipped false false demo_app) as [[lines|e] a]; [reflexivity|discriminate].
Qed.

Lemma pay_txs : ChainTxs pay_txrow.
Proof. intros c id. split; reflexivity. Qed.

Lemma pay_run_ok : paying run kept 1 None pay_migrated = (Ok pay_started, pay_booted).
Proof.
  assert (match (paying run kept 1 None pay_migrated).1 with Ok _ => true | Err _ => false end = true) as H by (by vm_compute).
  unfold pay_started, pay_booted. destruct (paying run kept 1 None pay_migrated) as [[st|e] a]; [reflexivity|discriminate].
Qed.

