(* ===== verification/Progress.v ===== *)
(** A configured indexer catches up: from any state of a run, however much was left undecoded by crashes
    and failures, a worker that storage serves decodes it. *)
From S2P Require Import Prelude Model Btree Text Encode Store Repos Queue UnitOfWork Services ServicesFacts Ranges Plan Pipeline Ingest IngestFacts Retry Pricing Schema SchemaFacts Enrichment Abi AbiFacts Client Config Worker System SystemSteps SystemFacts SystemLive PoolLive Commands CommandsFacts Deploy.

Section progress.
Context (extract : string -> result string Config) (connect_pool : string -> Z -> result DbError ()).
Context (parse_abi : string -> result string JsonAbi).
Context (es : AbiEvent -> bytes) (fs : AbiFunction -> bytes).
Context (dlp : AbiEvent -> list bytes -> bytes -> result string (list DynSolValue * list DynSolValue)).
Context (adi : AbiFunction -> bytes -> result string (list DynSolValue)) (json_text : Json -> string).
Context (read_file : string -> result string string).
Abbreviation dec_at := (decoder_at parse_abi es fs dlp adi json_text read_file).

(** The decoder of a chain in the workers' map is the one its configuration builds. *)
Lemma configured_decoder path cfg decs c dec :
  built parse_abi es fs dlp adi json_text read_file (base_dir path) (cf_chains cfg) decs ->
  fold_left add_decoder (zip (cf_chains cfg) decs) ∅ !! c = Some dec ->
  dec ∈ decs /\ exists ch, ch ∈ cf_chains cfg /\ ch_id ch = c /\ dec_at (base_dir path) ch = Ok dec.
Proof.
  intros Hb [H|([ch d] & Hin & <- & <-)]%add_decoders_inv; [by rewrite lookup_empty in H|]. cbn. split.
  - by eapply elem_of_zip_r.
  - exists ch. split_and!; [by eapply elem_of_zip_l|done|]. by apply (elem_of_zip_Forall2 _ _ _ _ _ Hb).
Qed.

(** The rows the decoders make of the chains' records fit the migrated tables. *)
Lemma migrated_writable ho path app app1 cfg decs c0 c dec r row bt `{!LogDecoder dlp} :
  (forall ch, Shuffles (ho ch)) ->
  migrated extract connect_pool parse_abi es fs dlp adi json_text read_file ho path app cfg decs c0 app1 ->
  fresh_app app -> kinds_apart decs -> schemas_fit decs -> plain_events parse_abi read_file (base_dir path) (cf_chains cfg) ->
  fold_left add_decoder (zip (cf_chains cfg) decs) ∅ !! c = Some dec -> dec_decode dec r = Ok (Some row) ->
  Forall (fun f => storable f.2 = true) (de_fields (er_event row)) ->
  is_valid_ident (row_table row) = true /\ row_table row <> "transactions"
  /\ row_fits (w_db (ap_world app1)) (row_table row) (timed bt row).
Proof.
  intros Ho Hm [Hf _] Hk Hfit Hpl Hin E Hsto. pose proof (mg_built _ _ _ _ _ _ _ _ _ _ _ _ _ _ _ _ Hm) as Hb.
  destruct (configured_decoder path _ _ _ _ Hb Hin) as (Hd & ch & Hch & <- & Hat).
  destruct (migrated_fits _ _ _ _ _ _ _ _ _ _ _ _ _ _ _ _ _ r row bt Ho Hm Hf Hk Hfit Hpl Hd E Hsto) as [Hid Hrow]. split_and!; [done| |done].
  destruct (built_event _ _ _ _ _ _ _ _ _ _ _ _ Hat E) as [(s & Hs & Hev & Ht) _]. intros Hx.
  eapply (aux_not_event _ _ _ _ _ _ _ _ _ _ _ Hb Hk); [left|]. apply event_tables_elem. exists dec, s.
  split_and!; [done|done|done|by rewrite Ht].
Qed.

(** Where a run of the configured indexer can be: the system's invariant holds, and what is stored can be
    decoded and written. *)
Lemma configured_state mo so ho1 ho2 path allow workers iv app app1 app2 lines st cfg decs recs s `{!LogDecoder dlp} :
  (forall l, mo l ≡ₚ l) -> (forall ch, Shuffles (ho1 ch)) -> ChainRecords recs -> fresh_app app -> load extract path = Ok cfg ->
  built parse_abi es fs dlp adi json_text read_file (base_dir path) (cf_chains cfg) decs ->
  kinds_apart decs -> schemas_fit decs -> plain_events parse_abi read_file (base_dir path) (cf_chains cfg) ->
  (forall ch n, ch ∈ cf_chains cfg -> start_block ch = Some n -> n < 2 ^ 62) ->
  (forall ch dec b r, ch ∈ cf_chains cfg -> dec_at (base_dir path) ch = Ok dec -> r ∈ recs (ch_id ch) b ->
     exists o, dec_decode dec r = Ok o /\ forall row, o = Some row ->
       Forall (fun f => storable f.2 = true) (de_fields (er_event row))) ->
  migrate extract connect_pool parse_abi es fs dlp adi json_text read_file ho1 path false allow app = (Ok lines, app1) ->
  run extract connect_pool parse_abi es fs dlp adi json_text read_file ho2 path workers iv app1 = (Ok st, app2) ->
  sys_reach mo so (st_decoders st) (start_of cfg) (fetched recs (event_tables decs))
    (launched (Z.to_nat workers) (ap_world app2)) s ->
  (forall ch dec, ch ∈ cf_chains cfg -> dec_at (base_dir path) ch = Ok dec -> dec_has_calls dec = true ->
     calls_decode dec (ch_id ch) (w_db (sy_world s))) ->
  Deployment (st_decoders st) (start_of cfg) recs (event_tables decs)
  /\ sys_inv (st_decoders st) (start_of cfg) recs (event_tables decs) s
  /\ writable (st_decoders st) recs (w_db (sy_world s))
  /\ forall ch dec, ch ∈ cf_chains cfg -> dec_at (base_dir path) ch = Ok dec -> st_decoders st !! ch_id ch = Some dec.
Proof.
  intros Hmo Ho Hrecs Hfresh Hl Hb Hk Hfit Hpl Hst Hall Hm Hr Hreach Hcalls.
  destruct (configured_start _ _ _ _ _ _ _ _ _ _ _ _ _ _ _ _ _ _ _ _ _ _ Hl Hb Hm Hr) as (c0 & Hmg & Ed & Hw).
  rewrite Ed, Hw in *. pose proof (configured_deployment _ _ _ _ _ _ _ _ cfg decs recs Hrecs Hb Hk Hst) as Hdep.
  apply (sys_reach_inv mo so Hmo _ (start_of cfg) recs (event_tables decs)) in Hreach as [Hs He];
    [|by eapply run_inv, migrated_fresh].
  split_and!; [done|done|split|].
  - intros c dec b r (_ & ch & Hch & <- & Hd)%(configured_decoder path) Hin; [|done].
    destruct (Hall ch dec b r Hch Hd Hin) as (o & Eo & _). eauto.
  - intros c dec (_ & ch & Hch & <- & Hd)%(configured_decoder path); [|done]. by apply Hcalls.
  - intros c dec b r row bt Hin Hrec E.
    assert (Forall (fun f => storable f.2 = true) (de_fields (er_event row))) as Hsto.
    { destruct (configured_decoder path _ _ _ _ Hb Hin) as (_ & ch & Hch & <- & Hat).
      destruct (Hall ch dec b r Hch Hat Hrec) as (o & Eo & Ho'). apply Ho'. congruence. }
    destruct (migrated_writable _ _ _ _ _ _ _ _ _ _ _ bt Ho Hmg Hfresh Hk Hfit Hpl Hin E Hsto) as (? & ? & Hrow).
    split_and!; [done|done|]. eapply row_fits_grown; [exact (ev_tab _ _ He)|exact Hrow].
  - intros ch dec Hch Hd. by eapply built_lookup.
Qed.

End progress.

(** From the configuration file on, the indexer catches up.  Take any state that a run after
    [migrate] can reach (whatever the interleaving, the crashes and the failures before it), and let
    storage stop failing; the tables of the configuration are ones Postgres accepts, calls decode where they are decoded, and
    every matched record decodes.  Once a reclaim tick has come more than 60 seconds after every lease,
    one worker of the pool empties the queue in as many turns as it has rows, and then the event of
    every matched record of every configured chain, from its start block to its cursor, is in its table
    as the chain's decoder decodes it. *)
Theorem configured_run_catches_up (extract : string -> result string Config) (connect_pool : string -> Z -> result DbError ())
    (parse_abi : string -> result string JsonAbi) (es : AbiEvent -> bytes) (fs : AbiFunction -> bytes)
    (dlp : AbiEvent -> list bytes -> bytes -> result string (list DynSolValue * list DynSolValue))
    (adi : AbiFunction -> bytes -> result string (list DynSolValue)) (json_text : Json -> string)
    (read_file : string -> result string string)
    (mo : list (string * list EventRow) -> list (string * list EventRow)) (so : list bytes -> list bytes)
    (ho1 ho2 : ChainCfg -> HashOrder) (path : string) (allow : bool) (workers : Z) (iv : option Z) (app app1 app2 : App) (lines : list string) (st : Started)
    (cfg : Config) (decs : list Decoder) (recs : Z -> Z -> list RawRecord) (s : Sys) (now : Z) :
  (forall l, mo l ≡ₚ l) -> (forall l, so l ≡ₚ l) -> (forall ch, Shuffles (ho1 ch)) -> LogDecoder dlp -> ChainRecords recs -> fresh_app app ->
  load extract path = Ok cfg ->
  built parse_abi es fs dlp adi json_text read_file (base_dir path) (cf_chains cfg) decs ->
  kinds_apart decs -> schemas_fit decs -> plain_events parse_abi read_file (base_dir path) (cf_chains cfg) ->
  (forall ch n, ch ∈ cf_chains cfg -> start_block ch = Some n -> n < 2 ^ 62) ->
  (forall ch dec b r, ch ∈ cf_chains cfg -> decoder_at parse_abi es fs dlp adi json_text read_file (base_dir path) ch = Ok dec ->
     r ∈ recs (ch_id ch) b -> exists o, dec_decode dec r = Ok o /\ forall row, o = Some row ->
       Forall (fun f => storable f.2 = true) (de_fields (er_event row))) ->
  migrate extract connect_pool parse_abi es fs dlp adi json_text read_file ho1 path false allow app = (Ok lines, app1) ->
  run extract connect_pool parse_abi es fs dlp adi json_text read_file ho2 path workers iv app1 = (Ok st, app2) ->
  sys_reach mo so (st_decoders st) (start_of cfg) (fetched recs (event_tables decs))
    (launched (Z.to_nat workers) (ap_world app2)) s ->
  (forall ch dec, ch ∈ cf_chains cfg -> decoder_at parse_abi es fs dlp adi json_text read_file (base_dir path) ch = Ok dec -> dec_has_calls dec = true ->
     calls_decode dec (ch_id ch) (w_db (sy_world s))) ->
  calm (sy_world s) -> w_now (sy_world s) <= now ->
  (forall q t, q ∈ queue_of (sy_world s) -> wq_locked_at q = Some t -> t + 60 < now) ->
  let n := length (queue_of (sy_world s)) in
  exists w', spawn_decode_worker mo so (st_decoders st) (st_poll_ms st) (st_poll_idle_ms st) (replicate n false)
      (spawn_reclaim_ticker [now] (sy_world s)) = (replicate n (st_poll_ms st), w')
    /\ queue_of w' = []
    /\ forall ch dec cu hash b r row, ch ∈ cf_chains cfg ->
         decoder_at parse_abi es fs dlp adi json_text read_file (base_dir path) ch = Ok dec -> is_u64 (ch_id ch) ->
         db_cursors (w_db (sy_world s)) !! as_i64 (ch_id ch) = Some (cu, hash) ->
         Z.max (start_of cfg (ch_id ch)) 1 <= b <= cu -> r ∈ recs (ch_id ch) b -> dec_decode dec r = Ok (Some row) ->
         exists tab bt, db_tables (w_db w') !! row_table row = Some tab
           /\ t_rows tab !! event_key (ch_id ch) b (rr_index r) = Some (typed_row true (timed bt row)).
Proof.
  intros Hmo Hso Ho Hld Hrecs Hfresh Hl Hb Hk Hfit Hpl Hst Hall Hm Hr Hreach Hcalls Hc Hnow Hold n.
  destruct (configured_state _ _ _ _ _ _ _ _ _ mo so ho1 ho2 path allow workers iv app app1 app2 lines st cfg decs recs s
    Hmo Ho Hrecs Hfresh Hl Hb Hk Hfit Hpl Hst Hall Hm Hr Hreach Hcalls) as (Hdep & Hs & Hwr & Hdecs).
  destruct (caught_up mo so Hmo Hso _ _ _ _ s (st_poll_ms st) (st_poll_idle_ms st) now Hs Hc Hwr Hnow Hold)
    as (s' & _ & Q & E & Hd).
  exists (sy_world s'). split_and!; [exact E|done|]. intros ch dec cu hash b r row Hch Hdec Hu Hcu Hbr Hin Hrow.
  destruct (di_cursor _ _ _ _ _ (si_db _ _ _ _ _ Hs) (ch_id ch) cu hash Hu Hcu) as [_ Hsw].
  eapply Hd; [exact Hin|apply (Hsw b); [lia|done]|by apply Hdecs|done].
Qed.

(** The worker that took the range dies with the lease. *)
Definition demo_leased : Sys :=
  let '(r, w) := worker_step (fun l => l) (fun l => l) (st_decoders demo_started) WIdle demo_committed in
  set_worker 0 WIdle w (set_worker 0 (after_step r) w demo_ingested).

Lemma demo_leased_run :
  sys_reach (fun l => l) (fun l => l) (st_decoders demo_started) (start_of sample_cfg)
    (fetched demo_recs (event_tables [demo_decoder])) (launched (Z.to_nat 1) (ap_world demo_booted)) demo_leased.
Proof.
  eapply sys_reach_trans; [apply demo_commit_run|]. unfold demo_leased.
  destruct (worker_step _ _ _ WIdle demo_committed) as [r w] eqn:E.
  eapply sys_reach_trans; [eapply sys_reach_one, (SWorker _ _ _ _ _ _ 0 WIdle r w); [by vm_compute|exact E]|].
  eapply sys_reach_one, (SCrash _ _ _ _ _ (set_worker 0 (after_step r) w _) 0).
Qed.

Lemma demo_decodes dec :
  decoder_at sample_parse sample_selector sample_fn_selector sample_dlp (fun _ _ => Err EmptyString) (fun _ => EmptyString)
    demo_read "etc" sample_chain = Ok dec -> exists o, dec_decode dec demo_rec = Ok o
    /\ forall row, o = Some row -> Forall (fun f => storable f.2 = true) (de_fields (er_event row)).
Proof.
  assert (decoder_at sample_parse sample_selector sample_fn_selector sample_dlp (fun _ _ => Err EmptyString) (fun _ => EmptyString)
    demo_read "etc" sample_chain = Ok demo_decoder) as -> by reflexivity.
  intros [= <-]. exists (Some demo_row). split; [by vm_compute|].
  intros row [= <-]. apply (bool_decide_unpack _). by vm_compute.
Qed.


(** Two workers in turns, a second apart. *)
Definition round_robin : Schedule := fun t => (1, Nat.modulo t 2).

Lemma round_robin_fair : fair (spawn_worker_pool 2) round_robin.
Proof.
  intros k t [ws Hk]. apply elem_of_list_to_map_2, list_elem_of_fmap in Hk as (j & [= <- _] & Hj).
  apply elem_of_seq in Hj. exists (2 * t + k)%nat. split; [lia|]. cbn [round_robin snd].
  rewrite Nat.add_comm, Nat.mul_comm, Nat.Div0.mod_add. apply Nat.mod_small. lia.
Qed.

