(* ===== verification/UnitTests.v ===== *)
(** The repository's own unit tests, replayed on the model: each [#[test]] function with its assertions as a proposition
    of the same name, proved by evaluation.  They say nothing that the theorems do not say in general; they tie the
    definitions to what the authors expect of the code.  [is_ok]... of a [Result] and [unwrap] are equations.  The tests
    of the ABI and of the GraphQL schema are in [UnitTestsAbi], those of the services in [UnitTestsServices]. *)
From S2P Require Import Prelude Model Btree Text Pricing Schema Retry Encode Store Query Cache Ranges Plan Enrichment Config.

Ltac replay := hnf; repeat (lazymatch goal with |- _ /\ _ => split; [by vm_compute|] end); by vm_compute.

Definition is_err {E A} (r : result E A) : Prop := match r with Err _ => True | Ok _ => False end.

(** [Result::ok]. *)
Definition res_to_option {E A} (r : result E A) : option A := match r with Ok a => Some a | Err _ => None end.

(** [vec![b; n]]. *)
Definition rep (b : Z) (n : nat) : bytes := replicate n (byte_of b).

(** * [crates/shared/src/util.rs] *)

Module UtilTests.
Definition hex_roundtrips_and_strips_prefix : Prop :=
  let bytes := byte_of <$> [0xde; 0xad; 0xbe; 0xef] in
  let enc := hex_encode bytes in
  enc = "deadbeef" /\ hex_decode enc = Done (Some bytes) /\ hex_decode "0xdeadbeef" = Done (Some bytes).

Lemma hex_roundtrips_and_strips_prefix_ok : hex_roundtrips_and_strips_prefix.
Proof. replay. Qed.

Definition hex_decode_rejects_malformed : Prop :=
  hex_decode "abc" = Done None /\ hex_decode "zz" = Done None /\ hex_decode EmptyString = Done (Some []).

Lemma hex_decode_rejects_malformed_ok : hex_decode_rejects_malformed.
Proof. replay. Qed.

Definition snake_case_normalizes_abi_names : Prop :=
  to_snake_case "actionTreeRoot" = "action_tree_root"
  /\ to_snake_case "value" = "value"
  /\ to_snake_case "from" = "from"
  /\ to_snake_case "actionID" = "action_id"
  /\ to_snake_case "URLValue" = "url_value"
  /\ to_snake_case "already_snake" = "already_snake"
  /\ to_snake_case "amount0" = "amount0"
  /\ is_valid_ident (to_snake_case "actionTreeRoot") = true.

Lemma snake_case_normalizes_abi_names_ok : snake_case_normalizes_abi_names.
Proof. replay. Qed.

Definition only_receipts_lacks_idx : Prop :=
  table_has_idx RECEIPTS_TABLE = false /\ table_has_idx "transactions" = true /\ table_has_idx "evt_token_transfer" = true.

Lemma only_receipts_lacks_idx_ok : only_receipts_lacks_idx.
Proof. replay. Qed.

Definition valid_idents_accept_safe_names : Prop :=
  is_valid_ident "evt_token_transfer" = true /\ is_valid_ident "a1" = true /\ is_valid_ident "amount0" = true.

Lemma valid_idents_accept_safe_names_ok : valid_idents_accept_safe_names.
Proof. replay. Qed.

Definition invalid_idents_rejected : Prop :=
  is_valid_ident EmptyString = false
  /\ is_valid_ident "1abc" = false
  /\ is_valid_ident "evt-token" = false
  /\ is_valid_ident "Transfer" = false
  /\ is_valid_ident "drop table" = false
  /\ is_valid_ident (of_list (replicate 64 "x"%char)) = false.

Lemma invalid_idents_rejected_ok : invalid_idents_rejected.
Proof. replay. Qed.
End UtilTests.

(** * [crates/config/src/validate.rs] *)

Module ValidateTests.
(** The sample and its variants as the typed configuration their text stands for: [from_str] is [figment]'s reading
    of the text followed by [validate]. *)
Definition SAMPLE (address : string) (start_block : option Z) : Config :=
  mkConfig IndexerCfg_default (mkDatabaseCfg "postgres://localhost/idx" default_max_conns) QueueCfg_default QueryCfg_default
    [mkChainCfg 1 EmptyString default_kind default_confirmations (mkSourceCfg "alchemy" "https://x" None None)
       [mkContractCfg address "abis/erc20.json" ["Transfer"] [] None start_block]].

Definition USDC : string := "0xA0b86991c6218b36c1d19D4a2e9Eb0cE3606eB48".

Definition parses_and_validates_sample : Prop :=
  let cfg := SAMPLE USDC (Some 19000000) in
  validate cfg = Ok tt
  /\ length (cf_chains cfg) = 1%nat
  /\ exists chain contract, cf_chains cfg !! 0%nat = Some chain /\ ch_contracts chain !! 0%nat = Some contract
     /\ sc_kind (ch_source chain) = "alchemy"
     /\ ch_confirmations chain = 12
     /\ cc_events contract = ["Transfer"]
     /\ start_block chain = Some 19000000.

Lemma parses_and_validates_sample_ok : parses_and_validates_sample.
Proof. hnf. split; [by vm_compute|]. split; [done|]. eexists _, _. do 2 (split; [reflexivity|]). split_and!; by vm_compute. Qed.

Definition rejects_missing_start_block : Prop := is_err (validate (SAMPLE USDC None)).

Lemma rejects_missing_start_block_ok : rejects_missing_start_block.
Proof. replay. Qed.

Definition rejects_bad_address : Prop := is_err (validate (SAMPLE "0xdead" (Some 19000000))).

Lemma rejects_bad_address_ok : rejects_bad_address.
Proof. replay. Qed.
End ValidateTests.

(** * [crates/source/src]: [limiter.rs], [retry.rs], [enrichment.rs] *)

Module SourceTests.
Definition plan (cu : option Z) : PlanProfile :=
  mkPlanProfile 1000 cu (max_batch PlanProfile_default) (max_getlogs_blocks PlanProfile_default)
    (max_getlogs_results PlanProfile_default) (monthly_quota PlanProfile_default).

(** Nothing is asked of a bucket, so there is nothing to wait for. *)
Definition acquire_cu_is_noop_without_cap : Prop := acquire_cu (from_plan (plan None)) 1000000 = [].

Lemma acquire_cu_is_noop_without_cap_ok : acquire_cu_is_noop_without_cap.
Proof. replay. Qed.

(** No request is above the bucket's capacity, which would be [InsufficientCapacity], and together they are the call. *)
Definition acquire_cu_splits_over_burst_request : Prop :=
  acquire_cu (from_plan (plan (Some 10000))) 10050 = [10000; 50].

Lemma acquire_cu_splits_over_burst_request_ok : acquire_cu_splits_over_burst_request.
Proof. replay. Qed.

Definition range_cap_errors_classified : Prop :=
  is_range_cap_error "query returned more than 10000 results" = true
  /\ is_range_cap_error "block range is too large" = true
  /\ is_range_cap_error "Log response size exceeded the limit" = true
  /\ is_range_cap_error "connection reset" = false
  /\ is_range_cap_error "429 too many requests" = false.

Lemma range_cap_errors_classified_ok : range_cap_errors_classified.
Proof. replay. Qed.

Definition split_range_halves_contiguously : Prop :=
  split_range 0 1 = ((0, 0), (1, 1))
  /\ let '(l, r) := split_range 0 2000 in l = (0, 1000) /\ r = (1001, 2000) /\ l.2 + 1 = r.1.

Lemma split_range_halves_contiguously_ok : split_range_halves_contiguously.
Proof. hnf. split; [by vm_compute|]. by vm_compute. Qed.

Definition transaction_idx_is_tx_index_no_transaction_index_column : Prop :=
  let f := mkTxFields (rep 0 20) 7 "0" [] "21000" "0" (Some (rep 1 20)) (Some "1") in
  let r := transaction_row 1 100 (rep 0 32) (rep 9 32) f in
  er_index r = 7
  /\ forallb (fun nv => negb (String.eqb nv.1 "transaction_index")) (de_fields (er_event r)) = true
  /\ exists tx, snd <$> list_find (fun s => es_table s = "transactions") aux_schemas = Some tx
     /\ forallb (fun c => negb (String.eqb (c_name c) "transaction_index")) (es_columns tx) = true.

Lemma transaction_idx_is_tx_index_no_transaction_index_column_ok : transaction_idx_is_tx_index_no_transaction_index_column.
Proof. hnf. do 2 (split; [by vm_compute|]). eexists. split; [vm_compute; reflexivity|]. by vm_compute. Qed.
End SourceTests.

(** * [crates/abi-schema/src/lib.rs] *)

Module AbiSchemaTests.
Definition maps_solidity_types_to_logical : Prop :=
  column_type_for "address" = CAddress
  /\ column_type_for "bool" = CBool
  /\ column_type_for "string" = CUtf8
  /\ column_type_for "bytes" = CBytes
  /\ column_type_for "bytes32" = CBytes
  /\ column_type_for "uint256" = CUInt 256
  /\ column_type_for "int8" = CInt 8
  /\ column_type_for "uint64" = CUInt 64
  /\ column_type_for "uint" = CUInt 256.

Lemma maps_solidity_types_to_logical_ok : maps_solidity_types_to_logical.
Proof. replay. Qed.

Definition arrays_and_tuples_map_to_json : Prop :=
  column_type_for "uint256[]" = CJson
  /\ column_type_for "address[3]" = CJson
  /\ column_type_for "tuple" = CJson
  /\ column_type_for "(uint256,address)" = CJson.

Lemma arrays_and_tuples_map_to_json_ok : arrays_and_tuples_map_to_json.
Proof. replay. Qed.

(** The events are the ones the ABI text stands for, under any selector. *)
Definition schema_for_builds_columns_topic0_and_indexed : Prop :=
  forall selector,
  let s := schema_for (mkAbiEvent "Transfer" [mkParam "from" "address" true; mkParam "to" "address" true;
                                              mkParam "value" "uint256" false]) selector "evt_x" in
  es_table s = "evt_x"
  /\ es_event s = "Transfer"
  /\ is_Some (es_topic0 s)
  /\ es_indexed_positions s = [0; 1]%nat
  /\ es_pk_columns s = event_pk
  /\ (fun c => (c_name c, c_ty c)) <$> es_columns s = [("from", CAddress); ("to", CAddress); ("value", CUInt 256)].

Lemma schema_for_builds_columns_topic0_and_indexed_ok : schema_for_builds_columns_topic0_and_indexed.
Proof. intros selector s. do 2 (split; [done|]). split; [by eexists|]. split_and!; by vm_compute. Qed.

Definition schema_for_hashes_indexed_dynamic_and_names_unnamed : Prop :=
  forall selector,
  let s := schema_for (mkAbiEvent "E" [mkParam "label" "string" true; mkParam EmptyString "uint256" false]) selector "t" in
  (fun c => (c_name c, c_indexed_hash c, c_ty c)) <$> es_columns s !! 0%nat = Some ("label_hash", true, CBytes)
  /\ c_name <$> es_columns s !! 1%nat = Some "arg1".

Lemma schema_for_hashes_indexed_dynamic_and_names_unnamed_ok : schema_for_hashes_indexed_dynamic_and_names_unnamed.
Proof. intros selector s. split; by vm_compute. Qed.
End AbiSchemaTests.

(** * [crates/sql-pg/src/lib.rs] *)

Module SqlPgTests.
Definition pg_type_maps_every_variant : Prop :=
  pg_type CAddress = "bytea"
  /\ pg_type CBytes = "bytea"
  /\ pg_type (CUInt 256) = "numeric(78,0)"
  /\ pg_type (CInt 8) = "numeric(78,0)"
  /\ pg_type CBool = "boolean"
  /\ pg_type CUtf8 = "text"
  /\ pg_type CJson = "jsonb"
  /\ pg_type CInt64 = "bigint"
  /\ pg_type CTimestamp = "timestamptz".

Lemma pg_type_maps_every_variant_ok : pg_type_maps_every_variant.
Proof. replay. Qed.

Definition cast_suffix_only_for_text_bound_types : Prop :=
  cast_suffix (CUInt 256) = "::numeric"
  /\ cast_suffix (CInt 64) = "::numeric"
  /\ cast_suffix CTimestamp = "::timestamptz"
  /\ cast_suffix CInt64 = EmptyString
  /\ cast_suffix CBool = EmptyString
  /\ cast_suffix CAddress = EmptyString
  /\ cast_suffix CUtf8 = EmptyString.

Lemma cast_suffix_only_for_text_bound_types_ok : cast_suffix_only_for_text_bound_types.
Proof. replay. Qed.

Definition json_projection_encodes_losslessly : Prop :=
  json_projection "t" "from" CAddress = "'0x' || encode(t." +:+ dq +:+ "from" +:+ dq +:+ ", 'hex')"
  /\ json_projection "t" "value" (CUInt 256) = "t." +:+ dq +:+ "value" +:+ dq +:+ "::text"
  /\ json_projection "t" "ok" CBool = "t." +:+ dq +:+ "ok" +:+ dq.

Lemma json_projection_encodes_losslessly_ok : json_projection_encodes_losslessly.
Proof. replay. Qed.
End SqlPgTests.

(** * [crates/db/src/encode.rs] *)

Module EncodeTests.
Definition roundtrips_mixed_selector_sizes : Prop :=
  let sels := [rep 1 32; rep 2 8] in unframe_selectors (frame_selectors sels) = sels.

Lemma roundtrips_mixed_selector_sizes_ok : roundtrips_mixed_selector_sizes.
Proof. replay. Qed.

Definition empty_list_roundtrips : Prop := frame_selectors [] = [] /\ unframe_selectors [] = [].

Lemma empty_list_roundtrips_ok : empty_list_roundtrips.
Proof. replay. Qed.
End EncodeTests.

(** * [crates/db-query/src]: [pagination.rs], [builder.rs], [cache.rs] *)

Module QueryTests.
Definition round_trips : Prop := format_cursor 123 45 = "123:45" /\ parse_cursor "123:45" = Ok (123, 45).

Lemma round_trips_ok : round_trips.
Proof. replay. Qed.

Definition rejects_malformed : Prop :=
  is_err (parse_cursor "123") /\ is_err (parse_cursor "abc:45") /\ is_err (parse_cursor "123:xy").

Lemma rejects_malformed_ok : rejects_malformed.
Proof. replay. Qed.

Definition op_sql_maps_every_operator : Prop :=
  op_sql OpEq = "=" /\ op_sql OpNe = "<>" /\ op_sql OpGt = ">" /\ op_sql OpGte = ">=" /\ op_sql OpLt = "<" /\ op_sql OpLte = "<=".

Lemma op_sql_maps_every_operator_ok : op_sql_maps_every_operator.
Proof. replay. Qed.

Definition safe_table_accepts_valid_rejects_injection : Prop :=
  safe_table "evt_token_transfer" = Ok "evt_token_transfer"
  /\ is_err (safe_table "evt; DROP TABLE x")
  /\ is_err (safe_table "Evt")
  /\ is_err (safe_table EmptyString).

Lemma safe_table_accepts_valid_rejects_injection_ok : safe_table_accepts_valid_rejects_injection.
Proof. replay. Qed.

Definition bind_value_types_and_casts : Prop :=
  bind_value CInt64 "42" = Done (Ok (EmptyString, BInt 42))
  /\ bind_value CBool "true" = Done (Ok (EmptyString, BBool true))
  /\ (exists t, bind_value (CUInt 256) "12345678901234567890" = Done (Ok ("::numeric", BText t)))
  /\ (exists t, bind_value CTimestamp "2024-01-01T00:00:00Z" = Done (Ok ("::timestamptz", BText t)))
  /\ exists b, bind_value CBytes "0xdeadbeef" = Done (Ok (EmptyString, BBytes b)).

Lemma bind_value_types_and_casts_ok : bind_value_types_and_casts.
Proof. hnf. do 2 (split; [by vm_compute|]). split_and!; eexists; vm_compute; reflexivity. Qed.

(** An [Err], not a panic. *)
Definition refused {A} (o : outcome (result QueryError A)) : Prop := match o with Done (Err _) => True | _ => False end.

Definition bind_value_rejects_bad_input : Prop :=
  refused (bind_value CInt64 "notint")
  /\ refused (bind_value CBool "maybe")
  /\ refused (bind_value CBytes "0xZZ")
  /\ refused (bind_value CJson "{}").

Lemma bind_value_rejects_bad_input_ok : bind_value_rejects_bad_input.
Proof. replay. Qed.

Definition row_json_projects_meta_and_columns : Prop :=
  let sql := row_json "t" [("value", CUInt 256)] true in
  starts_with sql "jsonb_build_object(" = true
  /\ contains sql "'tx_id', '0x' || encode(t.tx_id, 'hex')" = true
  /\ contains sql "'block_hash', '0x' || encode(t.block_hash, 'hex')" = true
  /\ contains sql "'idx', t.idx" = true
  /\ contains sql ("'value', t." +:+ dq +:+ "value" +:+ dq +:+ "::text") = true
  /\ contains sql "'chain_id', t.chain_id" = true.

Lemma row_json_projects_meta_and_columns_ok : row_json_projects_meta_and_columns.
Proof. replay. Qed.

Definition row_json_omits_idx_when_absent : Prop :=
  let sql := row_json "rc" [("status", CBool)] false in
  contains sql "idx" = false
  /\ contains sql "'tx_id', '0x' || encode(rc.tx_id, 'hex')" = true
  /\ contains sql ("'status', rc." +:+ dq +:+ "status" +:+ dq) = true.

Lemma row_json_omits_idx_when_absent_ok : row_json_omits_idx_when_absent.
Proof. replay. Qed.

Definition meta_columns_are_filterable : Prop :=
  meta_col_type "chain_id" = Some CInt64
  /\ meta_col_type "height" = Some CInt64
  /\ meta_col_type "tx_id" = Some CBytes
  /\ meta_col_type "block_time" = Some CTimestamp
  /\ meta_col_type "nonexistent" = None.

Lemma meta_columns_are_filterable_ok : meta_columns_are_filterable.
Proof. replay. Qed.
End QueryTests.

Module CacheTests.
Definition CountingInner : QueryRepo :=
  mkQueryRepo (fun _ _ => Ok (mkPage ["{}"] None false)) (fun _ _ => Ok 7).

Definition spec (table : string) (first : Z) : QuerySpec := mkQuerySpec table [] [] first None false false false.

(** One minute. *)
Definition ttl : Z := 60000.

Section tests.
Context (spec_json : QuerySpec -> result string string) (count_json : string * list Filter -> result string string).
Context {Hs : Serializes spec_json} {Hc : Serializes count_json}.

(** The inner repository is asked when the cache has no live entry; [inner.queries] after the calls at their times,
    and [inner.counts]. *)
Fixpoint inner_queries (calls : list (Z * QuerySpec)) (c : Caches) : Z :=
  match calls with
  | [] => 0
  | (now, s) :: calls =>
      (match cache_get ttl now (query_key spec_json s) (queries c) with Some _ => 0 | None => 1 end)
      + inner_queries calls (cached_query CountingInner ttl spec_json now s c).2
  end.

Fixpoint inner_counts (calls : list (Z * QuerySpec)) (c : Caches) : Z :=
  match calls with
  | [] => 0
  | (now, s) :: calls =>
      (match cache_get ttl now (count_key count_json s) (counts c) with Some _ => 0 | None => 1 end)
      + inner_counts calls (cached_count CountingInner ttl count_json now s c).2
  end.

Definition identical_query_hits_cache (t1 t2 : Z) : Prop :=
  let s := spec "evt_x" 10 in inner_queries [(t1, s); (t2, s)] Caches_new = 1.

Definition distinct_specs_miss_separately (t1 t2 t3 : Z) : Prop :=
  inner_queries [(t1, spec "evt_x" 10); (t2, spec "evt_x" 20); (t3, spec "evt_y" 10)] Caches_new = 3.

Definition count_caches_across_pages (t1 t2 : Z) : Prop :=
  let '(r1, c1) := cached_count CountingInner ttl count_json t1 (spec "evt_x" 10) Caches_new in
  r1 = Ok 7
  /\ (cached_count CountingInner ttl count_json t2 (spec "evt_x" 50) c1).1 = Ok 7
  /\ inner_counts [(t1, spec "evt_x" 10); (t2, spec "evt_x" 50)] Caches_new = 1.

Lemma no_entry {V} now k : cache_get ttl now k (∅ : Cache V) = None.
Proof. unfold cache_get. by rewrite lookup_empty. Qed.

Lemma live_entry {V} t1 t2 k (v : V) : t1 <= t2 < t1 + ttl -> cache_get ttl t2 k (<[k := (v, t1)]> ∅) = Some v.
Proof. intros H. unfold cache_get. rewrite lookup_insert_eq. cbn. destruct (Z.ltb_spec (t2 - t1) ttl); [done|lia]. Qed.

Lemma other_entry {V} now t k k' (v : V) c : k' <> k -> cache_get ttl now k (<[k' := (v, t)]> c) = cache_get ttl now k c.
Proof. intros H. unfold cache_get. by rewrite lookup_insert_ne. Qed.

#[local] Arguments cache_get : simpl never.

Lemma identical_query_hits_cache_ok t1 t2 : t1 <= t2 < t1 + ttl -> identical_query_hits_cache t1 t2.
Proof.
  intros H. unfold identical_query_hits_cache, inner_queries, cached_query, memo, Caches_new. cbn [queries].
  rewrite no_entry. cbn [queries rq_query CountingInner snd]. by rewrite live_entry.
Qed.

Lemma distinct_specs_miss_separately_ok t1 t2 t3 : distinct_specs_miss_separately t1 t2 t3.
Proof.
  assert (forall s1 s2, s1 <> s2 -> query_key spec_json s1 <> query_key spec_json s2) as Hne by (intros s1 s2 H E; by apply (inj _) in E).
  unfold distinct_specs_miss_separately, inner_queries, cached_query, memo, Caches_new. cbn [queries]. rewrite no_entry.
  cbn [queries rq_query CountingInner snd]. rewrite other_entry, no_entry by (by apply Hne).
  cbn [queries rq_query CountingInner snd]. by rewrite !other_entry, no_entry by (by apply Hne).
Qed.

Lemma count_caches_across_pages_ok t1 t2 : t1 <= t2 < t1 + ttl -> count_caches_across_pages t1 t2.
Proof.
  intros H. assert (count_key count_json (spec "evt_x" 50) = count_key count_json (spec "evt_x" 10)) as E by done.
  unfold count_caches_across_pages, inner_counts, cached_count, memo, Caches_new. cbn [counts]. rewrite no_entry.
  cbn [counts rq_count CountingInner snd]. rewrite E, live_entry by done. done.
Qed.
End tests.
End CacheTests.

(** * [crates/pricing/src] *)

Module PricingTests.
Definition accumulates_and_guards_quota : Prop :=
  let l0 := ledger_new (Some 100) (12, 10) in
  let l1 := record l0 40 48 in
  let l2 := record l1 60 72 in
  let l3 := record l2 50 60 in
  sl_units l1 = 40
  /\ remaining_quota l1 = Some 60
  /\ quota_exhausted l1 = false
  /\ sl_micro_usd l1 = 48
  /\ billable_micro_usd l1 = 0
  /\ remaining_quota l2 = Some 0
  /\ quota_exhausted l2 = true
  /\ billable_micro_usd l2 = 0
  /\ billable_micro_usd l3 = 50 * 12 / 10.

Lemma accumulates_and_guards_quota_ok : accumulates_and_guards_quota.
Proof. replay. Qed.

Definition no_quota_bills_every_unit : Prop := billable_micro_usd (record (ledger_new None (12, 10)) 100 120) = 120.

Lemma no_quota_bills_every_unit_ok : no_quota_bills_every_unit.
Proof. replay. Qed.

Definition cu (call : RpcCall) : Z := (cost AlchemyCost call).1.

Definition cu_per_method_matches_published_rates : Prop :=
  cu (GetLogs 2000 5) = 75
  /\ cu (BlockByNumber 1 true) = 16
  /\ cu (TxByHash 1) = 15
  /\ cu (Receipt 1) = 15
  /\ cu BlockNumber = 10
  /\ cu LogSubscription = 10
  /\ cu Other = 0.

Lemma cu_per_method_matches_published_rates_ok : cu_per_method_matches_published_rates.
Proof. replay. Qed.

Definition count_scales_units_with_floor_of_one : Prop := cu (Receipt 20) = 15 * 20 /\ cu (BlockByNumber 0 true) = 16.

Lemma count_scales_units_with_floor_of_one_ok : count_scales_units_with_floor_of_one.
Proof. replay. Qed.

Definition micro_usd_is_1_2x_cu : Prop := (cost AlchemyCost (GetLogs 1 1)).2 = 90.

Lemma micro_usd_is_1_2x_cu_ok : micro_usd_is_1_2x_cu.
Proof. replay. Qed.

Definition every_call_is_free : Prop :=
  let c := FreeNodeCost "anvil" in
  Forall (fun call => cost c call = (0, 0)) [GetLogs 9 9; BlockByNumber 99 true; Receipt 99; LogSubscription; Other]
  /\ cm_name c = "anvil:free".

Lemma every_call_is_free_ok : every_call_is_free.
Proof. hnf. split; [repeat constructor|by vm_compute]. Qed.

Definition flat_credits_per_method : Prop :=
  (cost QuickNodeCost (GetLogs 5 1)).1 = 20 /\ (cost QuickNodeCost (Receipt 3)).1 = 60 /\ (cost QuickNodeCost Other).1 = 0.

Lemma flat_credits_per_method_ok : flat_credits_per_method.
Proof. replay. Qed.

Definition micro_usd_is_0_6x_credits : Prop := (cost QuickNodeCost (GetLogs 1 1)).2 = 12.

Lemma micro_usd_is_0_6x_credits_ok : micro_usd_is_0_6x_credits.
Proof. replay. Qed.
End PricingTests.

(** * [bins/indexer-cli/src/plan.rs] *)

Module PlanTests.
Definition block (h : Z) : option (Z * bytes) := Some (h, rep h 32).

Definition prefix_advances_each_contiguous_range : Prop :=
  let '(p1, a1) := tracker_record (tracker_new 1) 1 10 (block 10) in
  let '(p2, a2) := tracker_record p1 11 20 (block 20) in
  a1 = Some (10, rep 10 32) /\ a2 = Some (20, rep 20 32) /\ advanced_to p2 = Some 20.

Lemma prefix_advances_each_contiguous_range_ok : prefix_advances_each_contiguous_range.
Proof. replay. Qed.

Definition prefix_holds_out_of_order_range_until_gap_closes : Prop :=
  let '(p1, a1) := tracker_record (tracker_new 1) 11 20 (block 20) in
  let '(p2, a2) := tracker_record p1 1 10 (block 10) in
  a1 = None /\ advanced_to p1 = None /\ a2 = Some (20, rep 20 32) /\ advanced_to p2 = Some 20.

Lemma prefix_holds_out_of_order_range_until_gap_closes_ok : prefix_holds_out_of_order_range_until_gap_closes.
Proof. replay. Qed.

Definition prefix_advances_over_empty_range_with_empty_hash : Prop :=
  (tracker_record (tracker_new 1) 1 10 None).2 = Some (10, []).

Lemma prefix_advances_over_empty_range_with_empty_hash_ok : prefix_advances_over_empty_range_with_empty_hash.
Proof. replay. Qed.

Definition prefix_hash_is_highest_matched_block : Prop :=
  let '(p1, _) := tracker_record (tracker_new 1) 1 10 (block 7) in
  let '(p2, a2) := tracker_record p1 11 20 (block 15) in
  let '(_, a3) := tracker_record p2 21 30 None in
  a2 = Some (20, rep 15 32) /\ a3 = Some (30, rep 15 32).

Lemma prefix_hash_is_highest_matched_block_ok : prefix_hash_is_highest_matched_block.
Proof. replay. Qed.

Definition plan_ranges_chunks_inclusive : Prop :=
  plan_ranges 1 1 10 = Some [(1, 1)]
  /\ plan_ranges 1 10 10 = Some [(1, 10)]
  /\ plan_ranges 1 25 10 = Some [(1, 10); (11, 20); (21, 25)]
  /\ plan_ranges 10 5 10 = Some [].

Lemma plan_ranges_chunks_inclusive_ok : plan_ranges_chunks_inclusive.
Proof. replay. Qed.

Definition fetch_target_bounds_pipeline_then_jumps : Prop :=
  fetch_target 1000 1 10 4 true = 40 /\ fetch_target 20 1 10 4 true = 20 /\ fetch_target 1000 1 10 4 false = 1000.

Lemma fetch_target_bounds_pipeline_then_jumps_ok : fetch_target_bounds_pipeline_then_jumps.
Proof. replay. Qed.
End PlanTests.

(** * [crates/migrator/src/ddl.rs] *)

Module DdlTests.
Definition transfer_schema : EventSchema :=
  mkEventSchema "evt_erc20_transfer" "Transfer" (Some "0xddf2")
    [mkColumnDef "from" CAddress false; mkColumnDef "to" CAddress false; mkColumnDef "value" (CUInt 256) false]
    [0; 1]%nat event_pk.

(** The assignments [s.table = ...; s.pk_columns = ...] of the tests. *)
Definition as_aux (table : string) (s : EventSchema) : EventSchema :=
  mkEventSchema table (es_event s) (es_topic0 s) (es_columns s) (es_indexed_positions s) ["chain_id"; "tx_id"].

Definition tx_pk : string := "PRIMARY KEY (" +:+ quoted "chain_id" +:+ ", " +:+ quoted "tx_id" +:+ ")".

Definition nth_contains (stmts : list string) (i : nat) (p : string) : bool :=
  match stmts !! i with Some sql => contains sql p | None => false end.
Definition last_contains (stmts : list string) (p : string) : bool :=
  match last stmts with Some sql => contains sql p | None => false end.

Definition create_table_has_meta_and_typed_columns : Prop :=
  let sql := render (create_table transfer_schema) in
  contains sql "CREATE TABLE IF NOT EXISTS evt_erc20_transfer" = true
  /\ contains sql ("PRIMARY KEY (" +:+ quoted "chain_id" +:+ ", " +:+ quoted "height" +:+ ", " +:+ quoted "idx" +:+ ")") = true
  /\ contains sql (quoted "value" +:+ " numeric(78,0)") = true
  /\ contains sql (quoted "from" +:+ " bytea") = true.

Lemma create_table_has_meta_and_typed_columns_ok : create_table_has_meta_and_typed_columns.
Proof. replay. Qed.

Definition indexes_cover_join_key_and_indexed_params : Prop :=
  let idx := render <$> create_indexes transfer_schema in
  length idx = 3%nat
  /\ existsb (fun s => contains s "evt_erc20_transfer_tx ON evt_erc20_transfer (chain_id, tx_id)") idx = true
  /\ existsb (fun s => contains s ("(chain_id, " +:+ quoted "from" +:+ ", height) INCLUDE (idx)")) idx = true
  /\ existsb (fun s => contains s ("(chain_id, " +:+ quoted "to" +:+ ", height) INCLUDE (idx)")) idx = true
  /\ forallb (fun s => contains s "IF NOT EXISTS") idx = true.

Lemma indexes_cover_join_key_and_indexed_params_ok : indexes_cover_join_key_and_indexed_params.
Proof. replay. Qed.

Definition aux_table_skips_redundant_tx_index : Prop :=
  let s := as_aux "transactions" transfer_schema in
  create_indexes (mkEventSchema (es_table s) (es_event s) (es_topic0 s) (es_columns s) [] (es_pk_columns s)) = [].

Lemma aux_table_skips_redundant_tx_index_ok : aux_table_skips_redundant_tx_index.
Proof. replay. Qed.

Definition receipts_table_omits_idx_and_emits_fk : Prop :=
  let s := as_aux "receipts" transfer_schema in
  let sql := render (create_table s) in
  let fks := render <$> foreign_keys s in
  contains sql "idx" = false
  /\ contains sql tx_pk = true
  /\ length fks = 1%nat
  /\ nth_contains fks 0 "receipts_tx_fk" = true
  /\ nth_contains fks 0 "REFERENCES transactions (chain_id, tx_id)" = true
  /\ nth_contains fks 0 "ON DELETE CASCADE" = true
  /\ foreign_keys transfer_schema = []
  /\ contains (render (create_table transfer_schema)) "idx        bigint NOT NULL" = true.

Lemma receipts_table_omits_idx_and_emits_fk_ok : receipts_table_omits_idx_and_emits_fk.
Proof. replay. Qed.

Definition add_columns_are_idempotent : Prop :=
  let stmts := render <$> add_columns transfer_schema in
  length stmts = 3%nat
  /\ nth_contains stmts 2 ("ADD COLUMN IF NOT EXISTS " +:+ quoted "value" +:+ " numeric(78,0)") = true.

Lemma add_columns_are_idempotent_ok : add_columns_are_idempotent.
Proof. replay. Qed.

Definition aux_table_uses_declared_pk : Prop :=
  contains (render (create_table (as_aux "transactions" transfer_schema))) tx_pk = true.

Lemma aux_table_uses_declared_pk_ok : aux_table_uses_declared_pk.
Proof. replay. Qed.

Definition add_columns_stay_idempotent_as_schema_grows : Prop :=
  let s := transfer_schema in
  let s := mkEventSchema (es_table s) (es_event s) (es_topic0 s) (es_columns s ++ [mkColumnDef "fee" (CUInt 256) false])
             (es_indexed_positions s) (es_pk_columns s) in
  let stmts := render <$> add_columns s in
  length stmts = 4%nat
  /\ forallb (fun st => contains st "ADD COLUMN IF NOT EXISTS") stmts = true
  /\ nth_contains stmts 3 (quoted "fee" +:+ " numeric(78,0)") = true.

Lemma add_columns_stay_idempotent_as_schema_grows_ok : add_columns_stay_idempotent_as_schema_grows.
Proof. replay. Qed.

Definition table_statements_orders_create_then_columns_then_indexes : Prop :=
  let stmts := render <$> table_statements transfer_schema in
  length stmts = 7%nat
  /\ (exists sql, stmts !! 0%nat = Some sql /\ starts_with sql "CREATE TABLE IF NOT EXISTS" = true)
  /\ nth_contains stmts 1 "ADD COLUMN IF NOT EXISTS" = true
  /\ last_contains stmts "CREATE INDEX IF NOT EXISTS" = true.

Lemma table_statements_orders_create_then_columns_then_indexes_ok : table_statements_orders_create_then_columns_then_indexes.
Proof.
  hnf. split; [by vm_compute|]. split; [|split; by vm_compute]. eexists. split; [vm_compute; reflexivity|]. by vm_compute.
Qed.

Definition receipts_table_statements_end_with_fk : Prop :=
  let stmts := render <$> table_statements (as_aux RECEIPTS_TABLE transfer_schema) in
  (exists sql, stmts !! 0%nat = Some sql /\ starts_with sql "CREATE TABLE IF NOT EXISTS" = true)
  /\ last_contains stmts "receipts_tx_fk" = true.

Lemma receipts_table_statements_end_with_fk_ok : receipts_table_statements_end_with_fk.
Proof. hnf. split; [|by vm_compute]. eexists. split; [vm_compute; reflexivity|]. by vm_compute. Qed.

Definition no_decoded_columns_still_valid_table : Prop :=
  let s := transfer_schema in
  let s := mkEventSchema (es_table s) (es_event s) (es_topic0 s) [] (es_indexed_positions s) (es_pk_columns s) in
  let sql := render (create_table s) in
  contains sql ",," = false
  /\ contains sql "idx" = true
  /\ contains sql "PRIMARY KEY" = true
  /\ add_columns s = [].

Lemma no_decoded_columns_still_valid_table_ok : no_decoded_columns_still_valid_table.
Proof. replay. Qed.
End DdlTests.
