(* ===== verification/UnitTestsAbi.v ===== *)
(** The unit tests of [crates/abi/src/decode.rs] and [crates/api/src/graphql/mod.rs] replayed on the model, as in [UnitTests].
    What the tests ask of the ABI library is a class: what it parses the tests' ABI texts to, the two selectors and the
    two decodings; an instance shows that a library can answer so. *)
From S2P Require Import Prelude Model Btree Text Services Schema Query Cache Enrichment Abi Api GraphqlSchema UnitTests.

Module AbiTests.
(** What the ABI texts of the tests stand for. *)
Definition transfer_event : AbiEvent :=
  mkAbiEvent "Transfer" [mkParam "from" "address" true; mkParam "to" "address" true; mkParam "value" "uint256" false].
Definition named_event : AbiEvent := mkAbiEvent "Named" [mkParam "label" "string" true; mkParam "value" "uint256" false].
Definition anon_event : AbiEvent := mkAbiEvent "Anon" [mkParam EmptyString "uint256" false].
Definition transfer_function : AbiFunction :=
  mkAbiFunction "transfer" [mkParam "to" "address" false; mkParam "amount" "uint256" false].

(** [address.into_word()], and a word with a last byte. *)
Definition into_word (address : bytes) : bytes := rep 0 12 ++ address.
Definition small_word (b : Z) : bytes := rep 0 31 ++ [byte_of b].

Definition transfer_topic0 : string := "0xddf252ad1be2c89b69c2b068fc378daa952ba7f163c4a11628f55a4df523b3ef".
Definition transfer_sig : bytes := match topic0_hash transfer_topic0 with Done (Some h) => h | _ => [] end.

Definition from : bytes := rep 0x11 20.
Definition to : bytes := rep 0x22 20.

Class TestLibrary (parse_abi : string -> result string JsonAbi) (event_selector : AbiEvent -> bytes)
    (function_selector : AbiFunction -> bytes)
    (decode_log_parts : AbiEvent -> list bytes -> bytes -> result string (list DynSolValue * list DynSolValue))
    (abi_decode_input : AbiFunction -> bytes -> result string (list DynSolValue))
    (ERC20 NAMED ANON ERC20_FN : string) : Prop := {
  parse_erc20 : parse_abi ERC20 = Ok (mkJsonAbi [transfer_event] []);
  parse_named : parse_abi NAMED = Ok (mkJsonAbi [named_event] []);
  parse_anon : parse_abi ANON = Ok (mkJsonAbi [anon_event] []);
  parse_erc20_fn : parse_abi ERC20_FN = Ok (mkJsonAbi [] [transfer_function]);
  selector_transfer : event_selector transfer_event = transfer_sig;
  selector_transfer_fn : function_selector transfer_function = byte_of <$> [0xa9; 0x05; 0x9c; 0xbb];
  log_transfer : decode_log_parts transfer_event [transfer_sig; into_word from; into_word to] (small_word 100)
    = Ok ([SAddress from; SAddress to], [SUint 100 256]);
  input_transfer : forall recipient amount, length recipient = 20%nat -> 0 <= amount < 256 ->
    abi_decode_input transfer_function (into_word recipient ++ small_word amount) = Ok [SAddress recipient; SUint amount 256]
}.

Section tests.
Context (parse_abi : string -> result string JsonAbi).
Context (event_selector : AbiEvent -> bytes) (function_selector : AbiFunction -> bytes).
Context (decode_log_parts : AbiEvent -> list bytes -> bytes -> result string (list DynSolValue * list DynSolValue)).
Context (abi_decode_input : AbiFunction -> bytes -> result string (list DynSolValue)).
Context (json_text : Json -> string) (ERC20 NAMED ANON ERC20_FN : string).
Context {Hlib : TestLibrary parse_abi event_selector function_selector decode_log_parts abi_decode_input ERC20 NAMED ANON ERC20_FN}.
Abbreviation build_ specs := (build parse_abi event_selector function_selector specs).
Abbreviation decode_ := (decode decode_log_parts json_text).
Abbreviation decode_call_ := (decode_call abi_decode_input json_text).

(** ** Events *)

Definition erc20_index : result DecodeError AbiIndex :=
  build_ [mkContractSpec ERC20 ["Transfer"] [] (rep 3 20) "token" None].

Definition raw_with_selector (sel : bytes) : RawRecord :=
  mkRawRecord 1 1 (rep 0 32) 0 (rep 3 20) [sel] [] (rep 0 32) 0 None.

Lemma erc20_index_is :
  erc20_index = Ok (mkAbiIndex {[transfer_sig := mkEntry transfer_event (schema_for transfer_event transfer_sig "evt_token_transfer")]} ∅).
Proof. unfold erc20_index, build, build_from. cbn [sp_abi_json]. rewrite parse_erc20. cbn. unfold add_event. cbn. by rewrite selector_transfer. Qed.

Definition decodes_erc20_transfer : Prop :=
  exists idx row, erc20_index = Ok idx
  /\ decode_ idx (mkRawRecord 1 1 (rep 0 32) 0 (rep 3 20) [transfer_sig; into_word from; into_word to] (small_word 100)
                    (rep 0 32) 0 None) = Done (Ok (Some row))
  /\ de_table (er_event row) = "evt_token_transfer"
  /\ length (de_fields (er_event row)) = 3%nat
  /\ fst <$> de_fields (er_event row) !! 0%nat = Some "from"
  /\ snd <$> de_fields (er_event row) !! 2%nat = Some (VUint "100").

Lemma decodes_erc20_transfer_ok : decodes_erc20_transfer.
Proof.
  hnf. do 2 eexists. split; [apply erc20_index_is|]. unfold decode. cbn [rr_selectors].
  replace (Nat.eqb (length transfer_sig) 32) with true by (by vm_compute). cbn [negb by_topic0]. rewrite lookup_singleton_eq.
  unfold decode_event. cbn [rr_selectors rr_data en_event en_schema].
  replace (forallb _ _) with true by (by vm_compute). rewrite log_transfer. split; [reflexivity|]. split_and!; by vm_compute.
Qed.

Definition unknown_topic0_is_skipped : Prop :=
  exists idx, erc20_index = Ok idx /\ decode_ idx (raw_with_selector (rep 0xAB 32)) = Done (Ok None).

Lemma unknown_topic0_is_skipped_ok : unknown_topic0_is_skipped.
Proof. hnf. eexists. split; [apply erc20_index_is|]. by vm_compute. Qed.

Definition non_32_byte_selector_is_skipped : Prop :=
  exists idx, erc20_index = Ok idx /\ decode_ idx (raw_with_selector (rep 0xAB 8)) = Done (Ok None).

Lemma non_32_byte_selector_is_skipped_ok : non_32_byte_selector_is_skipped.
Proof. hnf. eexists. split; [apply erc20_index_is|]. by vm_compute. Qed.

(** [serde_json] reads what it prints. *)
Definition array_and_tuple_values_become_valid_json (from_str : string -> option Json) : Prop :=
  exists s, to_value json_text (SArray [SUint 1 256; SUint 2 256]) = VJson s
  /\ from_str s = Some (JArray [JString "1"; JString "2"]).

Lemma array_and_tuple_values_become_valid_json_ok from_str :
  (forall v, from_str (json_text v) = Some v) -> array_and_tuple_values_become_valid_json from_str.
Proof. intros H. hnf. eexists. split; [reflexivity|]. rewrite H. by vm_compute. Qed.

(** An index of one event without a list of event names. *)
Definition event_index (abi_json : string) : result DecodeError AbiIndex :=
  build_ [mkContractSpec abi_json [] [] (rep 3 20) "c" None].

Lemma event_index_schemas abi_json ev :
  parse_abi abi_json = Ok (mkJsonAbi [ev] []) ->
  exists idx, event_index abi_json = Ok idx
  /\ forall o, Shuffles o -> schemas o idx = [schema_for ev (event_selector ev) ("evt_c_" +:+ str_to_ascii_lowercase (ae_name ev))].
Proof.
  intros H. eexists. unfold event_index, build, build_from. cbn [sp_abi_json]. rewrite H. cbn. split; [reflexivity|].
  intros o Ho. apply Permutation_singleton_r. unfold schemas, add_event. rewrite sh_schemas. cbn.
  by rewrite insert_empty, map_to_list_singleton.
Qed.

Definition indexed_dynamic_becomes_hash_column : Prop := forall o, Shuffles o ->
  exists idx schema label, event_index NAMED = Ok idx /\ schemas o idx !! 0%nat = Some schema
  /\ es_columns schema !! 0%nat = Some label /\ c_name label = "label_hash" /\ c_indexed_hash label = true.

Lemma indexed_dynamic_becomes_hash_column_ok : indexed_dynamic_becomes_hash_column.
Proof.
  destruct (event_index_schemas NAMED named_event parse_named) as (idx & E & Es). intros o Ho. eexists idx, _, _. split; [done|].
  rewrite Es by done. do 2 (split; [reflexivity|]). split; by vm_compute.
Qed.

Definition unnamed_param_gets_positional_name : Prop := forall o, Shuffles o ->
  exists idx schema, event_index ANON = Ok idx /\ schemas o idx !! 0%nat = Some schema
  /\ c_name <$> es_columns schema !! 0%nat = Some "arg0".

Lemma unnamed_param_gets_positional_name_ok : unnamed_param_gets_positional_name.
Proof.
  destruct (event_index_schemas ANON anon_event parse_anon) as (idx & E & Es). intros o Ho. eexists idx, _. split; [done|].
  rewrite Es by done. split; [reflexivity|]. by vm_compute.
Qed.

(** ** Calls *)

Definition transfer_calldata (recipient : bytes) (amount : Z) : bytes :=
  (byte_of <$> [0xa9; 0x05; 0x9c; 0xbb]) ++ into_word recipient ++ small_word amount.

Definition calldata_index (addr : bytes) : result DecodeError AbiIndex :=
  build_ [mkContractSpec ERC20_FN [] ["transfer"] addr "token" None].

Definition call_tx (to_addr input : bytes) : TxCalldata := mkTxCalldata 1 1 (rep 0 32) (rep 7 32) to_addr 3 input.

Lemma calldata_index_is addr :
  calldata_index addr = Ok (mkAbiIndex ∅ {[(addr, byte_of <$> [0xa9; 0x05; 0x9c; 0xbb])
    := mkCallEntry transfer_function (schema_for_function transfer_function "call_token_transfer")]}).
Proof.
  unfold calldata_index, build, build_from. cbn [sp_abi_json]. rewrite parse_erc20_fn. cbn. unfold add_function.
  cbn [sp_functions sp_address]. by rewrite selector_transfer_fn.
Qed.

Definition decodes_erc20_transfer_calldata : Prop :=
  let addr := rep 0x33 20 in
  exists idx row, calldata_index addr = Ok idx
  /\ decode_call_ idx (call_tx addr (transfer_calldata (rep 0x22 20) 100)) = Done (Ok (Some row))
  /\ de_table (er_event row) = "call_token_transfer"
  /\ er_index row = 3
  /\ de_fields (er_event row) = [("to", VAddress (rep 0x22 20)); ("amount", VUint "100")].

Lemma decodes_erc20_transfer_calldata_ok : decodes_erc20_transfer_calldata.
Proof.
  hnf. do 2 eexists. split; [apply calldata_index_is|]. unfold decode_call.
  replace (_ <? 4)%nat with false by (by vm_compute). cbn [by_call tc_to_addr tc_input call_tx].
  rewrite lookup_singleton_eq. unfold decode_calldata. cbn [ce_function ce_schema].
  change (drop 4 (transfer_calldata (rep 0x22 20) 100)) with (into_word (rep 0x22 20) ++ small_word 100).
  rewrite input_transfer by (done || lia). split; [reflexivity|]. split_and!; by vm_compute.
Qed.

Definition calldata_routing_scoped_by_to_addr : Prop :=
  exists idx, calldata_index (rep 0x33 20) = Ok idx
  /\ decode_call_ idx (call_tx (rep 0x44 20) (transfer_calldata (rep 0x22 20) 1)) = Done (Ok None).

Lemma calldata_routing_scoped_by_to_addr_ok : calldata_routing_scoped_by_to_addr.
Proof. hnf. eexists. split; [apply calldata_index_is|]. by vm_compute. Qed.

Definition calldata_unknown_selector_is_skipped : Prop :=
  let addr := rep 0x33 20 in
  exists idx, calldata_index addr = Ok idx
  /\ decode_call_ idx (call_tx addr (rep 0 8)) = Done (Ok None)
  /\ decode_call_ idx (call_tx addr (byte_of <$> [1; 2])) = Done (Ok None).

Lemma calldata_unknown_selector_is_skipped_ok : calldata_unknown_selector_is_skipped.
Proof. hnf. eexists. split; [apply calldata_index_is|]. split; by vm_compute. Qed.

Definition call_schema_has_tx_pk_and_no_topic0 : Prop := forall o, Shuffles o ->
  exists idx s, calldata_index (rep 0x33 20) = Ok idx /\ call_schemas o idx = [s]
  /\ es_pk_columns s = ["chain_id"; "tx_id"] /\ es_topic0 s = None /\ call_is_empty idx = false.

Lemma call_schema_has_tx_pk_and_no_topic0_ok : call_schema_has_tx_pk_and_no_topic0.
Proof.
  intros o Ho. eexists _, (schema_for_function transfer_function "call_token_transfer"). split; [apply calldata_index_is|].
  split; [apply Permutation_singleton_r; unfold call_schemas; rewrite sh_schemas; cbn; by rewrite map_to_list_singleton|].
  split_and!; by vm_compute.
Qed.
End tests.

(** A library that answers as the tests expect. *)
Definition word_value (p : Param) (w : bytes) : DynSolValue :=
  if String.eqb (ep_ty p) "address" then SAddress (drop 12 w) else SUint (byte_val (List.last w (byte_of 0))) 256.

Definition lib_parse (text : string) : result string JsonAbi :=
  if String.eqb text "erc20" then Ok (mkJsonAbi [transfer_event] [])
  else if String.eqb text "named" then Ok (mkJsonAbi [named_event] [])
  else if String.eqb text "anon" then Ok (mkJsonAbi [anon_event] [])
  else Ok (mkJsonAbi [] [transfer_function]).

#[local] Instance test_library :
  TestLibrary lib_parse (fun _ => transfer_sig) (fun _ => byte_of <$> [0xa9; 0x05; 0x9c; 0xbb])
    (fun ev topics data => Ok (zip_with word_value (ae_inputs ev) (drop 1 topics), [word_value (mkParam EmptyString "uint256" false) data]))
    (fun f input => Ok (zip_with word_value (af_inputs f) [take 32 input; drop 32 input])) "erc20" "named" "anon" "fn".
Proof.
  split; try by vm_compute. intros recipient amount Hr Ha. unfold into_word, small_word.
  rewrite take_app_length', drop_app_length' by (by rewrite length_app, Hr). cbn [af_inputs transfer_function zip_with].
  unfold word_value. cbn. by rewrite byte_val_of by lia.
Qed.

Lemma decodes_with_test_library :
  decodes_erc20_transfer lib_parse (fun _ => transfer_sig) (fun _ => byte_of <$> [0xa9; 0x05; 0x9c; 0xbb])
    (fun ev topics data => Ok (zip_with word_value (ae_inputs ev) (drop 1 topics), [word_value (mkParam EmptyString "uint256" false) data]))
    (fun _ => EmptyString) "erc20".
Proof. eapply decodes_erc20_transfer_ok. apply test_library. Qed.
End AbiTests.

(** * [crates/api/src/graphql/mod.rs] *)

Module GraphqlTests.
Definition MockReader : QueryRepo := mkQueryRepo (fun _ _ => Ok (mkPage [] None false)) (fun _ _ => Ok 0).

Definition col (name : string) (ty : ColumnType) : ColumnDef := mkColumnDef name ty false.

Definition aux (table : string) (cols : list ColumnDef) : EventSchema :=
  mkEventSchema table table None cols [] ["chain_id"; "tx_id"].

Definition sample_schemas : list EventSchema :=
  [mkEventSchema "evt_token_transfer" "Transfer" (Some "0xddf2")
     [col "from" CAddress; col "to" CAddress; col "value" (CUInt 256)] [0; 1]%nat event_pk;
   aux "transactions" [col "from_addr" CAddress; col "nonce" (CUInt 256)];
   aux "receipts" [col "status" CBool]].

Definition build : GqlSchema := build_schema sample_schemas 2000 16.

(** [sdl] prints the registered types: [type n ...] for an object, [scalar n], and [field: type] in an object. *)
Definition objects (s : GqlSchema) : list (string * list FieldDef) :=
  omap (fun t => match t with TObject n fs => Some (n, fs) | _ => None end) (gs_types s).
Definition has_object (s : GqlSchema) (n : string) : bool := existsb (fun o => String.eqb o.1 n) (objects s).
Definition has_field (s : GqlSchema) (field ty : string) : bool :=
  existsb (fun o => existsb (fun f => bool_decide (fd_name f = field) && bool_decide (base_name (fd_type f) = ty)) o.2) (objects s).

Definition schema_renders_typed_tables : Prop :=
  has_object build "evt_token_transfer" = true
  /\ has_object build "evt_token_transfer_connection" = true
  /\ has_object build "transactions_connection" = true
  /\ has_object build "receipts_connection" = false
  /\ TScalar "BigInt" ∈ gs_types build
  /\ has_field build "transaction" "transactions" = true
  /\ has_field build "receipt" "receipts" = true.

Lemma schema_renders_typed_tables_ok : schema_renders_typed_tables.
Proof. hnf. do 4 (split; [by vm_compute|]). split; [left|]. split; by vm_compute. Qed.

(** The requests from the resolver on, with the arguments and the selection of their documents. *)
Section requests.
Context (parse_json : string -> option Json) (now : Z).

Definition executes_pagination_and_filters : Prop :=
  exists c, query_field MockReader parse_json now "evt_token_transfer" true false false
    (mkArgs (Some 5) None (Some 1) None None (Some "DESC") [mkWhereArg "from" None "0xabcd"]) = Ok c
  /\ cn_rows c = [] /\ cn_end_cursor c = None /\ cn_has_next c = false.

Definition no_args : Args := mkArgs None None None None None None [].

Definition total_count_resolves : Prop :=
  exists c, query_field MockReader parse_json now "evt_token_transfer" true false false no_args = Ok c
  /\ total_count MockReader now c = Ok "0".

Definition nested_tx_selection_is_valid : Prop :=
  has_field build "transaction" "transactions" = true /\ has_field build "receipt" "receipts" = true
  /\ exists c, query_field MockReader parse_json now "evt_token_transfer" true true true no_args = Ok c
     /\ q_include_tx (cn_spec c) = true /\ q_include_receipt (cn_spec c) = true.

Lemma executes_pagination_and_filters_ok : executes_pagination_and_filters.
Proof. hnf. eexists. split; [reflexivity|]. done. Qed.

Lemma total_count_resolves_ok : total_count_resolves.
Proof. hnf. eexists. split; [reflexivity|]. by vm_compute. Qed.

Lemma nested_tx_selection_is_valid_ok : nested_tx_selection_is_valid.
Proof. hnf. do 2 (split; [by vm_compute|]). eexists. split; [reflexivity|]. done. Qed.
End requests.

(** The field is on no object, so the document is not valid. *)
Definition unknown_field_is_rejected : Prop :=
  existsb (fun o => existsb (fun f => bool_decide (fd_name f = "nope")) o.2) (objects build) = false.

Lemma unknown_field_is_rejected_ok : unknown_field_is_rejected.
Proof. by vm_compute. Qed.
End GraphqlTests.
