(* ===== verification/UnitTestsServices.v ===== *)
(** The integration tests of [crates/services/tests] replayed on the services over ports ([Ports]): the hand-written mocks
    are implementations of the ports over a log of what was asked of them, so that the services are seen to work with
    an implementation that is not Postgres and a chain that is not an EVM chain. *)
From S2P Require Import Prelude Model Btree Text Encode Store Repos Queue UnitOfWork Services ServicesFacts Ports UnitTests.

(** * The mocks ([common/mod.rs]) *)

Definition CHAIN : Z := 99.

Definition rec (height idx disc : Z) : RawRecord :=
  mkRawRecord CHAIN height (rep height 32) idx (rep 7 32) [rep disc 8] (byte_of <$> [1; 2; 3; 4]) (rep idx 64) 0 (Some 0).

(** [hash_byte.wrapping_sub(1)]. *)
Definition block_meta (height hash_byte : Z) : BlockMeta :=
  mkBlockMeta CHAIN height (rep hash_byte 32) (rep ((hash_byte - 1) mod 256) 32) 1700000000.

(** The state of a source is its count of [fetch_aux] calls. *)
Record TestSource := mkTestSource {
  ts_records : list RawRecord;
  ts_aux : AuxData;
  ts_canonical_hash : option bytes;
  ts_supports_reorg : bool
}.

Definition TestSource_new : TestSource := mkTestSource [] AuxData_default None true.

Definition test_source (t : TestSource) : ChainSource Z :=
  mkChainSource Z CHAIN (mkChainCaps (ts_supports_reorg t) false) (mret_ 100) (fun _ _ _ => mret_ (ts_records t))
    (fun _ n => (Ok (ts_aux t), n + 1)) (fun _ => mret_ (ts_canonical_hash t)) (fun _ => mret_ tt).

Definition TestDecoder : Decoder :=
  mkDecoder
    (fun r => if bool_decide (head (rr_selectors r) = Some (rep 0xAB 8))
              then Ok (Some (mkEventRow (rr_chain_id r) (rr_height r) (rr_block_hash r) None (rr_tx_id r) (rr_index r)
                               (mkDecodedEvent "mock_event" [("amount", VUint "42")])))
              else Ok None)
    (fun _ => Ok None) false
    (fun _ => [mkEventSchema "mock_event" "Mock" None [mkColumnDef "amount" (CUInt 256) false] [] event_pk])
    (fun _ => mkRecordFilter [rep 7 32] [rep 0xAB 8]).

(** What the write side saw. *)
Record Seen := mkSeen {
  captured : option IngestBatch;
  rollbacks : list (Z * Z * list string);
  upserts : list (string * nat)
}.
Definition nothing : Seen := mkSeen None [] [].

Definition CapturedUow : Ports.UnitOfWork Seen :=
  mkUnitOfWork _ (fun b s => (Ok tt, mkSeen (Some b) (rollbacks s) (upserts s))) (fun _ _ _ => mret_ tt).

Definition TestUow (fail : bool) : Ports.UnitOfWork Seen :=
  mkUnitOfWork _ (fun _ => mret_ tt)
    (fun chain from tables s =>
       if fail then (Err (EStorage "rollback failed"), s)
       else (Ok tt, mkSeen (captured s) (rollbacks s ++ [(chain, from, tables)]) (upserts s))).

Definition TestEventRepo : EventRepository Seen :=
  mkEventRepository _
    (fun table rows s => (Ok (Z.of_nat (length rows)), mkSeen (captured s) (rollbacks s) (upserts s ++ [(table, length rows)])))
    (fun _ _ _ => mret_ 0).

Definition TestRawRepo (records : list RawRecord) : RawRecordRepository Seen :=
  mkRawRecordRepository _ (fun _ => mret_ 0) (fun _ _ _ => mret_ records) (fun _ _ => mret_ 0).

Definition TestBlockRepo (max_height : option Z) (stored : option BlockMeta) (times : list (Z * Z)) : BlockRepository Seen :=
  mkBlockRepository _ (fun _ => mret_ 0) (fun _ _ => mret_ stored) (fun _ _ _ => mret_ times) (fun _ => mret_ max_height)
    (fun _ _ => mret_ 0) (fun _ _ => mret_ []).

(** * [decoding.rs] *)

Module DecodingTests.
Definition decode_with (records : list RawRecord) (times : list (Z * Z)) : result DomainError Z * Seen :=
  decode_range_on (fun l => l) (fun l => l) TestDecoder (TestRawRepo records) (TestBlockRepo None None times) TestEventRepo
    CHAIN 0 20 nothing.

Definition decodes_known_skips_unknown_and_joins_time : Prop :=
  let '(written, s) := decode_with [rec 10 0 0xAB; rec 10 1 0xAB; rec 10 2 0x00] [(10, 1700000000)] in
  written = Ok 2 /\ upserts s = [("mock_event", 2%nat)].

Lemma decodes_known_skips_unknown_and_joins_time_ok : decodes_known_skips_unknown_and_joins_time.
Proof. replay. Qed.

Definition missing_block_time_is_none_not_error : Prop := (decode_with [rec 10 0 0xAB] []).1 = Ok 1.

Lemma missing_block_time_is_none_not_error_ok : missing_block_time_is_none_not_error.
Proof. replay. Qed.

Definition no_records_writes_nothing : Prop := let '(written, s) := decode_with [] [] in written = Ok 0 /\ upserts s = [].

Lemma no_records_writes_nothing_ok : no_records_writes_nothing.
Proof. replay. Qed.
End DecodingTests.

(** * [ingestion.rs] *)

Module IngestionTests.
Definition ingest (src : TestSource) (epoch : Z) : result DomainError IngestOutcome * (Seen * Z) :=
  ingest_service_range (mkIngestionService _ _ (test_source src) CapturedUow) (dec_record_filter TestDecoder keep_order) 0 20 epoch true (nothing, 0).

Definition non_empty_records_fetch_aux_and_enqueue : Prop :=
  let src := mkTestSource [rec 10 0 0xAB; rec 10 1 0xAB] (mkAuxData [block_meta 10 0x0A; block_meta 12 0x0C] []) None true in
  let '(out, (s, aux_calls)) := ingest src 7 in
  io_records <$> res_to_option out = Some 2
  /\ io_blocks <$> res_to_option out = Some 2
  /\ aux_calls = 1
  /\ exists batch, captured s = Some batch
     /\ ib_enqueue batch = Some (mkWorkItem CHAIN 0 20 Backfill 7)
     /\ ib_advance_cursor batch = Some (CHAIN, 20, rep 0x0C 32).

Lemma non_empty_records_fetch_aux_and_enqueue_ok : non_empty_records_fetch_aux_and_enqueue.
Proof. hnf. do 3 (split; [by vm_compute|]). eexists. split; [reflexivity|]. split; by vm_compute. Qed.

Definition empty_records_skip_aux_and_enqueue : Prop :=
  let '(out, (s, aux_calls)) := ingest TestSource_new 0 in
  io_records <$> res_to_option out = Some 0
  /\ io_blocks <$> res_to_option out = Some 0
  /\ aux_calls = 0
  /\ exists batch, captured s = Some batch /\ ib_enqueue batch = None /\ ib_advance_cursor batch = Some (CHAIN, 20, []).

Lemma empty_records_skip_aux_and_enqueue_ok : empty_records_skip_aux_and_enqueue.
Proof. hnf. do 3 (split; [by vm_compute|]). eexists. split; [reflexivity|]. split; by vm_compute. Qed.
End IngestionTests.

(** * [reorg.rs] *)

Module ReorgTests.
Definition service (blocks : BlockRepository Seen) (uow : Ports.UnitOfWork Seen) (tables : list string) : ReorgService Seen :=
  mkReorgService _ blocks uow tables.

(** A chain with a stored tip, a source with a canonical hash; the check with 12 confirmations. *)
Definition source_with (canonical : option bytes) (supports : bool) : TestSource := mkTestSource [] AuxData_default canonical supports.
Definition stored_at (h : Z) : BlockRepository Seen := TestBlockRepo (Some h) (Some (block_meta h h)) [].
Definition check (svc : ReorgService Seen) (src : TestSource) : result DomainError (option Z) * list (Z * Z * list string) :=
  let '(r, (s, _)) := reorg_service_check svc (test_source src) 12 (nothing, 0) in (r, rollbacks s).

Definition no_reorg_when_source_unsupported : Prop :=
  (check (service (TestBlockRepo (Some 50) (Some (block_meta 50 0x50)) []) (TestUow false) ["evt"]) (source_with None false)).1 = Ok None.

Lemma no_reorg_when_source_unsupported_ok : no_reorg_when_source_unsupported.
Proof. replay. Qed.

Definition no_reorg_when_no_stored_tip : Prop :=
  (check (service (TestBlockRepo None None []) (TestUow false) ["evt"]) TestSource_new).1 = Ok None.

Lemma no_reorg_when_no_stored_tip_ok : no_reorg_when_no_stored_tip.
Proof. replay. Qed.

Definition no_reorg_when_source_hash_unknown : Prop :=
  (check (service (TestBlockRepo (Some 50) (Some (block_meta 50 0x50)) []) (TestUow false) ["evt"]) (source_with None true)).1 = Ok None.

Lemma no_reorg_when_source_hash_unknown_ok : no_reorg_when_source_hash_unknown.
Proof. replay. Qed.

Definition no_reorg_when_hashes_match : Prop :=
  check (service (TestBlockRepo (Some 50) (Some (block_meta 50 0x50)) []) (TestUow false) ["evt"])
    (source_with (Some (rep 0x50 32)) true) = (Ok None, []).

Lemma no_reorg_when_hashes_match_ok : no_reorg_when_hashes_match.
Proof. replay. Qed.

Definition reorg_rolls_back_window_on_hash_mismatch : Prop :=
  check (service (TestBlockRepo (Some 50) (Some (block_meta 50 0x50)) []) (TestUow false) ["evt_a"; "evt_b"])
    (source_with (Some (rep 0xFF 32)) true) = (Ok (Some 39), [(99, 39, ["evt_a"; "evt_b"])]).

Lemma reorg_rolls_back_window_on_hash_mismatch_ok : reorg_rolls_back_window_on_hash_mismatch.
Proof. replay. Qed.

Definition fork_saturates_at_zero_for_shallow_chains : Prop :=
  check (service (stored_at 5) (TestUow false) ["evt"]) (source_with (Some (rep 0xFF 32)) true) = (Ok (Some 1), [(99, 1, ["evt"])]).

Lemma fork_saturates_at_zero_for_shallow_chains_ok : fork_saturates_at_zero_for_shallow_chains.
Proof. replay. Qed.

Definition reorg_propagates_rollback_failure : Prop :=
  is_err (check (service (TestBlockRepo (Some 50) (Some (block_meta 50 0x50)) []) (TestUow true) ["evt"])
            (source_with (Some (rep 0xFF 32)) true)).1.

Lemma reorg_propagates_rollback_failure_ok : reorg_propagates_rollback_failure.
Proof. replay. Qed.
End ReorgTests.

(** * [seam.rs] *)

Module SeamTests.
(** [MockSource]; the other mocks of the file are those above. *)
Definition MockSource : TestSource :=
  mkTestSource [rec 10 0 0xAB; rec 10 1 0xAB] (mkAuxData [mkBlockMeta CHAIN 10 (rep 10 32) (rep 9 32) 1700000000] [])
    (Some (rep 10 32)) false.

Definition non_evm_chain_drives_full_pipeline : Prop :=
  let '(out, (s, _)) := ingest_service_range (mkIngestionService _ _ (test_source MockSource) CapturedUow)
                          (dec_record_filter TestDecoder keep_order) 10 10 0 true (nothing, 0) in
  let '(written, s') := decode_range_on (fun l => l) (fun l => l) TestDecoder (TestRawRepo [rec 10 0 0xAB; rec 10 1 0xAB])
                          (TestBlockRepo None None [(10, 1700000000)]) TestEventRepo 99 10 10 nothing in
  io_records <$> res_to_option out = Some 2
  /\ io_blocks <$> res_to_option out = Some 1
  /\ (exists batch, captured s = Some batch /\ length (ib_raw_records batch) = 2%nat
        /\ length (ib_block_metas batch) = 1%nat /\ is_Some (ib_advance_cursor batch))
  /\ written = Ok 2
  /\ upserts s' = [("mock_event", 2%nat)].

Lemma non_evm_chain_drives_full_pipeline_ok : non_evm_chain_drives_full_pipeline.
Proof.
  hnf. do 2 (split; [by vm_compute|]). split; [|split; by vm_compute]. eexists. split; [reflexivity|].
  split; [by vm_compute|]. split; [by vm_compute|]. by eexists.
Qed.
End SeamTests.
